(* ===== verification/_CoqProject ===== *)
-Q . S2P
Prelude.v
Identities.v
Enums.v
Model.v
Reference.v
Codec.v
Frame.v
Sockets.v
Payload.v
Backend.v
Cuda.v
Worker.v
Persistence.v
Tools.v
Readiness.v
Economics.v
Standby.v
Runtime.v
Loading.v
Transitions.v
Scenario.v
Tables.v
Helpers.v
Incarnations.v
Authority.v
ServingUse.v
Publication.v
Invalidation.v
Preparation.v
Activation.v
Replacement.v
Recovery.v
Threads.v
Routing.v
Sessions.v
Replies.v
System.v
Commands.v
Schedules.v
Suites.v
Concurrency.v
Examples.v
Acceptance.v
Exceptions.v
Promises.v
RoutedUses.v
Dialogue.v
Deployment.v
