(* ===== verification/Prelude.v ===== *)
(** * Engine Residency: a verification library

    Engine Residency (C++20, under [src/]) decides which incarnation of a
    serving engine is authoritative, what it is ready to serve, and when it may
    be activated, drained, replaced or recovered.  This library models the
    program and proves what makes it correct.

    ** The program

    - The runtime ([src/runtime.cpp] and the units it calls) is a passive object
      behind one mutex: tables of engines, incarnations, evidence, attempts,
      uses, drains and replacements, and the operations on them.
    - The coordinator ([src/coordinator/]) owns a runtime and serves framed TCP
      connections, a thread each.  A worker's session turns into a dispatcher
      that routes a controller's commands to the worker one at a time.
    - The wire protocol ([src/protocol/]) frames and checksums messages and
      prints their fields; persistence ([src/persistence/]) writes the durable
      part of the runtime to a blob with a checksum.
    - The worker ([src/tools/worker_main.cpp]) registers with the coordinator,
      publishes evidence, prepares a backend (CPU or CUDA), and serves commands
      or requests of its own.

    ** The files, and what they correspond to

    Foundations:
    - [Prelude]: record update, the state-and-exception monad [M] with its
      weakest precondition [wp], machine widths, unordered iteration.
    - [Identities], [Enums], [Model], [Reference]: the errors, typed identities,
      enumerations and records of [include/engine_residency/], field by field,
      and the reference engine that [seed_reference_engine] installs.

    Pure components:
    - [Readiness], [Economics], [Standby], [Helpers]: [readiness.cpp],
      [economics.cpp], [standby.cpp] and the one-function units, with their
      specifications.
    - [Codec], [Persistence]: the readers and writers of [persistence.cpp].
    - [Frame], [Sockets], [Payload]: [frame.cpp], [net.cpp] and [message.cpp].
    - [Backend], [Cuda]: the backend contract of [backend.hpp] as the class
      [ReferenceBackend], the CPU backend, and the CUDA engine over a driver.

    The runtime:
    - [Runtime]: [EngineResidencyImpl] and one definition per operation of
      [runtime.cpp], its guards in the order of the code.
    - [Loading]: [serialize] and [load], and the state [restore] makes of a
      saved one.
    - [Transitions]: the histories of a runtime: [Op] and [step] for an
      operation, [loaded] for a load, [reachable], [runs], [history] and
      [arises] for both together;
      [Scenario]: a history the witnesses run on; [Tables]: what is filed under
      its own identity throughout.
    - [Incarnations], [Authority], [ServingUse], [Publication], [Invalidation],
      [Preparation], [Activation], [Replacement]: what each group of operations
      does and which invariants all of them keep.
    - [Recovery]: the restart of the coordinator, and what a load keeps, demotes,
      forgets and takes back.

    The coordinator and its clients:
    - [Threads], [Routing], [Sessions]: [SessionShared], [WorkerRouter] and the
      handlers of [session.cpp] as trees of atomic steps ([Prog]).
    - [System]: the threads interleaved ([sys_step]), the coordinator booted as
      [run_coordinator] does, with a state file or without, and the simulation by
      the runtime.
    - [Replies], [Commands]: what one thread sends, and what it does alone.
    - [Schedules]: the same system made executable.
    - [Exceptions], [Promises]: what the operations and the threads may throw,
      and what becomes of every command [enqueue] accepted or refused.
    - [RoutedUses]: the use a dispatcher opens for an EXECUTE, under every
      interleaving.
    - [Suites], [Acceptance]: the test programs of [src/tests/] that drive a
      runtime and a session, run on the model.
    - [Concurrency]: [test_concurrency.cpp], its threads over one runtime.
    - [Examples]: the examples, the consumer, the benchmark, and the test of the
      CUDA backend.
    - [Worker], [Tools]: the processes under [src/tools/].
    - [Dialogue]: the protocol a session and its worker keep to while the rest
      of the coordinator goes on.
    - [Deployment]: a worker's process linked to a session, executed.

    ** What is shown

    - Decisions: [evaluate_readiness] and [reconcile_standby] implement abstract
      specifications; [activate] and [acquire_serving_use] succeed exactly when
      their conditions hold, and every failure leaves what it must.
    - Authority: epochs and authority generations only grow, but for the load of
      an older state, which sets them back; permits admit one registration, fenced boots stay out, an exclusive slot keeps its holder,
      a cutover moves authority once, an epoch advance suspends service.
    - Accounting: active uses are counted exactly, released once, and a drain's
      phase says what is outstanding; a drain can always complete.
    - Preparation terminates, publishes only on current evidence and never after
      a cancellation.
    - Codecs: persistence, frames and payloads round trip, what is read is well
      formed, corruption is detected, a stream in pieces is reassembled.
    - Recovery restores the durable state, demotes what may not survive, and
      runs in a new epoch; it does not look for repeated identities.
    - The coordinator, started with any state file or with none, under every
      interleaving of its threads, only ever takes its runtime through states
      that the load of the file and sequences of operations reach; commands
      queue in order and reach the worker they name; every message is answered
      once; a routed EXECUTE never leaks a use, and completes with parity
      against a worker whose backend keeps its promise.  No exception escapes
      a thread, unless the state file names an engine it does not define.  No
      command is lost: each is answered, waits for a dispatcher, or is in the
      hands of a thread that answers it on every path.
    - Threads that publish, evaluate and serve on one runtime at once are all
      served: the program that races them passes under every interleaving.
    - A session and a worker in command mode take turns: each request has its
      reply, and each command is followed by its own answer, although nothing
      compares their identities.
    - Sockets and listeners close each handle once and lose none, as long as no
      listener is copied.
    - Backends: the CUDA engine stays inside its buffers exactly when they cover
      its launch, and then computes what its kernel computes, which is the CPU
      reference bit for bit if the compiler contracts no sum; parity decides
      pairwise agreement.

    Where the code does not do what it says, a theorem or an executed example
    states what it does instead: identities overwritten after a recovery, fences
    forgotten by it, uses that a draining incarnation can no longer release, the
    requests a worker serves out of step with their answers, the CUDA graph that
    writes past the workspace, the epoch and the cutover that the load of an older
    state takes back, among others.

    ** Conventions, bounds and fuel

    - Integers are [N] with [u32] and [u64] where the source wraps.  The
      counters of the runtime are 64 bits wide: theorems about histories take a
      bound [n < 2 ^ 64] on the number of operations, so that none wraps.
    - A history is made of operations and of loads.  [load] puts every counter of
      identities to 1000000 ([load_base]) and leaves the live uses, attempts and
      drains where they are.  What depends on fresh identities therefore fails
      when a runtime with later ones is loaded, as [restored_identity_overwritten]
      shows, and is stated of [reachable] states, whose index [n] bounds the
      counters: an operation raises it by one, and a load is admitted while it is
      at most [load_base] and leaves it there.  So [reachable] covers operations
      and a load among their first million.  Everything else is stated of any
      number of operations and loads ([arises], [history]).  Where a theorem needs
      more of the states loaded, it says so in a [Policy]: [low_identities],
      [sound_plans], [records_cutover], [no_older], [closed_files]; [none] leaves
      no load at all.
    - A coordinator loads at most once, when it starts: [sys_reachable] takes the
      bytes of its state file, or [None].  The executions of [Schedules],
      [Acceptance] and [Deployment] start without one.
    - A [std::map] is a [gmap] walked in key order; an [unordered_map] is a
      [gmap] walked in an order taken from [HashOrder], on which no theorem
      relies unless it says so.
    - A member function is a computation in [M]; a throw keeps the mutations
      made before it.  The mutex makes a runtime operation one atomic step.
    - Loops are structural.  [settle] and [run_link] take fuel only to execute
      examples, and stop early when nothing can move; the invariants do not
      depend on it.
    - Times come from the clock's readings, which are arguments of the state.
    - Floats are IEEE 754 binary32 and binary64 numbers, rounded to nearest
      even after every operation of the host.  Which products and sums of the
      kernel the device fuses is an argument ([contracts]).

    ** What is not modelled, and why

    - [printf] output, thread creation and sleeping: calls of the system with
      no state of the program.  What the system answers to a socket call is an
      argument; links may fail, files may not open and timers may elapse at any
      point.
    - What a data race makes undefined: PUBLISH_COMPONENT looks its session up
      ([unlocked] in [Sessions]) in a map that others write under [shared.mtx],
      without holding it; the model takes every such access as one step.
    - An uncaught exception would end the process through [std::terminate]; a
      thread that raises one simply stops.
    - Destructors that run at the end of [run_coordinator], whose loop no
      message ends.
    - The CUDA driver and the device are parameters: which calls succeed, what
      fresh memory holds.  Data races inside a kernel cannot arise, since every
      thread writes a cell of its own.
    - The two tests that spawn the processes and kill them ([test_command.cpp],
      [test_cuda_worker.cpp]) and the helper that spawns them.
    - What the operating system and the clock report to the tests and the
      benchmark: device memory is an argument, the measured rate is left out. *)

From stdpp Require Export base gmap sets list strings pretty sorting.
From stdpp Require Export ssreflect.
From Stdlib Require Export NArith Lia.

(** ** Record update

    [r <| f := v |>] and [r <| f ::= g |>] update one field of a record, the
    way the C++ assigns [r.f = v].  A record type opts in by listing its
    fields once ([fields!]); the setter of a field is then found by pattern
    abstraction over the projection. *)

Definition reader_ap {E A B} (f : E → A → B) (x : E → A) : E → B := λ e, f e (x e).

Class Eta (R : Type) := eta : R → R.

Notation "'fields!' mk < f1 ; .. ; fn >" :=
  (reader_ap .. (reader_ap (λ _, mk) f1) .. fn)
  (at level 0, mk at level 10, f1 at level 10, fn at level 10, only parsing).

Class Setter {R T} (proj : R → T) := over : (T → T) → R → R.
Arguments over {R T} proj {_} _ _.

Ltac solve_setter :=
  match goal with
  | |- @Setter ?R ?T ?proj =>
    let inst := constr:(_ : Eta R) in
    let e := eval hnf in inst in
    let e := eval cbv beta delta [reader_ap] in e in
    match eval pattern proj in e with
    | ?s _ =>
      let r := eval cbv beta in (fun f : T → T => s (fun r => f (proj r))) in
      exact r
    end
  end.

#[export] Hint Extern 1 (Setter _) => solve_setter : typeclass_instances.

Declare Scope record_scope.
Delimit Scope record_scope with record.
Notation "r <| f := v |>" := (over f (λ _, v) r)
  (at level 1, left associativity) : record_scope.
Notation "r <| f ::= g |>" := (over f g r)
  (at level 1, left associativity) : record_scope.
#[global] Open Scope record_scope.

(** ** Machine integers

    A [w]-bit unsigned integer is an [N]; arithmetic that can leave the range
    is wrapped explicitly. *)

Definition u32 (x : N) : N := (x mod 2 ^ 32)%N.
Definition u64 (x : N) : N := (x mod 2 ^ 64)%N.

Lemma u32_small x : (x < 2 ^ 32)%N → u32 x = x.
Proof. apply N.mod_small. Qed.
Lemma u64_small x : (x < 2 ^ 64)%N → u64 x = x.
Proof. apply N.mod_small. Qed.
Lemma u64_lt x : (u64 x < 2 ^ 64)%N.
Proof. by apply N.mod_lt. Qed.
Lemma u32_lt x : (u32 x < 2 ^ 32)%N.
Proof. by apply N.mod_lt. Qed.

Definition b2n (b : bool) : N := if b then 1%N else 0%N.

(** ** State and exceptions

    A C++ member function that may throw: it maps the state to an outcome and
    the state it leaves behind.  A throw keeps every mutation made before
    it, as in the source. *)

Inductive Outcome (E A : Type) : Type :=
  | Ok (a : A)
  | Throw (e : E).
Arguments Ok {E A} a.
Arguments Throw {E A} e.

Definition M (S E A : Type) : Type := S → Outcome E A * S.

#[export] Instance M_ret S E : MRet (M S E) := λ A a s, (Ok a, s).
#[export] Instance M_bind S E : MBind (M S E) := λ A B k m s,
  match m s with
  | (Ok a, s') => k a s'
  | (Throw e, s') => (Throw e, s')
  end.

Section monad.
Context {S E : Type}.

Definition gets {A} (f : S → A) : M S E A := λ s, (Ok (f s), s).
Definition modify (f : S → S) : M S E () := λ s, (Ok (), f s).
Definition throw {A} (e : E) : M S E A := λ s, (Throw e, s).

(** [if (c) throw e;] *)
Definition throw_if (c : bool) (e : E) : M S E () :=
  if c then throw e else mret ().

(** [for (const auto& x : l) f(x);] *)
Fixpoint for_each {A} (f : A → M S E ()) (l : list A) : M S E () :=
  match l with
  | [] => mret ()
  | x :: l => f x;; for_each f l
  end.

(** The weakest precondition of a computation: [Q] on a normal return, [X]
    on a throw. *)
Definition wp {A} (m : M S E A) (Q : A → S → Prop) (X : E → S → Prop) (s : S) : Prop :=
  match m s with
  | (Ok a, s') => Q a s'
  | (Throw e, s') => X e s'
  end.

Lemma wp_ret {A} (a : A) Q X s : Q a s → wp (mret a) Q X s.
Proof. done. Qed.
Lemma wp_bind {A B} (m : M S E A) (k : A → M S E B) Q X s :
  wp m (λ a, wp (k a) Q X) X s → wp (m ≫= k) Q X s.
Proof. rw /wp /mbind /M_bind. by destruct (m s) as [[]]. Qed.
Lemma wp_gets {A} (f : S → A) Q X s : Q (f s) s → wp (gets f) Q X s.
Proof. done. Qed.
Lemma wp_modify (f : S → S) (Q : () → S → Prop) X s : Q () (f s) → wp (modify f) Q X s.
Proof. done. Qed.
Lemma wp_throw {A} e (Q : A → S → Prop) (X : E → S → Prop) s : X e s → wp (throw e) Q X s.
Proof. done. Qed.
Lemma wp_throw_if c e (Q : () → S → Prop) X s :
  (c = true → X e s) → (c = false → Q () s) → wp (throw_if c e) Q X s.
Proof. destruct c; rw /wp /=; auto. Qed.
Lemma wp_mono {A} (m : M S E A) (Q Q' : A → S → Prop) (X X' : E → S → Prop) s :
  (∀ a s', Q a s' → Q' a s') → (∀ e s', X e s' → X' e s') →
  wp m Q X s → wp m Q' X' s.
Proof. rw /wp. destruct (m s) as [[]]; auto. Qed.

(** What a precondition says about a given run. *)
Lemma wp_ok {A} (m : M S E A) (Q : A → S → Prop) (X : E → S → Prop) s a s' :
  wp m Q X s → m s = (Ok a, s') → Q a s'.
Proof. rw /wp. intros H Hm. by rw Hm in H. Qed.
Lemma wp_threw {A} (m : M S E A) (Q : A → S → Prop) (X : E → S → Prop) s e s' :
  wp m Q X s → m s = (Throw e, s') → X e s'.
Proof. rw /wp. intros H Hm. by rw Hm in H. Qed.

(** [I] survives [m], whether it returns or throws. *)
Definition preserves {A} (I : S → Prop) (m : M S E A) : Prop :=
  ∀ s, I s → wp m (λ _, I) (λ _, I) s.

Lemma preserves_run {A} (I : S → Prop) (m : M S E A) s :
  preserves I m → I s → I (m s).2.
Proof. intros H Hs. specialize (H s Hs). rw /wp in H. by destruct (m s) as [[]]. Qed.

Lemma wp_for_each {A} (f : A → M S E ()) (I : S → Prop) l s :
  (∀ x, x ∈ l → preserves I (f x)) → I s →
  wp (for_each f l) (λ _, I) (λ _, I) s.
Proof.
  revert s; induction l as [|x l IH]; intros s Hf Hs; [done|].
  apply wp_bind. eapply wp_mono; [| |apply Hf; [left|done]]; [|done].
  intros [] s' Hs'. apply IH; [|done]. intros y Hy. apply Hf. by right.
Qed.
End monad.
Arguments for_each {S E A} f !l.

Create HintDb residency.

(** ** Iteration over unordered maps

    A [std::unordered_map] is a [gmap]; its iteration order is left open by
    the C++ standard, so every loop whose effect can depend on it takes the
    order from this interface. *)

Class HashOrder := {
  iteration : ∀ {K V : Type} {H : EqDecision K} {C : Countable K}, gmap K V → list (K * V);
  iteration_perm : ∀ K V {H : EqDecision K} {C : Countable K} (m : gmap K V),
    iteration m ≡ₚ map_to_list m;
}.

#[export] Program Instance map_to_list_order : HashOrder := {|
  iteration _ _ _ _ m := map_to_list m;
|}.
Next Obligation. done. Qed.

Section iteration.
Context `{Ord : HashOrder} {K V : Type} `{Countable K}.
Implicit Types m : gmap K V.

Lemma elem_of_iteration m k v : (k, v) ∈ iteration m ↔ m !! k = Some v.
Proof. by rw iteration_perm elem_of_map_to_list. Qed.
Lemma length_iteration m : length (iteration m) = size m.
Proof. by rw iteration_perm length_map_to_list. Qed.
Lemma NoDup_iteration_keys m : NoDup (iteration m).*1.
Proof. rw iteration_perm. apply NoDup_fst_map_to_list. Qed.
Lemma iteration_list_to_map m : list_to_map (iteration m) = m.
Proof.
  rw -{2}(list_to_map_to_list m). symmetry. apply list_to_map_proper.
  - apply NoDup_fst_map_to_list.
  - by rw iteration_perm.
Qed.
End iteration.
