(* ===== verification/Identities.v ===== *)
(** * Errors, identities and generations

    [errors.hpp] and [identities.hpp]: the typed error codes, the
    [DomainError] exception, and the phantom-typed [Identity<Tag>] and
    [Generation<Tag>] wrappers around 64-bit values. *)

From S2P Require Import Prelude.
Local Open Scope N_scope.

(** ** Errors *)

Inductive ErrorCode :=
  | None_ | InvalidArgument | InvalidState | StaleAuthority | StaleIncarnation
  | StaleGeneration | StaleEpoch | UnknownIncarnation | UnknownEngine
  | UnknownProfile | UnknownSlot | UnknownUse | UnknownAttempt
  | NotCurrentAuthority | RegistrationRejected | FencedWorker | DrainInProgress
  | ActivationConflict | ActivationRequired | UseConflict | UseAfterDrain
  | UseOverflow | DuplicateRelease | StandbyConflict | CapacityExhausted
  | PlanStale | AttemptCancelled | AttemptFailed | RollbackRequired
  | IncarnationGone | ProcessLost | BackendMissing | BackendError | GraphInvalid
  | KernelMissing | ModelMissing | AdapterMismatch | KvCapacityInsufficient
  | IncompatibleProfile | DependencyInvalidated | PersistenceCorrupt
  | PersistenceUnsupportedVersion | PersistenceRejected | GenerationExhausted
  | BoundsExceeded | ProtocolError | FrameMalformed | ChecksumMismatch
  | NotPermitted | NotSupported | NotFound | Internal.

#[export] Instance ErrorCode_eq_dec : EqDecision ErrorCode.
Proof. solve_decision. Defined.

(** The exceptions an operation can raise: the library's [DomainError], and
    [std::out_of_range] from [unordered_map::at]. *)
Inductive Exn :=
  | DomainError (code : ErrorCode) (what : string)
  | StdOutOfRange.

Definition throw_error {S A} (code : ErrorCode) (msg : string) : M S Exn A :=
  throw (DomainError code msg).

(** [if (c) throw_error(code, msg);] *)
Definition throw_error_if {S} (c : bool) (code : ErrorCode) (msg : string) : M S Exn () :=
  throw_if c (DomainError code msg).

(** ** Tags

    One constructor per [ER_TAG]: the phantom index that keeps, say, an
    [EngineGeneration] and a [ModelGeneration] apart. *)

Inductive Tag :=
  | EngineIdTag | EngineGenerationTag | EngineConfigGenerationTag
  | EngineIncarnationIdTag | EngineIncarnationGenerationTag | EnginePoolIdTag
  | EnginePoolGenerationTag | EngineSlotIdTag | WorkerIdTag | WorkerBootIdTag
  | SourceIdTag | SourceBootIdTag | CoordinatorEpochTag | AuthorityGenerationTag
  | RegistrationPermitIdTag | BackendIdTag | BackendGenerationTag | DeviceIdTag
  | DeviceGenerationTag | DeviceContextGenerationTag | ReadinessProfileIdTag
  | ReadinessProfileGenerationTag | ReadinessGenerationTag | EvidenceIdTag
  | EvidenceGenerationTag | PreparationPlanIdTag | PreparationPlanGenerationTag
  | PreparationAttemptIdTag | PreparationAttemptGenerationTag
  | WarmupGenerationTag | StandbyGenerationTag | ActivationIdTag
  | ActivationGenerationTag | ServingUseIdTag | ServingUseGenerationTag
  | DrainGenerationTag | ReplacementIdTag | ReplacementGenerationTag
  | RecoveryGenerationTag | RevalidationGenerationTag | ModelIdTag
  | ModelGenerationTag | ModelResidencyGenerationTag | AdapterGenerationTag
  | KvCapacityGenerationTag | KvStateGenerationTag | KernelGenerationTag
  | GraphGenerationTag | ArtifactGenerationTag | DependencyGenerationTag
  | AllocationGenerationTag | ResourceClaimGenerationTag
  | ReservationGenerationTag | CapacityGenerationTag
  | CompatibilityGenerationTag | PolicyGenerationTag | WorkloadIdTag
  | WorkloadGenerationTag | ExecutionIdTag | ExecutionGenerationTag.

(** ** Identities *)

Record Identity (t : Tag) := mkId { id_raw : N }.
Arguments mkId {t} id_raw.
Arguments id_raw {t} _.

Module Identity.
Section ops.
Context {t : Tag}.
Implicit Types a b : Identity t.

Definition is_valid a : bool := negb (id_raw a =? 0).
Definition raw a : N := id_raw a.
Definition eqb a b : bool := id_raw a =? id_raw b.
Definition ltb a b : bool := id_raw a <? id_raw b.
End ops.
End Identity.

(** ** Generations *)

Record Generation (t : Tag) := mkGen { gen_raw : N }.
Arguments mkGen {t} gen_raw.
Arguments gen_raw {t} _.

Module Generation.
Section ops.
Context {t : Tag}.
Implicit Types a b : Generation t.

Definition is_valid a : bool := negb (gen_raw a =? 0).
Definition raw a : N := gen_raw a.
(** Advancing refuses to wrap: at the largest 64-bit value it throws. *)
Definition next {S} a : M S Exn (Generation t) :=
  throw_error_if (gen_raw a =? 2 ^ 64 - 1) GenerationExhausted
    "generation exhausted; refusing to wrap into a previously valid value";;
  mret (mkGen (gen_raw a + 1)).
Definition is_before a b : bool := gen_raw a <? gen_raw b.
Definition is_at_or_before a b : bool := gen_raw a <=? gen_raw b.
Definition is_at_or_after a b : bool := gen_raw b <=? gen_raw a.
Definition eqb a b : bool := gen_raw a =? gen_raw b.
Definition ltb a b : bool := gen_raw a <? gen_raw b.
Definition gtb a b : bool := gen_raw b <? gen_raw a.
End ops.
End Generation.

(** The default-constructed wrappers hold 0, which [is_valid] rejects. *)
Abbreviation id0 := (mkId 0).
Abbreviation gen0 := (mkGen 0).

(** ** The concrete aliases *)

Abbreviation EngineId := (Identity EngineIdTag).
Abbreviation EngineGeneration := (Generation EngineGenerationTag).
Abbreviation EngineConfigGeneration := (Generation EngineConfigGenerationTag).
Abbreviation EngineIncarnationId := (Identity EngineIncarnationIdTag).
Abbreviation EngineIncarnationGeneration := (Generation EngineIncarnationGenerationTag).
Abbreviation EnginePoolId := (Identity EnginePoolIdTag).
Abbreviation EnginePoolGeneration := (Generation EnginePoolGenerationTag).
Abbreviation EngineSlotId := (Identity EngineSlotIdTag).
Abbreviation WorkerId := (Identity WorkerIdTag).
Abbreviation WorkerBootId := (Generation WorkerBootIdTag).
Abbreviation SourceId := (Identity SourceIdTag).
Abbreviation SourceBootId := (Generation SourceBootIdTag).
Abbreviation CoordinatorEpoch := (Generation CoordinatorEpochTag).
Abbreviation AuthorityGeneration := (Generation AuthorityGenerationTag).
Abbreviation RegistrationPermitId := (Identity RegistrationPermitIdTag).
Abbreviation BackendId := (Identity BackendIdTag).
Abbreviation BackendGeneration := (Generation BackendGenerationTag).
Abbreviation DeviceId := (Identity DeviceIdTag).
Abbreviation DeviceGeneration := (Generation DeviceGenerationTag).
Abbreviation DeviceContextGeneration := (Generation DeviceContextGenerationTag).
Abbreviation ReadinessProfileId := (Identity ReadinessProfileIdTag).
Abbreviation ReadinessProfileGeneration := (Generation ReadinessProfileGenerationTag).
Abbreviation ReadinessGeneration := (Generation ReadinessGenerationTag).
Abbreviation EvidenceId := (Identity EvidenceIdTag).
Abbreviation EvidenceGeneration := (Generation EvidenceGenerationTag).
Abbreviation PreparationPlanId := (Identity PreparationPlanIdTag).
Abbreviation PreparationPlanGeneration := (Generation PreparationPlanGenerationTag).
Abbreviation PreparationAttemptId := (Identity PreparationAttemptIdTag).
Abbreviation PreparationAttemptGeneration := (Generation PreparationAttemptGenerationTag).
Abbreviation WarmupGeneration := (Generation WarmupGenerationTag).
Abbreviation StandbyGeneration := (Generation StandbyGenerationTag).
Abbreviation ActivationId := (Identity ActivationIdTag).
Abbreviation ActivationGeneration := (Generation ActivationGenerationTag).
Abbreviation ServingUseId := (Identity ServingUseIdTag).
Abbreviation ServingUseGeneration := (Generation ServingUseGenerationTag).
Abbreviation DrainGeneration := (Generation DrainGenerationTag).
Abbreviation ReplacementId := (Identity ReplacementIdTag).
Abbreviation ReplacementGeneration := (Generation ReplacementGenerationTag).
Abbreviation ModelId := (Identity ModelIdTag).
Abbreviation ModelGeneration := (Generation ModelGenerationTag).
Abbreviation AdapterGeneration := (Generation AdapterGenerationTag).
Abbreviation KvCapacityGeneration := (Generation KvCapacityGenerationTag).
Abbreviation KvStateGeneration := (Generation KvStateGenerationTag).
Abbreviation KernelGeneration := (Generation KernelGenerationTag).
Abbreviation GraphGeneration := (Generation GraphGenerationTag).
Abbreviation ArtifactGeneration := (Generation ArtifactGenerationTag).
Abbreviation DependencyGeneration := (Generation DependencyGenerationTag).
Abbreviation AllocationGeneration := (Generation AllocationGenerationTag).
Abbreviation ResourceClaimGeneration := (Generation ResourceClaimGenerationTag).
Abbreviation PolicyGeneration := (Generation PolicyGenerationTag).
Abbreviation WorkloadId := (Identity WorkloadIdTag).
Abbreviation WorkloadGeneration := (Generation WorkloadGenerationTag).
Abbreviation ExecutionId := (Identity ExecutionIdTag).

(** ** Process ids: diagnostic metadata only *)

Record ProcessId := mkProcessId {
  pid : N;
  start_seconds : N;
  label : string;
}.
#[export] Instance eta_ProcessId : Eta ProcessId := fields! mkProcessId <pid; start_seconds; label>.
Definition ProcessId_default : ProcessId := mkProcessId 0 0 "".

(** ** Decidable equality and countability: map keys *)

#[export] Instance Identity_eq_dec t : EqDecision (Identity t).
Proof. solve_decision. Defined.
#[export] Instance Generation_eq_dec t : EqDecision (Generation t).
Proof. solve_decision. Defined.
#[export] Instance Identity_countable t : Countable (Identity t).
Proof. by refine (inj_countable' id_raw mkId _); intros []. Defined.
#[export] Instance Generation_countable t : Countable (Generation t).
Proof. by refine (inj_countable' gen_raw mkGen _); intros []. Defined.

Section facts.
Context {t : Tag}.

Lemma id_raw_inj (a b : Identity t) : id_raw a = id_raw b → a = b.
Proof. by destruct a, b; simpl; intros ->. Qed.
Lemma gen_raw_inj (a b : Generation t) : gen_raw a = gen_raw b → a = b.
Proof. by destruct a, b; simpl; intros ->. Qed.

Lemma Identity_eqb_eq (a b : Identity t) : Identity.eqb a b = true ↔ a = b.
Proof. rw /Identity.eqb N.eqb_eq. split; [apply id_raw_inj|by intros ->]. Qed.
Lemma Generation_eqb_eq (a b : Generation t) : Generation.eqb a b = true ↔ a = b.
Proof. rw /Generation.eqb N.eqb_eq. split; [apply gen_raw_inj|by intros ->]. Qed.
Lemma Identity_eqb_refl (a : Identity t) : Identity.eqb a a = true.
Proof. by apply Identity_eqb_eq. Qed.
Lemma Generation_eqb_refl (a : Generation t) : Generation.eqb a a = true.
Proof. by apply Generation_eqb_eq. Qed.
Lemma Identity_eqb_neq (a b : Identity t) : Identity.eqb a b = false ↔ a ≠ b.
Proof. rw -not_true_iff_false Identity_eqb_eq. done. Qed.
Lemma Generation_eqb_neq (a b : Generation t) : Generation.eqb a b = false ↔ a ≠ b.
Proof. rw -not_true_iff_false Generation_eqb_eq. done. Qed.

Lemma wp_next {S} (g : Generation t) (Q : Generation t → S → Prop) X s :
  (gen_raw g = 2 ^ 64 - 1 → ∀ msg, X (DomainError GenerationExhausted msg) s) →
  (gen_raw g ≠ 2 ^ 64 - 1 → Q (mkGen (gen_raw g + 1)) s) →
  wp (Generation.next g) Q X s.
Proof.
  intros HX HQ. rw /Generation.next. apply wp_bind, wp_throw_if.
  - intros ?%N.eqb_eq. by apply HX.
  - intros ?%N.eqb_neq. by apply wp_ret, HQ.
Qed.
End facts.

