(* ===== verification/Enums.v ===== *)
(** * Enumerations

    [enums.hpp] (and [GenerationFamily] of [profiles.hpp]).  One module per
    [enum class], so that [ProcessLifecycle.RUNNING] reads as in the source.
    [to_int] is the cast to the underlying integer and [of_int] the cast back
    after the range check; [to_string] is the source's overload.

    An [enum class] can hold any value of its underlying type.  The coordinator
    casts unchecked integers into [ComponentCategory], [ComponentState] and
    [Provenance], so these three carry the constructor [other n]: a value whose
    32-bit pattern [n] lies beyond the enumerators ([of_int] builds it only
    there).  [to_string] falls through
    its [switch] on it. *)

From S2P Require Import Prelude.
Local Open Scope N_scope.

(** What the codec needs of an enumeration: the two casts and the largest
    enumerator. *)
Class Enum (T : Type) := {
  enum_to_int : T → N;
  enum_of_int : N → option T;
  enum_max : N;
  enum_named : T → bool;
  enum_of_to (x : T) : enum_named x = true → enum_of_int (enum_to_int x) = Some x;
  enum_to_le (x : T) : enum_named x = true → enum_to_int x <= enum_max;
  enum_max_lt : enum_max < 2 ^ 32;
  enum_check : forallb (λ n, match enum_of_int (N.of_nat n) with
    | Some x => (enum_to_int x =? N.of_nat n) && enum_named x
    | None => false
    end) (seq 0 (S (N.to_nat enum_max))) = true;
}.

(** The cast of a number in range is the named enumerator of that number. *)
Lemma enum_of_int_sound `{Enum T} n :
  n <= enum_max → ∃ x : T, enum_of_int n = Some x ∧ enum_to_int x = n ∧ enum_named x = true.
Proof.
  intros Hn. pose proof enum_check as Hc. rw forallb_forall in Hc.
  specialize (Hc (N.to_nat n)). rw N2Nat.id in Hc.
  assert (List.In (N.to_nat n) (seq 0 (S (N.to_nat enum_max)))) as Hin by (apply in_seq; lia).
  specialize (Hc Hin). destruct (enum_of_int n) as [x|]; [|done].
  exists x. by apply andb_true_iff in Hc as [->%N.eqb_eq ->].
Qed.

Ltac solve_enum := by intros [].

(** Desired residency: what the controlling caller WANTS the engine to be. *)
Module DesiredResidency.
Inductive t := | ABSENT | COLD | WARM | HOT.

#[global] Instance t_eq_dec : EqDecision t.
Proof. solve_decision. Defined.

Definition to_int (v : t) : N :=
  match v with
  | ABSENT => 0
  | COLD => 1
  | WARM => 2
  | HOT => 3
  end.
Definition of_int (n : N) : option t :=
  match n with
  | 0 => Some ABSENT
  | 1 => Some COLD
  | 2 => Some WARM
  | 3 => Some HOT
  | _ => None
  end.
Definition to_string (v : t) : string :=
  match v with
  | ABSENT => "ABSENT"
  | COLD => "COLD"
  | WARM => "WARM"
  | HOT => "HOT"
  end.
Definition named (v : t) : bool := true.

#[global] Program Instance enum : Enum t := {|
  enum_to_int := to_int; enum_of_int := of_int; enum_max := 3; enum_named := named;
|}.
Next Obligation. solve_enum. Qed.
Next Obligation. solve_enum. Qed.
Next Obligation. done. Qed.
Next Obligation. reflexivity. Qed.
End DesiredResidency.

(** Process lifecycle: what the underlying OS process incarnation is doing. *)
Module ProcessLifecycle.
Inductive t := | REGISTERING | STARTING | RUNNING | DRAINING | STOPPING | STOPPED | LOST
   | FAILED | RETIRED.

#[global] Instance t_eq_dec : EqDecision t.
Proof. solve_decision. Defined.

Definition to_int (v : t) : N :=
  match v with
  | REGISTERING => 0
  | STARTING => 1
  | RUNNING => 2
  | DRAINING => 3
  | STOPPING => 4
  | STOPPED => 5
  | LOST => 6
  | FAILED => 7
  | RETIRED => 8
  end.
Definition of_int (n : N) : option t :=
  match n with
  | 0 => Some REGISTERING
  | 1 => Some STARTING
  | 2 => Some RUNNING
  | 3 => Some DRAINING
  | 4 => Some STOPPING
  | 5 => Some STOPPED
  | 6 => Some LOST
  | 7 => Some FAILED
  | 8 => Some RETIRED
  | _ => None
  end.
Definition to_string (v : t) : string :=
  match v with
  | REGISTERING => "REGISTERING"
  | STARTING => "STARTING"
  | RUNNING => "RUNNING"
  | DRAINING => "DRAINING"
  | STOPPING => "STOPPING"
  | STOPPED => "STOPPED"
  | LOST => "LOST"
  | FAILED => "FAILED"
  | RETIRED => "RETIRED"
  end.
Definition named (v : t) : bool := true.

#[global] Program Instance enum : Enum t := {|
  enum_to_int := to_int; enum_of_int := of_int; enum_max := 8; enum_named := named;
|}.
Next Obligation. solve_enum. Qed.
Next Obligation. solve_enum. Qed.
Next Obligation. done. Qed.
Next Obligation. reflexivity. Qed.
End ProcessLifecycle.

(** Preparation state: has a preparation plan been carried out for the target configuration and verified? *)
Module PreparationState.
Inductive t := | UNPREPARED | PLANNED | PREPARING | PREPARED | INVALIDATED | FAILED
   | REVALIDATION_REQUIRED.

#[global] Instance t_eq_dec : EqDecision t.
Proof. solve_decision. Defined.

Definition to_int (v : t) : N :=
  match v with
  | UNPREPARED => 0
  | PLANNED => 1
  | PREPARING => 2
  | PREPARED => 3
  | INVALIDATED => 4
  | FAILED => 5
  | REVALIDATION_REQUIRED => 6
  end.
Definition of_int (n : N) : option t :=
  match n with
  | 0 => Some UNPREPARED
  | 1 => Some PLANNED
  | 2 => Some PREPARING
  | 3 => Some PREPARED
  | 4 => Some INVALIDATED
  | 5 => Some FAILED
  | 6 => Some REVALIDATION_REQUIRED
  | _ => None
  end.
Definition to_string (v : t) : string :=
  match v with
  | UNPREPARED => "UNPREPARED"
  | PLANNED => "PLANNED"
  | PREPARING => "PREPARING"
  | PREPARED => "PREPARED"
  | INVALIDATED => "INVALIDATED"
  | FAILED => "FAILED"
  | REVALIDATION_REQUIRED => "REVALIDATION_REQUIRED"
  end.
Definition named (v : t) : bool := true.

#[global] Program Instance enum : Enum t := {|
  enum_to_int := to_int; enum_of_int := of_int; enum_max := 6; enum_named := named;
|}.
Next Obligation. solve_enum. Qed.
Next Obligation. solve_enum. Qed.
Next Obligation. done. Qed.
Next Obligation. reflexivity. Qed.
End PreparationState.

(** Readiness outcome of a profile-specific evaluation. *)
Module ReadinessOutcome.
Inductive t := | UNKNOWN | BLOCKED | PREPARING | READY | DEGRADED | STALE
   | REVALIDATION_REQUIRED.

#[global] Instance t_eq_dec : EqDecision t.
Proof. solve_decision. Defined.

Definition to_int (v : t) : N :=
  match v with
  | UNKNOWN => 0
  | BLOCKED => 1
  | PREPARING => 2
  | READY => 3
  | DEGRADED => 4
  | STALE => 5
  | REVALIDATION_REQUIRED => 6
  end.
Definition of_int (n : N) : option t :=
  match n with
  | 0 => Some UNKNOWN
  | 1 => Some BLOCKED
  | 2 => Some PREPARING
  | 3 => Some READY
  | 4 => Some DEGRADED
  | 5 => Some STALE
  | 6 => Some REVALIDATION_REQUIRED
  | _ => None
  end.
Definition to_string (v : t) : string :=
  match v with
  | UNKNOWN => "UNKNOWN"
  | BLOCKED => "BLOCKED"
  | PREPARING => "PREPARING"
  | READY => "READY"
  | DEGRADED => "DEGRADED"
  | STALE => "STALE"
  | REVALIDATION_REQUIRED => "REVALIDATION_REQUIRED"
  end.
Definition named (v : t) : bool := true.

#[global] Program Instance enum : Enum t := {|
  enum_to_int := to_int; enum_of_int := of_int; enum_max := 6; enum_named := named;
|}.
Next Obligation. solve_enum. Qed.
Next Obligation. solve_enum. Qed.
Next Obligation. done. Qed.
Next Obligation. reflexivity. Qed.
End ReadinessOutcome.

(** Activation/role authority state. *)
Module ActivationState.
Inductive t := | INACTIVE | STANDBY | ACTIVATING | ACTIVE | DRAINING | FENCED.

#[global] Instance t_eq_dec : EqDecision t.
Proof. solve_decision. Defined.

Definition to_int (v : t) : N :=
  match v with
  | INACTIVE => 0
  | STANDBY => 1
  | ACTIVATING => 2
  | ACTIVE => 3
  | DRAINING => 4
  | FENCED => 5
  end.
Definition of_int (n : N) : option t :=
  match n with
  | 0 => Some INACTIVE
  | 1 => Some STANDBY
  | 2 => Some ACTIVATING
  | 3 => Some ACTIVE
  | 4 => Some DRAINING
  | 5 => Some FENCED
  | _ => None
  end.
Definition to_string (v : t) : string :=
  match v with
  | INACTIVE => "INACTIVE"
  | STANDBY => "STANDBY"
  | ACTIVATING => "ACTIVATING"
  | ACTIVE => "ACTIVE"
  | DRAINING => "DRAINING"
  | FENCED => "FENCED"
  end.
Definition named (v : t) : bool := true.

#[global] Program Instance enum : Enum t := {|
  enum_to_int := to_int; enum_of_int := of_int; enum_max := 5; enum_named := named;
|}.
Next Obligation. solve_enum. Qed.
Next Obligation. solve_enum. Qed.
Next Obligation. done. Qed.
Next Obligation. reflexivity. Qed.
End ActivationState.

(** Health state of the underlying process/incarnation. *)
Module HealthState.
Inductive t := | UNKNOWN | HEALTHY | DEGRADED | UNHEALTHY | LOST | FENCED.

#[global] Instance t_eq_dec : EqDecision t.
Proof. solve_decision. Defined.

Definition to_int (v : t) : N :=
  match v with
  | UNKNOWN => 0
  | HEALTHY => 1
  | DEGRADED => 2
  | UNHEALTHY => 3
  | LOST => 4
  | FENCED => 5
  end.
Definition of_int (n : N) : option t :=
  match n with
  | 0 => Some UNKNOWN
  | 1 => Some HEALTHY
  | 2 => Some DEGRADED
  | 3 => Some UNHEALTHY
  | 4 => Some LOST
  | 5 => Some FENCED
  | _ => None
  end.
Definition to_string (v : t) : string :=
  match v with
  | UNKNOWN => "UNKNOWN"
  | HEALTHY => "HEALTHY"
  | DEGRADED => "DEGRADED"
  | UNHEALTHY => "UNHEALTHY"
  | LOST => "LOST"
  | FENCED => "FENCED"
  end.
Definition named (v : t) : bool := true.

#[global] Program Instance enum : Enum t := {|
  enum_to_int := to_int; enum_of_int := of_int; enum_max := 5; enum_named := named;
|}.
Next Obligation. solve_enum. Qed.
Next Obligation. solve_enum. Qed.
Next Obligation. done. Qed.
Next Obligation. reflexivity. Qed.
End HealthState.

(** Recovery state of an engine after a failure or coordinator restart. *)
Module RecoveryState.
Inductive t := | NOMINAL | REVALIDATING | RECOVERING | REPLACED | FAILED
   | AWAITING_AUTHORITY.

#[global] Instance t_eq_dec : EqDecision t.
Proof. solve_decision. Defined.

Definition to_int (v : t) : N :=
  match v with
  | NOMINAL => 0
  | REVALIDATING => 1
  | RECOVERING => 2
  | REPLACED => 3
  | FAILED => 4
  | AWAITING_AUTHORITY => 5
  end.
Definition of_int (n : N) : option t :=
  match n with
  | 0 => Some NOMINAL
  | 1 => Some REVALIDATING
  | 2 => Some RECOVERING
  | 3 => Some REPLACED
  | 4 => Some FAILED
  | 5 => Some AWAITING_AUTHORITY
  | _ => None
  end.
Definition to_string (v : t) : string :=
  match v with
  | NOMINAL => "NOMINAL"
  | REVALIDATING => "REVALIDATING"
  | RECOVERING => "RECOVERING"
  | REPLACED => "REPLACED"
  | FAILED => "FAILED"
  | AWAITING_AUTHORITY => "AWAITING_AUTHORITY"
  end.
Definition named (v : t) : bool := true.

#[global] Program Instance enum : Enum t := {|
  enum_to_int := to_int; enum_of_int := of_int; enum_max := 5; enum_named := named;
|}.
Next Obligation. solve_enum. Qed.
Next Obligation. solve_enum. Qed.
Next Obligation. done. Qed.
Next Obligation. reflexivity. Qed.
End RecoveryState.

(** Registration state of a worker with the authority. *)
Module RegistrationState.
Inductive t := | NONE | PENDING | REGISTERED | FENCED | REJECTED.

#[global] Instance t_eq_dec : EqDecision t.
Proof. solve_decision. Defined.

Definition to_int (v : t) : N :=
  match v with
  | NONE => 0
  | PENDING => 1
  | REGISTERED => 2
  | FENCED => 3
  | REJECTED => 4
  end.
Definition of_int (n : N) : option t :=
  match n with
  | 0 => Some NONE
  | 1 => Some PENDING
  | 2 => Some REGISTERED
  | 3 => Some FENCED
  | 4 => Some REJECTED
  | _ => None
  end.
Definition to_string (v : t) : string :=
  match v with
  | NONE => "NONE"
  | PENDING => "PENDING"
  | REGISTERED => "REGISTERED"
  | FENCED => "FENCED"
  | REJECTED => "REJECTED"
  end.
Definition named (v : t) : bool := true.

#[global] Program Instance enum : Enum t := {|
  enum_to_int := to_int; enum_of_int := of_int; enum_max := 4; enum_named := named;
|}.
Next Obligation. solve_enum. Qed.
Next Obligation. solve_enum. Qed.
Next Obligation. done. Qed.
Next Obligation. reflexivity. Qed.
End RegistrationState.

(** Serving role of a logical engine definition. *)
Module ServingRole.
Inductive t := | GENERAL_INFERENCE | PREFILL | DECODE | EMBEDDING | MULTIMODAL
   | REFERENCE_COMPUTE | CUSTOM | UNKNOWN.

#[global] Instance t_eq_dec : EqDecision t.
Proof. solve_decision. Defined.

Definition to_int (v : t) : N :=
  match v with
  | GENERAL_INFERENCE => 0
  | PREFILL => 1
  | DECODE => 2
  | EMBEDDING => 3
  | MULTIMODAL => 4
  | REFERENCE_COMPUTE => 5
  | CUSTOM => 6
  | UNKNOWN => 7
  end.
Definition of_int (n : N) : option t :=
  match n with
  | 0 => Some GENERAL_INFERENCE
  | 1 => Some PREFILL
  | 2 => Some DECODE
  | 3 => Some EMBEDDING
  | 4 => Some MULTIMODAL
  | 5 => Some REFERENCE_COMPUTE
  | 6 => Some CUSTOM
  | 7 => Some UNKNOWN
  | _ => None
  end.
Definition to_string (v : t) : string :=
  match v with
  | GENERAL_INFERENCE => "GENERAL_INFERENCE"
  | PREFILL => "PREFILL"
  | DECODE => "DECODE"
  | EMBEDDING => "EMBEDDING"
  | MULTIMODAL => "MULTIMODAL"
  | REFERENCE_COMPUTE => "REFERENCE_COMPUTE"
  | CUSTOM => "CUSTOM"
  | UNKNOWN => "UNKNOWN"
  end.
Definition named (v : t) : bool := true.

#[global] Program Instance enum : Enum t := {|
  enum_to_int := to_int; enum_of_int := of_int; enum_max := 7; enum_named := named;
|}.
Next Obligation. solve_enum. Qed.
Next Obligation. solve_enum. Qed.
Next Obligation. done. Qed.
Next Obligation. reflexivity. Qed.
End ServingRole.

(** Component category for prepared state pieces. *)
Module ComponentCategory.
Inductive t := | BACKEND | DEVICE_CONTEXT | MODEL | ADAPTER | KV_CAPACITY | KV_STATE
   | KERNEL | GRAPH | TOKENIZER_ASSET | RUNTIME_ASSET | WORKSPACE | RESOURCE_CLAIM
   | DEPENDENCY | WARMUP | other (n : N).

#[global] Instance t_eq_dec : EqDecision t.
Proof. solve_decision. Defined.

Definition to_int (v : t) : N :=
  match v with
  | BACKEND => 0
  | DEVICE_CONTEXT => 1
  | MODEL => 2
  | ADAPTER => 3
  | KV_CAPACITY => 4
  | KV_STATE => 5
  | KERNEL => 6
  | GRAPH => 7
  | TOKENIZER_ASSET => 8
  | RUNTIME_ASSET => 9
  | WORKSPACE => 10
  | RESOURCE_CLAIM => 11
  | DEPENDENCY => 12
  | WARMUP => 13
  | other n => n
  end.
Definition of_int (n : N) : option t :=
  match n with
  | 0 => Some BACKEND
  | 1 => Some DEVICE_CONTEXT
  | 2 => Some MODEL
  | 3 => Some ADAPTER
  | 4 => Some KV_CAPACITY
  | 5 => Some KV_STATE
  | 6 => Some KERNEL
  | 7 => Some GRAPH
  | 8 => Some TOKENIZER_ASSET
  | 9 => Some RUNTIME_ASSET
  | 10 => Some WORKSPACE
  | 11 => Some RESOURCE_CLAIM
  | 12 => Some DEPENDENCY
  | 13 => Some WARMUP
  | _ => Some (other n)
  end.
Definition to_string (v : t) : string :=
  match v with
  | BACKEND => "BACKEND"
  | DEVICE_CONTEXT => "DEVICE_CONTEXT"
  | MODEL => "MODEL"
  | ADAPTER => "ADAPTER"
  | KV_CAPACITY => "KV_CAPACITY"
  | KV_STATE => "KV_STATE"
  | KERNEL => "KERNEL"
  | GRAPH => "GRAPH"
  | TOKENIZER_ASSET => "TOKENIZER_ASSET"
  | RUNTIME_ASSET => "RUNTIME_ASSET"
  | WORKSPACE => "WORKSPACE"
  | RESOURCE_CLAIM => "RESOURCE_CLAIM"
  | DEPENDENCY => "DEPENDENCY"
  | WARMUP => "WARMUP"
  | other _ => "UNKNOWN"
  end.
Definition named (v : t) : bool :=
  match v with other _ => false | _ => true end.

#[global] Program Instance enum : Enum t := {|
  enum_to_int := to_int; enum_of_int := of_int; enum_max := 13; enum_named := named;
|}.
Next Obligation. solve_enum. Qed.
Next Obligation. solve_enum. Qed.
Next Obligation. done. Qed.
Next Obligation. reflexivity. Qed.
End ComponentCategory.

(** Component evidence state. *)
Module ComponentState.
Inductive t := | ABSENT | DISCOVERED | AVAILABLE | LOADING | BOUND | VERIFIED | FAILED
   | STALE | UNKNOWN | REVALIDATION_REQUIRED | other (n : N).

#[global] Instance t_eq_dec : EqDecision t.
Proof. solve_decision. Defined.

Definition to_int (v : t) : N :=
  match v with
  | ABSENT => 0
  | DISCOVERED => 1
  | AVAILABLE => 2
  | LOADING => 3
  | BOUND => 4
  | VERIFIED => 5
  | FAILED => 6
  | STALE => 7
  | UNKNOWN => 8
  | REVALIDATION_REQUIRED => 9
  | other n => n
  end.
Definition of_int (n : N) : option t :=
  match n with
  | 0 => Some ABSENT
  | 1 => Some DISCOVERED
  | 2 => Some AVAILABLE
  | 3 => Some LOADING
  | 4 => Some BOUND
  | 5 => Some VERIFIED
  | 6 => Some FAILED
  | 7 => Some STALE
  | 8 => Some UNKNOWN
  | 9 => Some REVALIDATION_REQUIRED
  | _ => Some (other n)
  end.
Definition to_string (v : t) : string :=
  match v with
  | ABSENT => "ABSENT"
  | DISCOVERED => "DISCOVERED"
  | AVAILABLE => "AVAILABLE"
  | LOADING => "LOADING"
  | BOUND => "BOUND"
  | VERIFIED => "VERIFIED"
  | FAILED => "FAILED"
  | STALE => "STALE"
  | UNKNOWN => "UNKNOWN"
  | REVALIDATION_REQUIRED => "REVALIDATION_REQUIRED"
  | other _ => "UNKNOWN"
  end.
Definition named (v : t) : bool :=
  match v with other _ => false | _ => true end.

#[global] Program Instance enum : Enum t := {|
  enum_to_int := to_int; enum_of_int := of_int; enum_max := 9; enum_named := named;
|}.
Next Obligation. solve_enum. Qed.
Next Obligation. solve_enum. Qed.
Next Obligation. done. Qed.
Next Obligation. reflexivity. Qed.
End ComponentState.

(** How a profile treats a requirement. *)
Module RequirementKind.
Inductive t := | REQUIRED | OPTIONAL | PERMITTED_FALLBACK | UNSUPPORTED.

#[global] Instance t_eq_dec : EqDecision t.
Proof. solve_decision. Defined.

Definition to_int (v : t) : N :=
  match v with
  | REQUIRED => 0
  | OPTIONAL => 1
  | PERMITTED_FALLBACK => 2
  | UNSUPPORTED => 3
  end.
Definition of_int (n : N) : option t :=
  match n with
  | 0 => Some REQUIRED
  | 1 => Some OPTIONAL
  | 2 => Some PERMITTED_FALLBACK
  | 3 => Some UNSUPPORTED
  | _ => None
  end.
Definition to_string (v : t) : string :=
  match v with
  | REQUIRED => "REQUIRED"
  | OPTIONAL => "OPTIONAL"
  | PERMITTED_FALLBACK => "PERMITTED_FALLBACK"
  | UNSUPPORTED => "UNSUPPORTED"
  end.
Definition named (v : t) : bool := true.

#[global] Program Instance enum : Enum t := {|
  enum_to_int := to_int; enum_of_int := of_int; enum_max := 3; enum_named := named;
|}.
Next Obligation. solve_enum. Qed.
Next Obligation. solve_enum. Qed.
Next Obligation. done. Qed.
Next Obligation. reflexivity. Qed.
End RequirementKind.

(** Provenance of evidence. Coordinator bookkeeping is NOT physical device telemetry; estimated time is NOT measured latency. *)
Module Provenance.
Inductive t := | MEASURED | REPORTED | DERIVED | ESTIMATED | SYNTHETIC | RECONSTRUCTED
   | UNKNOWN | other (n : N).

#[global] Instance t_eq_dec : EqDecision t.
Proof. solve_decision. Defined.

Definition to_int (v : t) : N :=
  match v with
  | MEASURED => 0
  | REPORTED => 1
  | DERIVED => 2
  | ESTIMATED => 3
  | SYNTHETIC => 4
  | RECONSTRUCTED => 5
  | UNKNOWN => 6
  | other n => n
  end.
Definition of_int (n : N) : option t :=
  match n with
  | 0 => Some MEASURED
  | 1 => Some REPORTED
  | 2 => Some DERIVED
  | 3 => Some ESTIMATED
  | 4 => Some SYNTHETIC
  | 5 => Some RECONSTRUCTED
  | 6 => Some UNKNOWN
  | _ => Some (other n)
  end.
Definition to_string (v : t) : string :=
  match v with
  | MEASURED => "MEASURED"
  | REPORTED => "REPORTED"
  | DERIVED => "DERIVED"
  | ESTIMATED => "ESTIMATED"
  | SYNTHETIC => "SYNTHETIC"
  | RECONSTRUCTED => "RECONSTRUCTED"
  | UNKNOWN => "UNKNOWN"
  | other _ => "UNKNOWN"
  end.
Definition named (v : t) : bool :=
  match v with other _ => false | _ => true end.

#[global] Program Instance enum : Enum t := {|
  enum_to_int := to_int; enum_of_int := of_int; enum_max := 6; enum_named := named;
|}.
Next Obligation. solve_enum. Qed.
Next Obligation. solve_enum. Qed.
Next Obligation. done. Qed.
Next Obligation. reflexivity. Qed.
End Provenance.

(** Preparation action steps in a plan. *)
Module PreparationAction.
Inductive t := | DISCOVER_BACKEND | BIND_DEVICE_CONTEXT | ACQUIRE_AUTHORIZED_RESOURCE
   | BIND_MODEL | BIND_ADAPTER | PROVISION_KV_CAPACITY | RESTORE_COMPATIBLE_KV_STATE
   | BIND_KERNEL | INSTANTIATE_GRAPH | WARM_UP | VERIFY_OUTPUT | PUBLISH_READINESS.

#[global] Instance t_eq_dec : EqDecision t.
Proof. solve_decision. Defined.

Definition to_int (v : t) : N :=
  match v with
  | DISCOVER_BACKEND => 0
  | BIND_DEVICE_CONTEXT => 1
  | ACQUIRE_AUTHORIZED_RESOURCE => 2
  | BIND_MODEL => 3
  | BIND_ADAPTER => 4
  | PROVISION_KV_CAPACITY => 5
  | RESTORE_COMPATIBLE_KV_STATE => 6
  | BIND_KERNEL => 7
  | INSTANTIATE_GRAPH => 8
  | WARM_UP => 9
  | VERIFY_OUTPUT => 10
  | PUBLISH_READINESS => 11
  end.
Definition of_int (n : N) : option t :=
  match n with
  | 0 => Some DISCOVER_BACKEND
  | 1 => Some BIND_DEVICE_CONTEXT
  | 2 => Some ACQUIRE_AUTHORIZED_RESOURCE
  | 3 => Some BIND_MODEL
  | 4 => Some BIND_ADAPTER
  | 5 => Some PROVISION_KV_CAPACITY
  | 6 => Some RESTORE_COMPATIBLE_KV_STATE
  | 7 => Some BIND_KERNEL
  | 8 => Some INSTANTIATE_GRAPH
  | 9 => Some WARM_UP
  | 10 => Some VERIFY_OUTPUT
  | 11 => Some PUBLISH_READINESS
  | _ => None
  end.
Definition to_string (v : t) : string :=
  match v with
  | DISCOVER_BACKEND => "DISCOVER_BACKEND"
  | BIND_DEVICE_CONTEXT => "BIND_DEVICE_CONTEXT"
  | ACQUIRE_AUTHORIZED_RESOURCE => "ACQUIRE_AUTHORIZED_RESOURCE"
  | BIND_MODEL => "BIND_MODEL"
  | BIND_ADAPTER => "BIND_ADAPTER"
  | PROVISION_KV_CAPACITY => "PROVISION_KV_CAPACITY"
  | RESTORE_COMPATIBLE_KV_STATE => "RESTORE_COMPATIBLE_KV_STATE"
  | BIND_KERNEL => "BIND_KERNEL"
  | INSTANTIATE_GRAPH => "INSTANTIATE_GRAPH"
  | WARM_UP => "WARM_UP"
  | VERIFY_OUTPUT => "VERIFY_OUTPUT"
  | PUBLISH_READINESS => "PUBLISH_READINESS"
  end.
Definition named (v : t) : bool := true.

#[global] Program Instance enum : Enum t := {|
  enum_to_int := to_int; enum_of_int := of_int; enum_max := 11; enum_named := named;
|}.
Next Obligation. solve_enum. Qed.
Next Obligation. solve_enum. Qed.
Next Obligation. done. Qed.
Next Obligation. reflexivity. Qed.
End PreparationAction.

(** Recovery/economic actions compared by the economics model. *)
Module RecoveryAction.
Inductive t := | REUSE_WARM | WARM_COLD | REBIND_SURVIVING | REPLACE_LOST
   | RELOAD_MODEL_STATE | RESTORE_COMPATIBLE_KV | INSTANTIATE_GRAPH | RERUN_WARMUP.

#[global] Instance t_eq_dec : EqDecision t.
Proof. solve_decision. Defined.

Definition to_int (v : t) : N :=
  match v with
  | REUSE_WARM => 0
  | WARM_COLD => 1
  | REBIND_SURVIVING => 2
  | REPLACE_LOST => 3
  | RELOAD_MODEL_STATE => 4
  | RESTORE_COMPATIBLE_KV => 5
  | INSTANTIATE_GRAPH => 6
  | RERUN_WARMUP => 7
  end.
Definition of_int (n : N) : option t :=
  match n with
  | 0 => Some REUSE_WARM
  | 1 => Some WARM_COLD
  | 2 => Some REBIND_SURVIVING
  | 3 => Some REPLACE_LOST
  | 4 => Some RELOAD_MODEL_STATE
  | 5 => Some RESTORE_COMPATIBLE_KV
  | 6 => Some INSTANTIATE_GRAPH
  | 7 => Some RERUN_WARMUP
  | _ => None
  end.
Definition to_string (v : t) : string :=
  match v with
  | REUSE_WARM => "REUSE_WARM"
  | WARM_COLD => "WARM_COLD"
  | REBIND_SURVIVING => "REBIND_SURVIVING"
  | REPLACE_LOST => "REPLACE_LOST"
  | RELOAD_MODEL_STATE => "RELOAD_MODEL_STATE"
  | RESTORE_COMPATIBLE_KV => "RESTORE_COMPATIBLE_KV"
  | INSTANTIATE_GRAPH => "INSTANTIATE_GRAPH"
  | RERUN_WARMUP => "RERUN_WARMUP"
  end.
Definition named (v : t) : bool := true.

#[global] Program Instance enum : Enum t := {|
  enum_to_int := to_int; enum_of_int := of_int; enum_max := 7; enum_named := named;
|}.
Next Obligation. solve_enum. Qed.
Next Obligation. solve_enum. Qed.
Next Obligation. done. Qed.
Next Obligation. reflexivity. Qed.
End RecoveryAction.

(** Drain phase, an ordered progress dimension distinct from lifecycle. *)
Module DrainPhase.
Inductive t := | NONE | REQUESTED | ADMISSION_FENCED | ACTIVE_USE_REMAINING
   | BACKEND_CLEANUP_PENDING | DRAINED | RETIRED.

#[global] Instance t_eq_dec : EqDecision t.
Proof. solve_decision. Defined.

Definition to_int (v : t) : N :=
  match v with
  | NONE => 0
  | REQUESTED => 1
  | ADMISSION_FENCED => 2
  | ACTIVE_USE_REMAINING => 3
  | BACKEND_CLEANUP_PENDING => 4
  | DRAINED => 5
  | RETIRED => 6
  end.
Definition of_int (n : N) : option t :=
  match n with
  | 0 => Some NONE
  | 1 => Some REQUESTED
  | 2 => Some ADMISSION_FENCED
  | 3 => Some ACTIVE_USE_REMAINING
  | 4 => Some BACKEND_CLEANUP_PENDING
  | 5 => Some DRAINED
  | 6 => Some RETIRED
  | _ => None
  end.
Definition to_string (v : t) : string :=
  match v with
  | NONE => "NONE"
  | REQUESTED => "REQUESTED"
  | ADMISSION_FENCED => "ADMISSION_FENCED"
  | ACTIVE_USE_REMAINING => "ACTIVE_USE_REMAINING"
  | BACKEND_CLEANUP_PENDING => "BACKEND_CLEANUP_PENDING"
  | DRAINED => "DRAINED"
  | RETIRED => "RETIRED"
  end.
Definition named (v : t) : bool := true.

#[global] Program Instance enum : Enum t := {|
  enum_to_int := to_int; enum_of_int := of_int; enum_max := 6; enum_named := named;
|}.
Next Obligation. solve_enum. Qed.
Next Obligation. solve_enum. Qed.
Next Obligation. done. Qed.
Next Obligation. reflexivity. Qed.
End DrainPhase.

(** Reliability outcome for a unit of admitted work after a failure. *)
Module WorkOutcome.
Inductive t := | COMPLETED | FAILED | UNKNOWN | INVALIDATED.

#[global] Instance t_eq_dec : EqDecision t.
Proof. solve_decision. Defined.

Definition to_int (v : t) : N :=
  match v with
  | COMPLETED => 0
  | FAILED => 1
  | UNKNOWN => 2
  | INVALIDATED => 3
  end.
Definition of_int (n : N) : option t :=
  match n with
  | 0 => Some COMPLETED
  | 1 => Some FAILED
  | 2 => Some UNKNOWN
  | 3 => Some INVALIDATED
  | _ => None
  end.
Definition to_string (v : t) : string :=
  match v with
  | COMPLETED => "COMPLETED"
  | FAILED => "FAILED"
  | UNKNOWN => "UNKNOWN"
  | INVALIDATED => "INVALIDATED"
  end.
Definition named (v : t) : bool := true.

#[global] Program Instance enum : Enum t := {|
  enum_to_int := to_int; enum_of_int := of_int; enum_max := 3; enum_named := named;
|}.
Next Obligation. solve_enum. Qed.
Next Obligation. solve_enum. Qed.
Next Obligation. done. Qed.
Next Obligation. reflexivity. Qed.
End WorkOutcome.

(** Which generation family a profile requirement must match (profiles.hpp). *)
Module GenerationFamily.
Inductive t := | NONE | MODEL | ADAPTER | KV_CAPACITY | KV_STATE | KERNEL | GRAPH
   | ALLOCATION | RESOURCE_CLAIM | DEPENDENCY | COMPATIBILITY.

#[global] Instance t_eq_dec : EqDecision t.
Proof. solve_decision. Defined.

Definition to_int (v : t) : N :=
  match v with
  | NONE => 0
  | MODEL => 1
  | ADAPTER => 2
  | KV_CAPACITY => 3
  | KV_STATE => 4
  | KERNEL => 5
  | GRAPH => 6
  | ALLOCATION => 7
  | RESOURCE_CLAIM => 8
  | DEPENDENCY => 9
  | COMPATIBILITY => 10
  end.
Definition of_int (n : N) : option t :=
  match n with
  | 0 => Some NONE
  | 1 => Some MODEL
  | 2 => Some ADAPTER
  | 3 => Some KV_CAPACITY
  | 4 => Some KV_STATE
  | 5 => Some KERNEL
  | 6 => Some GRAPH
  | 7 => Some ALLOCATION
  | 8 => Some RESOURCE_CLAIM
  | 9 => Some DEPENDENCY
  | 10 => Some COMPATIBILITY
  | _ => None
  end.
Definition to_string (v : t) : string :=
  match v with
  | NONE => "NONE"
  | MODEL => "MODEL"
  | ADAPTER => "ADAPTER"
  | KV_CAPACITY => "KV_CAPACITY"
  | KV_STATE => "KV_STATE"
  | KERNEL => "KERNEL"
  | GRAPH => "GRAPH"
  | ALLOCATION => "ALLOCATION"
  | RESOURCE_CLAIM => "RESOURCE_CLAIM"
  | DEPENDENCY => "DEPENDENCY"
  | COMPATIBILITY => "COMPATIBILITY"
  end.
Definition named (v : t) : bool := true.

#[global] Program Instance enum : Enum t := {|
  enum_to_int := to_int; enum_of_int := of_int; enum_max := 10; enum_named := named;
|}.
Next Obligation. solve_enum. Qed.
Next Obligation. solve_enum. Qed.
Next Obligation. done. Qed.
Next Obligation. reflexivity. Qed.
End GenerationFamily.

(** [ReplacementPlan::Phase] (replacement.hpp); the strings are [to_string_phase] of session.cpp. *)
Module ReplacementPhase.
Inductive t := | PLANNED | PREPARING | CANDIDATE_READY | CUTOVER | OLD_DRAIN
   | RETIRE_OLD | COMPLETE.

#[global] Instance t_eq_dec : EqDecision t.
Proof. solve_decision. Defined.

Definition to_int (v : t) : N :=
  match v with
  | PLANNED => 0
  | PREPARING => 1
  | CANDIDATE_READY => 2
  | CUTOVER => 3
  | OLD_DRAIN => 4
  | RETIRE_OLD => 5
  | COMPLETE => 6
  end.
Definition of_int (n : N) : option t :=
  match n with
  | 0 => Some PLANNED
  | 1 => Some PREPARING
  | 2 => Some CANDIDATE_READY
  | 3 => Some CUTOVER
  | 4 => Some OLD_DRAIN
  | 5 => Some RETIRE_OLD
  | 6 => Some COMPLETE
  | _ => None
  end.
Definition to_string (v : t) : string :=
  match v with
  | PLANNED => "PLANNED"
  | PREPARING => "PREPARING"
  | CANDIDATE_READY => "CANDIDATE_READY"
  | CUTOVER => "CUTOVER"
  | OLD_DRAIN => "OLD_DRAIN"
  | RETIRE_OLD => "RETIRE_OLD"
  | COMPLETE => "COMPLETE"
  end.
Definition named (v : t) : bool := true.

#[global] Program Instance enum : Enum t := {|
  enum_to_int := to_int; enum_of_int := of_int; enum_max := 6; enum_named := named;
|}.
Next Obligation. solve_enum. Qed.
Next Obligation. solve_enum. Qed.
Next Obligation. done. Qed.
Next Obligation. reflexivity. Qed.
End ReplacementPhase.
