(* ===== verification/Model.v ===== *)
(** * Data

    The structs of the public headers, one module per struct: the record [t]
    with the source's fields in order, [default] for the default member
    initialisers, and the struct's own member functions.  Every integer field
    is an [N]; the widths are those of the source, and the codec states them as
    a well-formedness predicate. *)

From S2P Require Import Prelude Identities Enums.
Local Open Scope N_scope.

(** ** [CompatibilityKey] (compatibility.hpp) *)

(** Compatibility is compared exactly, namespace included. *)
Module CompatibilityKey.
Record t := mk {
  ns : string;
  value : string;
}.

#[global] Instance eta : Eta t := fields! mk <ns; value>.

Definition default : t := {|
  ns := ""; value := "";
|}.

#[global] Instance t_eq_dec : EqDecision t.
Proof. solve_decision. Defined.

Definition kDefaultCompatibilityNamespace : string := "engine-residency/reference/v1".
Definition with_namespace (v : string) : t := mk kDefaultCompatibilityNamespace v.
Definition render (k : t) : string := k.(ns) +:+ "/" +:+ k.(value).
Definition is_valid (k : t) : bool :=
  negb (String.eqb k.(ns) "") && negb (String.eqb k.(value) "").
Definition eqb (a b : t) : bool :=
  String.eqb a.(ns) b.(ns) && String.eqb a.(value) b.(value).

Lemma eqb_eq a b : eqb a b = true ↔ a = b.
Proof.
  destruct a, b. rw /eqb andb_true_iff !String.eqb_eq /=. split; [|by intros [= -> ->]].
  by intros [-> ->].
Qed.
End CompatibilityKey.
Abbreviation CompatibilityKey := CompatibilityKey.t.
Module Key := CompatibilityKey.

(** ** [StateSet] (state.hpp) *)

(** The orthogonal state dimensions of an incarnation. *)
Module StateSet.
Record t := mk {
  desired : DesiredResidency.t;
  observed : DesiredResidency.t;
  lifecycle : ProcessLifecycle.t;
  preparation : PreparationState.t;
  activation : ActivationState.t;
  health : HealthState.t;
  recovery : RecoveryState.t;
  registration : RegistrationState.t;
  drain : DrainPhase.t;
}.

#[global] Instance eta : Eta t := fields! mk <desired; observed; lifecycle; preparation;
    activation; health; recovery; registration; drain>.

Definition default : t := {|
  desired := DesiredResidency.ABSENT; observed := DesiredResidency.ABSENT;
  lifecycle := ProcessLifecycle.REGISTERING; preparation := PreparationState.UNPREPARED;
  activation := ActivationState.INACTIVE; health := HealthState.UNKNOWN;
  recovery := RecoveryState.NOMINAL; registration := RegistrationState.NONE;
  drain := DrainPhase.NONE;
|}.

Definition is_serving_eligible_lifecycle (s : t) : bool :=
  bool_decide (s.(lifecycle) = ProcessLifecycle.RUNNING).
End StateSet.
Abbreviation StateSet := StateSet.t.
Module St := StateSet.

(** ** [ComponentEvidence] (components.hpp) *)

(** What a worker claims about one prepared component. *)
Module ComponentEvidence.
Record t := mk {
  evidence_id : EvidenceId;
  evidence_generation : EvidenceGeneration;
  category : ComponentCategory.t;
  state : ComponentState.t;
  provenance : Provenance.t;
  subject : string;
  namespace_ : string;
  engine_id : EngineId;
  engine_generation : EngineGeneration;
  incarnation_id : EngineIncarnationId;
  incarnation_generation : EngineIncarnationGeneration;
  worker_id : WorkerId;
  worker_boot : WorkerBootId;
  source_id : SourceId;
  source_boot : SourceBootId;
  backend_id : BackendId;
  backend_generation : BackendGeneration;
  device_id : DeviceId;
  device_generation : DeviceGeneration;
  device_context_generation : DeviceContextGeneration;
  device_ordinal : N;
  compatibility : CompatibilityKey.t;
  model_generation : ModelGeneration;
  adapter_generation : AdapterGeneration;
  kv_capacity_generation : KvCapacityGeneration;
  kv_state_generation : KvStateGeneration;
  kernel_generation : KernelGeneration;
  graph_generation : GraphGeneration;
  artifact_generation : ArtifactGeneration;
  allocation_generation : AllocationGeneration;
  dependency_generation : DependencyGeneration;
  resource_claim_generation : ResourceClaimGeneration;
  warmup_generation : WarmupGeneration;
  profile_id : ReadinessProfileId;
  profile_generation : ReadinessProfileGeneration;
  size_bytes : N;
  elapsed_ns : N;
  observed_at_ns : N;
  max_age_ns : N;
  detail : string;
  invalidation_reason : string;
  coordinator_epoch : CoordinatorEpoch;
}.

#[global] Instance eta : Eta t := fields! mk <evidence_id; evidence_generation; category;
    state; provenance; subject; namespace_; engine_id; engine_generation; incarnation_id;
    incarnation_generation; worker_id; worker_boot; source_id; source_boot; backend_id;
    backend_generation; device_id; device_generation; device_context_generation;
    device_ordinal; compatibility; model_generation; adapter_generation;
    kv_capacity_generation; kv_state_generation; kernel_generation; graph_generation;
    artifact_generation; allocation_generation; dependency_generation;
    resource_claim_generation; warmup_generation; profile_id; profile_generation;
    size_bytes; elapsed_ns; observed_at_ns; max_age_ns; detail; invalidation_reason;
    coordinator_epoch>.

Definition default : t := {|
  evidence_id := id0; evidence_generation := gen0; category := ComponentCategory.BACKEND;
  state := ComponentState.UNKNOWN; provenance := Provenance.UNKNOWN; subject := "";
  namespace_ := ""; engine_id := id0; engine_generation := gen0; incarnation_id := id0;
  incarnation_generation := gen0; worker_id := id0; worker_boot := gen0; source_id := id0;
  source_boot := gen0; backend_id := id0; backend_generation := gen0; device_id := id0;
  device_generation := gen0; device_context_generation := gen0; device_ordinal := 0;
  compatibility := CompatibilityKey.default; model_generation := gen0;
  adapter_generation := gen0; kv_capacity_generation := gen0; kv_state_generation := gen0;
  kernel_generation := gen0; graph_generation := gen0; artifact_generation := gen0;
  allocation_generation := gen0; dependency_generation := gen0;
  resource_claim_generation := gen0; warmup_generation := gen0; profile_id := id0;
  profile_generation := gen0; size_bytes := 0; elapsed_ns := 0; observed_at_ns := 0;
  max_age_ns := 0; detail := ""; invalidation_reason := ""; coordinator_epoch := gen0;
|}.

(** Is the evidence fresh at [now_ns]?  The subtraction is guarded. *)
Definition is_fresh (e : t) (now_ns : N) : bool :=
  if e.(max_age_ns) =? 0 then true
  else if e.(observed_at_ns) =? 0 then false
  else (e.(observed_at_ns) <=? now_ns) && (now_ns - e.(observed_at_ns) <=? e.(max_age_ns)).
End ComponentEvidence.
Abbreviation ComponentEvidence := ComponentEvidence.t.
Module Ev := ComponentEvidence.

(** ** [EngineDefinition] (engine.hpp) *)

(** The logical engine, independent of any process. *)
Module EngineDefinition.
Record t := mk {
  engine_id : EngineId;
  engine_generation : EngineGeneration;
  config_generation : EngineConfigGeneration;
  name : string;
  role : ServingRole.t;
  backend_id : BackendId;
  backend_generation : BackendGeneration;
  backend_specific : bool;
  model_id : ModelId;
  model_generation : ModelGeneration;
  model_name : string;
  model_bytes : N;
  adapter_generation : AdapterGeneration;
  requires_adapter : bool;
  device_id : DeviceId;
  device_generation : DeviceGeneration;
  device_ordinal : N;
  device_specific : bool;
  workspace_bytes : N;
  kv_capacity_entries : N;
  kernel_key : string;
  kernel_generation : KernelGeneration;
  kernel_required : bool;
  graph_required : bool;
  graph_optional_fallback : bool;
  graph_generation : GraphGeneration;
  tokenizer_key : string;
  tokenizer_generation : ArtifactGeneration;
  tokenizer_required : bool;
  compatibility : CompatibilityKey.t;
  compatibility_required : bool;
  preparation_policy : string;
  warmup_required : bool;
  standby_eligible : bool;
  standby_target : N;
  max_concurrency : N;
  resource_claim_generation : ResourceClaimGeneration;
  resource_claim_ref : string;
  dependency_refs : list string;
  dependency_generation : DependencyGeneration;
  provenance : Provenance.t;
  profile_ids : list ReadinessProfileId;
}.

#[global] Instance eta : Eta t := fields! mk <engine_id; engine_generation;
    config_generation; name; role; backend_id; backend_generation; backend_specific;
    model_id; model_generation; model_name; model_bytes; adapter_generation;
    requires_adapter; device_id; device_generation; device_ordinal; device_specific;
    workspace_bytes; kv_capacity_entries; kernel_key; kernel_generation; kernel_required;
    graph_required; graph_optional_fallback; graph_generation; tokenizer_key;
    tokenizer_generation; tokenizer_required; compatibility; compatibility_required;
    preparation_policy; warmup_required; standby_eligible; standby_target; max_concurrency;
    resource_claim_generation; resource_claim_ref; dependency_refs; dependency_generation;
    provenance; profile_ids>.

Definition default : t := {|
  engine_id := id0; engine_generation := gen0; config_generation := gen0; name := "";
  role := ServingRole.GENERAL_INFERENCE; backend_id := id0; backend_generation := gen0;
  backend_specific := true; model_id := id0; model_generation := gen0; model_name := "";
  model_bytes := 0; adapter_generation := gen0; requires_adapter := false;
  device_id := id0; device_generation := gen0; device_ordinal := 0;
  device_specific := false; workspace_bytes := 0; kv_capacity_entries := 0;
  kernel_key := ""; kernel_generation := gen0; kernel_required := true;
  graph_required := false; graph_optional_fallback := false; graph_generation := gen0;
  tokenizer_key := ""; tokenizer_generation := gen0; tokenizer_required := false;
  compatibility := CompatibilityKey.default; compatibility_required := true;
  preparation_policy := ""; warmup_required := true; standby_eligible := false;
  standby_target := 0; max_concurrency := 1; resource_claim_generation := gen0;
  resource_claim_ref := ""; dependency_refs := []; dependency_generation := gen0;
  provenance := Provenance.REPORTED; profile_ids := [];
|}.
End EngineDefinition.
Abbreviation EngineDefinition := EngineDefinition.t.
Module Def := EngineDefinition.

(** ** [EngineIncarnation] (engine.hpp) *)

(** A particular process (boot) of an engine. *)
Module EngineIncarnation.
Record t := mk {
  incarnation_id : EngineIncarnationId;
  incarnation_generation : EngineIncarnationGeneration;
  engine_id : EngineId;
  engine_generation : EngineGeneration;
  config_generation : EngineConfigGeneration;
  worker_id : WorkerId;
  worker_boot : WorkerBootId;
  source_id : SourceId;
  source_boot : SourceBootId;
  coordinator_epoch : CoordinatorEpoch;
  authority_generation : AuthorityGeneration;
  registration_permit : RegistrationPermitId;
  backend_id : BackendId;
  backend_generation : BackendGeneration;
  device_id : DeviceId;
  device_generation : DeviceGeneration;
  device_context_generation : DeviceContextGeneration;
  device_ordinal : N;
  process : ProcessId;
  registration : RegistrationState.t;
  state : StateSet.t;
  readiness_generation : ReadinessGeneration;
  is_current : bool;
  last_activity_ns : N;
  nfc : string;
}.

#[global] Instance eta : Eta t := fields! mk <incarnation_id; incarnation_generation;
    engine_id; engine_generation; config_generation; worker_id; worker_boot; source_id;
    source_boot; coordinator_epoch; authority_generation; registration_permit; backend_id;
    backend_generation; device_id; device_generation; device_context_generation;
    device_ordinal; process; registration; state; readiness_generation; is_current;
    last_activity_ns; nfc>.

Definition default : t := {|
  incarnation_id := id0; incarnation_generation := gen0; engine_id := id0;
  engine_generation := gen0; config_generation := gen0; worker_id := id0;
  worker_boot := gen0; source_id := id0; source_boot := gen0; coordinator_epoch := gen0;
  authority_generation := gen0; registration_permit := id0; backend_id := id0;
  backend_generation := gen0; device_id := id0; device_generation := gen0;
  device_context_generation := gen0; device_ordinal := 0; process := ProcessId_default;
  registration := RegistrationState.NONE; state := StateSet.default;
  readiness_generation := gen0; is_current := false; last_activity_ns := 0; nfc := "";
|}.
End EngineIncarnation.
Abbreviation EngineIncarnation := EngineIncarnation.t.
Module Inc := EngineIncarnation.

(** ** [ProfileRequirement] (profiles.hpp) *)

(** One requirement of a readiness profile. *)
Module ProfileRequirement.
Record t := mk {
  category : ComponentCategory.t;
  kind : RequirementKind.t;
  min_state : ComponentState.t;
  subject : string;
  compatibility : CompatibilityKey.t;
  generation_family : GenerationFamily.t;
  description : string;
}.

#[global] Instance eta : Eta t := fields! mk <category; kind; min_state; subject;
    compatibility; generation_family; description>.

Definition default : t := {|
  category := ComponentCategory.MODEL; kind := RequirementKind.REQUIRED;
  min_state := ComponentState.VERIFIED; subject := "";
  compatibility := CompatibilityKey.default; generation_family := GenerationFamily.NONE;
  description := "";
|}.
End ProfileRequirement.
Abbreviation ProfileRequirement := ProfileRequirement.t.
Module Req := ProfileRequirement.

(** ** [ReadinessProfile] (profiles.hpp) *)

(** The exact prerequisites for a shape of work. *)
Module ReadinessProfile.
Record t := mk {
  profile_id : ReadinessProfileId;
  profile_generation : ReadinessProfileGeneration;
  engine_id : EngineId;
  engine_generation : EngineGeneration;
  name : string;
  role : ServingRole.t;
  max_batch : N;
  max_seq_len : N;
  dtype : string;
  layout : string;
  workspace_bytes : N;
  model_bytes : N;
  kv_capacity_entries : N;
  graph_required : bool;
  graph_optional_fallback : bool;
  warmup_required : bool;
  device_ordinal : N;
  device_specific : bool;
  profile_required : bool;
  policy_generation : PolicyGeneration;
  dependency_generation : DependencyGeneration;
  requirements : list ProfileRequirement.t;
  compatibility : CompatibilityKey.t;
}.

#[global] Instance eta : Eta t := fields! mk <profile_id; profile_generation; engine_id;
    engine_generation; name; role; max_batch; max_seq_len; dtype; layout; workspace_bytes;
    model_bytes; kv_capacity_entries; graph_required; graph_optional_fallback;
    warmup_required; device_ordinal; device_specific; profile_required; policy_generation;
    dependency_generation; requirements; compatibility>.

Definition default : t := {|
  profile_id := id0; profile_generation := gen0; engine_id := id0;
  engine_generation := gen0; name := ""; role := ServingRole.GENERAL_INFERENCE;
  max_batch := 1; max_seq_len := 0; dtype := ""; layout := ""; workspace_bytes := 0;
  model_bytes := 0; kv_capacity_entries := 0; graph_required := false;
  graph_optional_fallback := false; warmup_required := true; device_ordinal := 0;
  device_specific := false; profile_required := true; policy_generation := gen0;
  dependency_generation := gen0; requirements := [];
  compatibility := CompatibilityKey.default;
|}.
End ReadinessProfile.
Abbreviation ReadinessProfile := ReadinessProfile.t.
Module Prof := ReadinessProfile.

(** ** [RequirementOutcome] (readiness.hpp) *)

(** The outcome of one requirement in an evaluation. *)
Module RequirementOutcome.
Record t := mk {
  category : ComponentCategory.t;
  subject : string;
  kind : RequirementKind.t;
  min_state : ComponentState.t;
  actual_state : ComponentState.t;
  satisfied : bool;
  fallback_used : bool;
  incompatible : bool;
  stale : bool;
  missing : bool;
  reason : string;
}.

#[global] Instance eta : Eta t := fields! mk <category; subject; kind; min_state;
    actual_state; satisfied; fallback_used; incompatible; stale; missing; reason>.

Definition default : t := {|
  category := ComponentCategory.MODEL; subject := ""; kind := RequirementKind.REQUIRED;
  min_state := ComponentState.VERIFIED; actual_state := ComponentState.UNKNOWN;
  satisfied := false; fallback_used := false; incompatible := false; stale := false;
  missing := false; reason := "";
|}.
End RequirementOutcome.
Abbreviation RequirementOutcome := RequirementOutcome.t.
Module ReqOut := RequirementOutcome.

(** ** [ReadinessResult] (readiness.hpp) *)

(** An inspectable readiness evaluation. *)
Module ReadinessResult.
Record t := mk {
  engine_id : EngineId;
  engine_generation : EngineGeneration;
  incarnation_id : EngineIncarnationId;
  incarnation_generation : EngineIncarnationGeneration;
  profile_id : ReadinessProfileId;
  profile_generation : ReadinessProfileGeneration;
  readiness_generation : ReadinessGeneration;
  activation_generation : ActivationGeneration;
  outcome : ReadinessOutcome.t;
  coherent_snapshot : bool;
  requirement_outcomes : list RequirementOutcome.t;
  satisfied : list string;
  missing : list string;
  incompatible : list string;
  stale_evidence : list string;
  required_actions : list string;
  selected_fallback : string;
  headroom_bytes : N;
  headroom_kv_entries : N;
  detail : string;
}.

#[global] Instance eta : Eta t := fields! mk <engine_id; engine_generation; incarnation_id;
    incarnation_generation; profile_id; profile_generation; readiness_generation;
    activation_generation; outcome; coherent_snapshot; requirement_outcomes; satisfied;
    missing; incompatible; stale_evidence; required_actions; selected_fallback;
    headroom_bytes; headroom_kv_entries; detail>.

Definition default : t := {|
  engine_id := id0; engine_generation := gen0; incarnation_id := id0;
  incarnation_generation := gen0; profile_id := id0; profile_generation := gen0;
  readiness_generation := gen0; activation_generation := gen0;
  outcome := ReadinessOutcome.UNKNOWN; coherent_snapshot := false;
  requirement_outcomes := []; satisfied := []; missing := []; incompatible := [];
  stale_evidence := []; required_actions := []; selected_fallback := "";
  headroom_bytes := 0; headroom_kv_entries := 0; detail := "";
|}.
End ReadinessResult.
Abbreviation ReadinessResult := ReadinessResult.t.
Module Res := ReadinessResult.

(** ** [PreparationStep] (preparation.hpp) *)

(** One ordered step of a plan. *)
Module PreparationStep.
Record t := mk {
  action : PreparationAction.t;
  category : ComponentCategory.t;
  subject : string;
  description : string;
  rollback_required : bool;
  rollback_description : string;
}.

#[global] Instance eta : Eta t := fields! mk <action; category; subject; description;
    rollback_required; rollback_description>.

Definition default : t := {|
  action := PreparationAction.DISCOVER_BACKEND; category := ComponentCategory.BACKEND;
  subject := ""; description := ""; rollback_required := false; rollback_description := "";
|}.
End PreparationStep.
Abbreviation PreparationStep := PreparationStep.t.
Module Step := PreparationStep.

(** ** [PreparationPlan] (preparation.hpp) *)

(** A bounded preparation plan. *)
Module PreparationPlan.
Record t := mk {
  plan_id : PreparationPlanId;
  plan_generation : PreparationPlanGeneration;
  incarnation_id : EngineIncarnationId;
  incarnation_generation : EngineIncarnationGeneration;
  profile_id : ReadinessProfileId;
  profile_generation : ReadinessProfileGeneration;
  target_residency : DesiredResidency.t;
  epoch : CoordinatorEpoch;
  authority : AuthorityGeneration;
  source_boot : SourceBootId;
  steps : list PreparationStep.t;
  estimated_bytes : N;
  estimated_ns : N;
  cost_provenance : Provenance.t;
  cancellation_boundary : string;
  rollback_action : string;
  expected_readiness : string;
}.

#[global] Instance eta : Eta t := fields! mk <plan_id; plan_generation; incarnation_id;
    incarnation_generation; profile_id; profile_generation; target_residency; epoch;
    authority; source_boot; steps; estimated_bytes; estimated_ns; cost_provenance;
    cancellation_boundary; rollback_action; expected_readiness>.

Definition default : t := {|
  plan_id := id0; plan_generation := gen0; incarnation_id := id0;
  incarnation_generation := gen0; profile_id := id0; profile_generation := gen0;
  target_residency := DesiredResidency.WARM; epoch := gen0; authority := gen0;
  source_boot := gen0; steps := []; estimated_bytes := 0; estimated_ns := 0;
  cost_provenance := Provenance.ESTIMATED; cancellation_boundary := "";
  rollback_action := ""; expected_readiness := "";
|}.
End PreparationPlan.
Abbreviation PreparationPlan := PreparationPlan.t.
Module Plan := PreparationPlan.

(** ** [PreparationAttempt] (preparation.hpp) *)

(** One execution of a plan. *)
Module PreparationAttempt.
Record t := mk {
  attempt_id : PreparationAttemptId;
  attempt_generation : PreparationAttemptGeneration;
  plan_id : PreparationPlanId;
  plan_generation : PreparationPlanGeneration;
  incarnation_id : EngineIncarnationId;
  incarnation_generation : EngineIncarnationGeneration;
  profile_id : ReadinessProfileId;
  profile_generation : ReadinessProfileGeneration;
  epoch : CoordinatorEpoch;
  authority : AuthorityGeneration;
  state : PreparationState.t;
  next_step_index : N;
  cancelled : bool;
  published_ready : bool;
  authority_revalidated : bool;
  completed_steps : list string;
  failure_stage : string;
}.

#[global] Instance eta : Eta t := fields! mk <attempt_id; attempt_generation; plan_id;
    plan_generation; incarnation_id; incarnation_generation; profile_id;
    profile_generation; epoch; authority; state; next_step_index; cancelled;
    published_ready; authority_revalidated; completed_steps; failure_stage>.

Definition default : t := {|
  attempt_id := id0; attempt_generation := gen0; plan_id := id0; plan_generation := gen0;
  incarnation_id := id0; incarnation_generation := gen0; profile_id := id0;
  profile_generation := gen0; epoch := gen0; authority := gen0;
  state := PreparationState.PLANNED; next_step_index := 0; cancelled := false;
  published_ready := false; authority_revalidated := false; completed_steps := [];
  failure_stage := "";
|}.
End PreparationAttempt.
Abbreviation PreparationAttempt := PreparationAttempt.t.
Module Att := PreparationAttempt.

(** ** [AuthorityState] (authority.hpp) *)

(** The coordinator epoch, authority generation and permit counter. *)
Module AuthorityState.
Record t := mk {
  epoch : CoordinatorEpoch;
  authority : AuthorityGeneration;
  registration_counter : N;
}.

#[global] Instance eta : Eta t := fields! mk <epoch; authority; registration_counter>.

Definition default : t := {|
  epoch := gen0; authority := gen0; registration_counter := 0;
|}.

Definition advance_authority_generation : M t Exn AuthorityGeneration :=
  a ← gets authority;
  g ← Generation.next a;
  modify (λ s, s <| authority := g |>);;
  mret g.
End AuthorityState.
Abbreviation AuthorityState := AuthorityState.t.
Module Auth := AuthorityState.

(** ** [RegistrationPermit] (authority.hpp) *)

(** A coordinator-issued admission token. *)
Module RegistrationPermit.
Record t := mk {
  permit_id : RegistrationPermitId;
  epoch : CoordinatorEpoch;
  worker_id : WorkerId;
  worker_boot : WorkerBootId;
  sequence : N;
  authority : AuthorityGeneration;
  consumed : bool;
}.

#[global] Instance eta : Eta t := fields! mk <permit_id; epoch; worker_id; worker_boot;
    sequence; authority; consumed>.

Definition default : t := {|
  permit_id := id0; epoch := gen0; worker_id := id0; worker_boot := gen0; sequence := 0;
  authority := gen0; consumed := false;
|}.

Definition is_valid (p : t) : bool :=
  Identity.is_valid p.(permit_id) && Generation.is_valid p.(epoch).
End RegistrationPermit.
Abbreviation RegistrationPermit := RegistrationPermit.t.
Module Permit := RegistrationPermit.

(** ** [StandbySlot] (standby.hpp) *)

(** One logical position for at most one engine. *)
Module StandbySlot.
Record t := mk {
  slot_id : EngineSlotId;
  pool_id : EnginePoolId;
  name : string;
  exclusive : bool;
  assigned_incarnation : EngineIncarnationId;
  current : bool;
}.

#[global] Instance eta : Eta t := fields! mk <slot_id; pool_id; name; exclusive;
    assigned_incarnation; current>.

Definition default : t := {|
  slot_id := id0; pool_id := id0; name := ""; exclusive := true;
  assigned_incarnation := id0; current := true;
|}.
End StandbySlot.
Abbreviation StandbySlot := StandbySlot.t.
Module Slot := StandbySlot.

(** ** [StandbyPoolPolicy] (standby.hpp) *)

(** The policy supplied to reconciliation. *)
Module StandbyPoolPolicy.
Record t := mk {
  pool_id : EnginePoolId;
  pool_generation : EnginePoolGeneration;
  engine_id : EngineId;
  target_standby : N;
  target_active : N;
  require_current_incarnation : bool;
  allow_shared_capacity : bool;
  tie_break : string;
}.

#[global] Instance eta : Eta t := fields! mk <pool_id; pool_generation; engine_id;
    target_standby; target_active; require_current_incarnation; allow_shared_capacity;
    tie_break>.

Definition default : t := {|
  pool_id := id0; pool_generation := gen0; engine_id := id0; target_standby := 0;
  target_active := 0; require_current_incarnation := true; allow_shared_capacity := false;
  tie_break := "";
|}.
End StandbyPoolPolicy.
Abbreviation StandbyPoolPolicy := StandbyPoolPolicy.t.
Module Pool := StandbyPoolPolicy.

(** ** [StandbyAccounting] (standby.hpp) *)

(** Aggregate standby accounting. *)
Module StandbyAccounting.
Record t := mk {
  pool_id : EnginePoolId;
  target : N;
  eligible : N;
  preparing : N;
  blocked : N;
  stale : N;
  active : N;
  deficit : N;
  blockers : list string;
  candidates : list EngineIncarnationId;
  deferred_slots : list EngineSlotId;
}.

#[global] Instance eta : Eta t := fields! mk <pool_id; target; eligible; preparing;
    blocked; stale; active; deficit; blockers; candidates; deferred_slots>.

Definition default : t := {|
  pool_id := id0; target := 0; eligible := 0; preparing := 0; blocked := 0; stale := 0;
  active := 0; deficit := 0; blockers := []; candidates := []; deferred_slots := [];
|}.
End StandbyAccounting.
Abbreviation StandbyAccounting := StandbyAccounting.t.
Module Acc := StandbyAccounting.

(** ** [ActivationRequest] (activation.hpp) *)

(** A request to promote an incarnation. *)
Module ActivationRequest.
Record t := mk {
  incarnation_id : EngineIncarnationId;
  incarnation_generation : EngineIncarnationGeneration;
  engine_id : EngineId;
  engine_generation : EngineGeneration;
  profile_id : ReadinessProfileId;
  profile_generation : ReadinessProfileGeneration;
  readiness_generation : ReadinessGeneration;
  standby_generation : StandbyGeneration;
  caller_authority : AuthorityGeneration;
  slot_id : EngineSlotId;
  caller : string;
}.

#[global] Instance eta : Eta t := fields! mk <incarnation_id; incarnation_generation;
    engine_id; engine_generation; profile_id; profile_generation; readiness_generation;
    standby_generation; caller_authority; slot_id; caller>.

Definition default : t := {|
  incarnation_id := id0; incarnation_generation := gen0; engine_id := id0;
  engine_generation := gen0; profile_id := id0; profile_generation := gen0;
  readiness_generation := gen0; standby_generation := gen0; caller_authority := gen0;
  slot_id := id0; caller := "";
|}.
End ActivationRequest.
Abbreviation ActivationRequest := ActivationRequest.t.
Module ActReq := ActivationRequest.

(** ** [ActivationRecord] (activation.hpp) *)

(** A committed activation. *)
Module ActivationRecord.
Record t := mk {
  activation_id : ActivationId;
  activation_generation : ActivationGeneration;
  engine_id : EngineId;
  engine_generation : EngineGeneration;
  incarnation_id : EngineIncarnationId;
  incarnation_generation : EngineIncarnationGeneration;
  profile_id : ReadinessProfileId;
  readiness_generation : ReadinessGeneration;
  standby_generation : StandbyGeneration;
  slot_id : EngineSlotId;
  state : ActivationState.t;
  prior : ActivationState.t;
  current : bool;
  detail : string;
}.

#[global] Instance eta : Eta t := fields! mk <activation_id; activation_generation;
    engine_id; engine_generation; incarnation_id; incarnation_generation; profile_id;
    readiness_generation; standby_generation; slot_id; state; prior; current; detail>.

Definition default : t := {|
  activation_id := id0; activation_generation := gen0; engine_id := id0;
  engine_generation := gen0; incarnation_id := id0; incarnation_generation := gen0;
  profile_id := id0; readiness_generation := gen0; standby_generation := gen0;
  slot_id := id0; state := ActivationState.INACTIVE; prior := ActivationState.INACTIVE;
  current := false; detail := "";
|}.
End ActivationRecord.
Abbreviation ActivationRecord := ActivationRecord.t.
Module Act := ActivationRecord.

(** ** [DrainState] (drain.hpp) *)

(** Drain progress of an incarnation. *)
Module DrainState.
Record t := mk {
  phase : DrainPhase.t;
  generation : DrainGeneration;
  active_use : N;
  admission_fenced : bool;
  backend_cleanup_ack : bool;
  detail : string;
}.

#[global] Instance eta : Eta t := fields! mk <phase; generation; active_use;
    admission_fenced; backend_cleanup_ack; detail>.

Definition default : t := {|
  phase := DrainPhase.NONE; generation := gen0; active_use := 0; admission_fenced := false;
  backend_cleanup_ack := false; detail := "";
|}.

Definition is_drained (d : t) : bool :=
  bool_decide (d.(phase) = DrainPhase.DRAINED) || bool_decide (d.(phase) = DrainPhase.RETIRED).
End DrainState.
Abbreviation DrainState := DrainState.t.
Module Drn := DrainState.

(** ** [ReplacementPlan] (replacement.hpp) *)

(** A replacement of an old by a candidate incarnation. *)
Module ReplacementPlan.
Record t := mk {
  replacement_id : ReplacementId;
  replacement_generation : ReplacementGeneration;
  engine_id : EngineId;
  engine_generation : EngineGeneration;
  old_incarnation : EngineIncarnationId;
  old_incarnation_generation : EngineIncarnationGeneration;
  candidate_incarnation : EngineIncarnationId;
  candidate_incarnation_generation : EngineIncarnationGeneration;
  epoch : CoordinatorEpoch;
  authority : AuthorityGeneration;
  phase : ReplacementPhase.t;
  make_before_break : bool;
  rollback_required : bool;
  detail : string;
  overlap_bytes : N;
  resource_overlap_available : bool;
}.

#[global] Instance eta : Eta t := fields! mk <replacement_id; replacement_generation;
    engine_id; engine_generation; old_incarnation; old_incarnation_generation;
    candidate_incarnation; candidate_incarnation_generation; epoch; authority; phase;
    make_before_break; rollback_required; detail; overlap_bytes; resource_overlap_available>.

Definition default : t := {|
  replacement_id := id0; replacement_generation := gen0; engine_id := id0;
  engine_generation := gen0; old_incarnation := id0; old_incarnation_generation := gen0;
  candidate_incarnation := id0; candidate_incarnation_generation := gen0; epoch := gen0;
  authority := gen0; phase := ReplacementPhase.PLANNED; make_before_break := true;
  rollback_required := false; detail := ""; overlap_bytes := 0;
  resource_overlap_available := false;
|}.
End ReplacementPlan.
Abbreviation ReplacementPlan := ReplacementPlan.t.
Module Repl := ReplacementPlan.

(** ** [ServingUseToken] (serving_use.hpp) *)

(** The generation-bound serving-use token. *)
Module ServingUseToken.
Record t := mk {
  use_id : ServingUseId;
  use_generation : ServingUseGeneration;
  engine_id : EngineId;
  engine_generation : EngineGeneration;
  incarnation_id : EngineIncarnationId;
  incarnation_generation : EngineIncarnationGeneration;
  profile_id : ReadinessProfileId;
  readiness_generation : ReadinessGeneration;
  activation_generation : ActivationGeneration;
  execution_id : ExecutionId;
  workload_id : WorkloadId;
  workload_generation : WorkloadGeneration;
}.

#[global] Instance eta : Eta t := fields! mk <use_id; use_generation; engine_id;
    engine_generation; incarnation_id; incarnation_generation; profile_id;
    readiness_generation; activation_generation; execution_id; workload_id;
    workload_generation>.

Definition default : t := {|
  use_id := id0; use_generation := gen0; engine_id := id0; engine_generation := gen0;
  incarnation_id := id0; incarnation_generation := gen0; profile_id := id0;
  readiness_generation := gen0; activation_generation := gen0; execution_id := id0;
  workload_id := id0; workload_generation := gen0;
|}.

Definition is_valid (k : t) : bool := Identity.is_valid k.(use_id).
End ServingUseToken.
Abbreviation ServingUseToken := ServingUseToken.t.
Module Tok := ServingUseToken.

(** ** [ActiveUse] (serving_use.hpp) *)

(** The accounting record of an admitted use. *)
Module ActiveUse.
Record t := mk {
  use_id : ServingUseId;
  use_generation : ServingUseGeneration;
  engine_id : EngineId;
  engine_generation : EngineGeneration;
  incarnation_id : EngineIncarnationId;
  incarnation_generation : EngineIncarnationGeneration;
  profile_id : ReadinessProfileId;
  readiness_generation : ReadinessGeneration;
  activation_generation : ActivationGeneration;
  execution_id : ExecutionId;
  released : bool;
  outcome : WorkOutcome.t;
  admitted_at_ns : N;
  released_at_ns : N;
  detail : string;
}.

#[global] Instance eta : Eta t := fields! mk <use_id; use_generation; engine_id;
    engine_generation; incarnation_id; incarnation_generation; profile_id;
    readiness_generation; activation_generation; execution_id; released; outcome;
    admitted_at_ns; released_at_ns; detail>.

Definition default : t := {|
  use_id := id0; use_generation := gen0; engine_id := id0; engine_generation := gen0;
  incarnation_id := id0; incarnation_generation := gen0; profile_id := id0;
  readiness_generation := gen0; activation_generation := gen0; execution_id := id0;
  released := false; outcome := WorkOutcome.COMPLETED; admitted_at_ns := 0;
  released_at_ns := 0; detail := "";
|}.
End ActiveUse.
Abbreviation ActiveUse := ActiveUse.t.
Module Use := ActiveUse.

(** ** [CostComponent] (economics.hpp) *)

(** A named cost component. *)
Module CostComponent.
Record t := mk {
  name : string;
  estimated_ns : N;
  measured_ns : N;
  provenance : Provenance.t;
  bytes : N;
  unit : string;
}.

#[global] Instance eta : Eta t := fields! mk <name; estimated_ns; measured_ns; provenance;
    bytes; unit>.

Definition default : t := {|
  name := ""; estimated_ns := 0; measured_ns := 0; provenance := Provenance.UNKNOWN;
  bytes := 0; unit := "";
|}.

Definition effective_ns (c : t) : N :=
  if negb (c.(measured_ns) =? 0) then c.(measured_ns) else c.(estimated_ns).
End CostComponent.
Abbreviation CostComponent := CostComponent.t.
Module Cost := CostComponent.

(** ** [RecoveryCost] (economics.hpp) *)

(** The cost of one recovery alternative. *)
Module RecoveryCost.
Record t := mk {
  action : RecoveryAction.t;
  components : list CostComponent.t;
  total_ns : N;
  parallel_best_ns : N;
  aggregation_model : string;
  provenance : Provenance.t;
}.

#[global] Instance eta : Eta t := fields! mk <action; components; total_ns;
    parallel_best_ns; aggregation_model; provenance>.

Definition default : t := {|
  action := RecoveryAction.REPLACE_LOST; components := []; total_ns := 0;
  parallel_best_ns := 0; aggregation_model := ""; provenance := Provenance.ESTIMATED;
|}.

Definition is_valid (c : t) : bool :=
  String.eqb c.(aggregation_model) "SEQUENTIAL"
  || String.eqb c.(aggregation_model) "PARALLEL_CRITICAL_PATH".
End RecoveryCost.
Abbreviation RecoveryCost := RecoveryCost.t.
Module RCost := RecoveryCost.

(** ** [CostComparison] (economics.hpp) *)

(** The comparison of supplied alternatives. *)
Module CostComparison.
Record t := mk {
  alternatives : list RecoveryCost.t;
  selected_index : Z;
  selection_reason : string;
  detail : string;
}.

#[global] Instance eta : Eta t := fields! mk <alternatives; selected_index;
    selection_reason; detail>.

Definition default : t := {|
  alternatives := []; selected_index := (-1)%Z; selection_reason := ""; detail := "";
|}.
End CostComparison.
Abbreviation CostComparison := CostComparison.t.
Module Cmp := CostComparison.

(** ** [RuntimeOptions] (options.hpp) *)

(** Explicit resource bounds. *)
Module RuntimeOptions.
Record t := mk {
  max_engines : N;
  max_profiles_per_engine : N;
  max_incarnations : N;
  max_component_evidence : N;
  max_pending_preparation_attempts : N;
  max_preparation_plan_steps : N;
  max_active_uses : N;
  max_standby_slots : N;
  max_replacement_candidates : N;
  max_history : N;
  max_cost_samples : N;
  max_explanation_bytes : N;
  max_registration_permits : N;
  max_activation_records : N;
}.

#[global] Instance eta : Eta t := fields! mk <max_engines; max_profiles_per_engine;
    max_incarnations; max_component_evidence; max_pending_preparation_attempts;
    max_preparation_plan_steps; max_active_uses; max_standby_slots;
    max_replacement_candidates; max_history; max_cost_samples; max_explanation_bytes;
    max_registration_permits; max_activation_records>.

Definition default : t := {|
  max_engines := 1000; max_profiles_per_engine := 64; max_incarnations := 8000;
  max_component_evidence := 200000; max_pending_preparation_attempts := 4000;
  max_preparation_plan_steps := 128; max_active_uses := 1000000; max_standby_slots := 4096;
  max_replacement_candidates := 64; max_history := 100000; max_cost_samples := 50000;
  max_explanation_bytes := 8192; max_registration_permits := 16000;
  max_activation_records := 32000;
|}.
End RuntimeOptions.
Abbreviation RuntimeOptions := RuntimeOptions.t.
Module Opts := RuntimeOptions.
