(* ===== verification/Reference.v ===== *)
(** * The reference engine

    The engine definition and readiness profile that [seed_reference_engine]
    (session.cpp) installs in the coordinator, and the evidence records the
    reference worker publishes for it.  The examples of the development are
    evaluated on them. *)

From S2P Require Import Prelude Identities Enums Model.
Local Open Scope N_scope.

Definition reference_definition : EngineDefinition :=
  EngineDefinition.default
    <| Def.engine_id := mkId 1 |>
    <| Def.engine_generation := mkGen 1 |>
    <| Def.config_generation := mkGen 1 |>
    <| Def.name := "reference-engine" |>
    <| Def.role := ServingRole.GENERAL_INFERENCE |>
    <| Def.backend_id := mkId 1 |>
    <| Def.backend_generation := mkGen 1 |>
    <| Def.model_id := mkId 1 |>
    <| Def.model_generation := mkGen 1 |>
    <| Def.model_name := "reference-model" |>
    <| Def.model_bytes := 2 ^ 20 |>
    <| Def.workspace_bytes := 2 ^ 16 |>
    <| Def.kv_capacity_entries := 1024 |>
    <| Def.kernel_key := "er-reference-kernel" |>
    <| Def.kernel_generation := mkGen 1 |>
    <| Def.kernel_required := true |>
    <| Def.graph_required := true |>
    <| Def.graph_optional_fallback := false |>
    <| Def.graph_generation := mkGen 1 |>
    <| Def.compatibility := Key.with_namespace "ref/v1" |>
    <| Def.standby_eligible := true |>
    <| Def.standby_target := 1 |>
    <| Def.max_concurrency := 8 |>
    <| Def.warmup_required := true |>.

(** A [REQUIRED] requirement, the other fields at their defaults. *)
Definition required (category : ComponentCategory.t) (min_state : ComponentState.t)
    (description : string) : ProfileRequirement :=
  ProfileRequirement.default
    <| Req.category := category |>
    <| Req.kind := RequirementKind.REQUIRED |>
    <| Req.min_state := min_state |>
    <| Req.description := description |>.

Definition reference_requirements : list ProfileRequirement :=
  let key := Key.with_namespace "ref/v1" in
  let backend := required ComponentCategory.BACKEND ComponentState.VERIFIED
    "backend verified" in
  let dctx := required ComponentCategory.DEVICE_CONTEXT ComponentState.BOUND
    "device context bound" in
  let model := (required ComponentCategory.MODEL ComponentState.VERIFIED
      "model bound+verified")
    <| Req.subject := "reference-model" |>
    <| Req.generation_family := GenerationFamily.MODEL |>
    <| Req.compatibility := key |> in
  let kv := (required ComponentCategory.KV_CAPACITY ComponentState.BOUND
      "kv capacity provisioned")
    <| Req.subject := "kv-main" |>
    <| Req.generation_family := GenerationFamily.KV_CAPACITY |> in
  let kernel := (required ComponentCategory.KERNEL ComponentState.VERIFIED
      "kernel bound+verified")
    <| Req.subject := "er-reference-kernel" |>
    <| Req.generation_family := GenerationFamily.KERNEL |>
    <| Req.compatibility := key |> in
  let graph := (required ComponentCategory.GRAPH ComponentState.VERIFIED
      "graph instantiated+verified")
    <| Req.subject := "er-reference-graph" |>
    <| Req.generation_family := GenerationFamily.GRAPH |> in
  let warmup := (required ComponentCategory.WARMUP ComponentState.VERIFIED
      "warmup verified")
    <| Req.subject := "warmup" |> in
  [backend; dctx; model; kv; kernel; graph; warmup].

Definition reference_profile : ReadinessProfile :=
  ReadinessProfile.default
    <| Prof.profile_id := mkId 1 |>
    <| Prof.profile_generation := mkGen 1 |>
    <| Prof.engine_id := reference_definition.(Def.engine_id) |>
    <| Prof.engine_generation := reference_definition.(Def.engine_generation) |>
    <| Prof.name := "reference-bs1" |>
    <| Prof.role := ServingRole.GENERAL_INFERENCE |>
    <| Prof.max_batch := 1 |>
    <| Prof.max_seq_len := 4096 |>
    <| Prof.dtype := "fp32" |>
    <| Prof.layout := "row-major" |>
    <| Prof.workspace_bytes := 2 ^ 16 |>
    <| Prof.model_bytes := 2 ^ 20 |>
    <| Prof.kv_capacity_entries := 1024 |>
    <| Prof.graph_required := true |>
    <| Prof.graph_optional_fallback := false |>
    <| Prof.warmup_required := true |>
    <| Prof.compatibility := Key.with_namespace "ref/v1" |>
    <| Prof.requirements := reference_requirements |>.

(** ** Example inputs *)

(** An evidence record as the coordinator builds it for the reference engine. *)
Definition example_evidence (inc : EngineIncarnationId) (epoch : CoordinatorEpoch)
    (category : ComponentCategory.t) (state : ComponentState.t) (subject : string)
    : ComponentEvidence :=
  ComponentEvidence.default
    <| Ev.incarnation_id := inc |> <| Ev.engine_id := mkId 1 |>
    <| Ev.engine_generation := mkGen 1 |>
    <| Ev.category := category |> <| Ev.state := state |> <| Ev.subject := subject |>
    <| Ev.namespace_ := "er" |> <| Ev.provenance := Provenance.MEASURED |>
    <| Ev.model_generation := mkGen 1 |> <| Ev.kv_capacity_generation := mkGen 1 |>
    <| Ev.kernel_generation := mkGen 1 |> <| Ev.graph_generation := mkGen 1 |>
    <| Ev.compatibility := Key.with_namespace "ref/v1" |>
    <| Ev.coordinator_epoch := epoch |>.

Definition example_bundle (inc : EngineIncarnationId) (epoch : CoordinatorEpoch)
    : list ComponentEvidence :=
  let ev := example_evidence inc epoch in
  [ ev ComponentCategory.BACKEND ComponentState.VERIFIED "backend-reference";
    ev ComponentCategory.DEVICE_CONTEXT ComponentState.BOUND "device-context-0";
    ev ComponentCategory.MODEL ComponentState.VERIFIED "reference-model";
    ev ComponentCategory.KV_CAPACITY ComponentState.BOUND "kv-main";
    ev ComponentCategory.KERNEL ComponentState.VERIFIED "er-reference-kernel";
    ev ComponentCategory.GRAPH ComponentState.VERIFIED "er-reference-graph";
    ev ComponentCategory.WARMUP ComponentState.VERIFIED "warmup" ].
