(* ===== verification/Codec.v ===== *)
(** * Byte codecs

    The [Writer] and [Reader] of [persistence.cpp] as state monads over the
    bytes written and the bytes left to read, their primitives, the FNV-1a
    checksum, and the two relations the codecs are proved by: a value round
    trips, and what is read is well formed and writes back to as many bytes. *)

From Stdlib Require Import Ascii String.
From S2P Require Import Prelude Identities Enums Model.
Local Open Scope N_scope.

(** [std::string] as a byte buffer. *)
Definition Bytes := list ascii.
Definition size_of (bs : Bytes) : N := N.of_nat (length bs).

Definition kMaxCount : N := 1000000.
Definition kMaxStr : N := 1000000.

(** ** Checksum *)

Definition fnv_offset : N := 1469598103934665603.
Definition fnv_prime : N := 1099511628211.
Definition fnv_step (h : N) (d : ascii) : N := u64 (N.lxor h (N_of_ascii d) * fnv_prime).
Definition fnv1a (d : Bytes) : N := foldl fnv_step fnv_offset d.

(** ** Little-endian integers *)

(** [(std::uint8_t)((v >> (8*i)) & 0xFF)] for [i] below [n]. *)
Definition le_byte (v : N) (i : nat) : ascii := ascii_of_N (N.land (N.shiftr v (8 * N.of_nat i)) 255).
Definition le_encode (n : nat) (v : N) : Bytes := le_byte v <$> seq 0 n.

(** [v |= (std::uint64_t)d[i] << (8*i)]. *)
Fixpoint le_or (v i : N) (d : Bytes) : N :=
  match d with
  | [] => v
  | b :: d => le_or (N.lor v (N.shiftl (N_of_ascii b) (8 * i))) (i + 1) d
  end.
Definition le_decode (d : Bytes) : N := le_or 0 0 d.

(** ** [Writer] *)

Definition Writer := M Bytes Exn ().

Definition append (d : Bytes) : Writer := modify (λ buf, buf ++ d).
Definition w_u8 (v : N) : Writer := append (le_encode 1 v).
Definition w_u32 (v : N) : Writer := append (le_encode 4 v).
Definition w_u64 (v : N) : Writer := append (le_encode 8 v).
Definition w_str (s : string) : Writer :=
  let d := list_ascii_of_string s in
  throw_error_if (kMaxStr <? size_of d) BoundsExceeded "string too long";;
  w_u32 (u32 (size_of d));;
  append d.

Definition w_bool (b : bool) : Writer := w_u8 (b2n b).
Definition w_id {t} (v : Identity t) : Writer := w_u64 (Identity.raw v).
Definition w_gen {t} (v : Generation t) : Writer := w_u64 (Generation.raw v).
Definition w_enum `{Enum T} (e : T) : Writer := w_u32 (u32 (enum_to_int e)).

(** The count, cast to [std::uint32_t], and the elements. *)
Definition w_vec {A} (w : A → Writer) (l : list A) : Writer :=
  w_u32 (u32 (N.of_nat (length l)));;
  for_each w l.

(** ** [Reader]

    The state is what is left between [pos_] and [n_]; [return false] is the
    throw of [()]. *)

Definition Reader (A : Type) := M Bytes () A.

Definition take_bytes (n : N) : Reader Bytes := λ d,
  if size_of d <? n then (Throw (), d)
  else (Ok (take (N.to_nat n) d), drop (N.to_nat n) d).

Definition r_uint (n : N) : Reader N := d ← take_bytes n; mret (le_decode d).
Definition r_u8 : Reader N := r_uint 1.
Definition r_u32 : Reader N := r_uint 4.
Definition r_u64 : Reader N := r_uint 8.
Definition r_strn (len : N) : Reader string :=
  throw_if (kMaxStr <? len) ();;
  d ← take_bytes len;
  mret (string_of_list_ascii d).
Definition r_str : Reader string := len ← r_u32; r_strn len.

Definition r_bool : Reader bool := b ← r_u8; mret (negb (b =? 0)).
Definition r_id {t} : Reader (Identity t) := x ← r_u64; mret (mkId x).
Definition r_gen {t} : Reader (Generation t) := x ← r_u64; mret (mkGen x).
(** The range check, then the cast. *)
Definition r_enum `{Enum T} : Reader T :=
  x ← r_u32;
  throw_if (enum_max (T := T) <? x) ();;
  match enum_of_int x with
  | Some e => mret e
  | None => throw ()
  end.

Fixpoint r_many {A} (r : Reader A) (n : nat) : Reader (list A) :=
  match n with
  | O => mret []
  | S n => x ← r; l ← r_many r n; mret (x :: l)
  end.
Definition r_vec {A} (r : Reader A) : Reader (list A) :=
  n ← r_u32;
  throw_if (kMaxCount <? n) ();;
  r_many r (N.to_nat n).

(** ** Integers round trip *)

Lemma N_of_ascii_lt b : N_of_ascii b < 256.
Proof. destruct b as [[] [] [] [] [] [] [] []]; vm_compute; reflexivity. Qed.

Lemma le_byte_bits v i j :
  N.testbit (N_of_ascii (le_byte v i)) j = (j <? 8) && N.testbit v (j + 8 * N.of_nat i).
Proof.
  rw /le_byte N_ascii_embedding.
  - change 255 with (N.ones 8). rw N.land_spec N.shiftr_spec'. case: N.ltb_spec => Hj.
    + by rw N.ones_spec_low // andb_true_r.
    + by rw N.ones_spec_high // andb_false_r.
  - change 255 with (N.ones 8). rw N.land_ones. by apply N.mod_lt.
Qed.

Lemma le_or_bits d v i k :
  N.testbit (le_or v i d) k
  = N.testbit v k
    || match d !! N.to_nat (k / 8 - i) with
       | Some b => (i <=? k / 8) && N.testbit (N_of_ascii b) (k mod 8)
       | None => false
       end.
Proof.
  revert v i. induction d as [|b d IH]; intros v i; [by rw /= orb_false_r|].
  cbn [le_or]. rw IH N.lor_spec -orb_assoc. f_equal.
  assert (k = 8 * (k / 8) + k mod 8) as Hk by (apply N.div_mod; lia).
  pose proof (N.mod_lt k 8 ltac:(lia)) as Hm. set (q := k / 8) in *. set (r := k mod 8) in *.
  case: (N.lt_trichotomy q i) => [Hlt|[Heq|Hgt]].
  - rw N.shiftl_spec_low; [|lia]. rw (proj2 (N.leb_gt (i + 1) q)); [|lia].
    rw (proj2 (N.leb_gt i q)); [|lia]. by do 2 case_match.
  - rw N.shiftl_spec_high' ?Heq; [|lia]. rw (proj2 (N.leb_gt (i + 1) i)); [|lia].
    rw N.sub_diag /= N.leb_refl. replace (k - 8 * i) with r by lia.
    case_match; by rw ?orb_false_r.
  - rw N.shiftl_spec_high'; [|lia].
    assert (N.testbit (N_of_ascii b) (k - 8 * i) = false) as ->.
    { destruct (N.eq_dec (N_of_ascii b) 0) as [->|H0]; [apply N.bits_0|].
      apply N.bits_above_log2. pose proof (N_of_ascii_lt b).
      assert (N.log2 (N_of_ascii b) < 8) by (apply N.log2_lt_pow2; [lia|done]). lia. }
    replace (N.to_nat (q - i)) with (S (N.to_nat (q - (i + 1)))) by lia. simpl.
    by rw (proj2 (N.leb_le (i + 1) q)) ?(proj2 (N.leb_le i q)); [|lia..].
Qed.

Lemma length_le_encode n v : length (le_encode n v) = n.
Proof. by rw /le_encode length_fmap length_seq. Qed.

Lemma le_decode_bits d k :
  N.testbit (le_decode d) k
  = match d !! N.to_nat (k / 8) with
    | Some b => N.testbit (N_of_ascii b) (k mod 8)
    | None => false
    end.
Proof. by rw /le_decode le_or_bits N.bits_0 N.sub_0_r (proj2 (N.leb_le 0 _) (N.le_0_l _)). Qed.

Lemma testbit_bound v n k : v < 2 ^ n → n <= k → N.testbit v k = false.
Proof.
  intros Hv Hk. destruct (N.eq_dec v 0) as [->|H0]; [apply N.bits_0|].
  apply N.bits_above_log2. assert (N.log2 v < n) by (apply N.log2_lt_pow2; [lia|done]). lia.
Qed.

Lemma le_decode_encode n v : v < 2 ^ (8 * N.of_nat n) → le_decode (le_encode n v) = v.
Proof.
  intros Hv. apply N.bits_inj. intros k. rw le_decode_bits /le_encode list_lookup_fmap.
  pose proof (N.mod_lt k 8 ltac:(lia)) as Hm. pose proof (N.div_mod k 8 ltac:(lia)) as Hk.
  destruct (decide (N.to_nat (k / 8) < n)%nat) as [Hlt|Hge].
  - rw lookup_seq_lt //=. rw le_byte_bits (proj2 (N.ltb_lt _ _) Hm) N2Nat.id andb_true_l. f_equal. lia.
  - rw lookup_seq_ge; [|lia]. symmetry. apply (testbit_bound _ (8 * N.of_nat n)); [done|].
    revert Hk Hm. set (q := k / 8) in *. set (r := k mod 8). clearbody q r. lia.
Qed.


Lemma le_decode_lt d : le_decode d < 2 ^ (8 * N.of_nat (length d)).
Proof.
  assert (le_decode d = le_decode d mod 2 ^ (8 * N.of_nat (length d))) as ->; [|by apply N.mod_lt, N.pow_nonzero].
  apply N.bits_inj. intros k. destruct (N.lt_ge_cases k (8 * N.of_nat (length d))) as [Hlt|Hge].
  - by rw N.mod_pow2_bits_low.
  - rw N.mod_pow2_bits_high // le_decode_bits lookup_ge_None_2 //.
    pose proof (N.div_mod k 8 ltac:(lia)). pose proof (N.mod_lt k 8 ltac:(lia)). lia.
Qed.

(** The bytes of an integer are those it decodes from. *)
Lemma le_decode_inj d d' : length d = length d' → le_decode d = le_decode d' → d = d'.
Proof.
  intros Hlen Heq. apply list_eq. intros i.
  destruct (decide (i < length d)%nat) as [Hi|Hi]; [|by rw !lookup_ge_None_2; [|lia..]].
  destruct (lookup_lt_is_Some_2 d i Hi) as [b Hb].
  destruct (lookup_lt_is_Some_2 d' i ltac:(lia)) as [b' Hb']. rw Hb Hb'. f_equal.
  assert (N_of_ascii b = N_of_ascii b') as Hbb; [|by rw -(ascii_N_embedding b) Hbb ascii_N_embedding].
  apply N.bits_inj. intros j. destruct (N.lt_ge_cases j 8) as [Hj|Hj].
  - pose proof (le_decode_bits d (j + N.of_nat i * 8)) as H1.
    pose proof (le_decode_bits d' (j + N.of_nat i * 8)) as H2. revert H1 H2.
    rw N.div_add ?N.Div0.mod_add ?(N.mod_small j) ?(N.div_small j) //.
    rw N.add_0_l Nat2N.id Hb Hb' Heq. congruence.
  - rw !(testbit_bound _ 8 j) //; change (2 ^ 8) with 256; apply N_of_ascii_lt.
Qed.

(** ** The checksum tells single-byte changes apart

    Each step of an FNV-1a checksum of [w] bits xors a byte in and multiplies
    by an odd prime, which is invertible modulo 2^w, so a step is injective in
    the state and in the byte. *)

Section fnv.
Context (w offset prime inverse : N) (Hw : 8 <= w) (Hoffset : offset < 2 ^ w)
  (Hinverse : (prime * inverse) mod 2 ^ w = 1).

Let step (h : N) (d : ascii) : N := (N.lxor h (N_of_ascii d) * prime) mod 2 ^ w.

Lemma pow_width_pos : 2 ^ w ≠ 0.
Proof. by apply N.pow_nonzero. Qed.

Lemma times_prime_inj a b :
  a < 2 ^ w → b < 2 ^ w → (a * prime) mod 2 ^ w = (b * prime) mod 2 ^ w → a = b.
Proof.
  intros Ha Hb Heq. rw -(N.mod_small a (2 ^ w)) // -(N.mod_small b (2 ^ w)) //.
  assert (∀ x, x mod 2 ^ w = ((x * prime) mod 2 ^ w * inverse) mod 2 ^ w) as Hinv;
    [|by rw (Hinv a) (Hinv b) Heq].
  intros x. rw N.Div0.mul_mod_idemp_l -N.mul_assoc -N.Div0.mul_mod_idemp_r.
  by rw Hinverse N.mul_1_r.
Qed.

Lemma lxor_lt a b : a < 2 ^ w → b < 2 ^ w → N.lxor a b < 2 ^ w.
Proof.
  intros Ha Hb. destruct (N.eq_dec (N.lxor a b) 0) as [->|H0]; [pose proof pow_width_pos; lia|].
  apply N.log2_lt_pow2; [lia|]. apply N.nle_gt. intros Hle.
  pose proof (N.bit_log2 (N.lxor a b) H0) as Hbit. revert Hbit.
  by rw N.lxor_spec (testbit_bound a w) ?(testbit_bound b w).
Qed.

Lemma byte_lt b : N_of_ascii b < 2 ^ w.
Proof.
  eapply N.lt_le_trans; [apply N_of_ascii_lt|]. change 256 with (2 ^ 8). by apply N.pow_le_mono_r.
Qed.

Lemma step_lt h d : step h d < 2 ^ w.
Proof. apply N.mod_lt, pow_width_pos. Qed.
#[local] Hint Resolve byte_lt step_lt lxor_lt : core.

Lemma lxor_cancel a b c : N.lxor a b = N.lxor a c → b = c.
Proof. intros H. by rw -(N.lxor_0_l b) -(N.lxor_nilpotent a) N.lxor_assoc H -N.lxor_assoc N.lxor_nilpotent N.lxor_0_l. Qed.

Lemma step_byte_inj h d d' : h < 2 ^ w → step h d = step h d' → d = d'.
Proof.
  intros Hh Heq. apply times_prime_inj in Heq; [|auto..]. apply lxor_cancel in Heq.
  by rw -(ascii_N_embedding d) Heq ascii_N_embedding.
Qed.
Lemma step_state_inj h h' d : h < 2 ^ w → h' < 2 ^ w → step h d = step h' d → h = h'.
Proof.
  intros Hh Hh' Heq. apply times_prime_inj in Heq; [|auto..].
  rw (N.lxor_comm h) (N.lxor_comm h') in Heq. by apply lxor_cancel in Heq.
Qed.

Lemma fold_state_inj l h h' :
  h < 2 ^ w → h' < 2 ^ w → foldl step h l = foldl step h' l → h = h'.
Proof.
  revert h h'. induction l as [|d l IH]; intros h h' Hh Hh' Heq; [done|].
  apply (step_state_inj h h' d); [done..|]. by apply IH.
Qed.
Lemma fold_lt l : foldl step offset l < 2 ^ w.
Proof.
  revert Hoffset. generalize offset.
  induction l as [|b l IH]; intros h Hh; [done|]. by apply IH.
Qed.

Lemma fold_middle_inj p b c q :
  foldl step offset (p ++ c :: q) = foldl step offset (p ++ b :: q) → c = b.
Proof.
  pose proof (fold_lt p) as Hp. rw !foldl_app /=. intros Heq.
  apply fold_state_inj in Heq; [|auto..]. by eapply step_byte_inj.
Qed.

Lemma fold_insert d i b c :
  d !! i = Some b → foldl step offset (<[i := c]> d) = foldl step offset d → c = b.
Proof.
  intros Hi Heq. apply (fold_middle_inj (take i d) b c (drop (S i) d)).
  rw (take_drop_middle d i b Hi) -insert_take_drop //. by eapply lookup_lt_Some.
Qed.
End fnv.

Definition fnv_inverse : N := 14886173955864302971.

Lemma fnv1a_lt d : fnv1a d < 2 ^ 64.
Proof. by apply (fold_lt 64 fnv_offset fnv_prime). Qed.
Lemma fnv1a_middle_inj p b c q : fnv1a (p ++ c :: q) = fnv1a (p ++ b :: q) → c = b.
Proof. by apply (fold_middle_inj 64 fnv_offset fnv_prime fnv_inverse). Qed.
Lemma fnv1a_insert d i b c : d !! i = Some b → fnv1a (<[i := c]> d) = fnv1a d → c = b.
Proof. by apply (fold_insert 64 fnv_offset fnv_prime fnv_inverse). Qed.

(** ** Round trips

    [writes w d]: [w] appends [d].  [reads r d x]: [r] reads [x] off [d] and
    leaves what follows. *)

Definition writes (w : Writer) (d : Bytes) : Prop := ∀ buf, w buf = (Ok (), buf ++ d).
Definition reads {E A} (r : M Bytes E A) (d : Bytes) (x : A) : Prop :=
  ∀ rest, r (d ++ rest) = (Ok x, rest).
Definition round_trips {E A} (w : Writer) (r : M Bytes E A) (x : A) : Prop :=
  ∃ d, writes w d ∧ reads r d x.

Lemma writes_append d : writes (append d) d.
Proof. done. Qed.
Lemma writes_ret : writes (mret ()) [].
Proof. intros buf. by rw app_nil_r. Qed.
Lemma writes_bind w w' d d' : writes w d → writes w' d' → writes (w;; w') (d ++ d').
Proof. intros Hw Hw' buf. by rw /mbind /M_bind Hw Hw' app_assoc. Qed.

Lemma reads_ret {E A} (x : A) : reads (E:=E) (mret x) [] x.
Proof. done. Qed.
Lemma reads_bind {E A B} (r : M Bytes E A) (k : A → M Bytes E B) d d' x y :
  reads r d x → reads (k x) d' y → reads (r ≫= k) (d ++ d') y.
Proof. intros Hr Hk rest. by rw /mbind /M_bind -app_assoc Hr Hk. Qed.

Lemma round_trips_bind {E A B} w w' (r : M Bytes E A) (k : A → M Bytes E B) x y :
  round_trips w r x → round_trips w' (k x) y → round_trips (w;; w') (r ≫= k) y.
Proof.
  intros (d & Hw & Hr) (d' & Hw' & Hk). exists (d ++ d').
  split; [by apply writes_bind|by eapply reads_bind].
Qed.
Lemma round_trips_last {E A B} w (r : M Bytes E A) (f : A → B) x :
  round_trips w r x → round_trips w (x ← r; mret (f x)) (f x).
Proof.
  intros (d & Hw & Hr). exists d. split; [done|]. rw -(app_nil_r d).
  eapply reads_bind; [exact Hr|apply reads_ret].
Qed.

(** Values that fit their width, strings the writer accepts. *)
Definition fits (w : N) (n : N) : Prop := n < 2 ^ w.
Definition str_fits (s : string) : Prop := size_of (list_ascii_of_string s) <= kMaxStr.

Lemma round_trips_uint n v :
  fits (8 * N.of_nat n) v → round_trips (append (le_encode n v)) (r_uint (N.of_nat n)) v.
Proof.
  intros Hv. exists (le_encode n v). split; [done|]. intros rest.
  rw /r_uint /mbind /M_bind /take_bytes /size_of length_app length_le_encode.
  case: N.ltb_spec => ?; [lia|].
  rw Nat2N.id take_app_length' ?length_le_encode // drop_app_length' ?length_le_encode //.
  by rw le_decode_encode.
Qed.

Lemma round_trips_u32 v : fits 32 v → round_trips (w_u32 v) r_u32 v.
Proof. apply (round_trips_uint 4). Qed.
Lemma round_trips_u64 v : fits 64 v → round_trips (w_u64 v) r_u64 v.
Proof. apply (round_trips_uint 8). Qed.
Lemma round_trips_bool b : round_trips (w_bool b) r_bool b.
Proof.
  replace b with (negb (b2n b =? 0)) at 2 by (by destruct b).
  apply (round_trips_last _ r_u8 (λ n, negb (n =? 0))), (round_trips_uint 1). by destruct b.
Qed.
Lemma round_trips_id {t} (x : Identity t) : fits 64 (id_raw x) → round_trips (w_id x) r_id x.
Proof.
  intros Hx. replace x with (mkId (t:=t) (id_raw x)) at 2 by (by destruct x).
  by apply (round_trips_last _ r_u64 mkId), round_trips_u64.
Qed.
Lemma round_trips_gen {t} (x : Generation t) : fits 64 (gen_raw x) → round_trips (w_gen x) r_gen x.
Proof.
  intros Hx. replace x with (mkGen (t:=t) (gen_raw x)) at 2 by (by destruct x).
  by apply (round_trips_last _ r_u64 mkGen), round_trips_u64.
Qed.

Lemma round_trips_throw_if {E A} w c (e : E) (r : M Bytes E A) x :
  c = false → round_trips w r x → round_trips w (throw_if c e;; r) x.
Proof. by intros ->. Qed.

Lemma round_trips_enum `{Enum T} (e : T) : enum_named e = true → round_trips (w_enum e) r_enum e.
Proof.
  intros He. pose proof (enum_to_le e He) as Hle. pose proof (enum_max_lt (T:=T)) as Hmax.
  rw /w_enum u32_small; [|lia]. destruct (round_trips_u32 (enum_to_int e)) as (d & Hw & Hr).
  { rw /fits. lia. }
  exists d. split; [done|]. intros rest. rw /r_enum /mbind /M_bind Hr.
  case: N.ltb_spec => ? /=; [lia|]. by rw /= (enum_of_to e He).
Qed.

Lemma round_trips_str s : str_fits s → round_trips (w_str s) r_str s.
Proof.
  rw /str_fits => Hs. set (d := list_ascii_of_string s) in *.
  assert (kMaxStr < 2 ^ 32) by done.
  destruct (round_trips_u32 (size_of d)) as (l & Hw & Hr); [rw /fits; lia|].
  exists (l ++ d). split.
  - rw /w_str -/d. cbv zeta. rw (proj2 (N.ltb_ge _ _) Hs) u32_small; [|lia].
    intros buf. rw /throw_error_if /=. exact (writes_bind _ _ _ _ Hw (writes_append d) buf).
  - intros rest. rw /r_str /mbind /M_bind -app_assoc Hr /r_strn (proj2 (N.ltb_ge _ _) Hs) /=.
    cbv beta iota delta [mbind M_bind mret M_ret take_bytes]. rw /size_of length_app.
    case: N.ltb_spec => ?; [lia|].
    by rw Nat2N.id take_app_length drop_app_length /d string_of_list_ascii_of_string.
Qed.

Lemma round_trips_many {A} (w : A → Writer) (r : Reader A) (P : A → Prop) l :
  (∀ x, P x → round_trips (w x) r x) → Forall P l →
  round_trips (for_each w l) (r_many r (length l)) l.
Proof.
  intros Hr. induction 1 as [|x l Hx Hl IH]; [exists []; split; [apply writes_ret|done]|].
  eapply round_trips_bind; [by apply Hr|]. by apply (round_trips_last _ (r_many r (length l)) (cons x)).
Qed.

Lemma round_trips_vec {A} (w : A → Writer) (r : Reader A) (P : A → Prop) l :
  (∀ x, P x → round_trips (w x) r x) → Forall P l → N.of_nat (length l) <= kMaxCount →
  round_trips (w_vec w l) (r_vec r) l.
Proof.
  intros Hr Hl Hn. assert (kMaxCount < 2 ^ 32) by done.
  rw /w_vec u32_small; [|lia]. eapply round_trips_bind; [apply round_trips_u32; rw /fits; lia|].
  apply round_trips_throw_if; [by apply N.ltb_ge|]. rw Nat2N.id. by eapply round_trips_many.
Qed.

(** ** What is read is well formed, and writes back to as many bytes *)

Definition writes_n (w : Writer) (n : nat) : Prop := ∃ d, length d = n ∧ writes w d.

(** Whatever [r] reads satisfies [Q] of the value and of the bytes it took. *)
Definition yields {E A} (r : M Bytes E A) (Q : A → nat → Prop) : Prop :=
  ∀ d x rest, r d = (Ok x, rest) → ∃ n, length d = (n + length rest)%nat ∧ Q x n.
Definition sound {E A} (w : A → Writer) (r : M Bytes E A) (P : A → Prop) : Prop :=
  yields r (λ x n, P x ∧ writes_n (w x) n).

Lemma writes_n_bind w w' n n' : writes_n w n → writes_n w' n' → writes_n (w;; w') (n + n').
Proof.
  intros (d & <- & Hw) (d' & <- & Hw'). exists (d ++ d'). split; [apply length_app|by apply writes_bind].
Qed.
Lemma writes_n_last w n : writes_n w n → writes_n w (n + 0).
Proof. by rw Nat.add_0_r. Qed.

Lemma yields_ret {E A} (x : A) (Q : A → nat → Prop) : Q x 0%nat → yields (E:=E) (mret x) Q.
Proof. intros HQ d y rest [= <- <-]. by exists 0%nat. Qed.
Lemma yields_bind {E A B} (r : M Bytes E A) (k : A → M Bytes E B) (Q : B → nat → Prop) :
  yields r (λ x n, yields (k x) (λ y m, Q y (n + m)%nat)) → yields (r ≫= k) Q.
Proof.
  intros Hr d y rest. rw /mbind /M_bind. destruct (r d) as [[x|e] rest'] eqn:Hd; [|done].
  intros Hk. destruct (Hr _ _ _ Hd) as (n & Hn & HQ). destruct (HQ _ _ _ Hk) as (m & Hm & HQ').
  exists (n + m)%nat. split; [lia|done].
Qed.
Lemma yields_mono {E A} (r : M Bytes E A) (Q Q' : A → nat → Prop) :
  yields r Q → (∀ x n, Q x n → Q' x n) → yields r Q'.
Proof. intros Hr HQ d x rest Hd. destruct (Hr _ _ _ Hd) as (n & Hn & Hx). exists n. auto. Qed.
Lemma yields_sound {E A} (w : A → Writer) (r : M Bytes E A) P (Q : A → nat → Prop) :
  sound w r P → (∀ x n, P x → writes_n (w x) n → Q x n) → yields r Q.
Proof. intros Hs HQ. eapply yields_mono; [exact Hs|]. intros x n []. auto. Qed.
Lemma yields_throw_if {E B} c (e : E) (k : M Bytes E B) (Q : B → nat → Prop) :
  (c = false → yields k Q) → yields (throw_if c e;; k) Q.
Proof.
  intros Hk. apply yields_bind. destruct c; [by intros ???|]. apply yields_ret. by apply Hk.
Qed.

(** Reading one field and going on. *)
Lemma yields_field {E A B} (w : A → Writer) (r : M Bytes E A) P (k : A → M Bytes E B) (Q : B → nat → Prop) :
  sound w r P →
  (∀ x n, P x → writes_n (w x) n → yields (k x) (λ y m, Q y (n + m)%nat)) → yields (r ≫= k) Q.
Proof. intros Hs Hk. apply yields_bind. by eapply yields_sound. Qed.

Lemma sound_uint n :
  sound (λ v, append (le_encode n v)) (r_uint (N.of_nat n)) (fits (8 * N.of_nat n)).
Proof.
  intros d x rest. rw /r_uint /mbind /M_bind /take_bytes /size_of.
  case: N.ltb_spec => [//|Hle]. intros [= <- <-]. rw Nat2N.id.
  assert (length (take n d) = n) as Hlen by (rw length_take; lia).
  exists n. rw length_drop. split; [lia|]. split; [|exists (le_encode n (le_decode (take n d)))].
  - rw /fits -{2}Hlen. apply le_decode_lt.
  - by rw length_le_encode.
Qed.
Lemma sound_u32 : sound w_u32 r_u32 (fits 32).
Proof. apply (sound_uint 4). Qed.
Lemma sound_u64 : sound w_u64 r_u64 (fits 64).
Proof. apply (sound_uint 8). Qed.

(** A change of the value read: the bytes may differ, their number does not. *)
Lemma sound_map {A B} (w : A → Writer) (w' : B → Writer) (r : Reader A) (P : A → Prop)
    (P' : B → Prop) (f : A → B) :
  sound w r P → (∀ x, P x → P' (f x)) → (∀ x n, P x → writes_n (w x) n → writes_n (w' (f x)) n) →
  sound w' (x ← r; mret (f x)) P'.
Proof.
  intros Hs HP Hw. eapply yields_field; [exact Hs|]. intros x n Hx Hn. apply yields_ret.
  rw Nat.add_0_r. auto.
Qed.

Lemma sound_id {t} : sound (w_id (t:=t)) r_id (λ x, fits 64 (id_raw x)).
Proof. by apply (sound_map w_u64 _ _ (fits 64)); [apply sound_u64|..]. Qed.
Lemma sound_gen {t} : sound (w_gen (t:=t)) r_gen (λ x, fits 64 (gen_raw x)).
Proof. by apply (sound_map w_u64 _ _ (fits 64)); [apply sound_u64|..]. Qed.
Lemma sound_bool : sound w_bool r_bool (λ _, True).
Proof.
  apply (sound_map w_u8 _ r_u8 (fits (8 * N.of_nat 1))); [apply (sound_uint 1)|done|].
  intros x n _ (d & <- & Hd). specialize (Hd []). injection Hd as <-.
  eexists. split; [|apply writes_append]. by rw !length_le_encode.
Qed.

Lemma sound_enum `{Enum T} : sound w_enum (r_enum (T:=T)) (λ e, enum_named e = true).
Proof.
  pose proof (enum_max_lt (T:=T)) as Hmax.
  eapply yields_field; [apply sound_u32|]. intros x n Hx Hn. apply yields_throw_if.
  intros Hle%N.ltb_ge. destruct (enum_of_int_sound x Hle) as (e & -> & He & Hnamed).
  apply yields_ret. split; [done|]. rw Nat.add_0_r /w_enum He u32_small //.
Qed.

Lemma sound_str : sound w_str r_str str_fits.
Proof.
  assert (kMaxStr < 2 ^ 32) by done.
  eapply yields_field; [apply sound_u32|]. intros len n Hlen (l & Hl & Hw).
  apply yields_throw_if. intros Hle%N.ltb_ge d x rest. rw /take_bytes /mbind /M_bind.
  case: N.ltb_spec => [//|Hd]. intros [= <- <-]. rw /size_of in Hd.
  assert (length (take (N.to_nat len) d) = N.to_nat len) as Htake by (rw length_take; lia).
  exists (N.to_nat len). rw length_drop. split; [lia|].
  rw /str_fits /size_of list_ascii_of_string_of_list_ascii Htake N2Nat.id. split; [done|].
  exists (l ++ take (N.to_nat len) d). split; [rw length_app; lia|].
  rw /w_str list_ascii_of_string_of_list_ascii. cbv zeta.
  rw /size_of Htake N2Nat.id (proj2 (N.ltb_ge _ _) Hle) u32_small; [|lia].
  intros buf. exact (writes_bind _ _ _ _ Hw (writes_append _) buf).
Qed.

Lemma sound_many {A} (w : A → Writer) (r : Reader A) P n :
  sound w r P →
  yields (r_many r n) (λ l m, length l = n ∧ Forall P l ∧ writes_n (for_each w l) m).
Proof.
  intros Hs. induction n as [|n IH].
  - apply yields_ret. split_and!; [done|by constructor|]. exists []. by split; [|apply writes_ret].
  - eapply yields_field; [exact Hs|]. intros x m Hx Hm. apply yields_bind.
    eapply yields_mono; [exact IH|]. intros l k (Hl & HP & Hk). apply yields_ret.
    rw Nat.add_0_r. split_and!; [by rw /= Hl|by constructor|]. by apply writes_n_bind.
Qed.

Lemma sound_vec {A} (w : A → Writer) (r : Reader A) P :
  sound w r P →
  sound (w_vec w) (r_vec r) (λ l, Forall P l ∧ N.of_nat (length l) <= kMaxCount).
Proof.
  intros Hs. assert (kMaxCount < 2 ^ 32) by done.
  eapply yields_field; [apply sound_u32|]. intros n m Hn Hm. apply yields_throw_if.
  intros Hle%N.ltb_ge. eapply yields_mono; [by apply sound_many|].
  intros l k (Hl & HP & Hk). assert (N.of_nat (length l) = n) as Hl' by lia. split; [by rw Hl'|].
  rw /w_vec Hl' u32_small; [|lia]. by apply writes_n_bind.
Qed.
