(* ===== verification/Frame.v ===== *)
(** * Frames

    [protocol/frame.cpp] and the receive loop of [protocol/net.cpp]: the framed
    wire format, its decoder over a receive buffer, and the reassembly of a
    stream that arrives in pieces. *)

From Stdlib Require Import Ascii String.
From S2P Require Import Prelude Identities Enums Model Codec.
Local Open Scope N_scope.

(** ** Messages (protocol.hpp) *)

Module MessageType.
Inductive t := | HELLO | REGISTER | REGISTER_ACK | PUBLISH_BACKEND | PUBLISH_DEVICE | PUBLISH_COMPONENT
   | PREPARE | PREPARE_RESULT | WARMUP_RESULT | QUERY_READINESS | ASSIGN_STANDBY | ACTIVATE
   | ACQUIRE_USE | RELEASE_USE | EXECUTION_RESULT | INVALIDATE | DRAIN | DRAIN_RESULT
   | REPLACE | FENCE_WORKER | REVALIDATE | SAVE | SHUTDOWN | ERROR
   | EXECUTE | COMMAND_READY | QUERY_DRAIN.

#[global] Instance t_eq_dec : EqDecision t.
Proof. solve_decision. Defined.

Definition to_int (v : t) : N :=
  match v with
  | HELLO => 1
  | REGISTER => 2
  | REGISTER_ACK => 3
  | PUBLISH_BACKEND => 4
  | PUBLISH_DEVICE => 5
  | PUBLISH_COMPONENT => 6
  | PREPARE => 7
  | PREPARE_RESULT => 8
  | WARMUP_RESULT => 9
  | QUERY_READINESS => 10
  | ASSIGN_STANDBY => 11
  | ACTIVATE => 12
  | ACQUIRE_USE => 13
  | RELEASE_USE => 14
  | EXECUTION_RESULT => 15
  | INVALIDATE => 16
  | DRAIN => 17
  | DRAIN_RESULT => 18
  | REPLACE => 19
  | FENCE_WORKER => 20
  | REVALIDATE => 21
  | SAVE => 22
  | SHUTDOWN => 23
  | ERROR => 24
  | EXECUTE => 25
  | COMMAND_READY => 26
  | QUERY_DRAIN => 27
  end.
(** The cast from the byte of the frame, of no value beyond the enumerators. *)
Definition of_int (n : N) : option t :=
  match n with
  | 1 => Some HELLO
  | 2 => Some REGISTER
  | 3 => Some REGISTER_ACK
  | 4 => Some PUBLISH_BACKEND
  | 5 => Some PUBLISH_DEVICE
  | 6 => Some PUBLISH_COMPONENT
  | 7 => Some PREPARE
  | 8 => Some PREPARE_RESULT
  | 9 => Some WARMUP_RESULT
  | 10 => Some QUERY_READINESS
  | 11 => Some ASSIGN_STANDBY
  | 12 => Some ACTIVATE
  | 13 => Some ACQUIRE_USE
  | 14 => Some RELEASE_USE
  | 15 => Some EXECUTION_RESULT
  | 16 => Some INVALIDATE
  | 17 => Some DRAIN
  | 18 => Some DRAIN_RESULT
  | 19 => Some REPLACE
  | 20 => Some FENCE_WORKER
  | 21 => Some REVALIDATE
  | 22 => Some SAVE
  | 23 => Some SHUTDOWN
  | 24 => Some ERROR
  | 25 => Some EXECUTE
  | 26 => Some COMMAND_READY
  | 27 => Some QUERY_DRAIN
  | _ => None
  end.
Definition to_string (v : t) : string :=
  match v with
  | HELLO => "HELLO"
  | REGISTER => "REGISTER"
  | REGISTER_ACK => "REGISTER_ACK"
  | PUBLISH_BACKEND => "PUBLISH_BACKEND"
  | PUBLISH_DEVICE => "PUBLISH_DEVICE"
  | PUBLISH_COMPONENT => "PUBLISH_COMPONENT"
  | PREPARE => "PREPARE"
  | PREPARE_RESULT => "PREPARE_RESULT"
  | WARMUP_RESULT => "WARMUP_RESULT"
  | QUERY_READINESS => "QUERY_READINESS"
  | ASSIGN_STANDBY => "ASSIGN_STANDBY"
  | ACTIVATE => "ACTIVATE"
  | ACQUIRE_USE => "ACQUIRE_USE"
  | RELEASE_USE => "RELEASE_USE"
  | EXECUTION_RESULT => "EXECUTION_RESULT"
  | INVALIDATE => "INVALIDATE"
  | DRAIN => "DRAIN"
  | DRAIN_RESULT => "DRAIN_RESULT"
  | REPLACE => "REPLACE"
  | FENCE_WORKER => "FENCE_WORKER"
  | REVALIDATE => "REVALIDATE"
  | SAVE => "SAVE"
  | SHUTDOWN => "SHUTDOWN"
  | ERROR => "ERROR"
  | EXECUTE => "EXECUTE"
  | COMMAND_READY => "COMMAND_READY"
  | QUERY_DRAIN => "QUERY_DRAIN"
  end.

Lemma of_to_int v : of_int (to_int v) = Some v.
Proof. by destruct v. Qed.
Lemma to_int_range v : 1 <= to_int v <= 27.
Proof. destruct v; vm_compute; split; discriminate. Qed.
Lemma of_int_range n : 1 <= n <= 27 → ∃ v, of_int n = Some v ∧ to_int v = n.
Proof.
  intros Hn. assert (n ∈ (N.of_nat <$> seq 1 27)) as Hin.
  { apply list_elem_of_fmap. exists (N.to_nat n). rw N2Nat.id. split; [done|]. apply elem_of_seq. lia. }
  revert Hin. clear Hn. revert n. apply Forall_forall. repeat constructor; by eexists.
Qed.
End MessageType.
Abbreviation MessageType := MessageType.t.

Module ProtocolMessage.
Record t := mk {
  type : MessageType.t;
  epoch : N;
  authority : N;
  payload : Bytes;
}.

#[global] Instance eta : Eta t := fields! mk <type; epoch; authority; payload>.

Definition default : t := {|
  type := MessageType.HELLO; epoch := 0; authority := 0; payload := [];
|}.
End ProtocolMessage.
Abbreviation ProtocolMessage := ProtocolMessage.t.
Module Msg := ProtocolMessage.

Definition kProtoVersion : N := 1.
Definition kProtoMaxPayload : N := N.shiftl 1 20.
Definition kHeader : N := 4 + 1 + 1 + 4 + 4 + 4 + 4.

(** ** Checksum and integers *)

Definition proto_step (h : N) (c : ascii) : N := u32 (N.lxor h (N_of_ascii c) * 16777619).
Definition proto_checksum (bytes : Bytes) : N := foldl proto_step 2166136261 bytes.

Definition put_u32 (v : N) : Bytes := le_encode 4 v.
(** [get_u32(data + i)]. *)
Definition get_u32 (data : Bytes) (i : nat) : N := le_decode (take 4 (drop i data)).
Definition byte_at (data : Bytes) (i : nat) : N := N_of_ascii (nth i data Ascii.zero).

(** ** Encoding and decoding *)

Definition encode_frame (m : ProtocolMessage) (out : Bytes) : Bytes :=
  out ++ map ascii_of_N [0x45; 0x52; 0x46; 0x46]
      ++ [ascii_of_N kProtoVersion]
      ++ [ascii_of_N (MessageType.to_int m.(Msg.type))]
      ++ put_u32 m.(Msg.epoch)
      ++ put_u32 m.(Msg.authority)
      ++ put_u32 (u32 (size_of m.(Msg.payload)))
      ++ put_u32 (proto_checksum m.(Msg.payload))
      ++ m.(Msg.payload).

(** [decode_frame] returns true with a message and the bytes used, or false,
    with an [error] or, when it needs more data, without one. *)
Inductive Decoded :=
  | Frame (out : ProtocolMessage) (used : N)
  | NeedMore
  | Malformed (error : string).

Definition decode_frame (data : Bytes) : Decoded :=
  if size_of data <? kHeader then NeedMore
  else if negb (byte_at data 0 =? 0x45) || negb (byte_at data 1 =? 0x52)
          || negb (byte_at data 2 =? 0x46) || negb (byte_at data 3 =? 0x46) then
    Malformed "bad magic"
  else if negb (byte_at data 4 =? kProtoVersion) then Malformed "unsupported version"
  else
    let mt := byte_at data 5 in
    if (mt <? 1) || (27 <? mt) then Malformed "invalid message type"
    else
      let epoch := get_u32 data 6 in
      let authority := get_u32 data 10 in
      let plen := get_u32 data 14 in
      let chk := get_u32 data 18 in
      if kProtoMaxPayload <? plen then Malformed "oversized payload"
      else if size_of data <? kHeader + plen then NeedMore
      else
        let payload := take (N.to_nat plen) (drop (N.to_nat kHeader) data) in
        if negb (proto_checksum payload =? chk) then Malformed "checksum mismatch"
        else
          match MessageType.of_int mt with
          | Some type =>
            Frame {| Msg.type := type; Msg.epoch := epoch; Msg.authority := authority;
                     Msg.payload := payload |} (kHeader + plen)
          | None => Malformed "invalid message type"
          end.

(** ** The receive loop (net.cpp)

    [recv] hands over the stream in chunks, and the end of the list is the
    peer's close or an error; an empty chunk reads as one too. *)

Fixpoint recv_frame (rxbuf : Bytes) (chunks : list Bytes) : option ProtocolMessage * Bytes * list Bytes :=
  match decode_frame rxbuf with
  | Frame m used => (Some m, drop (N.to_nat used) rxbuf, chunks)
  | Malformed _ => (None, rxbuf, chunks)
  | NeedMore =>
    match chunks with
    | [] => (None, rxbuf, [])
    | [] :: chunks => (None, rxbuf, chunks)
    | chunk :: chunks => recv_frame (rxbuf ++ chunk) chunks
    end
  end.

(** As many frames as arrive, [n] at most. *)
Fixpoint recv_frames (n : nat) (rxbuf : Bytes) (chunks : list Bytes)
    : list ProtocolMessage * Bytes * list Bytes :=
  match n with
  | O => ([], rxbuf, chunks)
  | S n =>
    match recv_frame rxbuf chunks with
    | (Some m, rxbuf, chunks) =>
      let '(ms, rxbuf, chunks) := recv_frames n rxbuf chunks in (m :: ms, rxbuf, chunks)
    | (None, rxbuf, chunks) => ([], rxbuf, chunks)
    end
  end.

(** What the types of [ProtocolMessage] and the decoder's bound admit. *)
Definition msg_wf (m : ProtocolMessage) : Prop :=
  m.(Msg.epoch) < 2 ^ 32 ∧ m.(Msg.authority) < 2 ^ 32 ∧ size_of m.(Msg.payload) <= kProtoMaxPayload.
#[export] Instance msg_wf_dec m : Decision (msg_wf m).
Proof. rw /msg_wf. apply _. Defined.

(** ** The decoder is the inverse of the encoder *)

(** The 22 bytes in front of a payload, by their fields. *)
Definition header (type : MessageType) (epoch authority plen chk : N) : Bytes :=
  map ascii_of_N [0x45; 0x52; 0x46; 0x46; kProtoVersion; MessageType.to_int type]
    ++ put_u32 epoch ++ put_u32 authority ++ put_u32 plen ++ put_u32 chk.
#[local] Arguments header : simpl never.
Abbreviation frame m := (encode_frame m []).

Lemma frame_split m :
  frame m = header m.(Msg.type) m.(Msg.epoch) m.(Msg.authority)
              (u32 (size_of m.(Msg.payload))) (proto_checksum m.(Msg.payload)) ++ m.(Msg.payload).
Proof. by rw /encode_frame /header -!app_assoc. Qed.
Lemma length_header ty e a n c : length (header ty e a n c) = 22%nat.
Proof. by rw /header !length_app !length_le_encode. Qed.
(** All of it but the checksum. *)
Definition front (type : MessageType) (epoch authority plen : N) : Bytes :=
  map ascii_of_N [0x45; 0x52; 0x46; 0x46; kProtoVersion; MessageType.to_int type]
    ++ put_u32 epoch ++ put_u32 authority ++ put_u32 plen.
Lemma header_chk ty e a n c : header ty e a n c = front ty e a n ++ put_u32 c.
Proof. by rw /header /front -!app_assoc. Qed.
Lemma length_front ty e a n : length (front ty e a n) = 18%nat.
Proof. by rw /front !length_app !length_le_encode. Qed.
Lemma size_frame m : size_of (frame m) = kHeader + size_of m.(Msg.payload).
Proof. rw frame_split /size_of length_app length_header /kHeader. lia. Qed.

Lemma get_u32_put a v b i : v < 2 ^ 32 → length a = i → get_u32 (a ++ put_u32 v ++ b) i = v.
Proof.
  intros Hv <-. rw /get_u32 drop_app_length /put_u32 take_app_length' ?length_le_encode //.
  by apply le_decode_encode.
Qed.

(** Four bytes are the encoding of the integer they decode to. *)
Lemma put_get_u32 (data : Bytes) i :
  (i + 4 <= length data)%nat → put_u32 (get_u32 data i) = take 4 (drop i data).
Proof.
  intros Hi. assert (length (take 4 (drop i data)) = 4%nat) as Hlen by (rw length_take length_drop; lia).
  apply le_decode_inj; [by rw Hlen length_le_encode|].
  rw /put_u32 le_decode_encode //. pose proof (le_decode_lt (take 4 (drop i data))) as H.
  by rw Hlen in H.
Qed.

Lemma byte_at_eq (data : Bytes) i : (i < length data)%nat → take 1 (drop i data) = [ascii_of_N (byte_at data i)].
Proof.
  intros Hi. destruct (lookup_lt_is_Some_2 data i Hi) as [b Hb].
  rw (drop_S data b i Hb) /= /byte_at ascii_N_embedding.
  by rw (nth_lookup_Some data i Ascii.zero b Hb).
Qed.

Lemma proto_checksum_lt d : proto_checksum d < 2 ^ 32.
Proof. by apply (fold_lt 32 2166136261 16777619). Qed.
Lemma proto_checksum_insert d i b c :
  d !! i = Some b → proto_checksum (<[i := c]> d) = proto_checksum d → c = b.
Proof. by apply (fold_insert 32 2166136261 16777619 899433627). Qed.

(** A buffer is the fields of its header and what follows. *)
Lemma split_header (data : Bytes) :
  (22 <= length data)%nat →
  data = (take 1 (drop 0 data) ++ take 1 (drop 1 data) ++ take 1 (drop 2 data)
    ++ take 1 (drop 3 data) ++ take 1 (drop 4 data) ++ take 1 (drop 5 data))
    ++ (take 4 (drop 6 data) ++ take 4 (drop 10 data) ++ take 4 (drop 14 data)
    ++ take 4 (drop 18 data)) ++ drop 22 data.
Proof.
  intros Hlen. do 22 (destruct data as [|? data]; [simpl in Hlen; lia|]). done.
Qed.

(** What a header says of the bytes behind it. *)
Record header_fits (epoch authority plen chk : N) : Prop := {
  hf_epoch : epoch < 2 ^ 32;
  hf_authority : authority < 2 ^ 32;
  hf_plen : plen <= kProtoMaxPayload;
  hf_chk : chk < 2 ^ 32;
}.
Definition decode_tail (type : MessageType) (epoch authority plen chk : N) (tail : Bytes) : Decoded :=
  if size_of tail <? plen then NeedMore
  else
    let payload := take (N.to_nat plen) tail in
    if negb (proto_checksum payload =? chk) then Malformed "checksum mismatch"
    else Frame {| Msg.type := type; Msg.epoch := epoch; Msg.authority := authority;
                  Msg.payload := payload |} (kHeader + plen).

Lemma decode_any_header type epoch authority plen chk tail :
  epoch < 2 ^ 32 → authority < 2 ^ 32 → plen < 2 ^ 32 → chk < 2 ^ 32 →
  decode_frame (header type epoch authority plen chk ++ tail)
  = if kProtoMaxPayload <? plen then Malformed "oversized payload"
    else decode_tail type epoch authority plen chk tail.
Proof.
  intros He Ha Hp Hc. set (h := header type epoch authority plen chk).
  assert (get_u32 (h ++ tail) 6 = epoch) as E6.
  { rw /h /header -!app_assoc. by apply get_u32_put. }
  assert (get_u32 (h ++ tail) 10 = authority) as E10.
  { rw /h /header -!app_assoc (app_assoc (map _ _)). by apply get_u32_put. }
  assert (get_u32 (h ++ tail) 14 = plen) as E14.
  { rw /h /header -!app_assoc (app_assoc (map _ _)) (app_assoc (_ ++ _)). by apply get_u32_put. }
  assert (get_u32 (h ++ tail) 18 = chk) as E18.
  { rw /h /header -!app_assoc (app_assoc (map _ _)) (app_assoc (_ ++ _)) (app_assoc ((_ ++ _) ++ _)).
    by apply get_u32_put. }
  assert (size_of (h ++ tail) = kHeader + size_of tail) as Hsize.
  { rw /size_of length_app length_header /kHeader. lia. }
  assert (drop (N.to_nat kHeader) (h ++ tail) = tail) as Hdrop.
  { rw -(drop_app_length h tail). by rw /h length_header. }
  assert (byte_at (h ++ tail) 5 = MessageType.to_int type) as E5.
  { rw /byte_at /=. by destruct type. }
  assert (byte_at (h ++ tail) 0 = 0x45) as E0 by done.
  assert (byte_at (h ++ tail) 1 = 0x52) as E1 by done.
  assert (byte_at (h ++ tail) 2 = 0x46) as E2 by done.
  assert (byte_at (h ++ tail) 3 = 0x46) as E3 by done.
  assert (byte_at (h ++ tail) 4 = kProtoVersion) as E4 by done.
  pose proof (MessageType.to_int_range type) as Hrange.
  rw /decode_frame E6 E10 E14 E18 E5 Hsize Hdrop.
  rw (proj2 (N.ltb_ge _ _)); [|lia].
  rw E0 E1 E2 E3 E4 MessageType.of_to_int.
  rw !(proj2 (N.ltb_ge (MessageType.to_int _) 1)) ?(proj2 (N.ltb_ge 27 _)); [|lia..].
  rw N.eqb_refl.
  assert ((kHeader + size_of tail <? kHeader + plen) = (size_of tail <? plen)) as ->.
  { apply eq_bool_prop_intro. rw !Is_true_true !N.ltb_lt. lia. }
  by cbn [N.eqb Pos.eqb negb orb].
Qed.

Lemma decode_header type epoch authority plen chk tail :
  header_fits epoch authority plen chk →
  decode_frame (header type epoch authority plen chk ++ tail)
  = decode_tail type epoch authority plen chk tail.
Proof.
  intros [He Ha Hp Hc].
  rw decode_any_header // ?(proj2 (N.ltb_ge kProtoMaxPayload plen)) //.
  eapply N.le_lt_trans; [exact Hp|done].
Qed.

(** Twenty-two bytes are a header, or are refused whatever follows. *)
Lemma header_or_malformed data :
  (22 <= length data)%nat →
  (∃ e, ∀ more, decode_frame (data ++ more) = Malformed e) ∨
  ∃ type epoch authority plen chk, header_fits epoch authority plen chk ∧
    data = header type epoch authority plen chk ++ drop 22 data.
Proof.
  intros Hlen. rw /decode_frame.
  assert (∀ more, (size_of (data ++ more) <? kHeader) = false) as Hsize.
  { intros more. apply N.ltb_ge. rw /size_of length_app /kHeader. lia. }
  assert (∀ more i, (i < 22)%nat → byte_at (data ++ more) i = byte_at data i) as Hbyte.
  { intros more i Hi. rw /byte_at app_nth1 //. lia. }
  assert (∀ more i, (i + 4 <= 22)%nat → get_u32 (data ++ more) i = get_u32 data i) as Hget.
  { intros more i Hi. rw /get_u32 drop_app_le; [|lia]. rw take_app_le //. rw length_drop. lia. }
  destruct (negb (byte_at data 0 =? 0x45) || negb (byte_at data 1 =? 0x52)
    || negb (byte_at data 2 =? 0x46) || negb (byte_at data 3 =? 0x46)) eqn:Emagic.
  { left. eexists. intros more. by rw Hsize !Hbyte ?Emagic; [|lia..]. }
  destruct (negb (byte_at data 4 =? kProtoVersion)) eqn:Eversion.
  { left. eexists. intros more. by rw Hsize !Hbyte ?Emagic ?Eversion; [|lia..]. }
  destruct ((byte_at data 5 <? 1) || (27 <? byte_at data 5)) eqn:Etype.
  { left. eexists. intros more. by rw Hsize !Hbyte ?Emagic ?Eversion ?Etype; [|lia..]. }
  destruct (kProtoMaxPayload <? get_u32 data 14) eqn:Eplen.
  { left. eexists. intros more.
    by rw Hsize !Hbyte ?Hget ?Emagic ?Eversion ?Etype ?Eplen; [|lia..]. }
  right. apply orb_false_iff in Etype as [Hlo%N.ltb_ge Hhi%N.ltb_ge].
  destruct (MessageType.of_int_range (byte_at data 5)) as (type & _ & Htype); [done|].
  exists type, (get_u32 data 6), (get_u32 data 10), (get_u32 data 14), (get_u32 data 18).
  split.
  { apply N.ltb_ge in Eplen. split; [| |done|].
    all: eapply N.lt_le_trans; [apply le_decode_lt|]; apply N.pow_le_mono_r; [done|].
    all: rw length_take; lia. }
  rw {1}(split_header data) //. rw /header -!app_assoc !put_get_u32 ?Htype; [|lia..].
  apply orb_false_iff in Emagic as [[[E0 E1]%orb_false_iff E2]%orb_false_iff E3].
  apply negb_false_iff, N.eqb_eq in E0, E1, E2, E3, Eversion.
  rw !byte_at_eq; [|lia..]. by rw E0 E1 E2 E3 Eversion.
Qed.

Lemma short_needs_more data : (length data < 22)%nat → decode_frame data = NeedMore.
Proof. intros Hlen. by rw /decode_frame (proj2 (N.ltb_lt _ _)) // /size_of /kHeader; lia. Qed.

Lemma frame_header_fits m :
  msg_wf m →
  header_fits m.(Msg.epoch) m.(Msg.authority) (u32 (size_of m.(Msg.payload)))
    (proto_checksum m.(Msg.payload)) ∧
  u32 (size_of m.(Msg.payload)) = size_of m.(Msg.payload).
Proof.
  intros (He & Ha & Hp). assert (u32 (size_of m.(Msg.payload)) = size_of m.(Msg.payload)) as Hu.
  { apply u32_small. by eapply N.le_lt_trans. }
  rw Hu. split; [|done]. split; [done..|apply proto_checksum_lt].
Qed.

Lemma decode_encoded m rest :
  msg_wf m → decode_frame (frame m ++ rest) = Frame m (size_of (frame m)).
Proof.
  intros Hwf. destruct (frame_header_fits m Hwf) as [Hfits Hu].
  rw size_frame frame_split -app_assoc decode_header // /decode_tail Hu.
  assert ((size_of (m.(Msg.payload) ++ rest) <? size_of m.(Msg.payload)) = false) as ->.
  { apply N.ltb_ge. rw /size_of length_app. lia. }
  rw {1 2}/size_of Nat2N.id take_app_length N.eqb_refl /=. by destruct m.
Qed.

(** A strict prefix of a frame waits for the rest. *)
Lemma prefix_needs_more m k :
  msg_wf m → (k < length (frame m))%nat → decode_frame (take k (frame m)) = NeedMore.
Proof.
  intros Hwf Hk. destruct (frame_header_fits m Hwf) as [Hfits Hu].
  destruct (decide (k < 22)%nat) as [Hk22|Hk22].
  { apply short_needs_more. rw length_take. lia. }
  revert Hk. rw frame_split length_app length_header => Hk.
  rw take_app_ge ?length_header; [|lia]. rw decode_header // /decode_tail Hu.
  rw (proj2 (N.ltb_lt _ _)) // /size_of length_take. lia.
Qed.

(** ** Properties *)

(** C38. The wire format is unambiguous: [decode_frame] returns a message
    exactly when the buffer starts with the encoding of that message, whose
    integers fit 32 bits and whose payload fits 1 MiB, whatever follows it,
    and it consumes exactly the encoding. *)
Theorem decode_frame_exact data m used :
  decode_frame data = Frame m used ↔
  msg_wf m ∧ used = size_of (frame m) ∧ ∃ rest, data = frame m ++ rest.
Proof.
  split; [|by intros (Hwf & -> & rest & ->); apply decode_encoded].
  intros Hd. destruct (decide (length data < 22)%nat) as [Hlen|Hlen].
  { by rw short_needs_more in Hd. }
  destruct (header_or_malformed data ltac:(lia))
    as [(e & He)|(type & epoch & authority & plen & chk & Hfits & Hdata)].
  { specialize (He []). rw app_nil_r in He. congruence. }
  revert Hd. rw Hdata decode_header // /decode_tail. set (tail := drop 22 data).
  destruct (size_of tail <? plen) eqn:Hsize; [done|]. apply N.ltb_ge in Hsize.
  destruct (negb _) eqn:Hchk; [done|]. apply negb_false_iff, N.eqb_eq in Hchk.
  intros [= <- <-]. destruct Hfits as [He Ha Hp Hc].
  assert (size_of (take (N.to_nat plen) tail) = plen) as Hlen'.
  { revert Hsize. rw /size_of length_take. lia. }
  split_and!; [|by rw size_frame /= Hlen'|].
  - by rw /msg_wf /= Hlen'.
  - exists (drop (N.to_nat plen) tail). rw frame_split. cbn [Msg.type Msg.epoch Msg.authority Msg.payload]. rw Hlen' Hchk.
    rw u32_small; [|eapply N.le_lt_trans; [exact Hp|done]]. by rw -app_assoc take_drop.
Qed.

(** Corruption is detected: changing any single byte of the payload or of
    the checksum field of a well-formed frame makes [decode_frame] refuse it
    with a checksum mismatch, whatever follows in the buffer. *)
Theorem frame_corruption_detected m i b c rest :
  msg_wf m → (18 <= i)%nat → frame m !! i = Some b → c ≠ b →
  decode_frame (<[i := c]> (frame m) ++ rest) = Malformed "checksum mismatch".
Proof.
  intros Hwf Hi Hb Hc. destruct (frame_header_fits m Hwf) as [Hfits Hu].
  revert Hb. rw frame_split.
  destruct (decide (22 <= i)%nat) as [Hpay|Hchk]; intros Hb.
  - rw lookup_app_r ?length_header in Hb; [|lia].
    rw insert_app_r_alt ?length_header; [|lia].
    rw -app_assoc decode_header // /decode_tail Hu.
    set (p := m.(Msg.payload)) in *. set (p' := <[(i - 22)%nat := c]> p).
    assert (length p' = length p) as Hp' by apply length_insert.
    rw (proj2 (N.ltb_ge _ _)); [|rw /size_of length_app Hp'; lia].
    assert (N.to_nat (size_of p) = length p') as Hn by (rw /size_of Hp'; lia).
    rw Hn take_app_length /=.
    destruct (proto_checksum p' =? proto_checksum p) eqn:Heq; [|done].
    exfalso. apply Hc. apply N.eqb_eq in Heq. exact (proto_checksum_insert p _ b c Hb Heq).
  - rw lookup_app_l ?length_header in Hb; [|lia].
    rw insert_app_l ?length_header; [|lia]. rw header_chk in Hb; rw header_chk.
    rw lookup_app_r ?length_front in Hb; [|lia]. rw insert_app_r_alt ?length_front; [|lia].
    set (chk := proto_checksum m.(Msg.payload)) in *.
    set (d := <[(i - 18)%nat := c]> (put_u32 chk : list ascii)).
    assert (length d = 4%nat) as Hd by (by rw /d length_insert length_le_encode).
    pose proof (le_decode_lt d) as Hlt. rw Hd in Hlt.
    assert (d = put_u32 (le_decode d)) as Hput.
    { apply le_decode_inj; [by rw length_le_encode|]. by rw /put_u32 le_decode_encode. }
    assert (le_decode d ≠ chk) as Hne.
    { intros Heq. rw Heq in Hput. rw -Hput in Hb. apply Hc.
      rw /d list_lookup_insert_eq in Hb; [congruence|]. rw length_le_encode. lia. }
    rw Hput -header_chk -app_assoc decode_header; [|by destruct Hfits; split].
    rw /decode_tail Hu (proj2 (N.ltb_ge _ _)); [|rw /size_of length_app; lia].
    rw {1}/size_of Nat2N.id take_app_length. by rw (proj2 (N.eqb_neq _ _)).
Qed.

Definition demo_message : ProtocolMessage :=
  {| Msg.type := MessageType.EXECUTE; Msg.epoch := 3; Msg.authority := 2;
     Msg.payload := list_ascii_of_string "seed=42" |}.
Lemma demo_message_wf : msg_wf demo_message.
Proof. apply (bool_decide_unpack _). vm_compute. exact I. Qed.

Lemma frame_corruption_detected_witness :
  decode_frame (<[24%nat := Ascii.zero]> (frame demo_message) ++ []) = Malformed "checksum mismatch".
Proof.
  apply (frame_corruption_detected demo_message 24 "e"%char); [exact demo_message_wf|lia|reflexivity|discriminate].
Defined.

Lemma malformed_stable data e more :
  decode_frame data = Malformed e → decode_frame (data ++ more) = Malformed e.
Proof.
  intros Hd. destruct (decide (length data < 22)%nat) as [Hlen|Hlen].
  { by rw short_needs_more in Hd. }
  destruct (header_or_malformed data ltac:(lia))
    as [(e' & He)|(type & epoch & authority & plen & chk & Hfits & Hdata)].
  { rw He. specialize (He []). rw app_nil_r in He. congruence. }
  revert Hd. rw Hdata -app_assoc !decode_header // /decode_tail. set (tail := drop 22 data).
  destruct (size_of tail <? plen) eqn:Hsize; [done|]. apply N.ltb_ge in Hsize.
  rw (proj2 (N.ltb_ge _ _)); [|revert Hsize; rw /size_of length_app; lia].
  rw take_app_le; [done|]. revert Hsize. rw /size_of. lia.
Qed.

Lemma split_needs_more data m rest :
  msg_wf m → frame m = data ++ rest → rest ≠ [] → decode_frame data = NeedMore.
Proof.
  intros Hwf Hsplit Hrest. rw -(take_app_length data rest) -Hsplit.
  apply prefix_needs_more; [done|]. rw Hsplit length_app. destruct rest; [done|simpl; lia].
Qed.

(** The decoder never judges too early: it asks for more data on every
    strict prefix of a well-formed frame, and what it refuses it refuses
    whatever arrives later, so a refused buffer is not the beginning of any
    well-formed frame. *)
Theorem decoder_waits_and_refuses_rightly data :
  (∀ m rest, msg_wf m → frame m = data ++ rest → rest ≠ [] → decode_frame data = NeedMore) ∧
  (∀ e, decode_frame data = Malformed e →
     (∀ more, decode_frame (data ++ more) = Malformed e) ∧
     ∀ m rest, msg_wf m → data ++ rest ≠ frame m).
Proof.
  split; [intros m rest; apply split_needs_more|]. intros e He. split; [intros more; by apply malformed_stable|].
  intros m rest Hwf Hsplit. apply (malformed_stable _ _ rest) in He. rw Hsplit in He.
  pose proof (decode_encoded m [] Hwf) as Hd. rw app_nil_r in Hd. congruence.
Qed.

(** One frame off a stream that starts with it, wherever the chunks end. *)
Lemma recv_frame_whole chunks : ∀ rxbuf m rest,
  msg_wf m → Forall (λ c, c ≠ []) chunks → rxbuf ++ concat chunks = frame m ++ rest →
  ∃ rxbuf' chunks', recv_frame rxbuf chunks = (Some m, rxbuf', chunks') ∧
    rxbuf' ++ concat chunks' = rest ∧ Forall (λ c, c ≠ []) chunks'.
Proof.
  assert (∀ m k chunks, msg_wf m → recv_frame (frame m ++ k) chunks = (Some m, k, chunks)) as Hwhole.
  { intros m k cs Hwf. assert (drop (N.to_nat (size_of (frame m))) (frame m ++ k) = k) as Hdrop
      by (rw /size_of Nat2N.id; apply drop_app_length).
    destruct cs; cbn [recv_frame]; by rw (decode_encoded m k Hwf) Hdrop. }
  induction chunks as [|c chunks IH]; intros rxbuf m rest Hwf Hne Heq.
  all: destruct (app_eq_inv _ _ _ _ Heq) as [(k & -> & ->)|(k & Hk & Hrest)];
    [by rw Hwhole; eauto|].
  all: destruct (decide (k = [])) as [->|Hk0];
    [rw app_nil_r in Hk; rw -Hk -(app_nil_r (frame m)) Hwhole; eauto|].
  all: pose proof (split_needs_more rxbuf m k Hwf Hk Hk0) as Hmore.
  - simpl in Hrest. by destruct k.
  - apply Forall_cons in Hne as [Hc Hne]. cbn [recv_frame]. rw Hmore. destruct c as [|b c]; [done|].
    apply IH; [done..|]. by rw -app_assoc.
Qed.

Lemma recv_frames_whole ms : ∀ chunks rxbuf,
  Forall msg_wf ms → Forall (λ c, c ≠ []) chunks →
  rxbuf ++ concat chunks = concat (map (λ m, frame m) ms) →
  recv_frames (length ms) rxbuf chunks = (ms, [], []).
Proof.
  induction ms as [|m ms IH]; intros chunks rxbuf Hwf Hne Heq.
  - apply app_nil in Heq as [-> Hnil]. destruct Hne as [|[|b c] chunks Hc Hne]; done.
  - apply Forall_cons in Hwf as [Hm Hms]. cbn [map concat] in Heq.
    destruct (recv_frame_whole chunks rxbuf m _ Hm Hne Heq) as (rxbuf' & chunks' & Hrun & Heq' & Hne').
    cbn [length recv_frames]. by rw Hrun (IH chunks' rxbuf' Hms Hne' Heq').
Qed.

(** C39. A stream is reassembled exactly: whatever non-empty pieces the bytes of
    a sequence of well-formed frames arrive in, receiving as many frames
    returns the same messages in the same order, and nothing is left over. *)
Theorem stream_reassembled ms chunks :
  Forall msg_wf ms → Forall (λ c, c ≠ []) chunks →
  concat chunks = foldl (λ out m, encode_frame m out) [] ms →
  recv_frames (length ms) [] chunks = (ms, [], []).
Proof.
  intros Hwf Hne Hstream.
  assert (∀ ms out, foldl (λ out m, encode_frame m out) out ms = out ++ concat (map (λ m, frame m) ms)) as Hfold.
  { intros l. induction l as [|m l IH]; intros out; [by rw /= app_nil_r|].
    by rw /= IH /encode_frame -!app_assoc. }
  apply recv_frames_whole; [done..|]. by rw Hstream Hfold.
Qed.

Definition demo_chunks : list Bytes :=
  [take 3 (frame demo_message); drop 3 (frame demo_message) ++ take 25 (frame demo_message);
   drop 25 (frame demo_message)].

Lemma stream_reassembled_witness :
  recv_frames 2 [] demo_chunks = ([demo_message; demo_message], [], []).
Proof.
  apply (stream_reassembled [demo_message; demo_message]).
  - repeat constructor; apply demo_message_wf.
  - repeat constructor; vm_compute; discriminate.
  - vm_compute. reflexivity.
Defined.

(** The encoder does not bound the payload: what is too large for the decoder
    is sent all the same, and refused on arrival. *)
Lemma oversized_frame_refused m rest :
  m.(Msg.epoch) < 2 ^ 32 → m.(Msg.authority) < 2 ^ 32 →
  kProtoMaxPayload < size_of m.(Msg.payload) → size_of m.(Msg.payload) < 2 ^ 32 →
  decode_frame (frame m ++ rest) = Malformed "oversized payload".
Proof.
  intros He Ha Hbig Hsmall. rw frame_split -app_assoc u32_small // decode_any_header //.
  - by rw (proj2 (N.ltb_lt _ _)).
  - apply proto_checksum_lt.
Qed.
