(* ===== verification/Sockets.v ===== *)
(** * Sockets

    [TcpSocket] of [protocol/net.cpp] over the operating system's calls: their
    answers are arguments, so that a send may be accepted in any pieces and a
    receive may return any. *)

From S2P Require Import Prelude Identities Codec Frame.
Local Open Scope N_scope.

(** What the program asks the system to do with its handles. *)
Inductive OsCall := Startup | Cleanup | Opened (h : N) | Closed (h : N).

(** ** Winsock start-up: the flag [g_winsock] *)

Definition init (started : bool) (g_winsock : bool) : bool * list OsCall * bool :=
  if g_winsock then (true, [], g_winsock)
  else if negb started then (false, [], g_winsock) else (true, [Startup], true).
Definition shutdown (g_winsock : bool) : list OsCall * bool :=
  if g_winsock then ([Cleanup], false) else ([], g_winsock).

(** The handle as the pointer that carries it, zero for none; and what was
    received and not yet used. *)
Module TcpSocket.
Record t := mk { sock : N; rxbuf : Bytes }.
#[global] Instance eta : Eta t := fields! mk <sock; rxbuf>.

Definition make : t := {| sock := 0; rxbuf := [] |}.
Definition is_open (s : t) : bool := negb (s.(sock) =? 0).
Definition close (s : t) : list OsCall * t :=
  (if is_open s then [Closed s.(sock)] else [], s <| sock := 0 |> <| rxbuf := [] |>).
(** What a moved-from string holds is unspecified: [left]. *)
Definition move_from (left : Bytes) (o : t) : t * t :=
  ({| sock := o.(sock); rxbuf := o.(rxbuf) |}, o <| rxbuf := left |> <| sock := 0 |>).
(** [operator=] of two distinct objects. *)
Definition move_assign (left : Bytes) (s o : t) : list OsCall * t * t :=
  let '(calls, s) := close s in
  (calls, s <| sock := o.(sock) |> <| rxbuf := o.(rxbuf) |>, o <| rxbuf := left |> <| sock := 0 |>).

(** [socket()] gives a handle or fails, and [::connect] succeeds or not. *)
Definition connect (handle : option N) (connected : bool) (s : t) : bool * list OsCall * t :=
  let '(calls, s) := if is_open s then close s else ([], s) in
  match handle with
  | None => (false, calls, s)
  | Some h =>
    if negb connected then (false, calls ++ [Opened h; Closed h], s)
    else (true, calls ++ [Opened h], s <| sock := h |>)
  end.

(** The loop of [send] over what each [::send] accepts of the rest (an error is
    negative): its result, and the bytes handed over. No more answers is a link
    that stays blocked. *)
Fixpoint send_loop (accepts : list Z) (data : Bytes) : bool * Bytes :=
  match data with
  | [] => (true, [])
  | _ =>
    match accepts with
    | [] => (false, [])
    | n :: accepts =>
      if (n <=? 0)%Z then (false, [])
      else
        let '(ok, out) := send_loop accepts (drop (Z.to_nat n) data) in
        (ok, take (Z.to_nat n) data ++ out)
    end
  end.
Definition send (accepts : list Z) (data : Bytes) (s : t) : bool * Bytes :=
  if negb (is_open s) then (false, []) else send_loop accepts data.

(** The loop of [recv_exact] over what each [::recv] returns, no more than the
    rest; it does not look at [rxbuf]. *)
Fixpoint recv_loop (pieces : list Bytes) (len : nat) : option Bytes :=
  match len with
  | O => Some []
  | _ =>
    match pieces with
    | [] | [] :: _ => None
    | p :: pieces => rest ← recv_loop pieces (len - length (take len p)); Some (take len p ++ rest)
    end
  end.
Definition recv_exact (pieces : list Bytes) (len : nat) (s : t) : option Bytes :=
  if negb (is_open s) then None else recv_loop pieces len.

Definition flush : bool := true.
Definition send_frame (accepts : list Z) (m : ProtocolMessage) (s : t) : bool * Bytes :=
  send accepts (encode_frame m []) s.
End TcpSocket.
Abbreviation TcpSocket := TcpSocket.t.
Module Sock := TcpSocket.

(** ** The listener *)
Module TcpListener.
Record t := mk { sock : N; port : N }.
#[global] Instance eta : Eta t := fields! mk <sock; port>.

Definition make : t := {| sock := 0; port := 0 |}.
Definition is_open (l : t) : bool := negb (l.(sock) =? 0).
Definition close (l : t) : list OsCall * t :=
  (if is_open l then [Closed l.(sock)] else [], l <| sock := 0 |>).

(** [socket()] gives a handle or fails, and [::bind] and [::listen] succeed or not. *)
Definition listen (handle : option N) (bound listening : bool) (p : N) (l : t) : bool * list OsCall * t :=
  let '(calls, l) := if is_open l then close l else ([], l) in
  match handle with
  | None => (false, calls, l)
  | Some h =>
    if negb bound then (false, calls ++ [Opened h; Closed h], l)
    else if negb listening then (false, calls ++ [Opened h; Closed h], l)
    else (true, calls ++ [Opened h], l <| sock := h |> <| port := p |>)
  end.
(** [::accept] gives a handle or fails. *)
Definition accept (handle : option N) (l : t) (out : TcpSocket) : bool * list OsCall * TcpSocket :=
  if negb (is_open l) then (false, [], out)
  else
    match handle with
    | None => (false, [], out)
    | Some h =>
      let '(calls, out) := Sock.close out in
      (true, Opened h :: calls, out <| Sock.sock := h |>)
    end.
End TcpListener.
Abbreviation TcpListener := TcpListener.t.
Module Lsnr := TcpListener.

(** ** The objects of a program, by address, and what happens to them

    A socket can be moved and not copied.  A listener declares its destructor and
    neither constructor nor assignment, so the compiler's are the memberwise
    copies, and a move of a listener is one of them. *)
Inductive NetObj := ASocket (s : TcpSocket) | AListener (l : TcpListener).
Inductive NetOp :=
  | MakeSocket (a : N) | MakeListener (a : N)
  | Destroy (a : N) | CloseObj (a : N)
  | MoveMake (rest : Bytes) (a from : N) | MoveAssign (rest : Bytes) (a from : N)
  | CopyListener (a from : N) | AssignListener (a from : N)
  | ConnectTo (handle : option N) (connected : bool) (a : N)
  | ListenOn (handle : option N) (bound listening : bool) (port a : N)
  | AcceptInto (handle : option N) (a out : N).

(** Both destructors close. *)
Definition close_obj (x : NetObj) : list OsCall * NetObj :=
  match x with
  | ASocket s => let '(calls, s) := Sock.close s in (calls, ASocket s)
  | AListener l => let '(calls, l) := Lsnr.close l in (calls, AListener l)
  end.
(** None: the program has no such object, or builds over a live one. *)
Definition net_op (op : NetOp) (st : gmap N NetObj) : option (list OsCall * gmap N NetObj) :=
  match op with
  | MakeSocket a => match st !! a with None => Some ([], <[a := ASocket Sock.make]> st) | _ => None end
  | MakeListener a => match st !! a with None => Some ([], <[a := AListener Lsnr.make]> st) | _ => None end
  | Destroy a =>
    match st !! a with Some x => Some ((close_obj x).1, delete a st) | None => None end
  | CloseObj a =>
    match st !! a with Some x => Some ((close_obj x).1, <[a := (close_obj x).2]> st) | None => None end
  | MoveMake rest a from =>
    match st !! a, st !! from with
    | None, Some (ASocket o) =>
      let '(s, o) := Sock.move_from rest o in Some ([], <[a := ASocket s]> (<[from := ASocket o]> st))
    | _, _ => None
    end
  | MoveAssign rest a from =>
    match st !! a, st !! from with
    | Some (ASocket s), Some (ASocket o) =>
      if bool_decide (a = from) then Some ([], st)
      else
        let '(calls, s, o) := Sock.move_assign rest s o in
        Some (calls, <[a := ASocket s]> (<[from := ASocket o]> st))
    | _, _ => None
    end
  | CopyListener a from =>
    match st !! a, st !! from with
    | None, Some (AListener l) => Some ([], <[a := AListener l]> st)
    | _, _ => None
    end
  | AssignListener a from =>
    match st !! a, st !! from with
    | Some (AListener _), Some (AListener l) => Some ([], <[a := AListener l]> st)
    | _, _ => None
    end
  | ConnectTo handle connected a =>
    match st !! a with
    | Some (ASocket s) =>
      let '(_, calls, s) := Sock.connect handle connected s in Some (calls, <[a := ASocket s]> st)
    | _ => None
    end
  | ListenOn handle bound listening port a =>
    match st !! a with
    | Some (AListener l) =>
      let '(_, calls, l) := Lsnr.listen handle bound listening port l in Some (calls, <[a := AListener l]> st)
    | _ => None
    end
  | AcceptInto handle a out =>
    match st !! a, st !! out with
    | Some (AListener l), Some (ASocket s) =>
      let '(_, calls, s) := Lsnr.accept handle l s in Some (calls, <[out := ASocket s]> st)
    | _, _ => None
    end
  end.

(** The handles the system has open after the calls, unless the system gave a
    handle that was open, or the program closed one that was not. *)
Inductive OsHandles := Live (live : gset N) | Reopened (h : N) | NotOpen (h : N).
Fixpoint os_calls (live : gset N) (cs : list OsCall) : OsHandles :=
  match cs with
  | [] => Live live
  | (Startup | Cleanup) :: cs => os_calls live cs
  | Opened h :: cs => if bool_decide (h ∈ live) then Reopened h else os_calls ({[h]} ∪ live) cs
  | Closed h :: cs => if bool_decide (h ∈ live) then os_calls (live ∖ {[h]}) cs else NotOpen h
  end.
(** The handle the system gives for the operation, if any. *)
Definition answered_handle (op : NetOp) : option N :=
  match op with
  | ConnectTo h _ _ | ListenOn h _ _ _ _ | AcceptInto h _ _ => h
  | _ => None
  end.
(** The operation copies a listener. *)
Definition copies (op : NetOp) : bool :=
  match op with CopyListener _ _ | AssignListener _ _ => true | _ => false end.
(** The program and the system together, over a list of operations. *)
Fixpoint net_ops (live : gset N) (st : gmap N NetObj) (ops : list NetOp) : option (OsHandles * gmap N NetObj) :=
  match ops with
  | [] => Some (Live live, st)
  | op :: ops =>
    match net_op op st with
    | None => None
    | Some (calls, st) =>
      match os_calls live calls with
      | Live live => net_ops live st ops
      | fault => Some (fault, st)
      end
    end
  end.

(** ** Properties *)

(** Whatever is accepted is a prefix of the data, all of it when the send
    succeeds. *)
Lemma send_loop_prefix accepts data :
  let '(ok, out) := Sock.send_loop accepts data in
  out `prefix_of` data ∧ (ok = true → out = data).
Proof.
  revert data. induction accepts as [|n accepts IH]; intros [|c data]; cbn [Sock.send_loop]; try done.
  - split; [apply prefix_nil|done].
  - destruct (n <=? 0)%Z; [split; [apply prefix_nil|done]|].
    specialize (IH (drop (Z.to_nat n) (c :: data))).
    destruct (Sock.send_loop accepts _) as [ok out]. destruct IH as [[rest Hrest] Hok].
    pose proof (take_drop (Z.to_nat n) (c :: data)) as Hsplit.
    split; [exists rest; by rw -app_assoc -Hrest Hsplit|]. intros H. by rw Hok.
Qed.

(** A send whose pieces are all accepted ends, and succeeds, after at most one
    call per byte. *)
Lemma send_loop_succeeds accepts data :
  Forall (λ n, 0 < n)%Z accepts → (length data <= length accepts)%nat →
  (Sock.send_loop accepts data).1 = true.
Proof.
  intros Hpos. revert data. induction Hpos as [|n accepts Hn _ IH]; intros [|c data] Hlen; cbn in Hlen; try done; [lia|].
  cbn [Sock.send_loop]. destruct (Z.leb_spec n 0); [lia|].
  specialize (IH (drop (Z.to_nat n) (c :: data))).
  destruct (Sock.send_loop accepts _) as [ok out]. apply IH. rw length_drop. cbn [length]. lia.
Qed.

(** A frame is sent whole or reported: whatever pieces the system accepts,
    the bytes handed over are a prefix of the frame's encoding, [send_frame]
    returns true only when that is all of it, and it does return true when
    every call accepts at least a byte; a closed socket sends nothing. *)
Theorem send_frame_whole accepts m s :
  let '(ok, out) := Sock.send_frame accepts m s in
  out `prefix_of` encode_frame m [] ∧
  (ok = true → out = encode_frame m []) ∧
  (Sock.is_open s = true → Forall (λ n, 0 < n)%Z accepts →
   (length (encode_frame m []) <= length accepts)%nat → ok = true) ∧
  (Sock.is_open s = false → ok = false ∧ out = []).
Proof.
  rw /Sock.send_frame /Sock.send. destruct (Sock.is_open s); cbn [negb].
  - pose proof (send_loop_prefix accepts (encode_frame m [])) as Hprefix.
    pose proof (send_loop_succeeds accepts (encode_frame m [])) as Hok.
    destruct (Sock.send_loop accepts _) as [ok out]. destruct Hprefix as [Hp Hall].
    split_and!; [exact Hp|exact Hall|intros _; exact Hok|discriminate].
  - split_and!; [apply prefix_nil|discriminate|discriminate|done].
Qed.

(** [recv_exact] returns exactly as many bytes as asked for. *)
Lemma recv_exact_length pieces len s d : Sock.recv_exact pieces len s = Some d → length d = len.
Proof.
  rw /Sock.recv_exact. destruct (Sock.is_open s); [cbn [negb]|done].
  revert len d. induction pieces as [|p pieces IH]; intros [|len] d; cbn [Sock.recv_loop]; try by intros [= <-].
  destruct p as [|c p]; [done|].
  destruct (Sock.recv_loop pieces _) as [rest|] eqn:Hr; cbn [mbind option_bind]; [|done]. intros [= <-].
  apply IH in Hr. cbn [length take] in Hr |- *. rw length_take in Hr. rw /= length_app length_take. lia.
Qed.

(** ** The handles are owned *)

Definition handle_of (x : NetObj) : N :=
  match x with ASocket s => s.(Sock.sock) | AListener l => l.(Lsnr.sock) end.
(** The handle of the object at an address, zero for none. *)
Definition held (st : gmap N NetObj) (a : N) : N := from_option handle_of 0 (st !! a).
(** The system has open exactly the handles the objects hold, each held once. *)
Definition owned (live : gset N) (hd : N → N) : Prop :=
  (∀ h, h ∈ live ↔ h ≠ 0 ∧ ∃ a, hd a = h) ∧ (∀ a b, hd a = hd b → hd a ≠ 0 → a = b).

Lemma held_insert st a x b : held (<[a := x]> st) b = if decide (a = b) then handle_of x else held st b.
Proof. rw /held lookup_insert. by case_decide. Qed.
Lemma held_delete st a b : held (delete a st) b = if decide (a = b) then 0 else held st b.
Proof. rw /held lookup_delete. by case_decide. Qed.

Lemma owned_same live hd hd' : owned live hd → (∀ a, hd' a = hd a) → owned live hd'.
Proof. intros [Hl Hi] He. split; [intros h|intros a b]; [rw Hl|rw !He]; by setoid_rewrite He || apply Hi. Qed.

Lemma owned_close live hd hd' a :
  owned live hd → (∀ b, hd' b = if decide (a = b) then 0 else hd b) →
  ∃ live', owned live' hd' ∧
    ∀ cs, os_calls live ((if negb (hd a =? 0) then [Closed (hd a)] else []) ++ cs) = os_calls live' cs.
Proof.
  intros [Hl Hi] He. destruct (N.eqb_spec (hd a) 0) as [Hz|Hz]; cbn [negb os_calls app].
  - exists live. split; [|done]. apply (owned_same _ hd); [done|]. intros b. rw He. by case_decide; subst.
  - rw bool_decide_eq_true_2; [|apply Hl; eauto]. exists (live ∖ {[hd a]}). split; [|done].
    split; [intros h|intros b c; rw !He; repeat case_decide; subst; naive_solver].
    rw elem_of_difference elem_of_singleton Hl. split.
    + intros [[Hh [b <-]] Hne]. split; [done|]. exists b. rw He. case_decide; [by subst|done].
    + intros [Hh [b Hb]]. rw He in Hb. case_decide; [by subst|]. subst. split; [eauto|]. intros Heq.
      by apply Hi in Heq; subst.
Qed.
Lemma owned_open live hd hd' a h :
  owned live hd → hd a = 0 → h ∉ live → h ≠ 0 → (∀ b, hd' b = if decide (a = b) then h else hd b) →
  owned ({[h]} ∪ live) hd'.
Proof.
  intros [Hl Hi] Ha Hn Hz He.
  assert (Hfree : ∀ b, hd b ≠ h) by (intros b Hb; apply Hn, Hl; eauto).
  split; [intros k|intros b c; rw !He; repeat case_decide; subst; naive_solver].
  rw elem_of_union elem_of_singleton Hl. split.
  - intros [->|[Hk [b <-]]]; (split; [done|]); [exists a|exists b]; rw He; case_decide; by subst.
  - intros [Hk [b Hb]]. rw He in Hb. case_decide; naive_solver.
Qed.
Lemma owned_move live hd hd' a from :
  owned live hd → hd a = 0 → a ≠ from →
  (∀ b, hd' b = if decide (a = b) then hd from else if decide (from = b) then 0 else hd b) → owned live hd'.
Proof.
  intros [Hl Hi] Ha Hne He. split.
  - intros h. rw Hl. split; intros [Hh [b Hb]]; (split; [done|]).
    + destruct (decide (from = b)) as [<-|]; [exists a; by rw He decide_True|].
      exists b. rw He. repeat case_decide; congruence.
    + rw He in Hb. repeat case_decide; [by exists from|congruence|by exists b].
  - intros b c Heq Hnz. rw !He in Heq. rw He in Hnz.
    repeat case_decide; subst; try done; [| |by apply Hi].
    + exfalso. by apply Hi in Heq.
    + exfalso. symmetry in Heq. apply Hi in Heq; [done|congruence].
Qed.
(** A handle the system gives is kept by an object that holds none, or closed again. *)
Definition accounted (r : OsHandles) (st : gmap N NetObj) : Prop :=
  match r with Live live => owned live (held st) | Reopened _ => True | NotOpen _ => False end.
Lemma accounted_open live st st' a h :
  owned live (held st) → held st a = 0 → h ≠ 0 →
  (∀ b, held st' b = if decide (a = b) then h else held st b) →
  accounted (os_calls live [Opened h]) st'.
Proof.
  intros Ho Ha Hz He. cbn [os_calls]. case_bool_decide; [done|]. by eapply owned_open.
Qed.
Lemma accounted_dropped live st h : owned live (held st) → accounted (os_calls live [Opened h; Closed h]) st.
Proof.
  intros Ho. cbn [os_calls]. case_bool_decide; [done|]. rw bool_decide_eq_true_2; [|set_solver].
  cbn [accounted]. replace (_ ∖ _) with live; [done|set_solver].
Qed.
Lemma close_obj_calls x : (close_obj x).1 = if negb (handle_of x =? 0) then [Closed (handle_of x)] else [].
Proof. by destruct x. Qed.
Lemma close_obj_handle x : handle_of (close_obj x).2 = 0.
Proof. by destruct x. Qed.
Lemma held_some st a x : st !! a = Some x → held st a = handle_of x.
Proof. by rw /held => ->. Qed.

(** An object closed, and whatever follows from there. *)
Lemma accounted_after_close live st st' st'' a x cs :
  owned live (held st) → st !! a = Some x →
  (∀ b, held st' b = if decide (a = b) then 0 else held st b) →
  (∀ live', owned live' (held st') → accounted (os_calls live' cs) st'') →
  accounted (os_calls live ((if negb (handle_of x =? 0) then [Closed (handle_of x)] else []) ++ cs)) st''.
Proof.
  intros Ho Hx He Hk. rw -(held_some st a x Hx).
  destruct (owned_close live (held st) (held st') a Ho He) as (live' & Ho' & Hcs). rw Hcs. auto.
Qed.

Lemma accounted_closed live st st' a x :
  owned live (held st) → st !! a = Some x →
  (∀ b, held st' b = if decide (a = b) then 0 else held st b) →
  accounted (os_calls live (if negb (handle_of x =? 0) then [Closed (handle_of x)] else [])) st'.
Proof.
  intros Ho Hx He. pose proof (accounted_after_close live st st' st' a x [] Ho Hx He) as H.
  rw app_nil_r in H. by apply H.
Qed.

(** [connect] and [listen] close what is open first, and keep or drop the
    handle they are given. *)
Definition kept_handle (handle : option N) (kept : bool) : N :=
  match handle with Some h => if kept then h else 0 | None => 0 end.
Definition reopen_calls (old : N) (handle : option N) (kept : bool) : list OsCall :=
  (if negb (old =? 0) then [Closed old] else []) ++
  match handle with None => [] | Some h => if kept then [Opened h] else [Opened h; Closed h] end.

Lemma connect_reopens handle c s :
  let '(_, calls, s') := Sock.connect handle c s in
  calls = reopen_calls s.(Sock.sock) handle c ∧ s'.(Sock.sock) = kept_handle handle c.
Proof.
  destruct s as [k b]. rw /Sock.connect /Sock.close /Sock.is_open /reopen_calls /=.
  destruct (N.eqb_spec k 0) as [->|]; destruct handle, c; cbn; rw ?app_nil_r //.
Qed.
Lemma listen_reopens handle bd li p l :
  let '(_, calls, l') := Lsnr.listen handle bd li p l in
  calls = reopen_calls l.(Lsnr.sock) handle (bd && li) ∧ l'.(Lsnr.sock) = kept_handle handle (bd && li).
Proof.
  destruct l as [k q]. rw /Lsnr.listen /Lsnr.close /Lsnr.is_open /reopen_calls /=.
  destruct (N.eqb_spec k 0) as [->|]; destruct handle, bd, li; cbn; rw ?app_nil_r //.
Qed.
Lemma accounted_reopened live st a x z handle kept :
  owned live (held st) → st !! a = Some x → (∀ h, handle = Some h → h ≠ 0) →
  handle_of z = kept_handle handle kept →
  accounted (os_calls live (reopen_calls (handle_of x) handle kept)) (<[a := z]> st).
Proof.
  intros Ho Hx Hz He. eapply (accounted_after_close live st (<[a := ASocket Sock.make]> st)); [done..| |].
  { intros b. by rw held_insert. }
  intros live' Ho'. assert (handle_of z = 0 → owned live' (held (<[a := z]> st))) as Hsame.
  { intros Hz0. apply (owned_same _ _ _ Ho'). intros b. by rw !held_insert Hz0. }
  destruct handle as [h|]; [|by apply Hsame]. destruct kept; [|by apply accounted_dropped, Hsame].
  apply (accounted_open _ _ _ a _ Ho'); [by rw held_insert decide_True|by apply Hz|].
  intros b. rw !held_insert He. by case_decide.
Qed.

(** [accept] closes what the target holds after the system gave the new handle. *)
Lemma accounted_accepted live st a x z h :
  owned live (held st) → st !! a = Some x → h ≠ 0 → handle_of z = h →
  accounted (os_calls live (Opened h :: if negb (handle_of x =? 0) then [Closed (handle_of x)] else []))
    (<[a := z]> st).
Proof.
  intros Ho Hx Hz He. cbn [os_calls]. case_bool_decide as Hn; [done|].
  destruct (N.eqb_spec (handle_of x) 0) as [Hk|Hk]; cbn [negb os_calls].
  - apply (owned_open _ (held st) _ a); [done|by rw (held_some _ _ _ Hx)|done..|]. intros b. by rw held_insert He.
  - pose proof (accounted_closed live st (delete a st) a x Ho Hx (held_delete st a)) as Hc.
    destruct (N.eqb_spec (handle_of x) 0) as [|_]; [done|]. cbn [negb os_calls] in Hc.
    case_bool_decide as Hk'; [|done]. rw bool_decide_eq_true_2; [|set_solver]. cbn [accounted] in Hc |- *.
    assert (h ≠ handle_of x) as Hne by (intros ->; done).
    replace (({[h]} ∪ live) ∖ _) with ({[h]} ∪ live ∖ {[handle_of x]}); [|clear -Hne; set_solver].
    apply (owned_open _ (held (delete a st)) _ a); [done|by rw held_delete decide_True|set_solver|done|].
    intros b. rw held_insert held_delete He. by case_decide.
Qed.

Lemma net_op_accounted op live st calls st' :
  owned live (held st) → (∀ h, answered_handle op = Some h → h ≠ 0) → copies op = false →
  net_op op st = Some (calls, st') → accounted (os_calls live calls) st'.
Proof.
  intros Ho Hz Hc. destruct op as [a|a|a|a|rest a from|rest a from|a from|a from|handle c a|handle bd li p a|handle a out];
    try discriminate Hc; clear Hc; cbn [net_op].
  - destruct (st !! a) eqn:Ha; [done|]. intros [= <- <-]. apply (owned_same _ _ _ Ho). intros b.
    rw held_insert. case_decide; [|done]. subst. by rw /held Ha.
  - destruct (st !! a) eqn:Ha; [done|]. intros [= <- <-]. apply (owned_same _ _ _ Ho). intros b.
    rw held_insert. case_decide; [|done]. subst. by rw /held Ha.
  - destruct (st !! a) eqn:Ha; [|done]. intros [= <- <-]. rw close_obj_calls.
    eapply accounted_closed; [done..|apply held_delete].
  - destruct (st !! a) eqn:Ha; [|done]. intros [= <- <-]. rw close_obj_calls.
    eapply accounted_closed; [done..|]. intros b. by rw held_insert close_obj_handle.
  - destruct (st !! a) eqn:Ha; [done|]. destruct (st !! from) as [[o|]|] eqn:Hf; [|done..]. intros [= <- <-].
    apply (owned_move _ _ _ a from Ho); [by rw /held Ha|congruence|]. intros b. rw !held_insert (held_some _ _ _ Hf).
    done.
  - destruct (st !! a) as [[s|]|] eqn:Ha; [|done..]. destruct (st !! from) as [[o|]|] eqn:Hf; [|done..].
    case_bool_decide as Hne; [by intros [= <- <-]|]. cbn. intros [= <- <-].
    rw -(app_nil_r (if Sock.is_open s then [Closed s.(Sock.sock)] else [])).
    apply (accounted_after_close live st (<[a := ASocket (Sock.close s).2]> st) _ a (ASocket s)); [done..| |].
    { intros b. by rw held_insert. }
    intros live' Ho'. apply (owned_move _ _ _ a from Ho'); [by rw held_insert decide_True|done|].
    intros b. rw !held_insert /= (held_some _ _ _ Hf). repeat case_decide; first [congruence|done].
  - destruct (st !! a) as [[s|]|] eqn:Ha; [|done..]. pose proof (connect_reopens handle c s) as Hc.
    destruct (Sock.connect handle c s) as [[? cs] s']. destruct Hc as [-> Hs]. intros [= <- <-].
    by apply (accounted_reopened live st a (ASocket s)).
  - destruct (st !! a) as [[|l]|] eqn:Ha; [done| |done]. pose proof (listen_reopens handle bd li p l) as Hc.
    destruct (Lsnr.listen handle bd li p l) as [[? cs] l']. destruct Hc as [-> Hs]. intros [= <- <-].
    by apply (accounted_reopened live st a (AListener l)).
  - destruct (st !! a) as [[|l]|] eqn:Ha; [done| |done]. destruct (st !! out) as [[s|]|] eqn:Hs; [|done..].
    rw /Lsnr.accept. destruct (Lsnr.is_open l); cbn [negb]; [|intros [= <- <-]; by rw insert_id].
    destruct handle as [h|]; [|intros [= <- <-]; by rw insert_id]. intros [= <- <-].
    apply (accounted_accepted live st out (ASocket s)); [done..|by apply Hz|done].
Qed.

(** C37. Every handle the system gives is owned: over any operations on sockets
    (built, moved, assigned, connected, accepted into, closed and destroyed) and
    listeners (built, listening, accepting, closed and destroyed), with every
    answer of the system, no handle is closed twice, and what the system has open
    is exactly what the live objects hold, each handle in one object; provided no
    listener is copied, which its class allows (and does in place of a move), and
    no handle is zero, the value that stands for a closed socket. *)
Theorem handles_owned_once ops live st r st' :
  owned live (held st) → Forall (λ op, answered_handle op ≠ Some 0 ∧ copies op = false) ops →
  net_ops live st ops = Some (r, st') → accounted r st'.
Proof.
  intros Ho Hz. revert live st Ho. induction Hz as [|op ops [Hop Hc] _ IH]; intros live st Ho; cbn [net_ops].
  { by intros [= <- <-]. }
  destruct (net_op op st) as [[calls st1]|] eqn:Hs; [|done].
  apply (net_op_accounted _ live) in Hs; [|done|by intros h Hh ->|done].
  destruct (os_calls live calls); [by apply IH|by intros [= <- <-]..].
Qed.

(** A listener accepts into a socket that is moved into its session's and closed. *)
Definition demo_net_ops : list NetOp :=
  [MakeListener 1; ListenOn (Some 11) true true 47600 1; MakeSocket 2; AcceptInto (Some 12) 1 2;
   MoveMake [] 3 2; Destroy 2; MoveMake [] 4 3; CloseObj 4; Destroy 3; MakeSocket 5; AcceptInto (Some 12) 1 5].
Lemma handles_owned_once_witness :
  accounted (Live {[11; 12]})
    (<[1 := AListener {| Lsnr.sock := 11; Lsnr.port := 47600 |}]>
      (<[4 := ASocket Sock.make]> (<[5 := ASocket {| Sock.sock := 12; Sock.rxbuf := [] |}]> ∅))).
Proof.
  apply (handles_owned_once demo_net_ops ∅ ∅).
  - split; [intros h; split; [set_solver|by intros [? [a <-]]]|by intros a b _ []].
  - by repeat constructor.
  - vm_compute. reflexivity.
Defined.

(** *** What the proviso excludes *)

(** An open listener and its copy share a handle, and both destructors close it. *)
Theorem copied_listener_closed_twice live st a b l :
  st !! a = Some (AListener l) → Lsnr.is_open l = true → l.(Lsnr.sock) ∈ live → st !! b = None →
  net_ops live st [CopyListener b a; Destroy b; Destroy a] = Some (NotOpen l.(Lsnr.sock), delete a st).
Proof.
  intros Ha Hopen Hl Hb. assert (a ≠ b) as Hne by congruence.
  assert (∀ x : NetObj, delete b (<[b := x]> st) = st) as Hdel by (intros; by rw delete_insert_id).
  cbn [net_ops net_op]. rw Hb Ha. cbn [os_calls net_ops net_op]. rw lookup_insert_eq Hdel.
  rw /close_obj /Lsnr.close Hopen. cbn [fst os_calls].
  rw bool_decide_eq_true_2 //. cbn [net_ops net_op]. rw Ha /close_obj /Lsnr.close Hopen. cbn [fst os_calls].
  rw bool_decide_eq_false_2; [done|set_solver].
Qed.
(** A listener that is assigned over an open one leaves its handle to no one. *)
Theorem assigned_listener_leaks live st a b l k :
  owned live (held st) → st !! a = Some (AListener l) → st !! b = Some (AListener k) →
  Lsnr.is_open k = true → k.(Lsnr.sock) ≠ l.(Lsnr.sock) →
  ∃ st', net_ops live st [AssignListener b a] = Some (Live live, st') ∧
    k.(Lsnr.sock) ∈ live ∧ ∀ c, held st' c ≠ k.(Lsnr.sock).
Proof.
  intros [Hl Hi] Ha Hb Hopen Hne. eexists. cbn [net_ops net_op]. rw Hb Ha. split; [done|].
  assert (k.(Lsnr.sock) ≠ 0) as Hk by (revert Hopen; rw /Lsnr.is_open; by destruct (N.eqb_spec (Lsnr.sock k) 0)).
  assert (held st b = k.(Lsnr.sock)) as Hheld by exact (held_some st b _ Hb).
  split; [apply Hl; eauto|]. intros c. rw held_insert. case_decide as Hc; [cbn; congruence|].
  intros Heq. apply Hc, Hi; congruence.
Qed.

(** The handle zero, which Winsock may give, is lost: the socket that connected
    with it reports success, reads as closed, and never closes it. *)
Lemma zero_handle_lost :
  Sock.connect (Some 0) true Sock.make = (true, [Opened 0], {| Sock.sock := 0; Sock.rxbuf := [] |}) ∧
  Sock.is_open {| Sock.sock := 0; Sock.rxbuf := [] |} = false ∧
  net_ops ∅ ∅ [MakeSocket 1; ConnectTo (Some 0) true 1; Destroy 1] = Some (Live {[0]}, ∅).
Proof. split_and!; vm_compute; reflexivity. Qed.
