(* ===== verification/Payload.v ===== *)
(** * Payloads

    [protocol/message.cpp]: the [key=value] lines a frame carries, printed from
    an ordered map and parsed back, and the reading of an integer field
    ([std::stoull] behind the [u] of session.cpp). *)

From Stdlib Require Import Ascii String.
From stdpp Require Import pretty sorting.
From S2P Require Import Prelude Identities Enums Model Codec.
Local Open Scope N_scope.

(** [std::map<std::string, std::string>]. *)
Definition Fields := gmap string string.

Definition chars (s : string) : Bytes := list_ascii_of_string s.
Definition text (d : Bytes) : string := string_of_list_ascii d.
Definition newline : ascii := "010"%char.
Definition equals : ascii := "="%char.

(** ** Printing: the map is walked in the order of its keys *)

Definition key_le (a b : string * string) : Prop := String.leb a.1 b.1 = true.
#[export] Instance key_le_dec a b : Decision (key_le a b).
Proof. rw /key_le. apply _. Defined.
Definition ordered (f : Fields) : list (string * string) := merge_sort key_le (map_to_list f).

Definition make_payload (fields : Fields) : Bytes :=
  foldl (λ out kv, out ++ chars kv.1 ++ [equals] ++ chars kv.2 ++ [newline]) [] (ordered fields).

(** ** Parsing *)

(** The lines of [std::getline]: what follows the last newline is a line only
    if it is not empty. *)
Fixpoint getlines (line s : Bytes) : list Bytes :=
  match s with
  | [] => match line with [] => [] | _ => [line] end
  | c :: s => if decide (c = newline) then line :: getlines [] s else getlines (line ++ [c]) s
  end.

(** [line.find("=")] and the two [substr]s. *)
Fixpoint split_equals (key line : Bytes) : option (Bytes * Bytes) :=
  match line with
  | [] => None
  | c :: line => if decide (c = equals) then Some (key, line) else split_equals (key ++ [c]) line
  end.

Definition parse_line (out : Fields) (line : Bytes) : Fields :=
  match line with
  | [] => out
  | _ =>
    match split_equals [] line with
    | None => out
    | Some (k, v) => <[text k := text v]> out
    end
  end.
Definition parse_payload (payload : Bytes) : Fields := foldl parse_line ∅ (getlines [] payload).

(** ** Fields *)

Definition get (f : Fields) (k d : string) : string := default d (f !! k).

Definition is_space (c : ascii) : bool :=
  let n := N_of_ascii c in (n =? 32) || ((9 <=? n) && (n <=? 13)).
Definition digit (c : ascii) : option N :=
  let n := N_of_ascii c in if (48 <=? n) && (n <=? 57) then Some (n - 48) else None.

Fixpoint skip_space (s : Bytes) : Bytes :=
  match s with
  | c :: s' => if is_space c then skip_space s' else s
  | [] => []
  end.
Fixpoint digits (acc : N) (s : Bytes) : N :=
  match s with
  | c :: s => match digit c with Some n => digits (10 * acc + n) s | None => acc end
  | [] => acc
  end.
Definition sign (s : Bytes) : bool * Bytes :=
  match s with
  | "-"%char :: s => (true, s)
  | "+"%char :: s => (false, s)
  | _ => (false, s)
  end.

(** [std::stoull]: [None] is its [invalid_argument] or [out_of_range]; a minus
    sign negates in the unsigned type. *)
Definition stoull (str : string) : option N :=
  let '(negative, s) := sign (skip_space (chars str)) in
  match s with
  | c :: _ =>
    match digit c with
    | Some _ =>
      let v := digits 0 s in
      if 2 ^ 64 <=? v then None
      else Some (if negative then u64 (2 ^ 64 - v) else v)
    | None => None
    end
  | [] => None
  end.

Definition u (f : Fields) (k : string) (d : N) : N :=
  match f !! k with
  | None => d
  | Some s => default d (stoull s)
  end.

Definition to_string (n : N) : string := pretty n.

(** ** Properties *)

(** Fields that no line break or separator splits. *)
Definition clean_field (k v : string) : Prop :=
  (equals ∉ chars k) ∧ (newline ∉ chars k) ∧ (newline ∉ chars v).
Definition clean (f : Fields) : Prop := map_Forall clean_field f.

Lemma text_chars s : text (chars s) = s.
Proof. apply string_of_list_ascii_of_string. Qed.
Lemma chars_text d : chars (text d) = d.
Proof. apply list_ascii_of_string_of_list_ascii. Qed.

Lemma getlines_line line l rest :
  newline ∉ l → getlines line (l ++ newline :: rest) = (line ++ l) :: getlines [] rest.
Proof.
  revert line. induction l as [|c l IH]; intros line Hl; simpl.
  - by rw app_nil_r.
  - apply not_elem_of_cons in Hl as [Hc Hl]. rw decide_False; [|done]. by rw IH // -app_assoc.
Qed.
Lemma split_equals_found key k v :
  equals ∉ k → split_equals key (k ++ equals :: v) = Some (key ++ k, v).
Proof.
  revert key. induction k as [|c k IH]; intros key Hk; simpl.
  - by rw app_nil_r.
  - apply not_elem_of_cons in Hk as [Hc Hk]. rw decide_False; [|done]. by rw IH // -app_assoc.
Qed.

Definition line_of (kv : string * string) : Bytes := chars kv.1 ++ [equals] ++ chars kv.2.

Lemma getlines_printed l :
  Forall (λ kv, clean_field kv.1 kv.2) l →
  getlines [] (foldl (λ out kv, out ++ chars kv.1 ++ [equals] ++ chars kv.2 ++ [newline]) [] l)
  = (line_of <$> l).
Proof.
  assert (∀ out, foldl (λ out kv, out ++ chars kv.1 ++ [equals] ++ chars kv.2 ++ [newline]) out l
    = out ++ concat ((λ kv, line_of kv ++ [newline]) <$> l)) as Hfold.
  { induction l as [|kv l IH]; intros out; [by rw /= app_nil_r|].
    cbn [foldl fmap list_fmap concat]. by rw IH /line_of -!app_assoc. }
  rw Hfold app_nil_l. clear Hfold. induction 1 as [|kv l (Hk & Hn & Hv) _ IH]; [done|].
  cbn [fmap list_fmap concat]. rw -app_assoc. cbn [app]. rw getlines_line; [by rw app_nil_l IH|].
  rw /line_of !elem_of_app list_elem_of_singleton. by intros [?|[?|?]].
Qed.

Lemma parse_line_of out kv :
  clean_field kv.1 kv.2 → parse_line out (line_of kv) = <[kv.1 := kv.2]> out.
Proof.
  intros (Hk & _ & _). rw /parse_line /line_of split_equals_found // app_nil_l !text_chars.
  by destruct (chars kv.1).
Qed.

Lemma ordered_perm f : ordered f ≡ₚ map_to_list f.
Proof. apply merge_sort_Permutation. Qed.

Lemma parse_make f : clean f → parse_payload (make_payload f) = f.
Proof.
  intros Hclean.
  assert (Forall (λ kv, clean_field kv.1 kv.2) (ordered f)) as Hall.
  { rw ordered_perm. apply Forall_forall. intros [k v] Hkv%elem_of_map_to_list. by apply Hclean. }
  rw /parse_payload /make_payload getlines_printed //.
  assert (NoDup (ordered f).*1) as Hnodup by (rw ordered_perm; apply NoDup_fst_map_to_list).
  transitivity (list_to_map (ordered f) : Fields).
  - assert (∀ l out, Forall (λ kv, clean_field kv.1 kv.2) l → NoDup l.*1 → 
      foldl parse_line out (line_of <$> l) = (list_to_map l : Fields) ∪ out) as Hgo.
    { clear. induction l as [|kv l IH]; intros out Hall Hnodup; [by rw /= left_id_L|].
      apply Forall_cons in Hall as [Hkv Hall]. apply NoDup_cons in Hnodup as [Hin Hnodup].
      cbn [fmap list_fmap foldl]. rw parse_line_of // IH //=. destruct kv as [k v]. simpl.
      rw -insert_union_r; [by rw insert_union_l|by apply not_elem_of_list_to_map]. }
    by rw Hgo // right_id_L.
  - rw -{2}(list_to_map_to_list f). apply list_to_map_proper; [done|apply ordered_perm].
Qed.

(** Whatever is parsed is clean. *)
Lemma getlines_no_newline s : ∀ line, newline ∉ line → Forall (λ l, newline ∉ l) (getlines line s).
Proof.
  induction s as [|c s IH]; intros line Hline; simpl.
  - destruct line; repeat constructor. done.
  - case_decide as Hc; [constructor; [done|apply IH; set_solver]|].
    apply IH. rw elem_of_app list_elem_of_singleton. naive_solver.
Qed.
Lemma split_equals_sound line : ∀ key k v,
  (equals ∉ key) → split_equals key line = Some (k, v) →
  (equals ∉ k) ∧ key ++ line = k ++ equals :: v.
Proof.
  induction line as [|c line IH]; intros key k v Hkey; cbn [split_equals]; [done|].
  case_decide as Hc; [intros [= <- <-]; by subst c|].
  intros Hs. apply IH in Hs as [Hk Heq].
  - split; [done|]. by rw -Heq -app_assoc.
  - rw elem_of_app list_elem_of_singleton. naive_solver.
Qed.
Lemma parse_clean payload : clean (parse_payload payload).
Proof.
  rw /parse_payload. assert (clean (∅ : Fields)) as H0 by apply map_Forall_empty.
  revert H0. generalize (∅ : Fields) as out.
  pose proof (getlines_no_newline payload [] (not_elem_of_nil _)) as Hl. revert Hl.
  induction 1 as [|line l Hline _ IH]; intros out Hout; [done|]. apply IH. clear IH.
  rw /parse_line. destruct line as [|b line]; [done|].
  destruct (split_equals [] (b :: line)) as [[k v]|] eqn:Hs; [|done].
  apply split_equals_sound in Hs as [Hk Heq]; [|apply not_elem_of_nil]. rw app_nil_l in Heq.
  rw Heq elem_of_app elem_of_cons in Hline.
  apply map_Forall_insert_2; [|done]. rw /clean_field !chars_text. naive_solver.
Qed.

(** C40. Payloads round trip exactly when they can: parsing what [make_payload]
    printed returns the same fields if and only if no key holds a separator or
    a newline and no value a newline; and whatever arrived in a payload is of
    that kind, so forwarding parsed fields loses and injects nothing. *)
Theorem payload_round_trips :
  (∀ f, parse_payload (make_payload f) = f ↔ clean f) ∧
  ∀ payload, parse_payload (make_payload (parse_payload payload)) = parse_payload payload.
Proof.
  split; [|intros payload; apply parse_make, parse_clean].
  intros f. split; [|apply parse_make]. intros <-. apply parse_clean.
Qed.

Lemma clean_list (l : list (string * string)) :
  Forall (λ kv, clean_field kv.1 kv.2) l → clean (list_to_map l).
Proof. induction 1 as [|[k v] l Hkv _ IH]; [apply map_Forall_empty|]. by apply map_Forall_insert_2. Qed.
Lemma clean_get f k d : clean f → newline ∉ chars d → newline ∉ chars (get f k d).
Proof.
  intros Hf Hd. rw /get. destruct (f !! k) as [v|] eqn:Hk; [|done]. by apply Hf in Hk as (_ & _ & Hv).
Qed.
(** A key written in the code. *)
Lemma plain_key k :
  bool_decide (equals ∉ chars k) && bool_decide (newline ∉ chars k) = true → ∀ v,
  newline ∉ chars v → clean_field k v.
Proof. intros [H1%bool_decide_eq_true H2%bool_decide_eq_true]%andb_prop v Hv. done. Qed.

(** A value with a newline injects a field. *)
Example newline_injects :
  parse_payload (make_payload {[ "marker" := text (chars "m" ++ newline :: chars "seed=7") ]})
  = {[ "marker" := "m"; "seed" := "7" ]}.
Proof. vm_compute. reflexivity. Qed.

(** ** Numbers *)

Lemma digit_pretty n : n < 10 → digit (pretty_N_char n) = Some n.
Proof.
  intros Hn. assert (n ∈ N.of_nat <$> seq 0 10) as Hin.
  { apply list_elem_of_fmap. exists (N.to_nat n). rw N2Nat.id. split; [done|]. apply elem_of_seq. lia. }
  revert Hin. clear Hn. revert n. apply Forall_forall. by repeat constructor.
Qed.

Lemma digits_pretty x : ∀ s, digits 0 (chars (pretty_N_go x s)) = digits x (chars s).
Proof.
  induction (N.lt_wf_0 x) as [x _ IH]; intros s.
  destruct (N.eq_dec x 0) as [->|Hx]; [by rw pretty_N_go_0|].
  rw pretty_N_go_step; [|lia]. rw IH; [|by apply N.div_lt; lia]. cbn [chars list_ascii_of_string digits].
  rw digit_pretty; [|by apply N.mod_lt]. f_equal. pose proof (N.div_mod x 10 ltac:(lia)). lia.
Qed.
Lemma pretty_starts x : ∀ s c d,
  chars s = c :: d → is_Some (digit c) →
  ∃ c' d', chars (pretty_N_go x s) = c' :: d' ∧ is_Some (digit c').
Proof.
  induction (N.lt_wf_0 x) as [x _ IH]; intros s c d Hs Hc.
  destruct (N.eq_dec x 0) as [->|Hx]; [by rw pretty_N_go_0; eauto|].
  rw pretty_N_go_step; [|lia]. eapply IH; [by apply N.div_lt; lia|done|].
  rw digit_pretty; [by eexists|by apply N.mod_lt].
Qed.

Lemma digit_plain c : is_Some (digit c) → is_space c = false ∧ ∀ d, sign (c :: d) = (false, c :: d).
Proof. destruct c as [[] [] [] [] [] [] [] []]; vm_compute; intros [? [=]]; done. Qed.

Lemma clean_to_string n : newline ∉ chars (to_string n).
Proof.
  assert (∀ x s, newline ∉ chars s → newline ∉ chars (pretty_N_go x s)) as Hgo.
  { intros x. induction (N.lt_wf_0 x) as [x _ IH]; intros s Hs.
    destruct (N.eq_dec x 0) as [->|Hx]; [by rw pretty_N_go_0|].
    rw pretty_N_go_step; [|lia]. apply IH; [by apply N.div_lt; lia|].
    cbn [chars list_ascii_of_string]. apply not_elem_of_cons. split; [|done].
    intros Heq. pose proof (digit_pretty (x mod 10) ltac:(by apply N.mod_lt)) as Hd.
    by rw -Heq in Hd. }
  rw /to_string /pretty /pretty_N. case_decide; [|apply Hgo, not_elem_of_nil].
  apply (bool_decide_unpack _). vm_compute. exact I.
Qed.

(** An integer field reads back as the integer printed. *)
Lemma stoull_to_string n : n < 2 ^ 64 → stoull (to_string n) = Some n.
Proof.
  intros Hn. assert (∃ c d, chars (to_string n) = c :: d ∧ is_Some (digit c) ∧ digits 0 (c :: d) = n)
    as (c & d & Hs & Hc & Hd).
  { rw /to_string /pretty /pretty_N. case_decide as H0.
    - subst n. by eexists _, _.
    - rw pretty_N_go_step; [|lia].
      destruct (pretty_starts (n / 10) (String (pretty_N_char (n mod 10)) "") (pretty_N_char (n mod 10)) [])
        as (c & d & Hs & Hc); [done|rw digit_pretty; [by eexists|by apply N.mod_lt]|].
      exists c, d. split; [done|]. split; [done|]. rw -Hs digits_pretty. cbn [chars list_ascii_of_string digits].
      rw digit_pretty; [|by apply N.mod_lt]. pose proof (N.div_mod n 10 ltac:(lia)). lia. }
  destruct (digit_plain c Hc) as [Hspace Hsign].
  rw /stoull Hs /= Hspace Hsign. destruct Hc as [k Hc]. rw Hc Hd.
  by rw (proj2 (N.leb_gt _ _)).
Qed.
Lemma u_to_string f k n d : n < 2 ^ 64 → f !! k = Some (to_string n) → u f k d = n.
Proof. intros Hn Hk. by rw /u Hk stoull_to_string. Qed.
