(* ===== verification/Backend.v ===== *)
(** * The reference backend

    [backend.hpp] and [backend/cpu_backend.cpp]: the contract a backend
    satisfies, the deterministic reference computation in binary32 arithmetic,
    and the CPU backend.  A [float] is a binary32 number of the Standard
    Library's IEEE 754 specification; every operation rounds once, to nearest
    even, as the code asks of the compiler. *)

From Stdlib Require Import SpecFloat.
From S2P Require Import Prelude Identities Codec Payload.
Local Open Scope N_scope.

(** ** Arithmetic *)

Definition float := spec_float.
Definition f32_of_Z (n : Z) : float := binary_normalize 24 128 n 0 false.
(** A decimal literal [p / q f]: the nearest binary32. *)
Definition f32_lit (p q : Z) : float := SFdiv 24 128 (f32_of_Z p) (f32_of_Z q).
Definition f32_add : float → float → float := SFadd 24 128.
Definition f32_sub : float → float → float := SFsub 24 128.
Definition f32_mul : float → float → float := SFmul 24 128.
(** [std::max] *)
Definition f32_max (a b : float) : float := if SFltb a b then b else a.
Definition isnan (x : float) : bool := match x with S754_nan => true | _ => false end.
(** [size * sizeof(float)] *)
Definition sizeof_float : N := 4.

(** ** The contract *)

Module ComputeInput.
Record t := mk {
  input : list float;
  batch : N;
  seq_len : N;
  dtype : string;
  seed : N;
}.

#[global] Instance eta : Eta t := fields! mk <input; batch; seq_len; dtype; seed>.

Definition default : t := {| input := []; batch := 1; seq_len := 1; dtype := "fp32"; seed := 0 |}.
End ComputeInput.
Abbreviation ComputeInput := ComputeInput.t.
Module In := ComputeInput.

Module ComputeResult.
Record t := mk {
  ok : bool;
  output : list float;
  seed : N;
  elapsed_ns : N;
  detail : string;
  bytes_moved : N;
}.

#[global] Instance eta : Eta t := fields! mk <ok; output; seed; elapsed_ns; detail; bytes_moved>.

Definition default : t :=
  {| ok := false; output := []; seed := 0; elapsed_ns := 0; detail := ""; bytes_moved := 0 |}.
End ComputeResult.
Abbreviation ComputeResult := ComputeResult.t.
Module Out := ComputeResult.

Module BackendDiscovery.
Record t := mk {
  backend_name : string;
  cuda : bool;
  device_ordinal : N;
  device_name : string;
  compute_capability : string;
  device_mem_total : N;
  device_mem_free : N;
  device_mem_base : N;
  has_device_context : bool;
  has_graph_support : bool;
}.

#[global] Instance eta : Eta t := fields! mk <backend_name; cuda; device_ordinal; device_name;
  compute_capability; device_mem_total; device_mem_free; device_mem_base; has_device_context;
  has_graph_support>.

Definition default : t := {|
  backend_name := ""; cuda := false; device_ordinal := 0; device_name := "";
  compute_capability := ""; device_mem_total := 0; device_mem_free := 0; device_mem_base := 0;
  has_device_context := false; has_graph_support := false;
|}.
End BackendDiscovery.
Abbreviation BackendDiscovery := BackendDiscovery.t.
Module Disc := BackendDiscovery.

(** The virtual functions, over the state [S] of an implementation; only
    [discover] throws. *)
Class ReferenceBackend (S : Type) := {
  backend_name : string;
  is_cuda : bool;
  discover : N → M S Exn BackendDiscovery;
  prepare : N → N → N → S → bool * S;
  bind_kernel : string → S → bool * S;
  instantiate_graph : bool → S → bool * S;
  warmup : N → N → S → ComputeResult * S;
  execute : ComputeInput → S → ComputeResult * S;
  verify_parity : ComputeResult → ComputeResult → bool;
  release : S → S;
}.

(** ** The reference computation *)

(** One iteration of the loop. *)
Definition reference_element (i : nat) (seed : N) (x : float) : float :=
  let r := f32_mul x (f32_lit 1 16) in
  let r := f32_add r (f32_lit 1 2) in
  let r := f32_add r (f32_mul (f32_of_Z (Z.of_nat (i mod 67))) (f32_lit 1 100)) in
  f32_add r (f32_mul (f32_of_Z (Z.of_N (seed mod 1000))) (f32_lit 1 1000)).
Definition cpu_reference_compute (i : ComputeInput) : list float :=
  imap (λ k x, reference_element k i.(In.seed) x) i.(In.input).

(** ** The CPU backend *)

Module CpuReferenceBackend.
Record t := mk {
  model : list float;
  workspace : list float;
  kv : list float;
  kv_entries : N;
  kernel_key : string;
  prepared : bool;
  kernel_bound : bool;
  graph_instantiated : bool;
  graph_required : bool;
}.

#[global] Instance eta : Eta t := fields! mk <model; workspace; kv; kv_entries; kernel_key;
  prepared; kernel_bound; graph_instantiated; graph_required>.

(** [make_cpu_reference_backend] *)
Definition make : t := {|
  model := []; workspace := []; kv := []; kv_entries := 0; kernel_key := "";
  prepared := false; kernel_bound := false; graph_instantiated := false; graph_required := false;
|}.

Definition discover (ordinal : N) : M t Exn BackendDiscovery :=
  let total := 1 * 1024 * 1024 * 1024 in
  mret (BackendDiscovery.default
    <| Disc.backend_name := "cpu-reference" |> <| Disc.cuda := false |>
    <| Disc.device_ordinal := ordinal |> <| Disc.device_name := "x86-64 reference" |>
    <| Disc.compute_capability := "n/a" |> <| Disc.device_mem_total := total |>
    <| Disc.device_mem_free := total |> <| Disc.device_mem_base := 0 |>
    <| Disc.has_device_context := true |> <| Disc.has_graph_support := true |>).

Definition prepare (model_bytes workspace_bytes entries : N) (b : t) : bool * t :=
  (true, b <| model := replicate (N.to_nat model_bytes) (f32_of_Z 1) |>
           <| workspace := replicate (N.to_nat workspace_bytes) (f32_of_Z 0) |>
           <| kv_entries := entries |>
           <| kv := replicate (N.to_nat entries) (f32_of_Z 0) |>
           <| prepared := true |>).

Definition bind_kernel (key : string) (b : t) : bool * t :=
  let bound := negb (String.eqb key "") in
  (bound, b <| kernel_key := key |> <| kernel_bound := bound |>).

Definition instantiate_graph (required : bool) (b : t) : bool * t :=
  (true, b <| graph_instantiated := true |> <| graph_required := required |>).

Definition run (i : ComputeInput) : ComputeResult :=
  ComputeResult.default
    <| Out.ok := true |> <| Out.output := cpu_reference_compute i |>
    <| Out.seed := i.(In.seed) |>
    <| Out.bytes_moved := u64 (N.of_nat (length i.(In.input)) * sizeof_float) |>
    <| Out.detail := "cpu-reference-compute" |>.
(** What [run] is given by a warmup: [batch * seq_len] zeros, the seed 42. *)
Definition warmup_input (batch seq_len : N) : ComputeInput :=
  ComputeInput.default
    <| In.batch := batch |> <| In.seq_len := seq_len |>
    <| In.input := replicate (N.to_nat (u64 (batch * seq_len))) (f32_of_Z 0) |>
    <| In.seed := 42 |>.
Definition warmup (batch seq_len : N) (b : t) : ComputeResult * t :=
  (run (warmup_input batch seq_len), b).
Definition execute (i : ComputeInput) (b : t) : ComputeResult * t := (run i, b).

Definition tolerance (a b : float) : float :=
  f32_mul (f32_lit 1 100000) (f32_max (f32_of_Z 1) (f32_max (SFabs a) (SFabs b))).
(** One iteration of the loop of [verify_parity]. *)
Definition agree (a b : float) : bool :=
  if isnan a || isnan b then false
  else if SFeqb a b then true
  else
    let diff := SFabs (f32_sub a b) in
    negb (SFltb (tolerance a b) diff).
Fixpoint all_agree (agree : float → float → bool) (actual reference : list float) : bool :=
  match actual, reference with
  | a :: actual, b :: reference => if agree a b then all_agree agree actual reference else false
  | _, _ => true
  end.
Definition verify_parity (actual reference : ComputeResult) : bool :=
  if negb actual.(Out.ok) || negb reference.(Out.ok) then false
  else if negb (length actual.(Out.output) =? length reference.(Out.output))%nat then false
  else all_agree agree actual.(Out.output) reference.(Out.output).

Definition release (b : t) : t :=
  b <| model := [] |> <| workspace := [] |> <| kv := [] |>
    <| prepared := false |> <| kernel_bound := false |> <| graph_instantiated := false |>.

#[export] Instance backend : ReferenceBackend t := {|
  backend_name := "cpu-reference"; is_cuda := false;
  Backend.discover := discover; Backend.prepare := prepare; Backend.bind_kernel := bind_kernel;
  Backend.instantiate_graph := instantiate_graph; Backend.warmup := warmup;
  Backend.execute := execute; Backend.verify_parity := verify_parity; Backend.release := release;
|}.
End CpuReferenceBackend.
Abbreviation CpuReferenceBackend := CpuReferenceBackend.t.
Module Cpu := CpuReferenceBackend.
Export (hints) CpuReferenceBackend.

(** ** Arithmetic facts *)

(** Numbers that are not NaN and carry no minus sign. *)
Definition nonnegative (x : float) : bool :=
  match x with
  | S754_zero s | S754_infinity s | S754_finite s _ _ => negb s
  | S754_nan => false
  end.
Definition finite (x : float) : bool :=
  match x with S754_zero _ | S754_finite _ _ _ => true | _ => false end.

Lemma nonnegative_not_nan x : nonnegative x = true → isnan x = false.
Proof. by destruct x. Qed.

Section rounding.
Context (prec emax : Z).
Local Open Scope Z_scope.

Lemma shr_1_nonneg mrs : 0 <= shr_m mrs → 0 <= shr_m (shr_1 mrs).
Proof. by destruct mrs as [[|[]|] r s]. Qed.
Lemma iter_shr_nonneg p : ∀ mrs, 0 <= shr_m mrs → 0 <= shr_m (SpecFloat.iter_pos shr_1 p mrs).
Proof.
  induction p as [p IH|p IH|]; intros mrs Hm; cbn [SpecFloat.iter_pos].
  - by apply IH, IH, shr_1_nonneg.
  - by apply IH, IH.
  - by apply shr_1_nonneg.
Qed.
Lemma shr_fexp_nonneg m e l : 0 <= m → 0 <= shr_m (shr_fexp prec emax m e l).1.
Proof.
  intros Hm. rw /shr_fexp /shr.
  assert (0 <= shr_m (shr_record_of_loc m l)) as H by (by destruct l as [|[]]).
  destruct (_ - e); try exact H. by apply iter_shr_nonneg.
Qed.
Lemma round_nonneg m l : 0 <= m → 0 <= round_nearest_even m l.
Proof. destruct l as [|[]]; cbn [round_nearest_even]; try case_match; lia. Qed.

(** Rounding a magnitude gives a number of the same sign. *)
Lemma binary_round_aux_nonnegative m e l :
  0 <= m → nonnegative (binary_round_aux prec emax false m e l) = true.
Proof.
  intros Hm. rw /binary_round_aux.
  pose proof (shr_fexp_nonneg m e l Hm) as H1. destruct (shr_fexp _ _ m e l) as [mrs e']. simpl in H1.
  pose proof (shr_fexp_nonneg _ e' loc_Exact (round_nonneg _ (loc_of_shr_record mrs) H1)) as H2.
  destruct (shr_fexp _ _ (round_nearest_even _ _) _ _) as [mrs' e'']. simpl in H2.
  destruct (shr_m mrs'); [done| |lia]. by case_match.
Qed.
Lemma binary_normalize_nonnegative m e :
  0 <= m → nonnegative (binary_normalize prec emax m e false) = true.
Proof.
  intros Hm. destruct m as [|m|m]; [done| |lia]. rw /= /binary_round.
  destruct (shl_align _ _ _). by apply binary_round_aux_nonnegative.
Qed.
Lemma SFadd_nonnegative x y :
  nonnegative x = true → nonnegative y = true → nonnegative (SFadd prec emax x y) = true.
Proof.
  destruct x as [[]|[]| |[] mx ex], y as [[]|[]| |[] my ey]; intros Hx Hy; try done.
  by apply binary_normalize_nonnegative.
Qed.
Lemma SFmul_nonnegative x y :
  nonnegative x = true → nonnegative y = true → finite x = true → finite y = true →
  nonnegative (SFmul prec emax x y) = true.
Proof.
  destruct x as [[]|[]| |[] mx ex], y as [[]|[]| |[] my ey]; intros Hx Hy Hfx Hfy; try done.
  by apply binary_round_aux_nonnegative.
Qed.
End rounding.

Lemma SFeqb_refl x : isnan x = false → SFeqb x x = true.
Proof.
  destruct x as [s|s| |s m e]; intros Hx; try done; [by destruct s|].
  rw /SFeqb /SFcompare Z.compare_refl Pos.compare_cont_refl. by destruct s.
Qed.

Lemma small_integers : ∀ k : nat, (k < 1000)%nat →
  nonnegative (f32_of_Z (Z.of_nat k)) = true ∧ finite (f32_of_Z (Z.of_nat k)) = true.
Proof.
  assert (forallb (λ k, nonnegative (f32_of_Z (Z.of_nat k)) && finite (f32_of_Z (Z.of_nat k))) (seq 0 1000)
    = true) as H by (vm_compute; reflexivity).
  intros k Hk. rw forallb_forall in H. apply andb_prop, H, in_seq. lia.
Qed.

(** From non-negative finite inputs the reference computation never makes a
    NaN. *)
Lemma reference_element_nonnegative i seed x :
  nonnegative x = true → finite x = true → nonnegative (reference_element i seed x) = true.
Proof.
  intros Hn Hf. rw /reference_element.
  destruct (small_integers (i mod 67)) as [Hi Hi'].
  { pose proof (Nat.mod_upper_bound i 67). lia. }
  destruct (small_integers (N.to_nat (seed mod 1000))) as [Hs Hs'].
  { pose proof (N.mod_lt seed 1000). lia. }
  rw N_nat_Z in Hs Hs'.
  repeat apply SFadd_nonnegative; try apply SFmul_nonnegative; done.
Qed.

(** ** Parity *)

Lemma all_agree_spec agree actual : ∀ reference, length actual = length reference →
  Cpu.all_agree agree actual reference = true ↔ Forall2 (λ a b, agree a b = true) actual reference.
Proof.
  induction actual as [|a actual IH]; intros [|b reference] Hl; try discriminate Hl; cbn [Cpu.all_agree].
  - split; [by constructor|done].
  - rw Forall2_cons. destruct (agree a b).
    + rw IH; [naive_solver|]. by injection Hl.
    + naive_solver.
Qed.
Lemma all_agree_refl agree l :
  Forall (λ x, agree x x = true) l → Cpu.all_agree agree l l = true.
Proof. intros Hl. apply all_agree_spec; [done|]. by apply Forall_Forall2_diag. Qed.

Definition positive_input (i : ComputeInput) : Prop :=
  Forall (λ x, nonnegative x = true ∧ finite x = true) i.(In.input).
Lemma cpu_reference_compute_no_nan i :
  positive_input i → Forall (λ x, isnan x = false) (cpu_reference_compute i).
Proof.
  intros Hi. apply Forall_lookup. intros k y Hy.
  rw /cpu_reference_compute list_lookup_imap in Hy.
  destruct (In.input i !! k) as [x|] eqn:Hx; [|done]. injection Hy as <-.
  destruct (Forall_lookup_1 _ _ _ _ Hi Hx).
  by apply nonnegative_not_nan, reference_element_nonnegative.
Qed.

(** What a backend promises its clients: while it is usable for a non-negative
    finite input, executing that input passes the backend's own parity check
    against the CPU reference, and it stays usable. *)
Class Faithful (S : Type) `{ReferenceBackend S} := {
  usable : ComputeInput → S → Prop;
  usable_kept i b : usable i b → usable i (execute i b).2;
  one_line_detail i b : usable i b → newline ∉ chars (execute i b).1.(Out.detail);
  faithful_parity i b reference :
    usable i b → positive_input i → reference.(Out.ok) = true →
    reference.(Out.output) = cpu_reference_compute i →
    verify_parity (execute i b).1 reference = true;
}.

(** The CPU backend always is. *)
#[export] Program Instance cpu_faithful : Faithful CpuReferenceBackend := {|
  usable := λ _ _, True;
|}.
Next Obligation. done. Qed.
Next Obligation.
  intros i b _. change (newline ∉ chars "cpu-reference-compute").
  apply (bool_decide_unpack _). vm_compute. exact I.
Qed.
Next Obligation.
  intros i b reference _ Hi Hok Hout.
  cbn. rw /Cpu.verify_parity /= Hok Hout Nat.eqb_refl /=. apply all_agree_refl.
  eapply Forall_impl; [by apply cpu_reference_compute_no_nan|]. cbn beta. intros x Hx.
  by rw /Cpu.agree Hx SFeqb_refl.
Qed.

(** Parity decides agreement: the CPU backend's [verify_parity] accepts
    exactly two completed results of the same length whose elements agree
    pairwise, none of them a NaN, each pair equal or no further apart than the
    relative tolerance; in particular a result never passes when a NaN is
    produced, and a non-negative finite input always passes against its own
    reference. *)
Theorem verify_parity_decides actual reference :
  Cpu.verify_parity actual reference = true ↔
    actual.(Out.ok) = true ∧ reference.(Out.ok) = true ∧
    Forall2 (λ a b, isnan a = false ∧ isnan b = false ∧
      (SFeqb a b = true ∨ SFltb (Cpu.tolerance a b) (SFabs (f32_sub a b)) = false))
      actual.(Out.output) reference.(Out.output).
Proof.
  assert (∀ a b, Cpu.agree a b = true ↔ isnan a = false ∧ isnan b = false ∧
    (SFeqb a b = true ∨ SFltb (Cpu.tolerance a b) (SFabs (f32_sub a b)) = false)) as Hagree.
  { intros a b. rw /Cpu.agree. generalize (SFltb (Cpu.tolerance a b) (SFabs (f32_sub a b))) (SFeqb a b).
    destruct (isnan a), (isnan b); intros [] []; naive_solver. }
  rw /Cpu.verify_parity.
  destruct (Out.ok actual), (Out.ok reference); cbn [negb orb];
    try (split; [discriminate|intros (? & ? & _); congruence]).
  destruct (Nat.eqb_spec (length (Out.output actual)) (length (Out.output reference))) as [Hl|Hl];
    cbn [negb].
  - rw all_agree_spec //. split.
    + intros Hf. split; [done|split; [done|]]. eapply Forall2_impl; [exact Hf|]. intros a b. apply Hagree.
    + intros (_ & _ & Hf). eapply Forall2_impl; [exact Hf|]. intros a b. apply Hagree.
  - split; [discriminate|]. intros (_ & _ & Hf%Forall2_length). congruence.
Qed.

(** An infinite result passes against a finite reference: the tolerance is
    infinite as well. *)
Lemma parity_accepts_infinity b :
  finite b = true → Cpu.agree (S754_infinity false) b = true.
Proof.
  destruct b as [[]|s| |[] m e]; intros Hb; try discriminate Hb; vm_compute; reflexivity.
Qed.
