(* ===== verification/Cuda.v ===== *)
(** * The CUDA backend

    [cuda/cuda_engine.cpp] and the kernel of [cuda/cuda_kernels.cu]: the
    engine's buffers, its captured graph and its run.  The driver and the
    compiler are outside the repository: whether each call succeeds is an answer
    taken from the state, the device's properties and the sums the compiler
    contracts are parameters, and an access beyond a buffer sets [fault], the
    undefined behaviour of the device. *)

From Stdlib Require Import SpecFloat.
From S2P Require Import Prelude Identities Codec Payload Backend.
Local Open Scope N_scope.

(** What the driver reports ([None] when counting the devices fails), what
    fresh memory holds, the time the copy back takes, and which of the kernel's
    three sums the compiler contracts with the product in front of it into one
    fused operation: nvcc does unless it is told not to ([-fmad=false]), and the
    build tells it nothing. *)
Class CudaDriver := {
  device_count : option Z;
  prop_name : string;
  prop_major : N;
  prop_minor : N;
  mem_free : N;
  mem_total : N;
  indeterminate : float;
  copy_ns : N;
  contracts : nat → bool;
}.

(** [fmaf(x, y, z)]: the exact product and the sum, rounded once. *)
Definition f32_fma (x y z : float) : float :=
  match x, y, z with
  | S754_finite sx mx ex, S754_finite sy my ey, S754_finite _ _ _ =>
    f32_add (S754_finite (xorb sx sy) (mx * my) (ex + ey)) z
  | S754_finite _ _ _, S754_finite _ _ _, S754_zero _ => f32_mul x y
  | _, _, _ => f32_add (f32_mul x y) z
  end.

(** The arguments of a launch of the reference kernel. *)
Module Launch.
Record t := mk { n : nat; blocks : nat; threads : nat }.
End Launch.
Abbreviation Launch := Launch.t.

Module CudaReferenceBackend.
Record t := mk {
  d_model : option (list float);
  d_workspace : option (list float);
  d_kv : option (list float);
  d_seed : option N;
  h_staging : option (list float);
  graph : option Launch;
  graph_exec : option Launch;
  model_bytes : N;
  workspace_bytes : N;
  kv_entries : N;
  kernel_key : string;
  prepared : bool;
  kernel_bound : bool;
  graph_ready : bool;
  graph_required : bool;
  (** whether each of the next driver calls that matter succeeds, and then true *)
  answers : list bool;
  fault : bool;
}.

#[global] Instance eta : Eta t := fields! mk <d_model; d_workspace; d_kv; d_seed; h_staging; graph;
  graph_exec; model_bytes; workspace_bytes; kv_entries; kernel_key; prepared; kernel_bound;
  graph_ready; graph_required; answers; fault>.

(** [make_cuda_reference_backend] *)
Definition make (answers : list bool) : t := {|
  d_model := None; d_workspace := None; d_kv := None; d_seed := None; h_staging := None;
  graph := None; graph_exec := None; model_bytes := 0; workspace_bytes := 0; kv_entries := 0;
  kernel_key := ""; prepared := false; kernel_bound := false; graph_ready := false;
  graph_required := false; answers := answers; fault := false;
|}.

Definition staging_floats : nat := Z.to_nat 65536.
Definition staging_bytes : N := N.of_nat staging_floats * sizeof_float.

(** A driver call: whether it succeeds. *)
Definition call {E} : M t E bool := λ b, (Ok (default true (head b.(answers))), b <| answers ::= tail |>).
(** [if (call != cudaSuccess) { ... }] leaving the function, for the reason [e]. *)
Definition call_or {E} (e : E) : M t E () := ok ← call; throw_if (negb ok) e.

Section driver.
Context `{CudaDriver}.

Definition discover (ordinal : N) : M t Exn BackendDiscovery :=
  match device_count with
  | None => throw_error BackendMissing "no CUDA device"
  | Some count =>
    throw_error_if (count <=? 0)%Z BackendMissing "no CUDA device";;
    throw_error_if (Z.to_N count <=? ordinal) BackendMissing "device ordinal out of range";;
    mret (BackendDiscovery.default
      <| Disc.backend_name := "cuda-reference" |> <| Disc.cuda := true |>
      <| Disc.device_ordinal := ordinal |> <| Disc.device_name := prop_name |>
      <| Disc.compute_capability := to_string prop_major +:+ "." +:+ to_string prop_minor |>
      <| Disc.device_mem_total := mem_total |> <| Disc.device_mem_free := mem_free |>
      <| Disc.device_mem_base := u64 (mem_total + (2 ^ 64 - mem_free)) |>
      <| Disc.has_device_context := true |> <| Disc.has_graph_support := 10 <=? prop_major |>)
  end.

Definition destroy_graph (b : t) : t :=
  b <| graph_exec := None |> <| graph := None |> <| graph_ready := false |>.
Definition release_alloc (b : t) : t :=
  (destroy_graph b)
    <| h_staging := None |> <| d_seed := None |> <| d_model := None |> <| d_workspace := None |>
    <| d_kv := None |> <| prepared := false |> <| kernel_bound := false |> <| graph_ready := false |>.

(** A buffer of that many bytes, seen as floats. *)
Definition fresh (bytes : N) : list float := replicate (N.to_nat (bytes / sizeof_float)) indeterminate.

Definition alloc (set : t → t) : M t () () := call_or ();; modify set.
Definition prepare (model_size workspace_size entries : N) (b : t) : bool * t :=
  let '(o, b) :=
    (modify release_alloc;;
     modify (λ b, b <| model_bytes := model_size |> <| workspace_bytes := workspace_size |>
                    <| kv_entries := entries |>);;
     alloc (λ b, b <| d_model := Some (fresh model_size) |>);;
     (if workspace_size =? 0 then mret ()
      else alloc (λ b, b <| d_workspace := Some (fresh workspace_size) |>));;
     alloc (λ b, b <| d_kv := Some (fresh (u64 (entries * sizeof_float))) |>);;
     alloc (λ b, b <| d_seed := Some 0 |>);;
     alloc (λ b, b <| h_staging := Some (fresh staging_bytes) |>);;
     modify (λ b, b <| prepared := true |>)) b in
  (match o with Ok _ => true | Throw _ => false end, b).

Definition bind_kernel (key : string) (b : t) : bool * t :=
  let bound := negb (String.eqb key "") in
  (bound, b <| kernel_key := key |> <| kernel_bound := bound |>).

Definition threads : nat := 256.
Definition blocks_for (n : nat) : nat := (n + threads - 1) / threads.

(** Only the last call is asked for its result, and the copy of the seed for its
    effect; the graph is one launch over the whole staging size. *)
Definition instantiate_graph (required : bool) (b : t) : bool * t :=
  let '(o, b) :=
    (ready ← gets prepared;
     throw_if (negb ready) ();;
     modify (λ b, b <| graph_required := required |>);;
     modify destroy_graph;;
     copied ← call;
     (if copied : bool then modify (λ b, b <| d_seed ::= fmap (λ _, 42) |>) else mret ());;
     modify (λ b, b <| graph := Some (Launch.mk staging_floats (blocks_for staging_floats) threads) |>);;
     call_or ();;
     modify (λ b, b <| graph_exec := b.(graph) |> <| graph_ready := true |>)) b in
  (match o with Ok _ => true | Throw _ => false end, b).

(** ** The kernel *)

(** [r + x * c], the [k]-th sum of the kernel: contracted, or with the product
    rounded first. *)
Definition mad (k : nat) (x c r : float) : float :=
  if contracts k then f32_fma x c r else f32_add r (f32_mul x c).
(** What thread [i] writes to [out[i]], when [i < n]. *)
Definition er_reference_kernel (seed : N) (i : nat) (x : float) : float :=
  let r := if contracts 0 then f32_fma x (f32_lit 1 16) (f32_lit 1 2)
           else f32_add (f32_mul x (f32_lit 1 16)) (f32_lit 1 2) in
  let r := mad 1 (f32_of_Z (Z.of_nat (i mod 67))) (f32_lit 1 100) r in
  mad 2 (f32_of_Z (Z.of_N (seed mod 1000))) (f32_lit 1 1000) r.

(** The threads that pass the guard of the kernel are the indices below this. *)
Definition active (l : Launch) : nat := l.(Launch.n) `min` (l.(Launch.blocks) * l.(Launch.threads)).
(** Every thread writes a cell of its own, so their order does not matter. *)
Definition launch (l : Launch) (b : t) : t :=
  let inb := default [] b.(d_model) in
  let out := default [] b.(d_workspace) in
  let seed := default 0 b.(d_seed) in
  b <| d_workspace := imap (λ i o,
         if (i <? active l)%nat then er_reference_kernel seed i (default indeterminate (inb !! i)) else o)
       <$> b.(d_workspace) |>
    <| fault ::= orb (negb ((active l <=? length inb)%nat && (active l <=? length out)%nat)) |>.

(** ** Running *)

Definition replay (b : t) : option Launch := if b.(graph_ready) then b.(graph_exec) else None.
Definition launch_of (n : nat) (b : t) : Launch :=
  match replay b with
  | Some g => g
  | None => Launch.mk n (blocks_for n) threads
  end.

(** A copy to the front of a buffer. *)
Definition blit (src dst : list float) : list float :=
  take (length dst) src ++ drop (length src) dst.

(** The host copies the input to pinned memory, and that to the device. *)
Definition upload (i : ComputeInput) : M t string () :=
  let n := length i.(In.input) in
  modify (λ b, b <| h_staging ::= fmap (blit i.(In.input)) |>);;
  call_or "H2D failed";;
  modify (λ b, b <| fault ::= orb (negb (n <=? length (default [] b.(d_model)))%nat) |>
                 <| d_model ::= fmap (blit (take n (default [] b.(h_staging)))) |>);;
  call_or "seed H2D failed";;
  modify (λ b, b <| d_seed ::= fmap (λ _, u32 i.(In.seed)) |>).
Definition compute (n : nat) : M t string () :=
  graph ← gets replay;
  call_or (match graph with Some _ => "graph replay failed" | None => "kernel launch failed" end);;
  modify (λ b, launch (launch_of n b) b);;
  call_or "sync failed".
Definition download (n : nat) : M t string (list float) :=
  call_or "D2H failed";;
  modify (λ b, b <| fault ::= orb (negb (n <=? length (default [] b.(d_workspace)))%nat) |>
                 <| h_staging ::= fmap (blit (take n (default [] b.(d_workspace)))) |>);;
  gets (λ b, take n (default [] b.(h_staging))).

Definition run (i : ComputeInput) (b : t) : ComputeResult * t :=
  let n := length i.(In.input) in
  let '(o, b) :=
    (throw_if (n =? 0)%nat "empty input";;
     throw_if (staging_floats <? n)%nat "input too large for reference staging";;
     ready ← gets prepared;
     throw_if (negb ready) "not prepared";;
     upload i;;
     compute n;;
     output ← download n;
     ready ← gets graph_ready;
     mret (ComputeResult.default
       <| Out.output := output |> <| Out.seed := i.(In.seed) |>
       <| Out.ok := true |> <| Out.detail := if ready : bool then "cuda-graph" else "cuda-kernel" |>
       <| Out.elapsed_ns := copy_ns |>
       <| Out.bytes_moved := u64 (N.of_nat n * sizeof_float * 2) |>)) b in
  (match o with
   | Ok res => res
   | Throw detail => ComputeResult.default <| Out.ok := false |> <| Out.detail := detail |>
   end, b).

Definition warmup_input (batch seq_len : N) : ComputeInput :=
  ComputeInput.default
    <| In.batch := batch |> <| In.seq_len := seq_len |> <| In.seed := 42 |>
    <| In.input := replicate (N.to_nat (u64 (batch * seq_len))) (f32_of_Z 0) |>.

(** ** Parity, in double precision *)

Definition f64_of_Z (n : Z) : float := binary_normalize 53 1024 n 0 false.
(** [(double)x] is exact. *)
Definition f64_of_f32 (x : float) : float :=
  match x with
  | S754_finite s m e => binary_normalize 53 1024 (cond_Zopp s (Zpos m)) e s
  | _ => x
  end.
Definition f64_tolerance (a : float) : float :=
  SFmul 53 1024 (SFdiv 53 1024 (f64_of_Z 1) (f64_of_Z 100000))
    (SFadd 53 1024 (f64_of_Z 1) (SFabs (f64_of_f32 a))).
Definition agree (a b : float) : bool :=
  if SFeqb a b then true
  else negb (SFltb (f64_tolerance a) (SFabs (f64_of_f32 (f32_sub a b)))).
Definition verify_parity (actual reference : ComputeResult) : bool :=
  if negb actual.(Out.ok) || negb reference.(Out.ok) then false
  else if negb (length actual.(Out.output) =? length reference.(Out.output))%nat then false
  else Cpu.all_agree agree actual.(Out.output) reference.(Out.output).

#[export] Instance backend : ReferenceBackend t := {|
  backend_name := "cuda-reference"; is_cuda := true;
  Backend.discover := discover; Backend.prepare := prepare; Backend.bind_kernel := bind_kernel;
  Backend.instantiate_graph := instantiate_graph;
  Backend.warmup := λ batch seq_len, run (warmup_input batch seq_len);
  Backend.execute := run; Backend.verify_parity := verify_parity; Backend.release := release_alloc;
|}.
End driver.
End CudaReferenceBackend.
Abbreviation CudaReferenceBackend := CudaReferenceBackend.t.
Module Cuda := CudaReferenceBackend.
Export (hints) CudaReferenceBackend.
Lemma staging_floats_N : N.of_nat Cuda.staging_floats = 65536.
Proof. apply Z_nat_N. Qed.
#[global] Opaque Cuda.staging_floats.
#[global] Arguments Cuda.launch_of : simpl never.
#[global] Arguments Cuda.blit : simpl never.

Section cuda.
Context `{CudaDriver}.

(** ** Buffers *)

Lemma length_blit src dst : length (Cuda.blit src dst) = length dst.
Proof. rw /Cuda.blit length_app length_take length_drop. lia. Qed.
Lemma lookup_blit src dst i :
  (i < length src)%nat → (i < length dst)%nat → Cuda.blit src dst !! i = src !! i.
Proof.
  intros Hs Hd. rw /Cuda.blit lookup_app_l; [|by rw length_take; lia].
  by rw lookup_take_lt.
Qed.
Lemma take_blit n src dst :
  n = length src → (n <= length dst)%nat → take n (Cuda.blit src dst) = src.
Proof.
  intros -> Hd. rw /Cuda.blit. rw (take_ge src); [|done]. by rw take_app_length.
Qed.

(** ** What a prepared engine computes *)

(** Every element of the input through the kernel, with the seed cut to the 32
    bits it reads. *)
Definition device_compute (i : ComputeInput) : list float :=
  imap (Cuda.er_reference_kernel (u32 i.(In.seed))) i.(In.input).
(** The compiler contracts none of the sums. *)
Definition uncontracted : Prop := ∀ k, contracts k = false.

Lemma kernel_reference seed i x :
  uncontracted → Cuda.er_reference_kernel seed i x = reference_element i seed x.
Proof. intros Hc. by rw /Cuda.er_reference_kernel /Cuda.mad !Hc. Qed.
Lemma device_reference i :
  uncontracted → device_compute i = cpu_reference_compute (i <| In.seed := u32 i.(In.seed) |>).
Proof. intros Hc. apply imap_ext. intros k x _. by apply kernel_reference. Qed.

(** An engine whose next driver calls all succeed, with buffers for [n]
    elements and for everything its launch touches. *)
Record fits (n : nat) (b : CudaReferenceBackend) : Prop := {
  fits_prepared : b.(Cuda.prepared) = true;
  fits_answers : b.(Cuda.answers) = [];
  fits_fault : b.(Cuda.fault) = false;
  fits_seed : is_Some b.(Cuda.d_seed);
  fits_staging : ∃ h, b.(Cuda.h_staging) = Some h ∧ (n <= length h)%nat;
  fits_model : ∃ m, b.(Cuda.d_model) = Some m ∧ (n <= length m)%nat ∧
    (Cuda.active (Cuda.launch_of n b) <= length m)%nat;
  fits_workspace : ∃ w, b.(Cuda.d_workspace) = Some w ∧ (n <= length w)%nat ∧
    (Cuda.active (Cuda.launch_of n b) <= length w)%nat;
  fits_launch : (n <= Cuda.active (Cuda.launch_of n b))%nat;
}.

Lemma blocks_cover n : (n <= Cuda.blocks_for n * Cuda.threads)%nat.
Proof.
  rw /Cuda.blocks_for /Cuda.threads. pose proof (Nat.div_mod (n + 256 - 1) 256).
  pose proof (Nat.mod_upper_bound (n + 256 - 1) 256). lia.
Qed.
(** The cells the guard lets through hold the kernel's computation of the input
    copied to the device. *)
Lemma launched_prefix (l : Launch) seed input m w :
  (length input <= length w)%nat → (length input <= length m)%nat →
  (length input <= Cuda.active l)%nat →
  take (length input) (imap (λ i o,
    if (i <? Cuda.active l)%nat
    then Cuda.er_reference_kernel seed i (default indeterminate (Cuda.blit input m !! i)) else o) w)
  = imap (Cuda.er_reference_kernel seed) input.
Proof.
  intros Hw Hm Hl. apply list_eq. intros i. rw list_lookup_imap.
  destruct (decide (i < length input)%nat) as [Hi|Hi].
  - rw lookup_take_lt; [|done]. rw list_lookup_imap.
    destruct (lookup_lt_is_Some_2 w i) as [o ->]; [lia|]. cbn [fmap option_fmap option_map].
    rw (proj2 (Nat.ltb_lt _ _)); [|lia]. rw lookup_blit; [|lia..].
    by destruct (lookup_lt_is_Some_2 input i Hi) as [x ->].
  - rw lookup_take_ge; [|lia]. by rw (lookup_ge_None_2 input); [|lia].
Qed.

(** A driver that succeeds. *)
Lemma wp_call_or {E} (e : E) (Q : () → CudaReferenceBackend → Prop) X b :
  b.(Cuda.answers) = [] → Q () (b <| Cuda.answers ::= tail |>) → wp (Cuda.call_or e) Q X b.
Proof. intros Ha HQ. rw /wp /Cuda.call_or /Cuda.call /mbind /M_bind Ha. exact HQ. Qed.

(** After the upload the front of the model buffer is the input. *)
Lemma upload_effect i b :
  fits (length i.(In.input)) b →
  wp (Cuda.upload i) (λ _ b', fits (length i.(In.input)) b' ∧ b'.(Cuda.d_seed) = Some (u32 i.(In.seed)) ∧
    ∃ m, b'.(Cuda.d_model) = Some (Cuda.blit i.(In.input) m) ∧ (length i.(In.input) <= length m)%nat)
    (λ _ _, False) b.
Proof.
  set (n := length _). intros [Hp Ha Hf [sd Hs] (h & Hh & Hlh) (m & Hm & Hlm & Ham) Hw Hl].
  apply wp_bind, wp_modify, wp_bind, wp_call_or; [done|]. apply wp_bind, wp_modify, wp_bind.
  apply wp_call_or; [by rw /= Ha|]. apply wp_modify.
  set (b' := _ <| Cuda.d_seed ::= _ |>).
  assert (b'.(Cuda.d_model) = Some (Cuda.blit i.(In.input) m)) as Hm'.
  { cbn -[Cuda.blit]. rw Hh Hm /=. by rw take_blit. }
  split; [|split; [by rw /= Hs|by exists m]].
  split; try done.
  - by rw /= Ha.
  - rw /= Hm Hf. cbn -[Nat.leb]. by rw (proj2 (Nat.leb_le _ _)).
  - rw /= Hs. by eexists.
  - rw /= Hh. eexists. split; [done|]. by rw length_blit.
  - exists (Cuda.blit i.(In.input) m). by rw length_blit.
Qed.
Definition holds_result (i : ComputeInput) (b : CudaReferenceBackend) : Prop :=
  ∃ w, b.(Cuda.d_workspace) = Some w ∧ (length i.(In.input) <= length w)%nat ∧
    take (length i.(In.input)) w = device_compute i.

(** The launch leaves the result at the front of the workspace. *)
Lemma compute_effect i b m :
  let n := length i.(In.input) in
  fits n b → b.(Cuda.d_seed) = Some (u32 i.(In.seed)) →
  b.(Cuda.d_model) = Some (Cuda.blit i.(In.input) m) → (n <= length m)%nat →
  wp (Cuda.compute n) (λ _ b', fits n b' ∧ holds_result i b') (λ _ _, False) b.
Proof.
  intros n [Hp Ha Hf _ Hh (m' & Hm' & _ & Ham) (w & Hw & Hlw & Haw) Hl] Hs Hm Hlm.
  rw Hm' in Hm. injection Hm as ->.
  apply wp_bind, wp_gets, wp_bind, wp_call_or; [done|]. apply wp_bind, wp_modify, wp_call_or; [by rw /= Ha|].
  set (l := Cuda.launch_of n _). set (b' := Cuda.launch _ _ <| Cuda.answers ::= tail |>).
  change (Cuda.launch_of n b) with l in Ham, Haw, Hl.
  rw length_blit in Ham.
  set (cells := imap (λ i' o, if (i' <? Cuda.active l)%nat
    then Cuda.er_reference_kernel (u32 i.(In.seed)) i' (default indeterminate (Cuda.blit i.(In.input) m !! i'))
    else o) w).
  assert (b'.(Cuda.d_workspace) = Some cells) as Hw' by (cbn -[Nat.ltb Cuda.active]; by rw Hw Hm' Hs).
  assert (length cells = length w) as Hcells by apply length_imap.
  split.
  - split; try done.
    + by rw /= Ha.
    + cbn -[Nat.leb]. rw Hm' Hw Hf /= length_blit. by rw !(proj2 (Nat.leb_le _ _)).
    + eexists. split; [exact Hm'|]. by rw length_blit.
    + exists cells. by rw Hcells.
  - exists cells. rw Hcells. split; [done|]. split; [done|]. by apply launched_prefix.
Qed.

Lemma download_effect i b :
  let n := length i.(In.input) in
  fits n b → holds_result i b →
  wp (Cuda.download n) (λ output b', fits n b' ∧
    output = device_compute i) (λ _ _, False) b.
Proof.
  intros n [Hp Ha Hf Hs (h & Hh & Hlh) Hm (w & Hw & Hlw & Haw) Hl] (w' & Hw' & Hn & Hres).
  assert (w' = w) as -> by congruence.
  assert (n = length (take n w)) as Htake by (rw length_take; lia).
  apply wp_bind, wp_call_or; [done|]. apply wp_bind, wp_modify, wp_gets.
  set (b' := _ <| Cuda.h_staging ::= _ |>).
  assert (b'.(Cuda.h_staging) = Some (Cuda.blit (take n w) h)) as Hh' by (by rw /= Hh Hw).
  split.
  - split; try done.
    + by rw /= Ha.
    + cbn -[Nat.leb]. rw Hw Hf /=. by rw !(proj2 (Nat.leb_le _ _)).
    + eexists. split; [exact Hh'|]. by rw length_blit.
    + by exists w.
  - rw Hh' /= take_blit; [done|done|exact Hlh].
Qed.

Lemma run_exact i b :
  (0 < length i.(In.input) <= Cuda.staging_floats)%nat → fits (length i.(In.input)) b →
  ∃ r b', Cuda.run i b = (r, b') ∧ r.(Out.ok) = true ∧
    r.(Out.output) = device_compute i ∧
    fits (length i.(In.input)) b' ∧
    (r.(Out.detail) = "cuda-graph" ∨ r.(Out.detail) = "cuda-kernel").
Proof.
  intros [Hpos Hmax] Hfits. rw /Cuda.run.
  match goal with |- context [?m b] => 
    assert (wp m (λ r b', r.(Out.ok) = true ∧
      r.(Out.output) = device_compute i ∧
      fits (length i.(In.input)) b' ∧
      (r.(Out.detail) = "cuda-graph" ∨ r.(Out.detail) = "cuda-kernel")) (λ _ _, False) b) as Hrun
  end.
  { apply wp_bind, wp_throw_if; [intros Hz%Nat.eqb_eq; lia|intros _].
    apply wp_bind, wp_throw_if; [intros Hz%Nat.ltb_lt; lia|intros _].
    apply wp_bind, wp_gets. rw (fits_prepared _ _ Hfits). apply wp_bind, wp_throw_if; [intros Hz; discriminate Hz|intros _].
    apply wp_bind. eapply wp_mono; [| |by apply upload_effect]; [|done].
    intros [] b1 (Hfits1 & Hs & m & Hm & Hlm).
    apply wp_bind. eapply wp_mono; [| |by eapply compute_effect]; [|done].
    intros [] b2 [Hfits2 Hres]. apply wp_bind. eapply wp_mono; [| |by apply download_effect]; [|done].
    intros output b3 [Hfits3 ->]. apply wp_bind, wp_gets, wp_ret. split_and!; [done..|].
    cbn. destruct (Cuda.graph_ready b3); auto. }
  revert Hrun. rw {1}/wp. match goal with |- context [?m b] => destruct (m b) as [[r|e] b'] end; [|done].
  intros. by exists r, b'.
Qed.
(** A launch that reaches past a buffer faults, whatever happens next. *)
Lemma run_faults i b :
  let n := length i.(In.input) in
  (0 < n <= Cuda.staging_floats)%nat → b.(Cuda.prepared) = true → b.(Cuda.answers) = [] →
  ¬ (Cuda.active (Cuda.launch_of n b) <= length (default [] b.(Cuda.d_model)) ∧
     Cuda.active (Cuda.launch_of n b) <= length (default [] b.(Cuda.d_workspace)))%nat →
  (Cuda.run i b).2.(Cuda.fault) = true.
Proof.
  intros n [Hpos Hmax] Hp Ha Hover. rw /Cuda.run. fold n.
  match goal with |- context [?m b] =>
    assert (wp m (λ _ b', b'.(Cuda.fault) = true) (λ _ _, False) b) as Hrun
  end.
  { apply wp_bind, wp_throw_if; [intros Hz%Nat.eqb_eq; lia|intros _].
    apply wp_bind, wp_throw_if; [intros Hz%Nat.ltb_lt; lia|intros _].
    apply wp_bind, wp_gets. rw Hp. apply wp_bind, wp_throw_if; [intros Hz; discriminate Hz|intros _].
    apply wp_bind. apply wp_bind, wp_modify, wp_bind, wp_call_or; [done|].
    apply wp_bind, wp_modify, wp_bind, wp_call_or; [by rw /= Ha|]. apply wp_modify.
    apply wp_bind. apply wp_bind, wp_gets, wp_bind, wp_call_or; [by rw /= Ha|].
    apply wp_bind, wp_modify, wp_call_or; [by rw /= Ha|].
    apply wp_bind. apply wp_bind, wp_call_or; [by rw /= Ha|]. apply wp_bind, wp_modify, wp_gets.
    apply wp_bind, wp_gets, wp_ret. set (l := Cuda.launch_of n b) in Hover.
    assert (∀ o (f : list float → list float), (∀ x, length (f x) = length x) →
      length (default [] (f <$> o)) = length (default [] o)) as Hkeep by (by intros [x|] f Hx; cbn).
    cbn -[Nat.leb Nat.ltb Cuda.active Cuda.launch_of]. 
    match goal with |- context [Cuda.active ?l'] => change l' with l in * end.
    rw (Hkeep b.(Cuda.d_model)); [|intros x; apply length_blit].
    apply orb_true_iff. right. apply orb_true_iff. left. apply negb_true_iff.
    apply andb_false_iff. rw !Nat.leb_gt. lia. }
  revert Hrun. rw {1}/wp. match goal with |- context [?m b] => destruct (m b) as [[r|e] b'] end; done.
Qed.
(** ** From [prepare] on *)

(** An engine prepared on a driver that succeeds, with or without a graph. *)
Definition prepared_engine (model_size workspace_size entries : N) (graph : bool)
    : CudaReferenceBackend :=
  let b := (Cuda.prepare model_size workspace_size entries (Cuda.make [])).2 in
  if graph then (Cuda.instantiate_graph true b).2 else b.
(** The elements a run of [n] launches over. *)
Definition span (n : nat) (graph : bool) : nat := if graph then Cuda.staging_floats else n.

Lemma active_own n : Cuda.active (Launch.mk n (Cuda.blocks_for n) Cuda.threads) = n.
Proof. rw /Cuda.active /=. pose proof (blocks_cover n). lia. Qed.
Lemma prepared_engine_launch n mb wb kv graph :
  Cuda.active (Cuda.launch_of n (prepared_engine mb wb kv graph)) = span n graph.
Proof.
  rw /prepared_engine /Cuda.prepare. destruct (wb =? 0), graph; apply active_own.
Qed.
Lemma prepared_engine_state mb wb kv graph :
  let b := prepared_engine mb wb kv graph in
  b.(Cuda.prepared) = true ∧ b.(Cuda.answers) = [] ∧ b.(Cuda.fault) = false ∧
  is_Some b.(Cuda.d_seed) ∧ b.(Cuda.h_staging) = Some (Cuda.fresh Cuda.staging_bytes) ∧
  b.(Cuda.d_model) = Some (Cuda.fresh mb) ∧
  b.(Cuda.d_workspace) = (if wb =? 0 then None else Some (Cuda.fresh wb)).
Proof.
  rw /prepared_engine /Cuda.prepare. destruct (wb =? 0), graph; split_and!; try done; by eexists.
Qed.

Lemma length_fresh bytes : length (Cuda.fresh bytes) = N.to_nat (bytes / 4).
Proof. apply length_replicate. Qed.
Lemma length_staging : length (Cuda.fresh Cuda.staging_bytes) = Cuda.staging_floats.
Proof. rw length_fresh /Cuda.staging_bytes /sizeof_float N.div_mul; [apply Nat2N.id|discriminate]. Qed.
Lemma workspace_length (wb : N) :
  length (default [] (if wb =? 0 then None else Some (Cuda.fresh wb))) = N.to_nat (wb / 4).
Proof. destruct (N.eqb_spec wb 0) as [->|_]; [done|apply length_fresh]. Qed.

(** C36. What a CUDA run needs: after [prepare], and [instantiate_graph] when a
    graph is asked for, on a driver that succeeds, a run of 1 to 65536 elements
    stays inside its buffers if and only if the model and the workspace hold as
    many floats as the launch covers, which is all 65536 for a graph replay
    whatever the input's length; and then it completes with exactly what the
    kernel computes for each element, with the seed cut to 32 bits.  That is the
    CPU reference bit for bit when the compiler contracts none of the kernel's
    products into its sums. *)
Theorem cuda_run_needs mb wb kv graph i :
  (0 < length i.(In.input) <= Cuda.staging_floats)%nat →
  let '(r, b) := Cuda.run i (prepared_engine mb wb kv graph) in
  (b.(Cuda.fault) = false ↔
     (span (length i.(In.input)) graph <= N.to_nat (mb / 4))%nat ∧
     (span (length i.(In.input)) graph <= N.to_nat (wb / 4))%nat) ∧
  (b.(Cuda.fault) = false →
     r.(Out.ok) = true ∧ r.(Out.output) = device_compute i ∧
     (uncontracted → r.(Out.output) = cpu_reference_compute (i <| In.seed := u32 i.(In.seed) |>))).
Proof.
  intros Hn. set (n := length _) in *. set (b := prepared_engine mb wb kv graph).
  destruct (prepared_engine_state mb wb kv graph) as (Hp & Ha & Hf & Hs & Hh & Hm & Hw). fold b in Hp, Ha, Hf, Hs, Hh, Hm, Hw.
  pose proof (prepared_engine_launch n mb wb kv graph) as Hl. fold b in Hl.
  pose proof (workspace_length wb) as Hlw. rw -Hw in Hlw.
  destruct (decide ((span n graph <= N.to_nat (mb / 4)) ∧ (span n graph <= N.to_nat (wb / 4)))%nat) as [[Hmb Hwb]|Hover].
  - assert (n <= span n graph)%nat as Hspan by (destruct graph; rw /span; lia).
    assert (fits n b) as Hfits.
    { split; try assumption.
      - eexists. split; [exact Hh|]. rw length_staging. lia.
      - exists (Cuda.fresh mb). rw length_fresh Hl. split; [done|]. lia.
      - rw Hl. destruct (Cuda.d_workspace b) as [w|]; [|simpl in Hlw; lia]. exists w. simpl in Hlw.
        split; [done|]. lia.
      - lia. }
    destruct (run_exact i b Hn Hfits) as (r & b' & -> & Hok & Hout & Hfits' & _).
    pose proof (fits_fault _ _ Hfits') as Hf'. split; [split; [intros _; split; assumption|done]|].
    intros _. split; [done|]. split; [done|]. intros Hc. by rw Hout device_reference.
  - pose proof (run_faults i b Hn Hp Ha) as Hfault. rw Hl Hm Hlw in Hfault.
    change (default [] (Some (Cuda.fresh mb))) with (Cuda.fresh mb) in Hfault. rw length_fresh in Hfault.
    destruct (Cuda.run i b) as [r b']. cbn [snd] in Hfault. rw (Hfault Hover).
    split; [split; [discriminate|done]|discriminate].
Qed.

(** The sizes the reference worker prepares ([worker_main.cpp]): a graph replay
    writes 65536 floats into a workspace of 16384. *)
Lemma worker_graph_overruns i :
  (0 < length i.(In.input) <= Cuda.staging_floats)%nat →
  (Cuda.run i (prepared_engine (N.shiftl 1 20) (N.shiftl 1 16) 1024 true)).2.(Cuda.fault) = true.
Proof.
  intros Hn. destruct (prepared_engine_state (N.shiftl 1 20) (N.shiftl 1 16) 1024 true)
    as (Hp & Ha & _ & _ & _ & _ & Hw).
  apply run_faults; [done..|]. rw prepared_engine_launch Hw. intros [_ Hle].
  cbn -[Cuda.fresh N.to_nat N.shiftl] in Hle. rw length_fresh in Hle.
  pose proof staging_floats_N. change (N.shiftl 1 16) with 65536 in Hle. change (65536 / 4) with 16384 in Hle. lia.
Qed.

(** While its engine fits, the CUDA backend keeps the promise of a backend for
    seeds of 32 bits, with a kernel the compiler left uncontracted. *)
#[export] Program Instance cuda_faithful : Faithful CudaReferenceBackend := {|
  usable i b := (0 < length i.(In.input) <= Cuda.staging_floats)%nat ∧
    fits (length i.(In.input)) b ∧ i.(In.seed) < 2 ^ 32 ∧ uncontracted;
|}.
Next Obligation.
  intros i b (Hn & Hfits & Hs & Hc). destruct (run_exact i b Hn Hfits) as (r & b' & Hrun & _ & _ & Hfits' & _).
  cbn. by rw Hrun.
Qed.
Next Obligation.
  intros i b (Hn & Hfits & Hs & Hc).
  destruct (run_exact i b Hn Hfits) as (r & b' & Hrun & _ & _ & _ & Hd). cbn. rw Hrun /=.
  destruct Hd as [->| ->]; apply (bool_decide_unpack _); vm_compute; exact I.
Qed.
Next Obligation.
  intros i b reference (Hn & Hfits & Hs & Hc) Hi Hok Hout.
  destruct (run_exact i b Hn Hfits) as (r & b' & Hrun & Hrok & Hrout & _).
  cbn. rw device_reference // in Hrout. rw Hrun /Cuda.verify_parity Hok Hrok Hout Hrout u32_small //.
  assert (i <| In.seed := In.seed i |> = i) as -> by (by destruct i).
  rw Nat.eqb_refl /=. apply all_agree_refl.
  eapply Forall_impl; [by apply cpu_reference_compute_no_nan|]. cbn beta. intros x Hx.
  by rw /Cuda.agree SFeqb_refl.
Qed.
End cuda.

(** ** Where the two backends differ *)

(** A device, and a compiler that contracts the sums that [fused] says. *)
Definition demo_driver (fused : nat → bool) : CudaDriver := {|
  device_count := Some 1%Z; prop_name := "device"; prop_major := 12; prop_minor := 0;
  mem_free := 1024; mem_total := 2048; indeterminate := S754_nan; copy_ns := 5; contracts := fused;
|}.
Definition unfused : CudaDriver := demo_driver (λ _, false).
Definition fused : CudaDriver := demo_driver (λ _, true).

(** The kernel reads 32 bits of the seed: for 2^32 the CUDA result is not the
    CPU reference, and either backend's parity check says so. *)
Example wide_seed_mismatch :
  let cuda := Cuda.er_reference_kernel (H := unfused) (u32 (2 ^ 32)) 0 (f32_of_Z 0) in
  let cpu := reference_element 0 (2 ^ 32) (f32_of_Z 0) in
  Cuda.agree cuda cpu = false ∧ Cpu.agree cuda cpu = false.
Proof. split; vm_compute; reflexivity. Qed.

(** With the sums contracted, as nvcc compiles them unless told otherwise, a 3 at
    index 22 under seed 42 does not come out as on the CPU; the parity checks let
    the difference pass. *)
Example contraction_changes_a_bit :
  let cuda := Cuda.er_reference_kernel (H := fused) 42 22 (f32_of_Z 3) in
  let cpu := reference_element 22 42 (f32_of_Z 3) in
  SFeqb cuda cpu = false ∧ Cuda.agree cuda cpu = true ∧ Cpu.agree cuda cpu = true.
Proof. split_and!; vm_compute; reflexivity. Qed.

(** The CUDA backend's parity check accepts a NaN in place of any result, which
    the CPU backend's refuses. *)
Lemma cuda_parity_accepts_nan b :
  Cuda.agree S754_nan b = true ∧ Cpu.agree S754_nan b = false.
Proof. by split; destruct b. Qed.

Definition one_element : ComputeInput := ComputeInput.default <| In.input := [f32_of_Z 3] |> <| In.seed := 42 |>.

Lemma cuda_run_needs_witness :
  let '(r, b) := Cuda.run (H := unfused) one_element (prepared_engine (H := unfused) 4 4 1 false) in
  b.(Cuda.fault) = false ∧ r.(Out.output) = cpu_reference_compute one_element.
Proof.
  assert (0 < length one_element.(In.input) <= Cuda.staging_floats)%nat as Hn.
  { pose proof staging_floats_N. cbn. lia. }
  pose proof (cuda_run_needs (H := unfused) 4 4 1 false one_element Hn) as Hrun.
  destruct (Cuda.run (H := unfused) one_element (prepared_engine (H := unfused) 4 4 1 false)) as [r b].
  destruct Hrun as [Hfault Hres].
  assert (b.(Cuda.fault) = false) as Hf by (apply Hfault; split; vm_compute; lia).
  split; [exact Hf|]. exact (proj2 (proj2 (Hres Hf)) (λ _, eq_refl)).
Defined.
