(* ===== verification/Worker.v ===== *)
(** * The worker

    [tools/worker_main.cpp]: the worker process, from its command line to its
    exit: the registration, the evidence it publishes, preparation, warmup and
    activation over its connection, then the command loop a controller drives
    or the loop of requests it serves by itself.  The process is a tree of
    sends, receives and file operations over the state of a backend; its prints
    are left out. *)

From S2P Require Import Prelude Identities Enums Model Codec Frame Payload Backend.
Local Open Scope N_scope.

(** ** Processes *)

Inductive FileOp :=
  | WriteText (path contents : string)
  | FileExists (path : string)
  | RemoveFile (path : string).

Inductive Proc (A : Type) : Type :=
  | PRet (a : A)
  (** an exception nobody catches ends the process *)
  | PRaise (e : Exn)
  | PSend (m : ProtocolMessage) (k : bool → Proc A)
  | PRecv (k : option ProtocolMessage → Proc A)
  (** a file operation, and whether it succeeded *)
  | PFile (op : FileOp) (k : bool → Proc A).
Arguments PRet {A} a.
Arguments PRaise {A} e.
Arguments PSend {A} m k.
Arguments PRecv {A} k.
Arguments PFile {A} op k.

#[export] Instance Proc_ret : MRet Proc := @PRet.
#[export] Instance Proc_bind : MBind Proc := λ A B f,
  fix go (p : Proc A) : Proc B :=
    match p with
    | PRet a => f a
    | PRaise e => PRaise e
    | PSend m k => PSend m (λ b, go (k b))
    | PRecv k => PRecv (λ m, go (k m))
    | PFile op k => PFile op (λ b, go (k b))
    end.

Definition file (op : FileOp) : Proc bool := PFile op PRet.

(** ** The command line *)

(** [std::atoi], on texts whose value fits an [int]. *)
Definition atoi (s : string) : Z :=
  let '(negative, s) := sign (skip_space (chars s)) in
  let v := Z.of_N (digits 0 s) in
  if negative : bool then (- v)%Z else v.
(** [(std::uint16_t)std::atoi(a)], [(std::uint32_t)std::atoi(a)] *)
Definition atoi_bits (bits : Z) (s : string) : N := Z.to_N (atoi s `mod` 2 ^ bits).

Module Options.
Record t := mk {
  host : string;
  port : N;
  worker_id : N;
  boot : N;
  label : string;
  pid : N;
  use_cuda : bool;
  serve : Z;
  result_file : string;
  stay_alive : bool;
  slot : N;
  command_mode : bool;
  no_activate : bool;
  ready_marker : string;
}.

#[global] Instance eta : Eta t := fields! mk <host; port; worker_id; boot; label; pid; use_cuda;
  serve; result_file; stay_alive; slot; command_mode; no_activate; ready_marker>.

Definition default : t := {|
  host := "127.0.0.1"; port := 27200; worker_id := 1; boot := 1; label := "worker"; pid := 0;
  use_cuda := false; serve := 0; result_file := ""; stay_alive := false; slot := 1;
  command_mode := false; no_activate := false; ready_marker := "";
|}.
End Options.
Abbreviation Options := Options.t.
Module Opt := Options.

(** A flag of its own, and an option that takes the next argument; [None] when
    [std::stoull] throws. *)
Definition flag (o : Options) (a : string) : option Options :=
  if String.eqb a "--cuda" then Some (o <| Opt.use_cuda := true |>)
  else if String.eqb a "--stay-alive" then Some (o <| Opt.stay_alive := true |>)
  else if String.eqb a "--command" then Some (o <| Opt.command_mode := true |>)
  else if String.eqb a "--no-activate" then Some (o <| Opt.no_activate := true |>)
  else None.
Definition option_with (o : Options) (a : string) : option (string → option Options) :=
  if String.eqb a "--host" then Some (λ v, Some (o <| Opt.host := v |>))
  else if String.eqb a "--port" then Some (λ v, Some (o <| Opt.port := atoi_bits 16 v |>))
  else if String.eqb a "--worker-id" then Some (λ v, n ← stoull v; Some (o <| Opt.worker_id := n |>))
  else if String.eqb a "--boot" then Some (λ v, n ← stoull v; Some (o <| Opt.boot := n |>))
  else if String.eqb a "--label" then Some (λ v, Some (o <| Opt.label := v |>))
  else if String.eqb a "--pid" then Some (λ v, Some (o <| Opt.pid := atoi_bits 32 v |>))
  else if String.eqb a "--serve" then Some (λ v, Some (o <| Opt.serve := atoi v |>))
  else if String.eqb a "--result" then Some (λ v, Some (o <| Opt.result_file := v |>))
  else if String.eqb a "--slot" then Some (λ v, n ← stoull v; Some (o <| Opt.slot := n |>))
  else if String.eqb a "--ready-marker" then Some (λ v, Some (o <| Opt.ready_marker := v |>))
  else None.
(** The loop over [argv]; [None] when [std::stoull] throws, or when an option
    that takes an argument comes last and the null after it is read. *)
Fixpoint parse_args (o : Options) (args : list string) : option Options :=
  match args with
  | [] => Some o
  | a :: args =>
    match option_with o a with
    | None => parse_args (default o (flag o a)) args
    | Some take =>
      match args with
      | [] => None
      | v :: args =>
        match take v with
        | Some o => parse_args o args
        | None => None
        end
      end
    end
  end.

(** ** The connection

    The epoch of the last frame received, and that frame; a failed receive
    leaves both. The authority is never set. *)

Module Conn.
Record t := mk { epoch : N; mr : ProtocolMessage.t }.
#[global] Instance eta : Eta t := fields! mk <epoch; mr>.
Definition start : t := {| epoch := 0; mr := ProtocolMessage.default |}.
End Conn.
Abbreviation Conn := Conn.t.

Definition send_msg (c : Conn) (ty : MessageType) (f : Fields) : Proc bool :=
  PSend {| Msg.type := ty; Msg.epoch := u32 c.(Conn.epoch); Msg.authority := u32 0;
           Msg.payload := make_payload f |} PRet.
Definition recv_msg (c : Conn) : Proc (bool * Conn) :=
  PRecv (λ om, match om with
    | Some m => PRet (true, {| Conn.epoch := m.(Msg.epoch); Conn.mr := m |})
    | None => PRet (false, c)
    end).
(** [send_msg(...); recv_msg(...);] with both results ignored. *)
Definition exchange (c : Conn) (ty : MessageType) (f : Fields) : Proc Conn :=
  send_msg c ty f;;
  '(_, c) ← recv_msg c;
  PRet c.
Definition answer_fields (c : Conn) : Fields := parse_payload c.(Conn.mr).(Msg.payload).

(** [pub]: the reply is read into a frame of its own. *)
Definition pub (inc_id : N) (c : Conn) (cat st : N) (subj detail : string) (extra : list (string * string))
    : Proc Conn :=
  let base := list_to_map [("category", to_string cat); ("state", to_string st); ("subject", subj);
    ("detail", detail); ("incarnation_id", to_string inc_id)] : Fields in
  c' ← exchange c MessageType.PUBLISH_COMPONENT ((list_to_map extra : Fields) ∪ base);
  PRet (c <| Conn.epoch := c'.(Conn.epoch) |>).

(** [write_marker]: a file that cannot be opened is not written. *)
Definition write_marker (path contents : string) : Proc () := file (WriteText path contents);; PRet ().
Definition write_marker_if (path contents : string) : Proc () :=
  if String.eqb path "" then PRet () else write_marker path contents.

(** [for (w = 0; w < 600 && !file_exists(path); ++w) sleep;] *)
Fixpoint wait_for (tries : nat) (path : string) : Proc () :=
  match tries with
  | O => PRet ()
  | S tries =>
    there ← file (FileExists path);
    if there : bool then PRet () else wait_for tries path
  end.

(** ** Inputs *)

(** [(float)((int)((j + (int)(seed % 11)) % 11))] for the unsigned [j < nel]. *)
Definition command_input (batch seq_len seed : N) : ComputeInput :=
  let nel := u32 (batch * seq_len) in
  ComputeInput.default
    <| In.batch := batch |> <| In.seq_len := seq_len |> <| In.seed := seed |>
    <| In.input := (λ j, f32_of_Z (Z.of_N (u32 (N.of_nat j + seed mod 11) mod 11))) <$> seq 0 (N.to_nat nel) |>.
(** The [i]th request a worker serves by itself. *)
Definition served_input (worker_id : N) (i : nat) : ComputeInput :=
  ComputeInput.default
    <| In.batch := 1 |> <| In.seq_len := 16 |>
    <| In.seed := u64 (1000 + worker_id * 7 + N.of_nat i) |>
    <| In.input := (λ j, f32_of_Z (Z.of_nat ((j + i) mod 11))) <$> seq 0 16 |>.
(** [cpu.ok = true; cpu.output = cpu_reference_compute(in); cpu.seed = in.seed;] *)
Definition cpu_result (i : ComputeInput) : ComputeResult :=
  ComputeResult.default <| Out.ok := true |> <| Out.output := cpu_reference_compute i |>
    <| Out.seed := i.(In.seed) |>.

(** ** The process *)

Section worker.
Context {S : Type} `{ReferenceBackend S}.

Definition hello (o : Options) (c : Conn) : Proc (bool * Conn) :=
  sent ← send_msg c MessageType.HELLO (list_to_map [("label", o.(Opt.label))]);
  if sent : bool then recv_msg c else PRet (false, c).
(** The incarnation and the readiness generation granted, or exit code 1. *)
Definition register (o : Options) (c : Conn) : Proc (option (N * N) * Conn) :=
  sent ← send_msg c MessageType.REGISTER (list_to_map
    [("worker_id", to_string o.(Opt.worker_id)); ("worker_boot", to_string o.(Opt.boot));
     ("source_id", "1"); ("source_boot", to_string o.(Opt.boot)); ("pid", to_string o.(Opt.pid));
     ("label", o.(Opt.label))]);
  if negb sent then PRet (None, c) else
  '(got, c) ← recv_msg c;
  if negb got then PRet (None, c)
  else if decide (c.(Conn.mr).(Msg.type) = MessageType.ERROR) then PRet (None, c)
  else
    let reg := answer_fields c in
    PRet (Some (u reg "incarnation_id" 0, u reg "readiness_gen" 1), c).
Definition measured (c : N) : list (string * string) := [("provenance", to_string c)].
(** What is published before any preparation. *)
Definition announce (inc_id : N) (disc : BackendDiscovery) (c : Conn) : Proc Conn :=
  let cat := enum_to_int (T := ComponentCategory.t) in
  let verified := enum_to_int ComponentState.VERIFIED in
  let bound := enum_to_int ComponentState.BOUND in
  let by_measure := measured (enum_to_int Provenance.MEASURED) in
  c ← pub inc_id c (cat ComponentCategory.BACKEND) verified "backend-reference"
        disc.(Disc.backend_name) by_measure;
  c ← pub inc_id c (cat ComponentCategory.DEVICE_CONTEXT) bound "device-context-0"
        disc.(Disc.device_name) by_measure;
  c ← pub inc_id c (cat ComponentCategory.MODEL) verified "reference-model" "model bound and verified"
        ([("model_gen", "1"); ("compat", "ref/v1"); ("size_bytes", to_string (N.shiftl 1 20))] ++ by_measure);
  c ← pub inc_id c (cat ComponentCategory.KV_CAPACITY) bound "kv-main" "1024 kv entries provisioned"
        ([("kv_gen", "1"); ("size_bytes", "1024")] ++ by_measure);
  c ← pub inc_id c (cat ComponentCategory.KERNEL) verified "er-reference-kernel" "kernel bound and verified"
        ([("kernel_gen", "1"); ("compat", "ref/v1")] ++ by_measure);
  pub inc_id c (cat ComponentCategory.GRAPH) verified "er-reference-graph" "graph instantiated and replayed"
    ([("graph_gen", "1")] ++ by_measure).

(** The backend's preparation; none of its results is looked at. *)
Definition bind_backend (b : S) : ComputeResult * S :=
  let b := (prepare (N.shiftl 1 20) (N.shiftl 1 16) 1024 b).2 in
  let b := (bind_kernel "er-reference-kernel" b).2 in
  let b := (instantiate_graph true b).2 in
  warmup 1 16 b.

(** PREPARE, the warmup and its evidence, and the readiness outcome. *)
Definition prepare_and_query (inc_id : N) (c : Conn) (b : S) : Proc (string * Conn * S) :=
  c ← exchange c MessageType.PREPARE ∅;
  let '(warm, b) := bind_backend b in
  c ← pub inc_id c (enum_to_int ComponentCategory.WARMUP) (enum_to_int ComponentState.VERIFIED)
        "warmup" "warmup verified"
        ([("elapsed_ns", to_string warm.(Out.elapsed_ns))] ++ measured (enum_to_int Provenance.MEASURED));
  c ← exchange c MessageType.QUERY_READINESS ∅;
  PRet (get (answer_fields c) "outcome" "UNKNOWN", c, b).

(** The state of the activation, as the worker reports it. *)
Definition activate (o : Options) (rgen : N) (outcome : string) (c : Conn) : Proc (string * Conn) :=
  if (String.eqb outcome "READY" || String.eqb outcome "DEGRADED") && negb o.(Opt.no_activate) then
    c ← exchange c MessageType.ACTIVATE (list_to_map
      [("readiness_gen", to_string rgen); ("slot_id", to_string o.(Opt.slot)); ("caller", "worker")]);
    let f := answer_fields c in
    PRet (if decide (c.(Conn.mr).(Msg.type) = MessageType.ERROR) then "REJECTED:" +:+ get f "msg" "?"
          else get f "state" "REJECTED", c)
  else PRet ("UNKNOWN", c).

(** ** Commands *)

(** The backend runs the input [n] more times; [parity] stays only if each run
    passes. *)
Definition hold (n : N) (i : ComputeInput) (reference : ComputeResult) (parity : bool) (b : S) : bool * S :=
  N.iter n (λ '(parity, b),
    let '(r2, b) := execute i b in
    (if verify_parity r2 reference then parity else false, b)) (parity, b).

(** An EXECUTE: the result frame sent, the last parity and the backend. *)
Definition on_command_execute (inc_id : N) (c : Conn) (pf : Fields) (b : S) : Proc (string * S) :=
  let cmd_id := u pf "cmd_id" 0 in
  let seed := u pf "seed" 42 in
  let i := command_input (u32 (u pf "batch" 1)) (u32 (u pf "seq_len" 16)) seed in
  let reference := cpu_result i in
  let marker := get pf "marker" "" in
  let hold_barrier := get pf "hold_barrier" "" in
  (if String.eqb marker "" then PRet ()
   else write_marker (marker +:+ ".executing") ("incarnation=" +:+ to_string inc_id));;
  let '(result, b) := execute i b in
  let parity := verify_parity result reference in
  let '(held, b) := hold (u pf "hold_iters" 0) i reference parity b in
  (if String.eqb hold_barrier "" then PRet ()
   else wait_for 600 hold_barrier;; file (RemoveFile hold_barrier);; PRet ());;
  send_msg c MessageType.EXECUTION_RESULT (list_to_map
    [("cmd_id", to_string cmd_id); ("ok", if held : bool then "1" else "0");
     ("parity", if held : bool then "ok" else "mismatch"); ("detail", result.(Out.detail));
     ("seed", to_string seed)]);;
  PRet (if parity then "OK" else "MISMATCH", b).

Definition on_command_drain (c : Conn) (pf : Fields) (b : S) : Proc S :=
  let b := release b in
  write_marker_if (get pf "marker" "") "cleanup done";;
  send_msg c MessageType.DRAIN_RESULT (list_to_map
    [("cmd_id", to_string (u pf "cmd_id" 0)); ("ok", "1"); ("detail", "backend cleanup complete")]);;
  PRet b.

(** One round of the command loop: it goes on, or ends, drained or not. *)
Inductive Round :=
  | Again (last_parity : string) (c : Conn) (b : S)
  | Stopped (drained : bool) (last_parity : string) (b : S).

Definition command_round (inc_id : N) (last_parity : string) (c : Conn) (b : S) : Proc Round :=
  '(got, c) ← recv_msg c;
  if negb got then PRet (Stopped false last_parity b) else
  let pf := answer_fields c in
  match c.(Conn.mr).(Msg.type) with
  | MessageType.EXECUTE =>
    '(last_parity, b) ← on_command_execute inc_id c pf b;
    PRet (Again last_parity c b)
  | MessageType.DRAIN =>
    b ← on_command_drain c pf b;
    PRet (Stopped true last_parity b)
  | MessageType.SHUTDOWN => PRet (Stopped false last_parity b)
  | _ =>
    send_msg c MessageType.ERROR (list_to_map [("msg", "unhandled command")]);;
    PRet (Again last_parity c b)
  end.

(** ** Requests of its own *)

Definition serve_request (o : Options) (i : nat) (c : Conn) (b : S) : Proc (Conn * S) :=
  let input := served_input o.(Opt.worker_id) i in
  c ← exchange c MessageType.ACQUIRE_USE (list_to_map
    [("execution_id", "1"); ("workload_id", to_string o.(Opt.worker_id)); ("caller", "worker")]);
  let use_id := u (answer_fields c) "use_id" 0 in
  let '(result, b) := execute input b in
  let parity := verify_parity result (cpu_result input) in
  send_msg c MessageType.EXECUTION_RESULT (list_to_map
    [("use_id", to_string use_id); ("ok", if parity then "1" else "0");
     ("parity", if parity then "ok" else "mismatch"); ("detail", result.(Out.detail))]);;
  c ← exchange c MessageType.RELEASE_USE (list_to_map [("use_id", to_string use_id)]);
  PRet (c, b).
(** The requests from the [i]th on. *)
Fixpoint serve_requests (o : Options) (n i : nat) (c : Conn) (b : S) : Proc (Conn * S) :=
  match n with
  | O => PRet (c, b)
  | Datatypes.S n => '(c, b) ← serve_request o i c b; serve_requests o n (Datatypes.S i) c b
  end.

(** ** From start to exit

    What the process does next: a round of the command loop, sleep for ever
    with the backend held, or nothing. *)

Inductive Phase :=
  | Commanded (o : Options) (inc_id : N) (outcome activation last_parity : string) (c : Conn) (b : S)
  | StayingAlive (b : S)
  | Exited (code : N).

Definition command_ready (o : Options) (inc_id : N) (outcome activation : string) (c : Conn) (b : S)
    : Proc Phase :=
  c ← exchange c MessageType.COMMAND_READY ∅;
  if decide (c.(Conn.mr).(Msg.type) = MessageType.ERROR) then PRet (Exited 1)
  else
    write_marker_if o.(Opt.ready_marker) ("worker=" +:+ to_string o.(Opt.worker_id) +:+
      " incarnation=" +:+ to_string inc_id +:+ " activation=" +:+ activation);;
    PRet (Commanded o inc_id outcome activation "NA" c b).

Definition worker_line (o : Options) (inc_id : N) (outcome activation : string) : string :=
  "worker=" +:+ to_string o.(Opt.worker_id) +:+ " incarnation=" +:+ to_string inc_id +:+
  " readiness=" +:+ outcome +:+ " activation=" +:+ activation.
Definition end_of_line : string := text [newline].

Definition main (o : Options) (b : S) : Proc Phase :=
  '(got, c) ← hello o Conn.start;
  if negb got then PRet (Exited 1) else
  '(registered, c) ← register o c;
  match registered with
  | None => PRet (Exited 1)
  | Some (inc_id, rgen) =>
    match discover 0 b with
    | (Throw e, _) => PRaise e
    | (Ok disc, b) =>
      c ← announce inc_id disc c;
      '(outcome, c, b) ← prepare_and_query inc_id c b;
      let qp := text c.(Conn.mr).(Msg.payload) in
      '(activation, c) ← activate o rgen outcome c;
      if o.(Opt.command_mode) then command_ready o inc_id outcome activation c b
      else
        let served := Z.to_nat o.(Opt.serve) in
        '(_, b) ← serve_requests o served 0 c b;
        write_marker_if o.(Opt.result_file)
          (worker_line o inc_id outcome activation +:+ " parity=" +:+
           (if (0 <? served)%nat then "OK" else "NA") +:+ " detail=|" +:+ qp +:+ "|" +:+ end_of_line);;
        if o.(Opt.stay_alive) then PRet (StayingAlive b) else PRet (Exited 0)
    end
  end.

(** The next round, and the end of the command mode. *)
Definition next_phase (p : Phase) : Proc Phase :=
  match p with
  | Commanded o inc_id outcome activation last_parity c b =>
    r ← command_round inc_id last_parity c b;
    match r with
    | Again last_parity c b => PRet (Commanded o inc_id outcome activation last_parity c b)
    | Stopped drained last_parity b =>
      let b := if drained : bool then b else release b in
      write_marker_if o.(Opt.result_file)
        (worker_line o inc_id outcome activation +:+ " command=1 parity=" +:+ last_parity +:+
         " drained=" +:+ (if drained : bool then "1" else "0") +:+ end_of_line);;
      PRet (Exited 0)
    end
  | _ => PRet p
  end.
End worker.

(** ** A worker alone

    What a process does against the frames in its inbox, and then a closed
    connection; sends succeed, and files are written and found by their path. *)

Module WorkerEnv.
Record t := mk {
  inbox : list ProtocolMessage.t;
  sent : list ProtocolMessage.t;
  files : gmap string string;
}.
#[global] Instance eta : Eta t := fields! mk <inbox; sent; files>.
End WorkerEnv.
Abbreviation WorkerEnv := WorkerEnv.t.
Module WEnv := WorkerEnv.

Definition do_file (op : FileOp) (env : WorkerEnv) : bool * WorkerEnv :=
  match op with
  | WriteText path contents => (true, env <| WEnv.files ::= <[path := contents]> |>)
  | FileExists path => (bool_decide (is_Some (env.(WEnv.files) !! path)), env)
  | RemoveFile path =>
    (bool_decide (is_Some (env.(WEnv.files) !! path)), env <| WEnv.files ::= delete path |>)
  end.

Fixpoint solo {A} (p : Proc A) (env : WorkerEnv) : Outcome Exn A * WorkerEnv :=
  match p with
  | PRet a => (Ok a, env)
  | PRaise e => (Throw e, env)
  | PSend m k => solo (k true) (env <| WEnv.sent ::= λ l, l ++ [m] |>)
  | PRecv k => solo (k (head env.(WEnv.inbox))) (env <| WEnv.inbox ::= tail |>)
  | PFile op k => let '(b, env) := do_file op env in solo (k b) env
  end.

(** What holds when [p], run alone, returns. *)
Definition yields {A} (p : Proc A) (Q : A → WorkerEnv → Prop) (env : WorkerEnv) : Prop :=
  match solo p env with
  | (Ok a, env') => Q a env'
  | (Throw e, _) => False
  end.

Lemma solo_bind {A B} (p : Proc A) (f : A → Proc B) env :
  solo (p ≫= f) env =
    match solo p env with
    | (Ok a, env') => solo (f a) env'
    | (Throw e, env') => (Throw e, env')
    end.
Proof.
  revert env. induction p as [a|e|m k IH|k IH|op k IH]; intros env; try done; cbn [mbind Proc_bind solo].
  - apply IH.
  - apply IH.
  - destruct (do_file op env). apply IH.
Qed.
Lemma proc_bind {A B} (p : Proc A) (f : A → Proc B) Q env :
  yields p (λ a, yields (f a) Q) env → yields (p ≫= f) Q env.
Proof. rw /yields solo_bind. by destruct (solo p env) as [[]]. Qed.
Lemma proc_ret {A} (a : A) (Q : A → WorkerEnv → Prop) env : Q a env → yields (PRet a) Q env.
Proof. done. Qed.
Lemma proc_mono {A} (p : Proc A) (Q Q' : A → WorkerEnv → Prop) env :
  (∀ a e, Q a e → Q' a e) → yields p Q env → yields p Q' env.
Proof. rw /yields. destruct (solo p env) as [[]]; auto. Qed.

(** The frame [send_msg] makes. *)
Definition worker_frame (epoch : N) (ty : MessageType) (f : Fields) : ProtocolMessage :=
  {| Msg.type := ty; Msg.epoch := u32 epoch; Msg.authority := 0; Msg.payload := make_payload f |}.
(** What a received frame leaves of the connection. *)
Definition heard (c : Conn) (om : option ProtocolMessage) : Conn :=
  match om with Some m => {| Conn.epoch := m.(Msg.epoch); Conn.mr := m |} | None => c end.

Lemma proc_send c ty f (Q : bool → WorkerEnv → Prop) env :
  Q true (env <| WEnv.sent ::= λ l, l ++ [worker_frame c.(Conn.epoch) ty f] |>) →
  yields (send_msg c ty f) Q env.
Proof. done. Qed.
Lemma proc_recv c (Q : bool * Conn → WorkerEnv → Prop) env :
  Q (bool_decide (is_Some (head env.(WEnv.inbox))), heard c (head env.(WEnv.inbox)))
    (env <| WEnv.inbox ::= tail |>) →
  yields (recv_msg c) Q env.
Proof. rw /yields /=. by destruct (head _). Qed.
Lemma proc_exchange c ty f (Q : Conn → WorkerEnv → Prop) env :
  Q (heard c (head env.(WEnv.inbox)))
    (env <| WEnv.sent ::= λ l, l ++ [worker_frame c.(Conn.epoch) ty f] |> <| WEnv.inbox ::= tail |>) →
  yields (exchange c ty f) Q env.
Proof. intros HQ. apply proc_bind, proc_send, proc_bind, proc_recv. exact HQ. Qed.

(** A program of file operations only. *)
Definition quiet {A} (p : Proc A) : Prop :=
  ∀ env, yields p (λ _ env', env'.(WEnv.inbox) = env.(WEnv.inbox) ∧ env'.(WEnv.sent) = env.(WEnv.sent)) env.
Lemma quiet_ret {A} (a : A) : quiet (PRet a).
Proof. by intros env. Qed.
Lemma quiet_bind {A B} (p : Proc A) (f : A → Proc B) : quiet p → (∀ a, quiet (f a)) → quiet (p ≫= f).
Proof.
  intros Hp Hf env. apply proc_bind. eapply proc_mono; [|apply Hp].
  intros a env1 [Hi Hs]. eapply proc_mono; [|apply Hf]. intros b env2. by rw Hi Hs.
Qed.
Lemma quiet_file op : quiet (file op).
Proof. intros env. by destruct op. Qed.
Lemma quiet_wait tries path : quiet (wait_for tries path).
Proof.
  induction tries as [|tries IH]; [apply quiet_ret|].
  apply quiet_bind; [apply quiet_file|]. intros []; [apply quiet_ret|exact IH].
Qed.
Lemma quiet_marker path contents : quiet (write_marker path contents).
Proof. apply quiet_bind; [apply quiet_file|]. intros b. apply quiet_ret. Qed.
Lemma quiet_if {A} (b : bool) (p q : Proc A) : quiet p → quiet q → quiet (if b then p else q).
Proof. by destruct b. Qed.
#[export] Hint Resolve quiet_ret quiet_bind quiet_file quiet_wait quiet_marker quiet_if : residency.

Lemma proc_quiet {A B} (p : Proc A) (f : A → Proc B) Q env :
  quiet p →
  (∀ a env', env'.(WEnv.inbox) = env.(WEnv.inbox) → env'.(WEnv.sent) = env.(WEnv.sent) → yields (f a) Q env') →
  yields (p ≫= f) Q env.
Proof.
  intros Hp Hf. apply proc_bind. eapply proc_mono; [|apply Hp]. intros a env' [Hi Hs]. by apply Hf.
Qed.

Section rounds.
Context {S : Type} `{ReferenceBackend S}.

(** The input an EXECUTE asks for. *)
Definition asked_input (pf : Fields) : ComputeInput :=
  command_input (u32 (u pf "batch" 1)) (u32 (u pf "seq_len" 16)) (u pf "seed" 42).
(** Its results: the first one, whether it passes, and whether all held runs do. *)
Definition asked_runs (pf : Fields) (b : S) : ComputeResult * bool * bool * S :=
  let i := asked_input pf in
  let '(result, b) := execute i b in
  let parity := verify_parity result (cpu_result i) in
  let '(held, b) := hold (u pf "hold_iters" 0) i (cpu_result i) parity b in
  (result, parity, held, b).
Definition execution_result (pf : Fields) (held : bool) (detail : string) : Fields :=
  list_to_map
    [("cmd_id", to_string (u pf "cmd_id" 0)); ("ok", if held then "1" else "0");
     ("parity", if held then "ok" else "mismatch"); ("detail", detail);
     ("seed", to_string (u pf "seed" 42))].
Definition drain_result (pf : Fields) : Fields :=
  list_to_map [("cmd_id", to_string (u pf "cmd_id" 0)); ("ok", "1"); ("detail", "backend cleanup complete")].

(** The frame that answers a command, if any, and the round. *)
Definition answer_to (m : ProtocolMessage) (lp : string) (c : Conn) (b : S)
    : list ProtocolMessage * Round (S := S) :=
  let pf := parse_payload m.(Msg.payload) in
  let c := heard c (Some m) in
  match m.(Msg.type) with
  | MessageType.EXECUTE =>
    let '(result, parity, held, b) := asked_runs pf b in
    ([worker_frame m.(Msg.epoch) MessageType.EXECUTION_RESULT
        (execution_result pf held result.(Out.detail))],
     Again (if parity : bool then "OK" else "MISMATCH") c b)
  | MessageType.DRAIN =>
    ([worker_frame m.(Msg.epoch) MessageType.DRAIN_RESULT (drain_result pf)], Stopped true lp (release b))
  | MessageType.SHUTDOWN => ([], Stopped false lp b)
  | _ =>
    ([worker_frame m.(Msg.epoch) MessageType.ERROR (list_to_map [("msg", "unhandled command")])],
     Again lp c b)
  end.

Lemma execute_round inc_id c pf b env :
  yields (on_command_execute inc_id c pf b) (λ r env',
    let '(result, parity, held, b) := asked_runs pf b in
    r = ((if parity : bool then "OK" else "MISMATCH"), b) ∧
    env'.(WEnv.inbox) = env.(WEnv.inbox) ∧
    env'.(WEnv.sent) = env.(WEnv.sent) ++
      [worker_frame c.(Conn.epoch) MessageType.EXECUTION_RESULT
        (execution_result pf held result.(Out.detail))]) env.
Proof.
  rw /on_command_execute /asked_runs /asked_input. apply proc_quiet; [auto with residency|].
  intros _ env1 Hi1 Hs1. destruct (execute _ b) as [result b1]. destruct (hold _ _ _ _ b1) as [held b2].
  apply proc_quiet; [auto 10 with residency|]. intros _ env2 Hi2 Hs2.
  apply proc_bind, proc_send, proc_ret. split; [done|]. cbn. by rw Hi2 Hs2 Hi1 Hs1.
Qed.

(** The worker answers every command once: in each round of the command
    loop a worker, whatever its backend, takes one frame and sends the one
    answer it calls for, an EXECUTION_RESULT or a DRAIN_RESULT under the
    command's own cmd_id, or an ERROR for a frame it does not handle, and none
    for a SHUTDOWN; it releases its backend before it answers a DRAIN, and ends
    its loop on a DRAIN or a SHUTDOWN only. *)
Lemma command_round_answers inc_id lp c b m rest env :
  env.(WEnv.inbox) = m :: rest →
  yields (command_round inc_id lp c b) (λ r env',
    let '(frames, r') := answer_to m lp c b in
    r = r' ∧ env'.(WEnv.inbox) = rest ∧ env'.(WEnv.sent) = env.(WEnv.sent) ++ frames) env.
Proof.
  intros Hin. rw /command_round. apply proc_bind, proc_recv. rw Hin. cbn [head].
  rw bool_decide_true; [cbn [negb]|by eexists]. rw /answer_to. cbn [heard Conn.mr].
  set (c' := Conn.mk _ _). change (answer_fields c') with (parse_payload m.(Msg.payload)).
  destruct (Msg.type m) eqn:Hty; try (apply proc_bind, proc_send, proc_ret; by rw /= Hin).
  - rw /on_command_drain. apply proc_bind. apply proc_quiet; [rw /write_marker_if; auto with residency|].
    intros _ env1 Hi1 Hs1. apply proc_bind, proc_send, proc_ret, proc_ret. cbn. by rw Hi1 Hs1 /= Hin.
  - apply proc_ret. cbn. by rw Hin app_nil_r.
  - apply proc_bind. eapply proc_mono; [|apply execute_round]. intros [lp' b'] env'.
    destruct (asked_runs _ b) as [[[result parity] held] b2]. intros ([= -> ->] & Hi & Hs).
    apply proc_ret. rw Hi Hs /=. by rw Hin.
Qed.
End rounds.

Section serving.
Context {S : Type} `{ReferenceBackend S}.

Definition acquire_fields (o : Options) : Fields :=
  list_to_map [("execution_id", "1"); ("workload_id", to_string o.(Opt.worker_id)); ("caller", "worker")].
Definition release_fields (use_id : N) : Fields := list_to_map [("use_id", to_string use_id)].
Definition use_in (m : ProtocolMessage) : N := u (parse_payload m.(Msg.payload)) "use_id" 0.

(** The [k]th frame sent since [env]. *)
Definition sends_at (env env' : WorkerEnv) (k : nat) (ty : MessageType) (f : Fields) : Prop :=
  ∃ e, env'.(WEnv.sent) !! (length env.(WEnv.sent) + k)%nat = Some (worker_frame e ty f).

Lemma serve_request_yields o i c b m1 m2 rest env :
  env.(WEnv.inbox) = m1 :: m2 :: rest →
  yields (serve_request o i c b) (λ _ env', env'.(WEnv.inbox) = rest ∧ ∃ e1 e3 r,
    env'.(WEnv.sent) = env.(WEnv.sent) ++ [worker_frame e1 MessageType.ACQUIRE_USE (acquire_fields o);
      r; worker_frame e3 MessageType.RELEASE_USE (release_fields (use_in m1))]) env.
Proof.
  intros Hin. rw /serve_request. apply proc_bind, proc_exchange. rw Hin. cbn [head].
  destruct (execute _ b) as [result b']. apply proc_bind, proc_send, proc_bind, proc_exchange, proc_ret.
  split; [by rw /= Hin|]. eexists _, _, _. by rw /= -!app_assoc.
Qed.

(** A worker that serves by itself falls behind its answers: every request
    sends three frames and reads two, so when each frame is answered once and
    in order, the use the [k]th request releases is the one named by answer
    [2k], whereas its ACQUIRE_USE is frame [3k]; only the first request reads
    the answer to its own acquisition. *)
Theorem served_requests_fall_behind o n i c b env :
  (2 * n <= length env.(WEnv.inbox))%nat →
  yields (serve_requests o n i c b) (λ _ env',
    env'.(WEnv.inbox) = drop (2 * n) env.(WEnv.inbox) ∧
    env.(WEnv.sent) `prefix_of` env'.(WEnv.sent) ∧
    length env'.(WEnv.sent) = (length env.(WEnv.sent) + 3 * n)%nat ∧
    ∀ k, (k < n)%nat → ∃ m, env.(WEnv.inbox) !! (2 * k)%nat = Some m ∧
      sends_at env env' (3 * k) MessageType.ACQUIRE_USE (acquire_fields o) ∧
      sends_at env env' (3 * k + 2) MessageType.RELEASE_USE (release_fields (use_in m))) env.
Proof.
  revert i c b env. induction n as [|n IH]; intros i c b env Hn.
  { apply proc_ret. split; [done|]. split; [done|]. split; [lia|]. intros k Hk. lia. }
  destruct (WEnv.inbox env) as [|m1 [|m2 rest]] eqn:Hin; cbn in Hn; [lia..|].
  cbn [serve_requests]. apply proc_bind. eapply proc_mono; [|by eapply serve_request_yields].
  intros [c1 b1] env1 (Hin1 & e1 & e3 & r & Hs1). eapply proc_mono; [|apply IH; rw Hin1; lia].
  intros [c2 b2] env2. rw Hin1. intros (Hin2 & [later Hlater] & Hlen & Hall).
  rw Hs1 length_app in Hlen. cbn [length] in Hlen.
  split; [rw Hin2; by replace (2 * Datatypes.S n)%nat with (2 + 2 * n)%nat by lia|].
  split; [rw Hlater Hs1 -app_assoc; by eexists|]. split; [lia|].
  intros k Hk. destruct k as [|k].
  - exists m1. rw /sends_at Hlater Hs1 -app_assoc.
    assert (∀ (l l' : list ProtocolMessage) j, (l ++ l') !! (length l + j)%nat = l' !! j) as Hat.
    { intros l l' j. rw lookup_app_r; [f_equal; lia|lia]. }
    rw !Hat. split; [done|]. split; by eexists.
  - destruct (Hall k) as (m & Hm & (ea & Ha) & (er & Hr)); [lia|]. exists m.
    split; [by replace (2 * Datatypes.S k)%nat with (2 + 2 * k)%nat by lia|].
    split; [exists ea|exists er]; [rw -Ha|rw -Hr]; f_equal; rw Hs1 length_app; cbn [length]; lia.
Qed.
End serving.

(** ** A faithful backend *)

Lemma positive_command_input batch seq_len seed : positive_input (command_input batch seq_len seed).
Proof.
  apply Forall_fmap, Forall_forall. intros j _. cbn beta. simpl.
  set (k := u32 _ mod 11). assert (k < 11) as Hk by (by apply N.mod_lt).
  rw -(N2Nat.id k) nat_N_Z. apply small_integers. lia.
Qed.
Lemma positive_served_input w i : positive_input (served_input w i).
Proof.
  apply Forall_fmap, Forall_forall. intros j _. cbn beta. simpl. apply small_integers.
  pose proof (Nat.mod_upper_bound (j + i) 11). lia.
Qed.

Section faithful.
Context {S : Type} `{Faithful S}.

Lemma hold_faithful n pf b :
  usable (asked_input pf) b →
  ∃ b', hold n (asked_input pf) (cpu_result (asked_input pf)) true b = (true, b') ∧ usable (asked_input pf) b'.
Proof.
  intros Hb. rw /hold. induction n as [|n IH] using N.peano_ind; [by exists b|].
  rw N.iter_succ. destruct IH as (b1 & -> & Hb1).
  pose proof (usable_kept _ _ Hb1) as Hkept.
  pose proof (faithful_parity _ _ (cpu_result (asked_input pf)) Hb1 (positive_command_input _ _ _)
    eq_refl eq_refl) as Hp.
  destruct (execute _ b1) as [r2 b2]. exists b2. by rw /= Hp.
Qed.

(** On a usable backend every run an EXECUTE asks for passes. *)
Lemma asked_runs_faithful pf b :
  usable (asked_input pf) b →
  ∃ result b', asked_runs pf b = (result, true, true, b') ∧ usable (asked_input pf) b' ∧
    newline ∉ chars result.(Out.detail).
Proof.
  intros Hb. rw /asked_runs.
  pose proof (usable_kept _ _ Hb) as Hkept. pose proof (one_line_detail _ _ Hb) as Hline.
  pose proof (faithful_parity _ _ (cpu_result (asked_input pf)) Hb (positive_command_input _ _ _)
    eq_refl eq_refl) as Hp.
  destruct (execute _ b) as [result b1]. simpl in Hp. rw Hp.
  destruct (hold_faithful (u pf "hold_iters" 0) pf b1 Hkept) as (b2 & Hhold & Hb2).
  rw Hhold. by exists result, b2.
Qed.
End faithful.

Lemma clean_execution_result pf held detail :
  newline ∉ chars detail → clean (execution_result pf held detail).
Proof.
  intros Hd. apply clean_list.
  assert (∀ s, bool_decide (newline ∉ chars s) = true → newline ∉ chars s) as Hs
    by (intros s; apply bool_decide_eq_true_1).
  repeat apply Forall_cons_2; [..|apply Forall_nil_2]; (apply plain_key; [vm_compute; reflexivity|]);
    cbn [snd]; try apply clean_to_string; try done; destruct held; apply Hs; vm_compute; reflexivity.
Qed.
