(* ===== verification/Persistence.v ===== *)
(** * Persistence

    [persistence.cpp]: the writers and readers of every record, the layout of
    the persisted blob with its magic, version, counts and checksum, and the
    round trips. *)

From Stdlib Require Import Ascii String.
From S2P Require Import Prelude Identities Enums Model Reference Codec.
Local Open Scope N_scope.

(** ** Records *)

Definition w_comp (k : CompatibilityKey.t) : Writer := w_str k.(Key.ns);; w_str k.(Key.value).
Definition r_comp : Reader CompatibilityKey.t :=
  ns ← r_str; value ← r_str; mret {| Key.ns := ns; Key.value := value |}.
Definition comp_wf (k : CompatibilityKey.t) : Prop :=
  str_fits k.(Key.ns) ∧ str_fits k.(Key.value).

Definition w_pid (p : ProcessId) : Writer := w_u32 p.(pid);; w_u64 p.(start_seconds);; w_str p.(label).
Definition r_pid : Reader ProcessId :=
  pid ← r_u32; start_seconds ← r_u64; label ← r_str;
  mret {| pid := pid; start_seconds := start_seconds; label := label |}.
Definition pid_wf (p : ProcessId) : Prop :=
  fits 32 p.(pid) ∧ fits 64 p.(start_seconds) ∧ str_fits p.(label).

Definition w_state (s : StateSet.t) : Writer :=
  w_enum s.(St.desired);; w_enum s.(St.observed);; w_enum s.(St.lifecycle);;
  w_enum s.(St.preparation);; w_enum s.(St.activation);; w_enum s.(St.health);;
  w_enum s.(St.recovery);; w_enum s.(St.registration);; w_enum s.(St.drain).

Definition r_state : Reader StateSet.t :=
  desired ← r_enum; observed ← r_enum; lifecycle ← r_enum; preparation ← r_enum;
  activation ← r_enum; health ← r_enum; recovery ← r_enum; registration ← r_enum;
  drain ← r_enum;
  mret {|
    St.desired := desired; St.observed := observed; St.lifecycle := lifecycle;
    St.preparation := preparation; St.activation := activation; St.health := health;
    St.recovery := recovery; St.registration := registration; St.drain := drain
  |}.

Definition w_req (r : ProfileRequirement.t) : Writer :=
  w_enum r.(Req.category);; w_enum r.(Req.kind);; w_enum r.(Req.min_state);;
  w_str r.(Req.subject);; w_comp r.(Req.compatibility);; w_enum r.(Req.generation_family);;
  w_str r.(Req.description).

Definition r_req : Reader ProfileRequirement.t :=
  category ← r_enum; kind ← r_enum; min_state ← r_enum; subject ← r_str;
  compatibility ← r_comp; generation_family ← r_enum; description ← r_str;
  mret {|
    Req.category := category; Req.kind := kind; Req.min_state := min_state;
    Req.subject := subject; Req.compatibility := compatibility;
    Req.generation_family := generation_family; Req.description := description
  |}.

Definition req_wf (r : ProfileRequirement.t) : Prop :=
  str_fits r.(Req.subject) ∧ str_fits r.(Req.description) ∧
  enum_named r.(Req.category) = true ∧ enum_named r.(Req.min_state) = true ∧
  comp_wf r.(Req.compatibility).

Definition w_evid (e : ComponentEvidence.t) : Writer :=
  w_id e.(Ev.evidence_id);; w_gen e.(Ev.evidence_generation);; w_enum e.(Ev.category);;
  w_enum e.(Ev.state);; w_enum e.(Ev.provenance);; w_str e.(Ev.subject);;
  w_str e.(Ev.namespace_);; w_id e.(Ev.engine_id);; w_gen e.(Ev.engine_generation);;
  w_id e.(Ev.incarnation_id);; w_gen e.(Ev.incarnation_generation);; w_id e.(Ev.worker_id);;
  w_gen e.(Ev.worker_boot);; w_id e.(Ev.source_id);; w_gen e.(Ev.source_boot);;
  w_id e.(Ev.backend_id);; w_gen e.(Ev.backend_generation);; w_id e.(Ev.device_id);;
  w_gen e.(Ev.device_generation);; w_gen e.(Ev.device_context_generation);;
  w_u32 e.(Ev.device_ordinal);; w_comp e.(Ev.compatibility);; w_gen e.(Ev.model_generation);;
  w_gen e.(Ev.adapter_generation);; w_gen e.(Ev.kv_capacity_generation);;
  w_gen e.(Ev.kv_state_generation);; w_gen e.(Ev.kernel_generation);;
  w_gen e.(Ev.graph_generation);; w_gen e.(Ev.artifact_generation);;
  w_gen e.(Ev.allocation_generation);; w_gen e.(Ev.dependency_generation);;
  w_gen e.(Ev.resource_claim_generation);; w_gen e.(Ev.warmup_generation);;
  w_id e.(Ev.profile_id);; w_gen e.(Ev.profile_generation);; w_u64 e.(Ev.size_bytes);;
  w_u64 e.(Ev.elapsed_ns);; w_u64 e.(Ev.observed_at_ns);; w_u64 e.(Ev.max_age_ns);;
  w_str e.(Ev.detail);; w_str e.(Ev.invalidation_reason);; w_gen e.(Ev.coordinator_epoch).

Definition r_evid : Reader ComponentEvidence.t :=
  evidence_id ← r_id; evidence_generation ← r_gen; category ← r_enum; state ← r_enum;
  provenance ← r_enum; subject ← r_str; namespace_ ← r_str; engine_id ← r_id;
  engine_generation ← r_gen; incarnation_id ← r_id; incarnation_generation ← r_gen;
  worker_id ← r_id; worker_boot ← r_gen; source_id ← r_id; source_boot ← r_gen;
  backend_id ← r_id; backend_generation ← r_gen; device_id ← r_id; device_generation ← r_gen;
  device_context_generation ← r_gen; device_ordinal ← r_u32; compatibility ← r_comp;
  model_generation ← r_gen; adapter_generation ← r_gen; kv_capacity_generation ← r_gen;
  kv_state_generation ← r_gen; kernel_generation ← r_gen; graph_generation ← r_gen;
  artifact_generation ← r_gen; allocation_generation ← r_gen; dependency_generation ← r_gen;
  resource_claim_generation ← r_gen; warmup_generation ← r_gen; profile_id ← r_id;
  profile_generation ← r_gen; size_bytes ← r_u64; elapsed_ns ← r_u64; observed_at_ns ← r_u64;
  max_age_ns ← r_u64; detail ← r_str; invalidation_reason ← r_str; coordinator_epoch ← r_gen;
  mret {|
    Ev.evidence_id := evidence_id; Ev.evidence_generation := evidence_generation;
    Ev.category := category; Ev.state := state; Ev.provenance := provenance;
    Ev.subject := subject; Ev.namespace_ := namespace_; Ev.engine_id := engine_id;
    Ev.engine_generation := engine_generation; Ev.incarnation_id := incarnation_id;
    Ev.incarnation_generation := incarnation_generation; Ev.worker_id := worker_id;
    Ev.worker_boot := worker_boot; Ev.source_id := source_id; Ev.source_boot := source_boot;
    Ev.backend_id := backend_id; Ev.backend_generation := backend_generation;
    Ev.device_id := device_id; Ev.device_generation := device_generation;
    Ev.device_context_generation := device_context_generation;
    Ev.device_ordinal := device_ordinal; Ev.compatibility := compatibility;
    Ev.model_generation := model_generation; Ev.adapter_generation := adapter_generation;
    Ev.kv_capacity_generation := kv_capacity_generation;
    Ev.kv_state_generation := kv_state_generation; Ev.kernel_generation := kernel_generation;
    Ev.graph_generation := graph_generation; Ev.artifact_generation := artifact_generation;
    Ev.allocation_generation := allocation_generation;
    Ev.dependency_generation := dependency_generation;
    Ev.resource_claim_generation := resource_claim_generation;
    Ev.warmup_generation := warmup_generation; Ev.profile_id := profile_id;
    Ev.profile_generation := profile_generation; Ev.size_bytes := size_bytes;
    Ev.elapsed_ns := elapsed_ns; Ev.observed_at_ns := observed_at_ns;
    Ev.max_age_ns := max_age_ns; Ev.detail := detail;
    Ev.invalidation_reason := invalidation_reason; Ev.coordinator_epoch := coordinator_epoch
  |}.

Definition evid_wf (e : ComponentEvidence.t) : Prop :=
  fits 64 (id_raw e.(Ev.evidence_id)) ∧ fits 64 (gen_raw e.(Ev.evidence_generation)) ∧
  fits 64 (id_raw e.(Ev.engine_id)) ∧ fits 64 (gen_raw e.(Ev.engine_generation)) ∧
  fits 64 (id_raw e.(Ev.incarnation_id)) ∧ fits 64 (gen_raw e.(Ev.incarnation_generation)) ∧
  fits 64 (id_raw e.(Ev.worker_id)) ∧ fits 64 (gen_raw e.(Ev.worker_boot)) ∧
  fits 64 (id_raw e.(Ev.source_id)) ∧ fits 64 (gen_raw e.(Ev.source_boot)) ∧
  fits 64 (id_raw e.(Ev.backend_id)) ∧ fits 64 (gen_raw e.(Ev.backend_generation)) ∧
  fits 64 (id_raw e.(Ev.device_id)) ∧ fits 64 (gen_raw e.(Ev.device_generation)) ∧
  fits 64 (gen_raw e.(Ev.device_context_generation)) ∧
  fits 64 (gen_raw e.(Ev.model_generation)) ∧ fits 64 (gen_raw e.(Ev.adapter_generation)) ∧
  fits 64 (gen_raw e.(Ev.kv_capacity_generation)) ∧
  fits 64 (gen_raw e.(Ev.kv_state_generation)) ∧ fits 64 (gen_raw e.(Ev.kernel_generation)) ∧
  fits 64 (gen_raw e.(Ev.graph_generation)) ∧ fits 64 (gen_raw e.(Ev.artifact_generation)) ∧
  fits 64 (gen_raw e.(Ev.allocation_generation)) ∧
  fits 64 (gen_raw e.(Ev.dependency_generation)) ∧
  fits 64 (gen_raw e.(Ev.resource_claim_generation)) ∧
  fits 64 (gen_raw e.(Ev.warmup_generation)) ∧ fits 64 (id_raw e.(Ev.profile_id)) ∧
  fits 64 (gen_raw e.(Ev.profile_generation)) ∧ fits 64 e.(Ev.size_bytes) ∧
  fits 64 e.(Ev.elapsed_ns) ∧ fits 64 e.(Ev.observed_at_ns) ∧ fits 64 e.(Ev.max_age_ns) ∧
  fits 64 (gen_raw e.(Ev.coordinator_epoch)) ∧ fits 32 e.(Ev.device_ordinal) ∧
  str_fits e.(Ev.subject) ∧ str_fits e.(Ev.namespace_) ∧ str_fits e.(Ev.detail) ∧
  str_fits e.(Ev.invalidation_reason) ∧ enum_named e.(Ev.category) = true ∧
  enum_named e.(Ev.state) = true ∧ enum_named e.(Ev.provenance) = true ∧
  comp_wf e.(Ev.compatibility).

Definition w_engine (e : EngineDefinition.t) : Writer :=
  w_id e.(Def.engine_id);; w_gen e.(Def.engine_generation);; w_gen e.(Def.config_generation);;
  w_str e.(Def.name);; w_enum e.(Def.role);; w_id e.(Def.backend_id);;
  w_gen e.(Def.backend_generation);; w_bool e.(Def.backend_specific);; w_id e.(Def.model_id);;
  w_gen e.(Def.model_generation);; w_str e.(Def.model_name);; w_u64 e.(Def.model_bytes);;
  w_gen e.(Def.adapter_generation);; w_bool e.(Def.requires_adapter);; w_id e.(Def.device_id);;
  w_gen e.(Def.device_generation);; w_u32 e.(Def.device_ordinal);;
  w_bool e.(Def.device_specific);; w_u64 e.(Def.workspace_bytes);;
  w_u64 e.(Def.kv_capacity_entries);; w_str e.(Def.kernel_key);;
  w_gen e.(Def.kernel_generation);; w_bool e.(Def.kernel_required);;
  w_bool e.(Def.graph_required);; w_bool e.(Def.graph_optional_fallback);;
  w_gen e.(Def.graph_generation);; w_str e.(Def.tokenizer_key);;
  w_gen e.(Def.tokenizer_generation);; w_bool e.(Def.tokenizer_required);;
  w_comp e.(Def.compatibility);; w_bool e.(Def.compatibility_required);;
  w_str e.(Def.preparation_policy);; w_bool e.(Def.warmup_required);;
  w_bool e.(Def.standby_eligible);; w_u32 e.(Def.standby_target);;
  w_u32 e.(Def.max_concurrency);; w_gen e.(Def.resource_claim_generation);;
  w_str e.(Def.resource_claim_ref);; w_vec w_str e.(Def.dependency_refs);;
  w_gen e.(Def.dependency_generation);; w_enum e.(Def.provenance);;
  w_vec w_id e.(Def.profile_ids).

Definition r_engine : Reader EngineDefinition.t :=
  engine_id ← r_id; engine_generation ← r_gen; config_generation ← r_gen; name ← r_str;
  role ← r_enum; backend_id ← r_id; backend_generation ← r_gen; backend_specific ← r_bool;
  model_id ← r_id; model_generation ← r_gen; model_name ← r_str; model_bytes ← r_u64;
  adapter_generation ← r_gen; requires_adapter ← r_bool; device_id ← r_id;
  device_generation ← r_gen; device_ordinal ← r_u32; device_specific ← r_bool;
  workspace_bytes ← r_u64; kv_capacity_entries ← r_u64; kernel_key ← r_str;
  kernel_generation ← r_gen; kernel_required ← r_bool; graph_required ← r_bool;
  graph_optional_fallback ← r_bool; graph_generation ← r_gen; tokenizer_key ← r_str;
  tokenizer_generation ← r_gen; tokenizer_required ← r_bool; compatibility ← r_comp;
  compatibility_required ← r_bool; preparation_policy ← r_str; warmup_required ← r_bool;
  standby_eligible ← r_bool; standby_target ← r_u32; max_concurrency ← r_u32;
  resource_claim_generation ← r_gen; resource_claim_ref ← r_str; dependency_refs ← r_vec r_str;
  dependency_generation ← r_gen; provenance ← r_enum; profile_ids ← r_vec r_id;
  mret {|
    Def.engine_id := engine_id; Def.engine_generation := engine_generation;
    Def.config_generation := config_generation; Def.name := name; Def.role := role;
    Def.backend_id := backend_id; Def.backend_generation := backend_generation;
    Def.backend_specific := backend_specific; Def.model_id := model_id;
    Def.model_generation := model_generation; Def.model_name := model_name;
    Def.model_bytes := model_bytes; Def.adapter_generation := adapter_generation;
    Def.requires_adapter := requires_adapter; Def.device_id := device_id;
    Def.device_generation := device_generation; Def.device_ordinal := device_ordinal;
    Def.device_specific := device_specific; Def.workspace_bytes := workspace_bytes;
    Def.kv_capacity_entries := kv_capacity_entries; Def.kernel_key := kernel_key;
    Def.kernel_generation := kernel_generation; Def.kernel_required := kernel_required;
    Def.graph_required := graph_required;
    Def.graph_optional_fallback := graph_optional_fallback;
    Def.graph_generation := graph_generation; Def.tokenizer_key := tokenizer_key;
    Def.tokenizer_generation := tokenizer_generation;
    Def.tokenizer_required := tokenizer_required; Def.compatibility := compatibility;
    Def.compatibility_required := compatibility_required;
    Def.preparation_policy := preparation_policy; Def.warmup_required := warmup_required;
    Def.standby_eligible := standby_eligible; Def.standby_target := standby_target;
    Def.max_concurrency := max_concurrency;
    Def.resource_claim_generation := resource_claim_generation;
    Def.resource_claim_ref := resource_claim_ref; Def.dependency_refs := dependency_refs;
    Def.dependency_generation := dependency_generation; Def.provenance := provenance;
    Def.profile_ids := profile_ids
  |}.

Definition engine_wf (e : EngineDefinition.t) : Prop :=
  fits 64 (id_raw e.(Def.engine_id)) ∧ fits 64 (gen_raw e.(Def.engine_generation)) ∧
  fits 64 (gen_raw e.(Def.config_generation)) ∧ fits 64 (id_raw e.(Def.backend_id)) ∧
  fits 64 (gen_raw e.(Def.backend_generation)) ∧ fits 64 (id_raw e.(Def.model_id)) ∧
  fits 64 (gen_raw e.(Def.model_generation)) ∧ fits 64 e.(Def.model_bytes) ∧
  fits 64 (gen_raw e.(Def.adapter_generation)) ∧ fits 64 (id_raw e.(Def.device_id)) ∧
  fits 64 (gen_raw e.(Def.device_generation)) ∧ fits 64 e.(Def.workspace_bytes) ∧
  fits 64 e.(Def.kv_capacity_entries) ∧ fits 64 (gen_raw e.(Def.kernel_generation)) ∧
  fits 64 (gen_raw e.(Def.graph_generation)) ∧ fits 64 (gen_raw e.(Def.tokenizer_generation)) ∧
  fits 64 (gen_raw e.(Def.resource_claim_generation)) ∧
  fits 64 (gen_raw e.(Def.dependency_generation)) ∧ fits 32 e.(Def.device_ordinal) ∧
  fits 32 e.(Def.standby_target) ∧ fits 32 e.(Def.max_concurrency) ∧ str_fits e.(Def.name) ∧
  str_fits e.(Def.model_name) ∧ str_fits e.(Def.kernel_key) ∧ str_fits e.(Def.tokenizer_key) ∧
  str_fits e.(Def.preparation_policy) ∧ str_fits e.(Def.resource_claim_ref) ∧
  comp_wf e.(Def.compatibility) ∧ Forall str_fits e.(Def.dependency_refs) ∧
  N.of_nat (length e.(Def.dependency_refs)) <= kMaxCount ∧
  enum_named e.(Def.provenance) = true ∧ Forall (λ x, fits 64 (id_raw x)) e.(Def.profile_ids) ∧
  N.of_nat (length e.(Def.profile_ids)) <= kMaxCount.

Definition w_profile (p : ReadinessProfile.t) : Writer :=
  w_id p.(Prof.profile_id);; w_gen p.(Prof.profile_generation);; w_id p.(Prof.engine_id);;
  w_gen p.(Prof.engine_generation);; w_str p.(Prof.name);; w_enum p.(Prof.role);;
  w_u32 p.(Prof.max_batch);; w_u32 p.(Prof.max_seq_len);; w_str p.(Prof.dtype);;
  w_str p.(Prof.layout);; w_u64 p.(Prof.workspace_bytes);; w_u64 p.(Prof.model_bytes);;
  w_u64 p.(Prof.kv_capacity_entries);; w_bool p.(Prof.graph_required);;
  w_bool p.(Prof.graph_optional_fallback);; w_bool p.(Prof.warmup_required);;
  w_u32 p.(Prof.device_ordinal);; w_bool p.(Prof.device_specific);;
  w_bool p.(Prof.profile_required);; w_gen p.(Prof.policy_generation);;
  w_gen p.(Prof.dependency_generation);; w_vec w_req p.(Prof.requirements);;
  w_comp p.(Prof.compatibility).

Definition r_profile : Reader ReadinessProfile.t :=
  profile_id ← r_id; profile_generation ← r_gen; engine_id ← r_id; engine_generation ← r_gen;
  name ← r_str; role ← r_enum; max_batch ← r_u32; max_seq_len ← r_u32; dtype ← r_str;
  layout ← r_str; workspace_bytes ← r_u64; model_bytes ← r_u64; kv_capacity_entries ← r_u64;
  graph_required ← r_bool; graph_optional_fallback ← r_bool; warmup_required ← r_bool;
  device_ordinal ← r_u32; device_specific ← r_bool; profile_required ← r_bool;
  policy_generation ← r_gen; dependency_generation ← r_gen; requirements ← r_vec r_req;
  compatibility ← r_comp;
  mret {|
    Prof.profile_id := profile_id; Prof.profile_generation := profile_generation;
    Prof.engine_id := engine_id; Prof.engine_generation := engine_generation;
    Prof.name := name; Prof.role := role; Prof.max_batch := max_batch;
    Prof.max_seq_len := max_seq_len; Prof.dtype := dtype; Prof.layout := layout;
    Prof.workspace_bytes := workspace_bytes; Prof.model_bytes := model_bytes;
    Prof.kv_capacity_entries := kv_capacity_entries; Prof.graph_required := graph_required;
    Prof.graph_optional_fallback := graph_optional_fallback;
    Prof.warmup_required := warmup_required; Prof.device_ordinal := device_ordinal;
    Prof.device_specific := device_specific; Prof.profile_required := profile_required;
    Prof.policy_generation := policy_generation;
    Prof.dependency_generation := dependency_generation; Prof.requirements := requirements;
    Prof.compatibility := compatibility
  |}.

Definition profile_wf (p : ReadinessProfile.t) : Prop :=
  fits 64 (id_raw p.(Prof.profile_id)) ∧ fits 64 (gen_raw p.(Prof.profile_generation)) ∧
  fits 64 (id_raw p.(Prof.engine_id)) ∧ fits 64 (gen_raw p.(Prof.engine_generation)) ∧
  fits 64 p.(Prof.workspace_bytes) ∧ fits 64 p.(Prof.model_bytes) ∧
  fits 64 p.(Prof.kv_capacity_entries) ∧ fits 64 (gen_raw p.(Prof.policy_generation)) ∧
  fits 64 (gen_raw p.(Prof.dependency_generation)) ∧ fits 32 p.(Prof.max_batch) ∧
  fits 32 p.(Prof.max_seq_len) ∧ fits 32 p.(Prof.device_ordinal) ∧ str_fits p.(Prof.name) ∧
  str_fits p.(Prof.dtype) ∧ str_fits p.(Prof.layout) ∧ Forall req_wf p.(Prof.requirements) ∧
  N.of_nat (length p.(Prof.requirements)) <= kMaxCount ∧ comp_wf p.(Prof.compatibility).

Definition w_inc (i : EngineIncarnation.t) : Writer :=
  w_id i.(Inc.incarnation_id);; w_gen i.(Inc.incarnation_generation);; w_id i.(Inc.engine_id);;
  w_gen i.(Inc.engine_generation);; w_gen i.(Inc.config_generation);; w_id i.(Inc.worker_id);;
  w_gen i.(Inc.worker_boot);; w_id i.(Inc.source_id);; w_gen i.(Inc.source_boot);;
  w_gen i.(Inc.coordinator_epoch);; w_gen i.(Inc.authority_generation);;
  w_id i.(Inc.registration_permit);; w_id i.(Inc.backend_id);;
  w_gen i.(Inc.backend_generation);; w_id i.(Inc.device_id);; w_gen i.(Inc.device_generation);;
  w_gen i.(Inc.device_context_generation);; w_u32 i.(Inc.device_ordinal);;
  w_pid i.(Inc.process);; w_enum i.(Inc.registration);; w_state i.(Inc.state);;
  w_gen i.(Inc.readiness_generation);; w_bool i.(Inc.is_current);;
  w_u64 i.(Inc.last_activity_ns);; w_str i.(Inc.nfc).

Definition r_inc : Reader EngineIncarnation.t :=
  incarnation_id ← r_id; incarnation_generation ← r_gen; engine_id ← r_id;
  engine_generation ← r_gen; config_generation ← r_gen; worker_id ← r_id; worker_boot ← r_gen;
  source_id ← r_id; source_boot ← r_gen; coordinator_epoch ← r_gen;
  authority_generation ← r_gen; registration_permit ← r_id; backend_id ← r_id;
  backend_generation ← r_gen; device_id ← r_id; device_generation ← r_gen;
  device_context_generation ← r_gen; device_ordinal ← r_u32; process ← r_pid;
  registration ← r_enum; state ← r_state; readiness_generation ← r_gen; is_current ← r_bool;
  last_activity_ns ← r_u64; nfc ← r_str;
  mret {|
    Inc.incarnation_id := incarnation_id; Inc.incarnation_generation := incarnation_generation;
    Inc.engine_id := engine_id; Inc.engine_generation := engine_generation;
    Inc.config_generation := config_generation; Inc.worker_id := worker_id;
    Inc.worker_boot := worker_boot; Inc.source_id := source_id; Inc.source_boot := source_boot;
    Inc.coordinator_epoch := coordinator_epoch;
    Inc.authority_generation := authority_generation;
    Inc.registration_permit := registration_permit; Inc.backend_id := backend_id;
    Inc.backend_generation := backend_generation; Inc.device_id := device_id;
    Inc.device_generation := device_generation;
    Inc.device_context_generation := device_context_generation;
    Inc.device_ordinal := device_ordinal; Inc.process := process;
    Inc.registration := registration; Inc.state := state;
    Inc.readiness_generation := readiness_generation; Inc.is_current := is_current;
    Inc.last_activity_ns := last_activity_ns; Inc.nfc := nfc
  |}.

Definition inc_wf (i : EngineIncarnation.t) : Prop :=
  fits 64 (id_raw i.(Inc.incarnation_id)) ∧ fits 64 (gen_raw i.(Inc.incarnation_generation)) ∧
  fits 64 (id_raw i.(Inc.engine_id)) ∧ fits 64 (gen_raw i.(Inc.engine_generation)) ∧
  fits 64 (gen_raw i.(Inc.config_generation)) ∧ fits 64 (id_raw i.(Inc.worker_id)) ∧
  fits 64 (gen_raw i.(Inc.worker_boot)) ∧ fits 64 (id_raw i.(Inc.source_id)) ∧
  fits 64 (gen_raw i.(Inc.source_boot)) ∧ fits 64 (gen_raw i.(Inc.coordinator_epoch)) ∧
  fits 64 (gen_raw i.(Inc.authority_generation)) ∧
  fits 64 (id_raw i.(Inc.registration_permit)) ∧ fits 64 (id_raw i.(Inc.backend_id)) ∧
  fits 64 (gen_raw i.(Inc.backend_generation)) ∧ fits 64 (id_raw i.(Inc.device_id)) ∧
  fits 64 (gen_raw i.(Inc.device_generation)) ∧
  fits 64 (gen_raw i.(Inc.device_context_generation)) ∧
  fits 64 (gen_raw i.(Inc.readiness_generation)) ∧ fits 64 i.(Inc.last_activity_ns) ∧
  fits 32 i.(Inc.device_ordinal) ∧ str_fits i.(Inc.nfc) ∧ pid_wf i.(Inc.process).

Definition w_repl (p : ReplacementPlan.t) : Writer :=
  w_id p.(Repl.replacement_id);; w_gen p.(Repl.replacement_generation);;
  w_id p.(Repl.engine_id);; w_gen p.(Repl.engine_generation);; w_id p.(Repl.old_incarnation);;
  w_gen p.(Repl.old_incarnation_generation);; w_id p.(Repl.candidate_incarnation);;
  w_gen p.(Repl.candidate_incarnation_generation);; w_gen p.(Repl.epoch);;
  w_gen p.(Repl.authority);; w_enum p.(Repl.phase);; w_bool p.(Repl.make_before_break);;
  w_bool p.(Repl.rollback_required);; w_str p.(Repl.detail);; w_u64 p.(Repl.overlap_bytes);;
  w_bool p.(Repl.resource_overlap_available).

Definition r_repl : Reader ReplacementPlan.t :=
  replacement_id ← r_id; replacement_generation ← r_gen; engine_id ← r_id;
  engine_generation ← r_gen; old_incarnation ← r_id; old_incarnation_generation ← r_gen;
  candidate_incarnation ← r_id; candidate_incarnation_generation ← r_gen; epoch ← r_gen;
  authority ← r_gen; phase ← r_enum; make_before_break ← r_bool; rollback_required ← r_bool;
  detail ← r_str; overlap_bytes ← r_u64; resource_overlap_available ← r_bool;
  mret {|
    Repl.replacement_id := replacement_id;
    Repl.replacement_generation := replacement_generation; Repl.engine_id := engine_id;
    Repl.engine_generation := engine_generation; Repl.old_incarnation := old_incarnation;
    Repl.old_incarnation_generation := old_incarnation_generation;
    Repl.candidate_incarnation := candidate_incarnation;
    Repl.candidate_incarnation_generation := candidate_incarnation_generation;
    Repl.epoch := epoch; Repl.authority := authority; Repl.phase := phase;
    Repl.make_before_break := make_before_break; Repl.rollback_required := rollback_required;
    Repl.detail := detail; Repl.overlap_bytes := overlap_bytes;
    Repl.resource_overlap_available := resource_overlap_available
  |}.

Definition repl_wf (p : ReplacementPlan.t) : Prop :=
  fits 64 (id_raw p.(Repl.replacement_id)) ∧
  fits 64 (gen_raw p.(Repl.replacement_generation)) ∧ fits 64 (id_raw p.(Repl.engine_id)) ∧
  fits 64 (gen_raw p.(Repl.engine_generation)) ∧ fits 64 (id_raw p.(Repl.old_incarnation)) ∧
  fits 64 (gen_raw p.(Repl.old_incarnation_generation)) ∧
  fits 64 (id_raw p.(Repl.candidate_incarnation)) ∧
  fits 64 (gen_raw p.(Repl.candidate_incarnation_generation)) ∧
  fits 64 (gen_raw p.(Repl.epoch)) ∧ fits 64 (gen_raw p.(Repl.authority)) ∧
  fits 64 p.(Repl.overlap_bytes) ∧ str_fits p.(Repl.detail).

(** [r_cost] ends with a test that a 64-bit integer cast to [double] is not NaN
    and not infinite, which it never is: the test is always passed. *)
Definition w_cost (c : CostComponent.t) : Writer :=
  w_str c.(Cost.name);; w_u64 c.(Cost.estimated_ns);; w_u64 c.(Cost.measured_ns);;
  w_enum c.(Cost.provenance);; w_u64 c.(Cost.bytes);; w_str c.(Cost.unit).

Definition r_cost : Reader CostComponent.t :=
  name ← r_str; estimated_ns ← r_u64; measured_ns ← r_u64; provenance ← r_enum; bytes ← r_u64;
  unit ← r_str;
  mret {|
    Cost.name := name; Cost.estimated_ns := estimated_ns; Cost.measured_ns := measured_ns;
    Cost.provenance := provenance; Cost.bytes := bytes; Cost.unit := unit
  |}.

Definition cost_wf (c : CostComponent.t) : Prop :=
  fits 64 c.(Cost.estimated_ns) ∧ fits 64 c.(Cost.measured_ns) ∧ fits 64 c.(Cost.bytes) ∧
  str_fits c.(Cost.name) ∧ str_fits c.(Cost.unit) ∧ enum_named c.(Cost.provenance) = true.

(** ** What a record promises *)

(** A persistent type: its writer and reader, the values the format can hold,
    and the two laws that tie them together. *)
Class Persistent (A : Type) := {
  p_write : A → Writer;
  p_read : Reader A;
  p_wf : A → Prop;
  p_round_trips x : p_wf x → round_trips (p_write x) p_read x;
  p_sound : sound p_write p_read p_wf;
}.

Create HintDb codec.
#[export] Hint Resolve round_trips_u32 round_trips_u64 round_trips_bool round_trips_id
  round_trips_gen round_trips_enum round_trips_str : codec.
#[export] Hint Resolve sound_u32 sound_u64 sound_bool sound_id sound_gen sound_enum sound_str
  sound_vec : codec.

(** Field by field; [destruct] exposes the fields of the value. *)
Ltac round_trip_fields :=
  repeat match goal with H : _ ∧ _ |- _ => destruct H end;
  repeat (eapply round_trips_bind; [solve [eauto with codec]|]);
  eapply round_trips_last; solve [eauto with codec].
Ltac sound_fields :=
  repeat (eapply yields_field; [solve [eauto with codec]|intros ? ? ? ?]);
  apply yields_ret; split;
  [cbv beta in *; repeat match goal with H : _ ∧ _ |- _ => destruct H end;
   hnf; repeat match goal with |- _ ∧ _ => split end; assumption || exact I|
   repeat (apply writes_n_bind; [eassumption|]); by apply writes_n_last].

Lemma round_trips_comp k : comp_wf k → round_trips (w_comp k) r_comp k.
Proof. destruct k. rw /comp_wf /=. intros H. rw /w_comp /r_comp /=. round_trip_fields. Qed.
Lemma sound_comp : sound w_comp r_comp comp_wf.
Proof. rw /sound /r_comp. sound_fields. Qed.
Lemma round_trips_pid p : pid_wf p → round_trips (w_pid p) r_pid p.
Proof. destruct p. rw /pid_wf /=. intros H. rw /w_pid /r_pid /=. round_trip_fields. Qed.
Lemma sound_pid : sound w_pid r_pid pid_wf.
Proof. rw /sound /r_pid. sound_fields. Qed.
#[export] Hint Resolve round_trips_comp sound_comp round_trips_pid sound_pid : codec.

Lemma round_trips_state s : round_trips (w_state s) r_state s.
Proof. destruct s. rw /w_state /r_state /=. round_trip_fields. Qed.
Lemma sound_state : sound w_state r_state (λ _, True).
Proof. rw /sound /r_state. sound_fields. Qed.
Lemma round_trips_req r : req_wf r → round_trips (w_req r) r_req r.
Proof. destruct r. rw /req_wf /=. intros H. rw /w_req /r_req /=. round_trip_fields. Qed.
Lemma sound_req : sound w_req r_req req_wf.
Proof. rw /sound /r_req. sound_fields. Qed.
#[export] Hint Resolve round_trips_state sound_state round_trips_req sound_req : codec.

(** Vectors of the three element types. *)
Lemma round_trips_strs l :
  Forall str_fits l → N.of_nat (length l) <= kMaxCount → round_trips (w_vec w_str l) (r_vec r_str) l.
Proof. apply round_trips_vec, round_trips_str. Qed.
Lemma round_trips_ids {t} (l : list (Identity t)) :
  Forall (λ x, fits 64 (id_raw x)) l → N.of_nat (length l) <= kMaxCount →
  round_trips (w_vec w_id l) (r_vec r_id) l.
Proof. apply round_trips_vec, round_trips_id. Qed.
Lemma round_trips_reqs l :
  Forall req_wf l → N.of_nat (length l) <= kMaxCount → round_trips (w_vec w_req l) (r_vec r_req) l.
Proof. apply round_trips_vec, round_trips_req. Qed.
#[export] Hint Resolve round_trips_strs round_trips_ids round_trips_reqs : codec.

#[local] Obligation Tactic := idtac.

#[export] Program Instance persistent_evidence : Persistent ComponentEvidence.t :=
  {| p_write := w_evid; p_read := r_evid; p_wf := evid_wf |}.
Next Obligation. intros [] H. rw /evid_wf /= in H. rw /w_evid /r_evid /=. round_trip_fields. Qed.
Next Obligation. rw /sound /r_evid. sound_fields. Qed.

#[export] Program Instance persistent_engine : Persistent EngineDefinition.t :=
  {| p_write := w_engine; p_read := r_engine; p_wf := engine_wf |}.
Next Obligation. intros [] H. rw /engine_wf /= in H. rw /w_engine /r_engine /=. round_trip_fields. Qed.
Next Obligation. rw /sound /r_engine. sound_fields. Qed.

#[export] Program Instance persistent_profile : Persistent ReadinessProfile.t :=
  {| p_write := w_profile; p_read := r_profile; p_wf := profile_wf |}.
Next Obligation. intros [] H. rw /profile_wf /= in H. rw /w_profile /r_profile /=. round_trip_fields. Qed.
Next Obligation. rw /sound /r_profile. sound_fields. Qed.

#[export] Program Instance persistent_incarnation : Persistent EngineIncarnation.t :=
  {| p_write := w_inc; p_read := r_inc; p_wf := inc_wf |}.
Next Obligation. intros [] H. rw /inc_wf /= in H. rw /w_inc /r_inc /=. round_trip_fields. Qed.
Next Obligation. rw /sound /r_inc. sound_fields. Qed.

#[export] Program Instance persistent_replacement : Persistent ReplacementPlan.t :=
  {| p_write := w_repl; p_read := r_repl; p_wf := repl_wf |}.
Next Obligation. intros [] H. rw /repl_wf /= in H. rw /w_repl /r_repl /=. round_trip_fields. Qed.
Next Obligation. rw /sound /r_repl. sound_fields. Qed.

#[export] Program Instance persistent_cost : Persistent CostComponent.t :=
  {| p_write := w_cost; p_read := r_cost; p_wf := cost_wf |}.
Next Obligation. intros [] H. rw /cost_wf /= in H. rw /w_cost /r_cost /=. round_trip_fields. Qed.
Next Obligation. rw /sound /r_cost. sound_fields. Qed.

(** ** The blob *)

Definition kPersistenceMagic : N := 0x45524553.
Definition kPersistenceVersion : N := 2.
Definition kMaxSerializedBytes : N := 256 * 1024 * 1024.

Module PersistentState.
Record t := mk {
  version : N;
  coordinator_epoch : N;
  authority_generation : N;
  registration_counter : N;
  engines : list EngineDefinition.t;
  profiles : list ReadinessProfile.t;
  incarnations : list EngineIncarnation.t;
  evidence : list ComponentEvidence.t;
  replacements : list ReplacementPlan.t;
  cost_history : list CostComponent.t;
}.
#[global] Instance eta : Eta t := fields! mk <version; coordinator_epoch; authority_generation;
  registration_counter; engines; profiles; incarnations; evidence; replacements; cost_history>.
End PersistentState.
Abbreviation PersistentState := PersistentState.t.
Module PS := PersistentState.

(** Everything in front of the checksum. *)
Definition w_body (state : PersistentState) : Writer :=
  w_u32 kPersistenceMagic;;
  w_u32 kPersistenceVersion;;
  w_u64 state.(PS.coordinator_epoch);;
  w_u64 state.(PS.authority_generation);;
  w_u64 state.(PS.registration_counter);;
  w_vec w_engine state.(PS.engines);;
  w_vec w_profile state.(PS.profiles);;
  w_vec w_inc state.(PS.incarnations);;
  w_vec w_evid state.(PS.evidence);;
  w_vec w_repl state.(PS.replacements);;
  w_vec w_cost state.(PS.cost_history).

Definition serialize_persistent_state (state : PersistentState) : Outcome Exn Bytes :=
  match w_body state [] with
  | (Ok _, body) => Ok (body ++ le_encode 8 (fnv1a body))
  | (Throw e, _) => Throw e
  end.

(** [return bad(message)]: a failed read with the message it is reported by. *)
Definition Parse (A : Type) := M Bytes string A.
Definition or_bad {A} (r : Reader A) (message : string) : Parse A := λ d,
  match r d with
  | (Ok x, d) => (Ok x, d)
  | (Throw _, d) => (Throw message, d)
  end.

(** The loop over [n] records, the records read so far in [acc]; the loop over
    the engines also compares their number with [kMaxCount]. *)
Fixpoint r_loop {A} (record : string) (overflow : option string) (r : Reader A) (n : nat)
    (acc : list A) : Parse (list A) :=
  match n with
  | O => mret acc
  | S n =>
    e ← or_bad r record;
    match overflow with
    | Some message => throw_if (kMaxCount <=? N.of_nat (length acc)) message
    | None => mret ()
    end;;
    r_loop record overflow r n (acc ++ [e])
  end.
Definition r_records {A} (count record : string) (overflow : option string) (r : Reader A)
    : Parse (list A) :=
  n ← or_bad r_u32 count;
  throw_if (kMaxCount <? n) count;;
  r_loop record overflow r (N.to_nat n) [].

Definition r_body : Parse PersistentState :=
  magic ← or_bad r_u32 "bad magic";
  throw_if (negb (magic =? kPersistenceMagic)) "bad magic"%string;;
  version ← or_bad r_u32 "unsupported version";
  throw_if (negb (version =? kPersistenceVersion)) "unsupported version"%string;;
  coordinator_epoch ← or_bad r_u64 "reading epoch";
  authority_generation ← or_bad r_u64 "reading authority";
  registration_counter ← or_bad r_u64 "reading reg counter";
  engines ← r_records "engine count" "engine record" (Some "engine overflow"%string) r_engine;
  profiles ← r_records "profile count" "profile record" None r_profile;
  incarnations ← r_records "incarnation count" "incarnation record" None r_inc;
  evidence ← r_records "evidence count" "evidence record" None r_evid;
  replacements ← r_records "replacement count" "replacement record" None r_repl;
  cost_history ← r_records "cost count" "cost record" None r_cost;
  mret {|
    PS.version := version; PS.coordinator_epoch := coordinator_epoch;
    PS.authority_generation := authority_generation;
    PS.registration_counter := registration_counter; PS.engines := engines;
    PS.profiles := profiles; PS.incarnations := incarnations; PS.evidence := evidence;
    PS.replacements := replacements; PS.cost_history := cost_history
  |}.

(** [true] with the state, or [false] with the error. *)
Definition deserialize_persistent_state (blob : Bytes) : Outcome string PersistentState :=
  if size_of blob <? 8 + 8 then Throw "blob too short"%string
  else if kMaxSerializedBytes <? size_of blob then Throw "blob oversized"%string
  else
    let body := take (length blob - 8) blob in
    let chk := le_decode (drop (length blob - 8) blob) in
    if negb (fnv1a body =? chk) then Throw "checksum mismatch"%string
    else
      match r_body body with
      | (Throw message, _) => Throw message
      | (Ok s, []) => Ok s
      | (Ok _, _ :: _) => Throw "trailing garbage"%string
      end.

(** ** Proofs *)

Lemma reads_or_bad {A} (r : Reader A) message d x : reads r d x → reads (or_bad r message) d x.
Proof. intros Hr rest. by rw /or_bad Hr. Qed.
Lemma round_trips_or_bad {A} w (r : Reader A) message x :
  round_trips w r x → round_trips w (or_bad r message) x.
Proof. intros (d & Hw & Hr). exists d. split; [done|by apply reads_or_bad]. Qed.
Lemma sound_or_bad {A} w (r : Reader A) message P : sound w r P → sound w (or_bad r message) P.
Proof.
  intros Hs d x rest. rw /or_bad. destruct (r d) as [[y|] d'] eqn:Hd; [|done].
  intros [= <- <-]. by apply Hs.
Qed.

(** The loops read what the generic vector reader reads. *)
Lemma r_loop_many {A} record overflow (r : Reader A) n acc d :
  N.of_nat (length acc + n) <= kMaxCount →
  r_loop record overflow r n acc d
  = match r_many r n d with
    | (Ok l, d) => (Ok (acc ++ l), d)
    | (Throw _, d) => (Throw record, d)
    end.
Proof.
  revert acc d. induction n as [|n IH]; intros acc d Hn; [by rw /= app_nil_r|].
  cbn [r_loop r_many]. rw /mbind /M_bind /or_bad. destruct (r d) as [[x|] d']; [|done].
  replace (match overflow with Some _ => _ | None => _ end d') with (Ok (E:=string) (), d').
  2: { destruct overflow; [|done]. rw (proj2 (N.leb_gt _ _)) //. lia. }
  rw IH; [|rw length_app /=; lia]. destruct (r_many r n d') as [[l|] d'']; [|done].
  by rw -app_assoc.
Qed.

Lemma r_records_vec {A} count record overflow (r : Reader A) d :
  ∃ message, r_records count record overflow r d
    = match r_vec r d with
      | (Ok l, d) => (Ok l, d)
      | (Throw _, d) => (Throw message, d)
      end.
Proof.
  rw /r_records /r_vec /mbind /M_bind {1}/or_bad. destruct (r_u32 d) as [[n|] d']; [|by exists count].
  case: (N.ltb_spec kMaxCount n) => Hn /=; [by exists count|].
  exists record. rw r_loop_many; [|simpl; lia]. by destruct (r_many r (N.to_nat n) d') as [[]].
Qed.

Lemma round_trips_records {A} w count record overflow (r : Reader A) l :
  round_trips w (r_vec r) l → round_trips w (r_records count record overflow r) l.
Proof.
  intros (d & Hw & Hr). exists d. split; [done|]. intros rest.
  destruct (r_records_vec count record overflow r (d ++ rest)) as [message ->]. by rw Hr.
Qed.
Lemma sound_records {A} w count record overflow (r : Reader A) P :
  sound w (r_vec r) P → sound w (r_records count record overflow r) P.
Proof.
  intros Hs d x rest. destruct (r_records_vec count record overflow r d) as [message ->].
  destruct (r_vec r d) as [[l|] d'] eqn:Hd; [|done]. intros [= <- <-]. by apply Hs.
Qed.

Definition vec_wf `{Persistent A} (l : list A) : Prop :=
  Forall p_wf l ∧ N.of_nat (length l) <= kMaxCount.

(** The states the format can hold. *)
Definition state_wf (s : PersistentState) : Prop :=
  s.(PS.version) = kPersistenceVersion ∧ fits 64 s.(PS.coordinator_epoch) ∧
  fits 64 s.(PS.authority_generation) ∧ fits 64 s.(PS.registration_counter) ∧
  vec_wf s.(PS.engines) ∧ vec_wf s.(PS.profiles) ∧ vec_wf s.(PS.incarnations) ∧
  vec_wf s.(PS.evidence) ∧ vec_wf s.(PS.replacements) ∧ vec_wf s.(PS.cost_history).

Lemma round_trips_vec_wf `{Persistent A} count record overflow (l : list A) :
  vec_wf l → round_trips (w_vec p_write l) (r_records count record overflow p_read) l.
Proof.
  intros [Hl Hn]. apply round_trips_records. by apply (round_trips_vec _ _ p_wf); [apply p_round_trips|..].
Qed.
Lemma sound_vec_wf `{Persistent A} count record overflow :
  sound (w_vec p_write) (r_records count record overflow (p_read (A:=A))) vec_wf.
Proof. apply sound_records, sound_vec, p_sound. Qed.

Lemma round_trips_body s : state_wf s → round_trips (w_body s) r_body s.
Proof.
  destruct s. rw /state_wf /=. intros (-> & He & Ha & Hc & H1 & H2 & H3 & H4 & H5 & H6).
  rw /w_body /r_body /=.
  eapply round_trips_bind; [by apply round_trips_or_bad, round_trips_u32|].
  apply round_trips_throw_if; [done|].
  eapply round_trips_bind; [by apply round_trips_or_bad, round_trips_u32|].
  apply round_trips_throw_if; [done|].
  do 3 (eapply round_trips_bind; [by apply round_trips_or_bad, round_trips_u64|]).
  eapply round_trips_bind; [exact (round_trips_vec_wf _ _ _ _ H1)|].
  eapply round_trips_bind; [exact (round_trips_vec_wf _ _ _ _ H2)|].
  eapply round_trips_bind; [exact (round_trips_vec_wf _ _ _ _ H3)|].
  eapply round_trips_bind; [exact (round_trips_vec_wf _ _ _ _ H4)|].
  eapply round_trips_bind; [exact (round_trips_vec_wf _ _ _ _ H5)|].
  eapply round_trips_last. exact (round_trips_vec_wf _ _ _ _ H6).
Qed.

Lemma sound_body : sound w_body r_body state_wf.
Proof.
  rw /sound /r_body.
  eapply yields_field; [apply sound_or_bad, sound_u32|]. intros magic ? _ Hm.
  apply yields_throw_if. intros ->%negb_false_iff%N.eqb_eq.
  eapply yields_field; [apply sound_or_bad, sound_u32|]. intros version ? _ Hv.
  apply yields_throw_if. intros ->%negb_false_iff%N.eqb_eq.
  do 3 (eapply yields_field; [apply sound_or_bad, sound_u64|intros ????]).
  eapply yields_field; [exact (sound_vec_wf (H:=persistent_engine) _ _ _)|intros ????].
  eapply yields_field; [exact (sound_vec_wf (H:=persistent_profile) _ _ _)|intros ????].
  eapply yields_field; [exact (sound_vec_wf (H:=persistent_incarnation) _ _ _)|intros ????].
  eapply yields_field; [exact (sound_vec_wf (H:=persistent_evidence) _ _ _)|intros ????].
  eapply yields_field; [exact (sound_vec_wf (H:=persistent_replacement) _ _ _)|intros ????].
  eapply yields_field; [exact (sound_vec_wf (H:=persistent_cost) _ _ _)|intros ????].
  apply yields_ret. split; [by hnf; repeat match goal with |- _ ∧ _ => split end|].
  repeat (apply writes_n_bind; [eassumption|]). by apply writes_n_last.
Qed.

(** *** Blobs *)

Definition body_of (blob : Bytes) : Bytes := take (length blob - 8) blob.
Definition trailer_of (blob : Bytes) : Bytes := drop (length blob - 8) blob.

Record accepted (blob : Bytes) (s : PersistentState) : Prop := {
  acc_min : 16 <= size_of blob;
  acc_max : size_of blob <= kMaxSerializedBytes;
  acc_checksum : fnv1a (body_of blob) = le_decode (trailer_of blob);
  acc_body : r_body (body_of blob) = (Ok s, []);
}.

Lemma deserialize_accepted blob s :
  deserialize_persistent_state blob = Ok s ↔ accepted blob s.
Proof.
  rw /deserialize_persistent_state -/(body_of blob) -/(trailer_of blob). change (8 + 8) with 16.
  split.
  - case: N.ltb_spec => [//|?]. case: N.ltb_spec => [//|?].
    destruct (negb _) eqn:Hc; [done|]. apply negb_false_iff, N.eqb_eq in Hc.
    destruct (r_body _) as [[s'|] [|]] eqn:Hb; [|done..]. intros [= ->]. by split.
  - intros [Hmin Hmax -> ->]. by rw (proj2 (N.ltb_ge _ _) Hmin) (proj2 (N.ltb_ge _ _) Hmax) N.eqb_refl.
Qed.

Lemma serialized_length body : length (body ++ le_encode 8 (fnv1a body)) = (length body + 8)%nat.
Proof. by rw length_app length_le_encode. Qed.

Lemma serialized_parts body (blob := body ++ le_encode 8 (fnv1a body)) :
  body_of blob = body ∧ fnv1a body = le_decode (trailer_of blob).
Proof.
  rw /body_of /trailer_of. subst blob. rw serialized_length Nat.add_sub take_app_length drop_app_length.
  split; [done|]. by rw le_decode_encode; [|apply fnv1a_lt].
Qed.

Lemma writes_from_empty w d : writes w d → w [] = (Ok (), d).
Proof. intros Hw. exact (Hw []). Qed.

(** The body is never short: the fixed part alone has 32 bytes. *)
Lemma w_vec_writes `{Persistent A} (l : list A) : vec_wf l → ∃ d, writes (w_vec p_write l) d.
Proof.
  intros Hl. destruct (round_trips_vec_wf "" "" None l Hl) as (d & Hw & _). by exists d.
Qed.

Lemma body_min s d : state_wf s → writes (w_body s) d → 32 <= size_of d.
Proof.
  intros (_ & _ & _ & _ & H1 & H2 & H3 & H4 & H5 & H6) Hw.
  destruct (w_vec_writes _ H1) as [d1 W1], (w_vec_writes _ H2) as [d2 W2], (w_vec_writes _ H3) as [d3 W3],
    (w_vec_writes _ H4) as [d4 W4], (w_vec_writes _ H5) as [d5 W5], (w_vec_writes _ H6) as [d6 W6].
  assert (Hd : ∃ rest, writes (w_body s) (le_encode 4 kPersistenceMagic ++ le_encode 4 kPersistenceVersion
    ++ le_encode 8 s.(PS.coordinator_epoch) ++ le_encode 8 s.(PS.authority_generation)
    ++ le_encode 8 s.(PS.registration_counter) ++ rest)).
  { exists (d1 ++ d2 ++ d3 ++ d4 ++ d5 ++ d6).
    do 5 (apply writes_bind; [apply writes_append|]).
    do 5 (apply writes_bind; [eassumption|]). exact W6. }
  destruct Hd as [rest Hd]. apply writes_from_empty in Hw, Hd. rw Hw in Hd.
  apply (f_equal snd) in Hd. cbn [snd] in Hd. rw Hd.
  rw /size_of !length_app !length_le_encode. lia.
Qed.

Lemma round_trips_blob s : state_wf s → ∃ blob,
  serialize_persistent_state s = Ok blob ∧
  (size_of blob <= kMaxSerializedBytes → accepted blob s).
Proof.
  intros Hs. destruct (round_trips_body s Hs) as (d & Hw & Hr).
  pose proof (body_min s d Hs Hw) as Hmin. destruct (serialized_parts d) as [Hbody Htrailer].
  exists (d ++ le_encode 8 (fnv1a d)). split; [by rw /serialize_persistent_state (writes_from_empty _ _ Hw)|].
  intros Hmax. split; [|done|by rw Hbody|rw Hbody; specialize (Hr []); by rw app_nil_r in Hr].
  move: Hmin. rw /size_of serialized_length. lia.
Qed.

(** ** Properties *)

(** C27. Persistence round trips: every state whose numbers fit their widths,
    whose strings and counts respect the limits and whose enumerations are
    within range serializes without error, and unless the blob exceeds the
    256 MiB cap it deserializes to exactly the same state.  Nothing is asked of
    what the fields say: repeated identities, capacities and sums that overflow,
    which the README has recovery reject, pass unchanged. *)
Theorem persistent_state_round_trips s :
  state_wf s → ∃ blob, serialize_persistent_state s = Ok blob ∧
    (size_of blob <= kMaxSerializedBytes → deserialize_persistent_state blob = Ok s).
Proof.
  intros Hs. destruct (round_trips_blob s Hs) as (blob & Hser & Hacc). exists blob.
  split; [done|]. intros Hmax. by apply deserialize_accepted, Hacc.
Qed.

(** C28. What is loaded is well formed: a blob that deserializes has every
    number within its width, every string and count within its limit and every
    enumeration in range, and the state it holds serializes to a blob of the
    same length that deserializes to the same state. *)
Theorem deserialized_state_well_formed blob s :
  deserialize_persistent_state blob = Ok s →
  state_wf s ∧ ∃ blob', serialize_persistent_state s = Ok blob' ∧ length blob' = length blob ∧
    deserialize_persistent_state blob' = Ok s.
Proof.
  intros [Hmin Hmax Hchk Hbody]%deserialize_accepted.
  destruct (sound_body _ _ _ Hbody) as (n & Hn & Hs & (d & Hd & Hw)). split; [done|].
  destruct (round_trips_blob s Hs) as (blob' & Hser & Hacc). exists blob'.
  assert (length blob' = length blob) as Hlen.
  { move: Hser. rw /serialize_persistent_state (writes_from_empty _ _ Hw). intros [= <-].
    rw serialized_length Hd. rw /body_of length_take /= in Hn. rw /size_of in Hmin. lia. }
  split_and!; [done..|]. apply deserialize_accepted, Hacc. by rw /size_of Hlen.
Qed.

(** C29. Single-byte corruption is always detected: change any one byte of a
    blob that deserializes, in the body or in the checksum, and it is refused
    with a checksum mismatch. *)
Theorem corrupt_byte_rejected blob s i b c :
  deserialize_persistent_state blob = Ok s → blob !! i = Some b → c ≠ b →
  deserialize_persistent_state (<[i := c]> blob) = Throw "checksum mismatch"%string.
Proof.
  intros [Hmin Hmax Hchk _]%deserialize_accepted Hb Hne. rw /size_of in Hmin Hmax.
  rw /deserialize_persistent_state /size_of length_insert -!/(size_of _).
  rw (proj2 (N.ltb_ge _ _)) // (proj2 (N.ltb_ge _ _)) //.
  assert (fnv1a (take (length blob - 8) (<[i:=c]> blob))
    ≠ le_decode (drop (length blob - 8) (<[i:=c]> blob))) as Hbad; [|by rw (proj2 (N.eqb_neq _ _) Hbad)].
  rw /body_of /trailer_of in Hchk. intros Heq. apply Hne.
  destruct (decide (i < length blob - 8)%nat) as [Hi|Hi].
  - rw take_insert_lt // in Heq. rw drop_insert_lt // -Hchk in Heq.
    apply (fnv1a_insert (take (length blob - 8) blob) i); [by rw lookup_take_lt|done].
  - rw take_insert_ge in Heq; [|lia]. rw Hchk in Heq.
    apply le_decode_inj in Heq; [|by rw !length_drop length_insert].
    rw drop_insert_ge in Heq; [|lia].
    assert (drop (length blob - 8) blob !! (i - (length blob - 8))%nat = Some b) as Hb'.
    { rw lookup_drop. by replace (length blob - 8 + (i - (length blob - 8)))%nat with i by lia. }
    assert (Some c = Some b) as [= ->]; [|done]. rw -Hb' {1}Heq list_lookup_insert_eq //.
    by eapply lookup_lt_Some.
Qed.

(** *** Well-formedness is decidable *)

#[export] Instance fits_dec w n : Decision (fits w n).
Proof. rw /fits. apply _. Defined.
#[export] Instance str_fits_dec s : Decision (str_fits s).
Proof. rw /str_fits. apply _. Defined.
#[export] Instance comp_wf_dec k : Decision (comp_wf k).
Proof. rw /comp_wf. apply _. Defined.
#[export] Instance pid_wf_dec p : Decision (pid_wf p).
Proof. rw /pid_wf. apply _. Defined.
#[export] Instance req_wf_dec r : Decision (req_wf r).
Proof. rw /req_wf. apply _. Defined.
#[export] Instance evid_wf_dec e : Decision (evid_wf e).
Proof. rw /evid_wf. apply _. Defined.
#[export] Instance engine_wf_dec e : Decision (engine_wf e).
Proof. rw /engine_wf. apply _. Defined.
#[export] Instance profile_wf_dec p : Decision (profile_wf p).
Proof. rw /profile_wf. apply _. Defined.
#[export] Instance inc_wf_dec i : Decision (inc_wf i).
Proof. rw /inc_wf. apply _. Defined.
#[export] Instance repl_wf_dec p : Decision (repl_wf p).
Proof. rw /repl_wf. apply _. Defined.
#[export] Instance cost_wf_dec c : Decision (cost_wf c).
Proof. rw /cost_wf. apply _. Defined.
#[export] Instance state_wf_dec s : Decision (state_wf s).
Proof. rw /state_wf /vec_wf /=. apply _. Defined.

(** *** A concrete state: the reference engine with its evidence *)

Definition demo_persistent : PersistentState := {|
  PS.version := 2; PS.coordinator_epoch := 3; PS.authority_generation := 3;
  PS.registration_counter := 2; PS.engines := [reference_definition];
  PS.profiles := [reference_profile]; PS.incarnations := [EngineIncarnation.default];
  PS.evidence := example_bundle (mkId 2) (mkGen 1);
  PS.replacements := [ReplacementPlan.default]; PS.cost_history := [CostComponent.default]
|}.

Lemma demo_persistent_wf : state_wf demo_persistent.
Proof. apply (bool_decide_unpack _). vm_compute. exact I. Qed.

Definition demo_blob : Bytes :=
  match serialize_persistent_state demo_persistent with
  | Ok blob => blob
  | Throw _ => []
  end.

Example demo_blob_length : length demo_blob = 3879%nat.
Proof. vm_compute. reflexivity. Qed.

Lemma persistent_state_round_trips_witness :
  ∃ blob, serialize_persistent_state demo_persistent = Ok blob ∧
    deserialize_persistent_state blob = Ok demo_persistent.
Proof.
  destruct (persistent_state_round_trips demo_persistent demo_persistent_wf) as (blob & Hs & Hd).
  exists blob. split; [exact Hs|]. apply Hd.
  assert (blob = demo_blob) as -> by (unfold demo_blob; destruct (serialize_persistent_state _);
    [by injection Hs as ->|discriminate Hs]).
  vm_compute. discriminate.
Defined.

Lemma demo_blob_loads : deserialize_persistent_state demo_blob = Ok demo_persistent.
Proof. vm_compute. reflexivity. Qed.

Lemma deserialized_state_well_formed_witness :
  deserialize_persistent_state demo_blob = Ok demo_persistent ∧
  ∃ blob', serialize_persistent_state demo_persistent = Ok blob' ∧ length blob' = 3879%nat.
Proof.
  split; [exact demo_blob_loads|].
  destruct (deserialized_state_well_formed demo_blob demo_persistent demo_blob_loads)
    as (_ & blob' & Hs & Hlen & _).
  exists blob'. split; [exact Hs|]. rw Hlen. exact demo_blob_length.
Defined.

Lemma corrupt_byte_rejected_witness :
  deserialize_persistent_state (<[40%nat := "!"%char]> demo_blob) = Throw "checksum mismatch"%string.
Proof.
  destruct (demo_blob !! 40%nat) as [b|] eqn:Hb; [|vm_compute in Hb; discriminate Hb].
  apply (corrupt_byte_rejected demo_blob demo_persistent 40 b "!"%char demo_blob_loads Hb).
  vm_compute in Hb. injection Hb as <-. discriminate.
Defined.
