(* ===== verification/Tools.v ===== *)
(** * Tools

    The other executables: the arguments of [tools/coordinator_main.cpp], the
    client of [tools/controller_main.cpp] and the state inspector of
    [tools/cli_main.cpp], with the lines each prints. *)

From S2P Require Import Prelude Identities Enums Model Codec Frame Payload Persistence Backend Worker.
Local Open Scope N_scope.

(** ** coordinator_main *)

(** The port and the state path of [run_coordinator]; [None] when [--state]
    comes last and the null after it is read. *)
Fixpoint coordinator_args (port : N) (state_path : string) (args : list string) : option (N * string) :=
  match args with
  | [] => Some (port, state_path)
  | a :: args =>
    if String.eqb a "--state" then
      match args with
      | [] => None
      | path :: args => coordinator_args port path args
      end
    else coordinator_args (atoi_bits 16 a) state_path args
  end.
Definition coordinator_main (args : list string) : option (N * string) := coordinator_args 27200 "" args.

(** ** controller_main *)

Definition controller_port (args : list string) : N :=
  match args with a :: _ => atoi_bits 16 a | [] => 27200 end.
(** After the connection: the exit code, and the line printed. *)
Definition controller_main : Proc (N * string) :=
  sent ← PSend (ProtocolMessage.default <| Msg.type := MessageType.HELLO |>
    <| Msg.payload := make_payload (list_to_map [("label", "controller")]) |>) PRet;
  if negb sent : bool then PRet (1, "") else
  PRecv (λ om, match om with
    | None => PRet (1, "")
    | Some mr =>
      let f := parse_payload mr.(Msg.payload) in
      PRet (0, "controller connected epoch=" +:+ get f "epoch" "" +:+ " authority=" +:+ get f "authority" "")
    end).

(** ** cli_main *)

Definition count {A} (l : list A) : string := to_string (N.of_nat (length l)).
Definition engine_line (e : EngineDefinition) : string :=
  "  engine=" +:+ to_string (Identity.raw e.(Def.engine_id)) +:+ " name=" +:+ e.(Def.name) +:+
  " role=" +:+ ServingRole.to_string e.(Def.role).
Definition incarnation_line (i : EngineIncarnation) : string :=
  "  incarn=" +:+ to_string (Identity.raw i.(Inc.incarnation_id)) +:+
  " worker=" +:+ to_string (Identity.raw i.(Inc.worker_id)) +:+
  " boot=" +:+ to_string (Generation.raw i.(Inc.worker_boot)) +:+
  " lifecycle=" +:+ ProcessLifecycle.to_string i.(Inc.state).(St.lifecycle) +:+
  " prep=" +:+ PreparationState.to_string i.(Inc.state).(St.preparation) +:+
  " recovery=" +:+ RecoveryState.to_string i.(Inc.state).(St.recovery).
Definition summary_line (s : PersistentState) : string :=
  "epoch=" +:+ to_string s.(PS.coordinator_epoch) +:+ " authority=" +:+ to_string s.(PS.authority_generation) +:+
  " engines=" +:+ count s.(PS.engines) +:+ " incarnations=" +:+ count s.(PS.incarnations) +:+
  " evidence=" +:+ count s.(PS.evidence).
(** The exit code and the lines after the version, for the arguments after the
    program's name and the files that open. *)
Definition cli_main (files : string → option Bytes) (args : list string) : N * list string :=
  match args with
  | cmd :: path :: _ =>
    if String.eqb cmd "inspect" then
      match files path with
      | None => (1, ["cannot open " +:+ path])
      | Some blob =>
        match deserialize_persistent_state blob with
        | Throw err => (1, ["reject: " +:+ err])
        | Ok s =>
          (0, summary_line s :: (engine_line <$> s.(PS.engines)) ++ (incarnation_line <$> s.(PS.incarnations)))
        end
      end
    else (0, ["usage: er_cli inspect <state-file>"])
  | _ => (0, ["usage: er_cli inspect <state-file>"])
  end.

(** A saved state inspects as itself: the blob of any well-formed state within
    the size cap is reported with its own epoch, authority, engines and
    incarnations, a line each. *)
Lemma inspect_shows_saved files path rest s blob :
  state_wf s → serialize_persistent_state s = Ok blob → size_of blob <= kMaxSerializedBytes →
  files path = Some blob →
  cli_main files ("inspect" :: path :: rest)
  = (0, summary_line s :: (engine_line <$> s.(PS.engines)) ++ (incarnation_line <$> s.(PS.incarnations))).
Proof.
  intros Hs Hblob Hmax Hfile. destruct (round_trips_blob s Hs) as (blob' & Hblob' & Hacc).
  assert (blob' = blob) as -> by congruence. cbn [cli_main String.eqb]. rw /cli_main /= Hfile.
  by rw (proj2 (deserialize_accepted blob s) (Hacc Hmax)).
Qed.
