(* ===== verification/Readiness.v ===== *)
(** * Readiness evaluation

    [src/readiness/readiness.cpp]: the evidence selection [best_evidence], the
    strength order [state_satisfies], and the profile evaluation
    [evaluate_readiness] as the source's loop over the requirements. *)

From S2P Require Import Prelude Identities Enums Model Reference.
Local Open Scope N_scope.

(** ** Evidence selection *)

(** [std::string::empty] *)
Definition empty_string (s : string) : bool := String.eqb s "".

(** The filter of the selection loop: category, then the optional subject and
    namespace selectors. *)
Definition selects (category : ComponentCategory.t) (subject evidence_namespace : string)
    (e : ComponentEvidence) : bool :=
  bool_decide (e.(Ev.category) = category)
  && (empty_string subject || String.eqb e.(Ev.subject) subject)
  && (empty_string evidence_namespace || String.eqb e.(Ev.namespace_) evidence_namespace).

(** One iteration: a later record replaces the best one when its generation is
    larger, or equal and it was observed strictly later. *)
Definition best_step (category : ComponentCategory.t) (subject evidence_namespace : string)
    (best : option ComponentEvidence) (e : ComponentEvidence) : option ComponentEvidence :=
  if negb (selects category subject evidence_namespace e) then best else
  match best with
  | None => Some e
  | Some b =>
    if Generation.gtb e.(Ev.evidence_generation) b.(Ev.evidence_generation) then Some e
    else if Generation.eqb e.(Ev.evidence_generation) b.(Ev.evidence_generation)
            && (b.(Ev.observed_at_ns) <? e.(Ev.observed_at_ns)) then Some e
    else best
  end.

Definition best_evidence (evidence : list ComponentEvidence) (now_ns : N)
    (category : ComponentCategory.t) (subject evidence_namespace : string)
    : option ComponentEvidence :=
  foldl (best_step category subject evidence_namespace) None evidence.

(** ** State strength *)

Definition rank (s : ComponentState.t) : Z :=
  match s with
  | ComponentState.ABSENT => 0
  | ComponentState.DISCOVERED => 1
  | ComponentState.AVAILABLE => 2
  | ComponentState.LOADING => 3
  | ComponentState.BOUND => 4
  | ComponentState.VERIFIED => 5
  | ComponentState.FAILED => -1
  | ComponentState.STALE => -2
  | ComponentState.UNKNOWN => -3
  | ComponentState.REVALIDATION_REQUIRED => -4
  | ComponentState.other _ => -5
  end.

Definition state_satisfies (actual required : ComponentState.t) : bool :=
  (rank required <=? rank actual)%Z && (0 <=? rank required)%Z.

(** ** The generation-family cross-check *)

Definition gen_mismatch (engine : EngineDefinition) (req : ProfileRequirement)
    (e : ComponentEvidence) : bool :=
  match req.(Req.generation_family) with
  | GenerationFamily.MODEL =>
    negb (Generation.eqb e.(Ev.model_generation) engine.(Def.model_generation))
  | GenerationFamily.ADAPTER =>
    negb (Generation.eqb e.(Ev.adapter_generation) engine.(Def.adapter_generation))
  | GenerationFamily.KV_CAPACITY => negb (Generation.is_valid e.(Ev.kv_capacity_generation))
  | GenerationFamily.KERNEL =>
    negb (Generation.eqb e.(Ev.kernel_generation) engine.(Def.kernel_generation))
  | GenerationFamily.GRAPH =>
    negb (Generation.eqb e.(Ev.graph_generation) engine.(Def.graph_generation))
  | GenerationFamily.ALLOCATION => false
  | GenerationFamily.RESOURCE_CLAIM => false
  | GenerationFamily.DEPENDENCY =>
    negb (Generation.eqb e.(Ev.dependency_generation) engine.(Def.dependency_generation))
  | GenerationFamily.COMPATIBILITY =>
    Key.is_valid req.(Req.compatibility)
    && negb (Key.eqb req.(Req.compatibility) e.(Ev.compatibility))
  | GenerationFamily.NONE => false
  | GenerationFamily.KV_STATE => false  (* the [switch] has no such case *)
  end.

(** ** The evaluation loop *)

(** The local variables of [evaluate_readiness] that the loop updates. *)
Module Locals.
Record t := mk {
  result : ReadinessResult;
  has_required_missing : bool;
  has_required_stale : bool;
  has_incompatible : bool;
  fallback_used : bool;
}.
#[global] Instance eta : Eta t := fields! mk <result; has_required_missing;
    has_required_stale; has_incompatible; fallback_used>.
End Locals.

Definition is_kind (r : ProfileRequirement) (k : RequirementKind.t) : bool :=
  bool_decide (r.(Req.kind) = k).

(** The label a requirement is reported under. *)
Definition req_label (r : ProfileRequirement) : string :=
  if empty_string r.(Req.subject) then ComponentCategory.to_string r.(Req.category)
  else r.(Req.subject).

Definition push_outcome (o : RequirementOutcome) (l : Locals.t) : Locals.t :=
  l <| Locals.result ::= λ r, r <| Res.requirement_outcomes ::= λ os, os ++ [o] |> |>.
Definition push_missing (s : string) (l : Locals.t) : Locals.t :=
  l <| Locals.has_required_missing := true |>
    <| Locals.result ::= λ r, r <| Res.missing ::= λ ss, ss ++ [s] |> |>.
Definition push_incompatible (s : string) (l : Locals.t) : Locals.t :=
  l <| Locals.has_incompatible := true |>
    <| Locals.result ::= λ r, r <| Res.incompatible ::= λ ss, ss ++ [s] |> |>.
Definition push_stale (s : string) (l : Locals.t) : Locals.t :=
  l <| Locals.has_required_stale := true |>
    <| Locals.result ::= λ r, r <| Res.stale_evidence ::= λ ss, ss ++ [s] |> |>.
Definition push_satisfied (s : string) (l : Locals.t) : Locals.t :=
  l <| Locals.result ::= λ r, r <| Res.satisfied ::= λ ss, ss ++ [s] |> |>.

(** The body of [for (const auto& req : profile.requirements)]; every
    [continue] is an early branch. *)
Definition eval_requirement (engine : EngineDefinition) (evidence : list ComponentEvidence)
    (now_ns : N) (l : Locals.t) (req : ProfileRequirement) : Locals.t :=
  let o := RequirementOutcome.default
    <| ReqOut.category := req.(Req.category) |>
    <| ReqOut.subject := req_label req |>
    <| ReqOut.kind := req.(Req.kind) |>
    <| ReqOut.min_state := req.(Req.min_state) |>
    <| ReqOut.actual_state := ComponentState.ABSENT |>
    <| ReqOut.missing := false |> <| ReqOut.stale := false |>
    <| ReqOut.incompatible := false |> in
  let label := o.(ReqOut.subject) in
  if is_kind req RequirementKind.UNSUPPORTED then
    push_outcome (o <| ReqOut.reason := "unsupported requirement for this profile" |>
                    <| ReqOut.incompatible := true |>) (push_incompatible label l)
  else
  match best_evidence evidence now_ns req.(Req.category) req.(Req.subject) "" with
  | None =>
    if negb (is_kind req RequirementKind.OPTIONAL) then
      push_outcome (o <| ReqOut.missing := true |>
                      <| ReqOut.reason := "missing prerequisite: " +:+ label |>)
        (push_missing label l)
    else
      push_outcome (o <| ReqOut.reason := "optional optimization absent" |>
                      <| ReqOut.satisfied := true |>) l
  | Some e =>
    let o := o <| ReqOut.actual_state := e.(Ev.state) |> in
    if negb (state_satisfies e.(Ev.state) req.(Req.min_state)) then
      if negb (is_kind req RequirementKind.OPTIONAL) then
        push_outcome (o <| ReqOut.missing := true |>
          <| ReqOut.reason := ComponentState.to_string e.(Ev.state)
               +:+ " does not satisfy required "
               +:+ ComponentState.to_string req.(Req.min_state) |>)
          (push_missing label l)
      else
        push_outcome (o <| ReqOut.reason := "optional optimization not at required state" |>
                        <| ReqOut.satisfied := true |>) l
    else if Key.is_valid req.(Req.compatibility)
            && negb (Key.eqb req.(Req.compatibility) e.(Ev.compatibility)) then
      push_outcome (o <| ReqOut.incompatible := true |>
                      <| ReqOut.reason := "compatibility mismatch" |>)
        (push_incompatible label l)
    else if negb (bool_decide (req.(Req.generation_family) = GenerationFamily.NONE))
            && gen_mismatch engine req e then
      push_outcome (o <| ReqOut.incompatible := true |>
                      <| ReqOut.reason := "generation mismatch with engine definition" |>)
        (push_incompatible label l)
    else if negb (Ev.is_fresh e now_ns) && negb (is_kind req RequirementKind.OPTIONAL) then
      push_outcome (o <| ReqOut.stale := true |>
                      <| ReqOut.reason := "evidence exceeding freshness window" |>)
        (push_stale label l)
    else
      let o := o <| ReqOut.satisfied := true |> in
      let l := push_satisfied label l in
      if is_kind req RequirementKind.PERMITTED_FALLBACK then
        push_outcome (o <| ReqOut.fallback_used := true |>)
          (l <| Locals.fallback_used := true |>
             <| Locals.result ::= λ r, r <| Res.selected_fallback := label |> |>)
      else push_outcome o l
  end.

(** The result before the loop. *)
Definition initial_result (engine : EngineDefinition) (profile : ReadinessProfile)
    (inc : EngineIncarnation) : ReadinessResult :=
  ReadinessResult.default
    <| Res.engine_id := engine.(Def.engine_id) |>
    <| Res.engine_generation := engine.(Def.engine_generation) |>
    <| Res.incarnation_id := inc.(Inc.incarnation_id) |>
    <| Res.incarnation_generation := inc.(Inc.incarnation_generation) |>
    <| Res.profile_id := profile.(Prof.profile_id) |>
    <| Res.profile_generation := profile.(Prof.profile_generation) |>
    <| Res.readiness_generation := inc.(Inc.readiness_generation) |>
    <| Res.coherent_snapshot := true |>.

(** What follows the loop: the KV headroom, the outcome and its explanation. *)
Definition conclude (evidence : list ComponentEvidence) (now_ns : N) (l : Locals.t)
    : ReadinessResult :=
  let result := l.(Locals.result) in
  let result :=
    match best_evidence evidence now_ns ComponentCategory.KV_CAPACITY "" "" with
    | Some kv => result <| Res.headroom_kv_entries := kv.(Ev.size_bytes) |>
    | None => result
    end in
  let result :=
    if l.(Locals.has_incompatible) then
      result <| Res.outcome := ReadinessOutcome.BLOCKED |>
             <| Res.detail := "incompatible requirement(s) present" |>
    else if l.(Locals.has_required_missing) then
      result <| Res.outcome := ReadinessOutcome.BLOCKED |>
             <| Res.detail := "required prerequisite(s) missing" |>
    else if l.(Locals.has_required_stale) then
      result <| Res.outcome := ReadinessOutcome.STALE |>
             <| Res.detail := "required evidence is stale" |>
    else if l.(Locals.fallback_used) then
      result <| Res.outcome := ReadinessOutcome.DEGRADED |>
             <| Res.detail := "serving under permitted fallback" |>
    else
      result <| Res.outcome := ReadinessOutcome.READY |>
             <| Res.detail := "all required prerequisites satisfied" |> in
  if negb (bool_decide (result.(Res.outcome) = ReadinessOutcome.READY))
     && negb (bool_decide (result.(Res.outcome) = ReadinessOutcome.DEGRADED)) then
    result <| Res.required_actions ::= λ l, l ++ ["ensure required components"%string] |>
  else result.

Definition evaluate_readiness (engine : EngineDefinition) (profile : ReadinessProfile)
    (inc : EngineIncarnation) (evidence : list ComponentEvidence) (now_ns : N)
    : ReadinessResult :=
  conclude evidence now_ns
    (foldl (eval_requirement engine evidence now_ns)
       (Locals.mk (initial_result engine profile inc) false false false false)
       profile.(Prof.requirements)).

(** [outcome == READY || outcome == DEGRADED]: the test every caller uses. *)
Definition serving_outcome (o : ReadinessOutcome.t) : bool :=
  bool_decide (o = ReadinessOutcome.READY) || bool_decide (o = ReadinessOutcome.DEGRADED).

(** [readiness_snapshot_is_coherent] *)
Definition readiness_snapshot_is_coherent (r : ReadinessResult) : bool :=
  r.(Res.coherent_snapshot).

(** * Specification *)

(** ** Which record is selected *)

(** [e] supersedes [b]: a larger generation, or the same one observed later. *)
Definition supersedes (e b : ComponentEvidence) : Prop :=
  gen_raw b.(Ev.evidence_generation) < gen_raw e.(Ev.evidence_generation)
  ∨ (e.(Ev.evidence_generation) = b.(Ev.evidence_generation)
     ∧ b.(Ev.observed_at_ns) < e.(Ev.observed_at_ns)).

(** The record at position [i] is the selected one: it matches, supersedes
    every matching record before it, and no later one supersedes it. *)
Definition selected_at (evidence : list ComponentEvidence) (cat : ComponentCategory.t)
    (subject nspace : string) (i : nat) (e : ComponentEvidence) : Prop :=
  evidence !! i = Some e ∧ selects cat subject nspace e = true ∧
  ∀ j x, evidence !! j = Some x → selects cat subject nspace x = true →
    ((j < i)%nat → supersedes e x) ∧ ((i < j)%nat → ¬ supersedes x e).

Lemma supersedes_trans a b c : supersedes a b → supersedes b c → supersedes a c.
Proof.
  rw /supersedes. intros [?|[E1 ?]] [?|[E2 ?]].
  - left. lia.
  - left. by rw -E2.
  - left. by rw E1.
  - right. split; [congruence|lia].
Qed.
Lemma not_supersedes_trans a b c : supersedes a b → ¬ supersedes c b → supersedes a c.
Proof.
  rw /supersedes. intros [?|[E1 ?]] H2.
  - destruct (N.lt_trichotomy (gen_raw c.(Ev.evidence_generation)) (gen_raw a.(Ev.evidence_generation)))
      as [?|[?|?]]; [by left|exfalso; apply H2; left; lia..].
  - rw E1 in H2 |- *.
    destruct (N.lt_trichotomy (gen_raw c.(Ev.evidence_generation)) (gen_raw b.(Ev.evidence_generation)))
      as [?|[E%gen_raw_inj|?]]; [by left| |exfalso; apply H2; by left].
    right. split; [done|]. rw E in H2.
    destruct (N.lt_ge_cases b.(Ev.observed_at_ns) c.(Ev.observed_at_ns)); [|lia].
    exfalso. apply H2. by right.
Qed.

Lemma best_step_selects cat subj nsp b e :
  selects cat subj nsp e = true →
  best_step cat subj nsp (Some b) e = Some e ∧ supersedes e b
  ∨ best_step cat subj nsp (Some b) e = Some b ∧ ¬ supersedes e b.
Proof.
  intros Hs. rw /best_step Hs /= /Generation.gtb /supersedes.
  destruct (N.ltb_spec (gen_raw (Ev.evidence_generation b)) (gen_raw (Ev.evidence_generation e)));
    [left; by auto|].
  destruct (Generation.eqb _ _) eqn:E; simpl.
  - apply Generation_eqb_eq in E. rw E.
    destruct (N.ltb_spec (Ev.observed_at_ns b) (Ev.observed_at_ns e)); [left; by auto|].
    right. split; [done|]. lia.
  - right. split; [done|]. apply Generation_eqb_neq in E. intros [?|[? ?]]; [lia|done].
Qed.

Section selection.
Context (cat : ComponentCategory.t) (subj nsp : string).

Lemma selected_none_or_at evidence now :
  (best_evidence evidence now cat subj nsp = None ∧
   ∀ x, x ∈ evidence → selects cat subj nsp x = false) ∨
  ∃ i e, best_evidence evidence now cat subj nsp = Some e ∧
         selected_at evidence cat subj nsp i e.
Proof.
  rw /best_evidence. induction evidence as [|x evidence IH] using rev_ind.
  { left. split; [done|]. intros ? []%not_elem_of_nil. }
  rw foldl_snoc. destruct (selects cat subj nsp x) eqn:Hx.
  - right. destruct IH as [[-> Hno]|(i & e & -> & Hi & He & Hall)].
    + exists (length evidence), x. rw /best_step Hx /=. split; [done|].
      split; [by apply list_lookup_middle|split; [done|]].
      intros j y [Hy|[? [? ?]%list_lookup_singleton_Some]]%lookup_app_Some Hsy; [|split; lia].
      apply list_elem_of_lookup_2, Hno in Hy. congruence.
    + assert ((i < length evidence)%nat) by (by eapply lookup_lt_Some).
      destruct (best_step_selects cat subj nsp e x Hx) as [[-> Hsup]|[-> Hsup]].
      * exists (length evidence), x. split; [done|].
        split; [by apply list_lookup_middle|split; [done|]].
        intros j y [Hy|[? [? ?]%list_lookup_singleton_Some]]%lookup_app_Some Hsy; [|split; lia].
        split; [intros _|apply lookup_lt_Some in Hy; lia].
        destruct (Hall j y Hy Hsy) as [Hlt Hgt].
        destruct (lt_eq_lt_dec j i) as [[?| ->]|?].
        -- eapply supersedes_trans; [done|auto].
        -- by simplify_eq.
        -- eapply not_supersedes_trans; [done|auto].
      * exists i, e. split; [done|]. split; [by apply lookup_app_l_Some|split; [done|]].
        intros j y [Hy|[? [? ->]%list_lookup_singleton_Some]]%lookup_app_Some Hsy; [by apply Hall|].
        split; [lia|done].
  - destruct IH as [[-> Hno]|(i & e & -> & Hi & He & Hall)].
    + left. split; [by rw /best_step Hx|]. intros y. rw elem_of_app list_elem_of_singleton.
      intros [?|E]; [auto|by subst].
    + right. exists i, e. split; [by rw /best_step Hx|].
      split; [by apply lookup_app_l_Some|split; [done|]].
      intros j y [Hy|[? [? ->]%list_lookup_singleton_Some]]%lookup_app_Some Hsy; [by apply Hall|].
      congruence.
Qed.

Lemma selected_at_unique evidence i j e e' :
  selected_at evidence cat subj nsp i e → selected_at evidence cat subj nsp j e' →
  i = j ∧ e = e'.
Proof.
  intros (Hi & Hs & Hall) (Hj & Hs' & Hall').
  pose proof (Hall j e' Hj Hs') as [H1 H2]. pose proof (Hall' i e Hi Hs) as [H3 H4].
  destruct (lt_eq_lt_dec i j) as [[?| ->]|?]; [|by simplify_eq|].
  - by destruct (H2 ltac:(done) (H3 ltac:(done))).
  - by destruct (H4 ltac:(done) (H1 ltac:(done))).
Qed.

Lemma best_evidence_None evidence now :
  best_evidence evidence now cat subj nsp = None ↔
  ∀ x, x ∈ evidence → selects cat subj nsp x = false.
Proof.
  destruct (selected_none_or_at evidence now) as [[-> Hno]|(i & e & -> & Hi & He & _)]; [done|].
  split; [done|]. intros Hno. rw (Hno e) in He; [|by eapply list_elem_of_lookup_2]. done.
Qed.

Lemma best_evidence_Some evidence now e :
  best_evidence evidence now cat subj nsp = Some e ↔
  ∃ i, selected_at evidence cat subj nsp i e.
Proof.
  destruct (selected_none_or_at evidence now) as [[-> Hno]|(i & e' & -> & He')].
  - split; [done|]. intros (i & Hi & Hs & _).
    rw (Hno e) in Hs; [done|]. by eapply list_elem_of_lookup_2.
  - split; [intros [= ->]; eauto|]. intros [j Hj].
    by destruct (selected_at_unique _ _ _ _ _ He' Hj) as [_ ->].
Qed.

Lemma best_evidence_elem evidence now e :
  best_evidence evidence now cat subj nsp = Some e →
  e ∈ evidence ∧ selects cat subj nsp e = true.
Proof.
  intros (i & Hi & Hs & _)%best_evidence_Some. split; [|done]. by eapply list_elem_of_lookup_2.
Qed.
End selection.

(** ** What a requirement asks for *)

(** The generation family a requirement names agrees with the definition. *)
Definition generation_agrees (engine : EngineDefinition) (req : ProfileRequirement)
    (e : ComponentEvidence) : Prop :=
  match req.(Req.generation_family) with
  | GenerationFamily.MODEL => e.(Ev.model_generation) = engine.(Def.model_generation)
  | GenerationFamily.ADAPTER => e.(Ev.adapter_generation) = engine.(Def.adapter_generation)
  | GenerationFamily.KERNEL => e.(Ev.kernel_generation) = engine.(Def.kernel_generation)
  | GenerationFamily.GRAPH => e.(Ev.graph_generation) = engine.(Def.graph_generation)
  | GenerationFamily.DEPENDENCY => e.(Ev.dependency_generation) = engine.(Def.dependency_generation)
  | GenerationFamily.KV_CAPACITY => gen_raw e.(Ev.kv_capacity_generation) ≠ 0
  | _ => True
  end.

(** [e] is exactly as strong, compatible and current as [req] demands. *)
Record usable (engine : EngineDefinition) (req : ProfileRequirement) (e : ComponentEvidence)
    : Prop := {
  usable_state : (0 ≤ rank req.(Req.min_state) ≤ rank e.(Ev.state))%Z;
  usable_key : Key.is_valid req.(Req.compatibility) = true →
               req.(Req.compatibility) = e.(Ev.compatibility);
  usable_generation : generation_agrees engine req e;
}.

Inductive Verdict := Met | Waived | Missing | Mismatched | Expired.

Section evaluation.
Context (engine : EngineDefinition) (evidence : list ComponentEvidence) (now : N).

Definition chosen (req : ProfileRequirement) : option ComponentEvidence :=
  best_evidence evidence now req.(Req.category) req.(Req.subject) "".

(** The declarative verdict on one requirement. *)
Inductive judged (req : ProfileRequirement) : Verdict → Prop :=
  | judged_unsupported :
    req.(Req.kind) = RequirementKind.UNSUPPORTED → judged req Mismatched
  | judged_absent :
    req.(Req.kind) ≠ RequirementKind.UNSUPPORTED → chosen req = None →
    judged req (if is_kind req RequirementKind.OPTIONAL then Waived else Missing)
  | judged_weak e :
    req.(Req.kind) ≠ RequirementKind.UNSUPPORTED → chosen req = Some e →
    ¬ (0 ≤ rank req.(Req.min_state) ≤ rank e.(Ev.state))%Z →
    judged req (if is_kind req RequirementKind.OPTIONAL then Waived else Missing)
  | judged_mismatch e :
    req.(Req.kind) ≠ RequirementKind.UNSUPPORTED → chosen req = Some e →
    (0 ≤ rank req.(Req.min_state) ≤ rank e.(Ev.state))%Z → ¬ usable engine req e →
    judged req Mismatched
  | judged_expired e :
    req.(Req.kind) ≠ RequirementKind.UNSUPPORTED → chosen req = Some e →
    usable engine req e → Ev.is_fresh e now = false →
    req.(Req.kind) ≠ RequirementKind.OPTIONAL → judged req Expired
  | judged_met e :
    req.(Req.kind) ≠ RequirementKind.UNSUPPORTED → chosen req = Some e →
    usable engine req e →
    (Ev.is_fresh e now = true ∨ req.(Req.kind) = RequirementKind.OPTIONAL) →
    judged req Met.

(** The same verdict as a function, read off the source's branches. *)
Definition classify (req : ProfileRequirement) : Verdict :=
  if is_kind req RequirementKind.UNSUPPORTED then Mismatched else
  match chosen req with
  | None => if is_kind req RequirementKind.OPTIONAL then Waived else Missing
  | Some e =>
    if negb (state_satisfies e.(Ev.state) req.(Req.min_state)) then
      if is_kind req RequirementKind.OPTIONAL then Waived else Missing
    else if Key.is_valid req.(Req.compatibility)
            && negb (Key.eqb req.(Req.compatibility) e.(Ev.compatibility)) then Mismatched
    else if negb (bool_decide (req.(Req.generation_family) = GenerationFamily.NONE))
            && gen_mismatch engine req e then Mismatched
    else if negb (Ev.is_fresh e now) && negb (is_kind req RequirementKind.OPTIONAL) then Expired
    else Met
  end.

Lemma state_satisfies_spec a r :
  state_satisfies a r = true ↔ (0 ≤ rank r ≤ rank a)%Z.
Proof. rw /state_satisfies andb_true_iff !Z.leb_le. lia. Qed.

Lemma gen_mismatch_spec req e :
  (Key.is_valid req.(Req.compatibility) = true → req.(Req.compatibility) = e.(Ev.compatibility)) →
  negb (bool_decide (req.(Req.generation_family) = GenerationFamily.NONE))
    && gen_mismatch engine req e = false ↔ generation_agrees engine req e.
Proof.
  intros Hkey. rw /gen_mismatch /generation_agrees.
  destruct (Req.generation_family req); simpl;
    rw ?negb_false_iff ?Generation_eqb_eq /Generation.is_valid ?N.eqb_neq; try done.
  - by rw negb_true_iff N.eqb_neq.
  - split; [done|intros _]. apply andb_false_iff. destruct (Key.is_valid _); [right|by left].
    apply negb_false_iff, Key.eqb_eq. auto.
Qed.

Lemma key_check_spec req e :
  Key.is_valid req.(Req.compatibility) && negb (Key.eqb req.(Req.compatibility) e.(Ev.compatibility))
    = false ↔
  (Key.is_valid req.(Req.compatibility) = true → req.(Req.compatibility) = e.(Ev.compatibility)).
Proof.
  rw andb_false_iff negb_false_iff Key.eqb_eq.
  destruct (Key.is_valid _); [|by split; [|left]]. split; [by intros [?|?]|by right; auto].
Qed.

Lemma is_kind_spec req k : is_kind req k = true ↔ req.(Req.kind) = k.
Proof. apply bool_decide_eq_true. Qed.
Lemma is_kind_false req k : is_kind req k = false ↔ req.(Req.kind) ≠ k.
Proof. apply bool_decide_eq_false. Qed.

(** The function computes the relation. *)
Lemma classify_judged req : judged req (classify req).
Proof.
  rw /classify. destruct (is_kind req _) eqn:Hu.
  { by apply judged_unsupported, is_kind_spec. }
  apply is_kind_false in Hu.
  destruct (chosen req) as [e|] eqn:He; [|by apply judged_absent].
  destruct (state_satisfies _ _) eqn:Hs; simpl.
  2:{ eapply judged_weak; [done..|]. rw -state_satisfies_spec. congruence. }
  apply state_satisfies_spec in Hs.
  destruct (_ && negb (Key.eqb _ _)) eqn:Hk.
  { eapply judged_mismatch; [done..|]. intros [_ Hk' _].
    pose proof (proj2 (key_check_spec req e) Hk'). congruence. }
  rw key_check_spec in Hk.
  destruct (negb _ && gen_mismatch _ _ _) eqn:Hg.
  { eapply judged_mismatch; [done..|]. intros [_ _ Hg'].
    pose proof (proj2 (gen_mismatch_spec req e Hk) Hg'). congruence. }
  apply gen_mismatch_spec in Hg; [|done].
  destruct (negb _ && negb _) eqn:Hf.
  - apply andb_true_iff in Hf as [Hf%negb_true_iff Ho%negb_true_iff%is_kind_false].
    by apply (judged_expired req e).
  - apply (judged_met req e); [done..|].
    apply andb_false_iff in Hf as [?%negb_false_iff|?%negb_false_iff%is_kind_spec]; auto.
Qed.

Lemma judged_det req v w : judged req v → judged req w → v = w.
Proof.
  assert (∀ e, usable engine req e → (0 ≤ rank req.(Req.min_state) ≤ rank e.(Ev.state))%Z)
    by (by intros e []).
  destruct 1; inversion 1; simplify_eq; try done; naive_solver congruence.
Qed.

Lemma classify_spec req v : classify req = v ↔ judged req v.
Proof.
  split; [intros <-; apply classify_judged|]. intros H. eapply judged_det; [|done].
  apply classify_judged.
Qed.
End evaluation.

#[export] Instance Verdict_eq_dec : EqDecision Verdict.
Proof. solve_decision. Defined.

(** ** The loop computes the verdicts *)

Section loop.
Context (engine : EngineDefinition) (evidence : list ComponentEvidence) (now : N).

Definition is_verdict (v : Verdict) (req : ProfileRequirement) : bool :=
  bool_decide (classify engine evidence now req = v).
Definition is_fallback (req : ProfileRequirement) : bool :=
  is_verdict Met req && is_kind req RequirementKind.PERMITTED_FALLBACK.
Definition labels (v : Verdict) (reqs : list ProfileRequirement) : list string :=
  req_label <$> filter (λ r, is_verdict v r) reqs.

(** What the locals hold once [reqs] have been processed from [l0]. *)
Record processed (l0 : Locals.t) (reqs : list ProfileRequirement) (l : Locals.t) : Prop := {
  p_missing : l.(Locals.has_required_missing)
              = l0.(Locals.has_required_missing) || existsb (is_verdict Missing) reqs;
  p_stale : l.(Locals.has_required_stale)
            = l0.(Locals.has_required_stale) || existsb (is_verdict Expired) reqs;
  p_incompatible : l.(Locals.has_incompatible)
                   = l0.(Locals.has_incompatible) || existsb (is_verdict Mismatched) reqs;
  p_fallback : l.(Locals.fallback_used)
               = l0.(Locals.fallback_used) || existsb is_fallback reqs;
  p_missing_l : l.(Locals.result).(Res.missing)
                = l0.(Locals.result).(Res.missing) ++ labels Missing reqs;
  p_stale_l : l.(Locals.result).(Res.stale_evidence)
              = l0.(Locals.result).(Res.stale_evidence) ++ labels Expired reqs;
  p_incompatible_l : l.(Locals.result).(Res.incompatible)
                     = l0.(Locals.result).(Res.incompatible) ++ labels Mismatched reqs;
  p_satisfied_l : l.(Locals.result).(Res.satisfied)
                  = l0.(Locals.result).(Res.satisfied) ++ labels Met reqs;
  p_outcomes : ReqOut.subject <$> l.(Locals.result).(Res.requirement_outcomes)
               = (ReqOut.subject <$> l0.(Locals.result).(Res.requirement_outcomes))
                 ++ (req_label <$> reqs);
}.

Lemma labels_cons v r reqs :
  labels v (r :: reqs) = (if is_verdict v r then [req_label r] else []) ++ labels v reqs.
Proof. rw /labels filter_cons. destruct (is_verdict v r); by simpl. Qed.

(** Every path of the body appends one outcome and performs the update its
    verdict stands for. *)
Definition effect (v : Verdict) (req : ProfileRequirement) (l : Locals.t) : Locals.t :=
  match v with
  | Mismatched => push_incompatible (req_label req) l
  | Missing => push_missing (req_label req) l
  | Expired => push_stale (req_label req) l
  | Waived => l
  | Met =>
    if is_kind req RequirementKind.PERMITTED_FALLBACK then
      push_satisfied (req_label req) l <| Locals.fallback_used := true |>
        <| Locals.result ::= λ r, r <| Res.selected_fallback := req_label req |> |>
    else push_satisfied (req_label req) l
  end.

Local Ltac find_outcome := eexists; split; [|reflexivity]; done.

Lemma eval_requirement_effect l req :
  ∃ o, ReqOut.subject o = req_label req ∧
    eval_requirement engine evidence now l req
    = push_outcome o (effect (classify engine evidence now req) req l).
Proof.
  rw /eval_requirement /classify /chosen. destruct (is_kind req RequirementKind.UNSUPPORTED).
  { find_outcome. }
  destruct (best_evidence _ _ _ _ _) as [e|].
  2:{ destruct (is_kind req RequirementKind.OPTIONAL); find_outcome. }
  destruct (state_satisfies _ _); simpl negb.
  2:{ destruct (is_kind req RequirementKind.OPTIONAL); find_outcome. }
  destruct (Key.is_valid _ && _); [find_outcome|].
  destruct (negb (bool_decide _) && gen_mismatch _ _ _); [find_outcome|].
  destruct (negb (Ev.is_fresh _ _) && _); [find_outcome|].
  rw /effect. destruct (is_kind req RequirementKind.PERMITTED_FALLBACK); find_outcome.
Qed.

Lemma processed_effect l req o :
  ReqOut.subject o = req_label req →
  processed l [req] (push_outcome o (effect (classify engine evidence now req) req l)).
Proof.
  intros Ho. split; rw ?labels_cons /= /is_fallback /is_verdict /labels /=;
    destruct (classify engine evidence now req); simpl;
    try destruct (is_kind req RequirementKind.PERMITTED_FALLBACK); simpl;
    rw ?fmap_app /= ?Ho ?orb_false_r ?orb_true_r ?app_nil_r //.
Qed.

Lemma processed_step l req : processed l [req] (eval_requirement engine evidence now l req).
Proof.
  destruct (eval_requirement_effect l req) as (o & Ho & ->). by apply processed_effect.
Qed.

Lemma labels_app v rs rs' : labels v (rs ++ rs') = labels v rs ++ labels v rs'.
Proof. by rw /labels filter_app fmap_app. Qed.

Lemma processed_trans l0 l1 l2 rs rs' :
  processed l0 rs l1 → processed l1 rs' l2 → processed l0 (rs ++ rs') l2.
Proof.
  intros H1 H2. destruct H1 as [A1 A2 A3 A4 A5 A6 A7 A8 A9].
  destruct H2 as [B1 B2 B3 B4 B5 B6 B7 B8 B9].
  split; [rw B1 A1|rw B2 A2|rw B3 A3|rw B4 A4|rw B5 A5|rw B6 A6|rw B7 A7|rw B8 A8|rw B9 A9];
    rw ?existsb_app ?labels_app ?fmap_app ?orb_assoc ?(assoc_L (++)) //.
Qed.

Lemma processed_loop reqs l :
  processed l reqs (foldl (eval_requirement engine evidence now) l reqs).
Proof.
  revert l; induction reqs as [|r reqs IH]; intros l; simpl.
  - split; rw /labels /= ?orb_false_r ?app_nil_r //.
  - apply (processed_trans _ _ _ [r] reqs (processed_step l r)), IH.
Qed.
End loop.

(** ** The outcome *)

Definition result_outcome (l : Locals.t) : ReadinessOutcome.t :=
  if l.(Locals.has_incompatible) then ReadinessOutcome.BLOCKED
  else if l.(Locals.has_required_missing) then ReadinessOutcome.BLOCKED
  else if l.(Locals.has_required_stale) then ReadinessOutcome.STALE
  else if l.(Locals.fallback_used) then ReadinessOutcome.DEGRADED
  else ReadinessOutcome.READY.

Local Ltac by_branches l :=
  rw /conclude; destruct (best_evidence _ _ _ _ _); destruct l as [? [] [] [] []].

Lemma conclude_outcome ev now l : (conclude ev now l).(Res.outcome) = result_outcome l.
Proof. by by_branches l. Qed.

Lemma conclude_reports ev now l :
  let r := conclude ev now l in
  r.(Res.missing) = l.(Locals.result).(Res.missing) ∧
  r.(Res.incompatible) = l.(Locals.result).(Res.incompatible) ∧
  r.(Res.stale_evidence) = l.(Locals.result).(Res.stale_evidence) ∧
  r.(Res.satisfied) = l.(Locals.result).(Res.satisfied) ∧
  r.(Res.requirement_outcomes) = l.(Locals.result).(Res.requirement_outcomes).
Proof. by by_branches l. Qed.

Section outcome.
Context (engine : EngineDefinition) (profile : ReadinessProfile) (inc : EngineIncarnation).
Context (evidence : list ComponentEvidence) (now : N).

Definition verdict_outcome (reqs : list ProfileRequirement) : ReadinessOutcome.t :=
  if existsb (is_verdict engine evidence now Mismatched) reqs then ReadinessOutcome.BLOCKED
  else if existsb (is_verdict engine evidence now Missing) reqs then ReadinessOutcome.BLOCKED
  else if existsb (is_verdict engine evidence now Expired) reqs then ReadinessOutcome.STALE
  else if existsb (is_fallback engine evidence now) reqs then ReadinessOutcome.DEGRADED
  else ReadinessOutcome.READY.

Lemma evaluate_outcome :
  (evaluate_readiness engine profile inc evidence now).(Res.outcome)
  = verdict_outcome profile.(Prof.requirements).
Proof.
  rw /evaluate_readiness conclude_outcome /result_outcome /verdict_outcome.
  destruct (processed_loop engine evidence now profile.(Prof.requirements)
    (Locals.mk (initial_result engine profile inc) false false false false))
    as [-> -> -> -> _ _ _ _ _]. done.
Qed.

Lemma existsb_verdict v reqs :
  existsb (is_verdict engine evidence now v) reqs = true ↔
  ∃ r, r ∈ reqs ∧ judged engine evidence now r v.
Proof.
  rw existsb_exists. setoid_rewrite <-(classify_spec engine evidence now).
  split; intros (r & Hr & Hv); exists r; revert Hv; rw /is_verdict bool_decide_eq_true;
    rw ?list_elem_of_In in Hr |- *; done.
Qed.
Lemma existsb_verdict_false v reqs :
  existsb (is_verdict engine evidence now v) reqs = false ↔
  ∀ r, r ∈ reqs → ¬ judged engine evidence now r v.
Proof. rw -not_true_iff_false existsb_verdict. naive_solver. Qed.
End outcome.

(** * Properties *)

Section properties.
Context (engine : EngineDefinition) (evidence : list ComponentEvidence) (now : N).

(** No requirement is mismatched, missing or expired exactly when every one is
    met or waived. *)
Lemma all_accepted reqs :
  existsb (is_verdict engine evidence now Mismatched) reqs = false ∧
  existsb (is_verdict engine evidence now Missing) reqs = false ∧
  existsb (is_verdict engine evidence now Expired) reqs = false ↔
  ∀ r, r ∈ reqs → judged engine evidence now r Met ∨ judged engine evidence now r Waived.
Proof.
  rw !existsb_verdict_false. split.
  - intros (H1 & H2 & H3) r Hr. pose proof (classify_judged engine evidence now r) as Hj.
    destruct (classify engine evidence now r); naive_solver.
  - intros H. repeat split; intros r Hr Hj; destruct (H r Hr) as [Hj'|Hj'];
      by pose proof (judged_det _ _ _ _ _ _ Hj Hj').
Qed.

Lemma not_accepted (reqs : list ProfileRequirement) r v :
  r ∈ reqs → judged engine evidence now r v → v ≠ Met → v ≠ Waived →
  ¬ ∀ r, r ∈ reqs → judged engine evidence now r Met ∨ judged engine evidence now r Waived.
Proof.
  intros Hr Hv ?? Hall. by destruct (Hall r Hr) as [Hj|Hj]; pose proof (judged_det _ _ _ _ _ _ Hv Hj).
Qed.

Lemma waived_optional r :
  judged engine evidence now r Waived → r.(Req.kind) = RequirementKind.OPTIONAL.
Proof.
  inversion 1 as [|? ? Hw|? ? ? ? Hw| | |]; destruct (is_kind r _) eqn:E; simplify_eq/=;
    by apply is_kind_spec.
Qed.

Lemma fallback_spec reqs :
  (∀ r, r ∈ reqs → judged engine evidence now r Met ∨ judged engine evidence now r Waived) →
  existsb (is_fallback engine evidence now) reqs = true ↔
  ∃ r, r ∈ reqs ∧ r.(Req.kind) = RequirementKind.PERMITTED_FALLBACK.
Proof.
  intros Hall. rw existsb_exists /is_fallback. split.
  - intros (r & Hr & [_ Hk%is_kind_spec]%andb_true_iff). exists r. by rw list_elem_of_In.
  - intros (r & Hr & Hk). exists r. rw -list_elem_of_In andb_true_iff is_kind_spec.
    split_and!; [done| |done]. apply bool_decide_eq_true, classify_spec.
    destruct (Hall r Hr) as [?|Hw%waived_optional]; [done|congruence].
Qed.
End properties.

(** C1. The readiness evaluation refines its declarative specification: the
    loop with its four flags returns BLOCKED exactly when some requirement is
    judged missing or mismatched, STALE exactly when nothing blocks but some
    required evidence has expired, DEGRADED exactly when every requirement is
    met (or an optional one waived) and one of them is a permitted fallback,
    and READY exactly when every requirement is met or waived without any
    fallback. *)
Theorem evaluate_readiness_refines engine profile inc evidence now :
  let o := (evaluate_readiness engine profile inc evidence now).(Res.outcome) in
  let reqs := profile.(Prof.requirements) in
  let judged := judged engine evidence now in
  (o = ReadinessOutcome.BLOCKED ↔
     ∃ r, r ∈ reqs ∧ (judged r Mismatched ∨ judged r Missing)) ∧
  (o = ReadinessOutcome.STALE ↔
     (∃ r, r ∈ reqs ∧ judged r Expired) ∧
     ∀ r, r ∈ reqs → ¬ judged r Mismatched ∧ ¬ judged r Missing) ∧
  (o = ReadinessOutcome.DEGRADED ↔
     (∀ r, r ∈ reqs → judged r Met ∨ judged r Waived) ∧
     ∃ r, r ∈ reqs ∧ r.(Req.kind) = RequirementKind.PERMITTED_FALLBACK) ∧
  (o = ReadinessOutcome.READY ↔
     (∀ r, r ∈ reqs → judged r Met ∨ judged r Waived) ∧
     ∀ r, r ∈ reqs → r.(Req.kind) ≠ RequirementKind.PERMITTED_FALLBACK).
Proof.
  intros o reqs judged_. rw /o evaluate_outcome /verdict_outcome -/reqs /judged_.
  destruct (existsb (is_verdict _ _ _ Mismatched) reqs) eqn:Hi.
  { apply existsb_verdict in Hi as (r & Hr & Hj).
    pose proof (not_accepted _ _ _ reqs r _ Hr Hj ltac:(done) ltac:(done)).
    split_and!; (split; [try done|]); [eauto 6|done|intros [_ Hn]; by destruct (Hn r Hr)| |]; tauto. }
  destruct (existsb (is_verdict _ _ _ Missing) reqs) eqn:Hm.
  { apply existsb_verdict in Hm as (r & Hr & Hj).
    pose proof (not_accepted _ _ _ reqs r _ Hr Hj ltac:(done) ltac:(done)).
    split_and!; (split; [try done|]); [eauto 6|done|intros [_ Hn]; by destruct (Hn r Hr)| |]; tauto. }
  rewrite ->existsb_verdict_false in Hi. rewrite ->existsb_verdict_false in Hm.
  assert (Hok : ¬ ∃ r, r ∈ reqs ∧
    (judged engine evidence now r Mismatched ∨ judged engine evidence now r Missing)).
  { intros (r & Hr & [Hj|Hj]); [by apply (Hi r)|by apply (Hm r)]. }
  destruct (existsb (is_verdict _ _ _ Expired) reqs) eqn:He.
  { apply existsb_verdict in He as (r & Hr & Hj).
    pose proof (not_accepted _ _ _ reqs r _ Hr Hj ltac:(done) ltac:(done)).
    split_and!; (split; [try done|]); [done| |done|tauto..];
      (intros _; split; [by eauto|]; intros x Hx; split; intros Hj'; apply Hok; eauto). }
  assert (Hne : ¬ ∃ r, r ∈ reqs ∧ judged engine evidence now r Expired).
  { intros (r & Hr & Hj). rewrite ->existsb_verdict_false in He. by apply (He r). }
  rw -existsb_verdict_false in Hi. rw -existsb_verdict_false in Hm.
  pose proof (proj1 (all_accepted engine evidence now reqs) (conj Hi (conj Hm He))) as Hall.
  pose proof (fallback_spec _ _ _ _ Hall) as Hfb.
  destruct (existsb (is_fallback _ _ _) reqs) eqn:Hf.
  - destruct (proj1 Hfb eq_refl) as (r & Hr & Hk).
    split_and!; (split; [try done|]); [done|tauto|eauto|done|intros [_ Hn]; by destruct (Hn r Hr)].
  - assert (∀ r, r ∈ reqs → r.(Req.kind) ≠ RequirementKind.PERMITTED_FALLBACK).
    { intros r Hr Hk. by discriminate (proj2 Hfb (ex_intro _ r (conj Hr Hk))). }
    split_and!; (split; [try done|]); [done|tauto|intros [_ (r & Hr & Hk)]; naive_solver|done].
Qed.

(** Serving is the conjunction of the verdicts. *)
Lemma serving_verdict_outcome engine evidence now reqs :
  serving_outcome (verdict_outcome engine evidence now reqs) = true ↔
  ∀ r, r ∈ reqs → judged engine evidence now r Met ∨ judged engine evidence now r Waived.
Proof.
  rw -all_accepted /verdict_outcome.
  destruct (existsb (is_verdict _ _ _ Mismatched) _); [naive_solver|].
  destruct (existsb (is_verdict _ _ _ Missing) _); [naive_solver|].
  destruct (existsb (is_verdict _ _ _ Expired) _); [naive_solver|].
  by destruct (existsb _ _).
Qed.

(** What a serving outcome guarantees for one requirement. *)
Definition supported (engine : EngineDefinition) (evidence : list ComponentEvidence) (now : N)
    (req : ProfileRequirement) : Prop :=
  ∃ e, e ∈ evidence ∧ e.(Ev.category) = req.(Req.category) ∧
       (req.(Req.subject) = "" ∨ e.(Ev.subject) = req.(Req.subject)) ∧
       usable engine req e ∧ Ev.is_fresh e now = true.

Lemma selects_spec cat subj nsp e :
  selects cat subj nsp e = true ↔
  e.(Ev.category) = cat ∧ (subj = "" ∨ e.(Ev.subject) = subj)
  ∧ (nsp = "" ∨ e.(Ev.namespace_) = nsp).
Proof.
  rw /selects !andb_true_iff !orb_true_iff bool_decide_eq_true /empty_string !String.eqb_eq.
  tauto.
Qed.

Lemma judged_supported engine evidence now req :
  req.(Req.kind) ≠ RequirementKind.OPTIONAL →
  judged engine evidence now req Met ∨ judged engine evidence now req Waived →
  supported engine evidence now req.
Proof.
  intros Hk [Hj|Hw%waived_optional]; [|done].
  inversion Hj as [|? ? Hw|? ? ? ? Hw| | |e ? He Hu Hf]; try (by destruct (is_kind req _)).
  apply (best_evidence_elem _ _ _ _ now) in He as [He (Hc & Hs & _)%selects_spec].
  exists e. split_and!; [done..|]. by destruct Hf.
Qed.

(** Time only makes a verdict worse. *)
Lemma is_fresh_antitone e now now' :
  e.(Ev.observed_at_ns) ≤ now → now ≤ now' →
  Ev.is_fresh e now' = true → Ev.is_fresh e now = true.
Proof.
  rw /Ev.is_fresh. intros ??. destruct (_ =? 0); [done|]. destruct (_ =? 0); [done|].
  rw !andb_true_iff !N.leb_le. lia.
Qed.

Lemma judged_antitone engine evidence now now' req :
  (∀ e, e ∈ evidence → e.(Ev.observed_at_ns) ≤ now) → now ≤ now' →
  judged engine evidence now' req Met ∨ judged engine evidence now' req Waived →
  judged engine evidence now req Met ∨ judged engine evidence now req Waived.
Proof.
  intros Hobs Hle [Hj|Hj].
  - left. inversion Hj as [|? ? Hw|? ? ? ? Hw| | |e ? He Hu Hf]; try (by destruct (is_kind req _)).
    apply (judged_met _ _ _ _ e); [done..|]. destruct Hf; [left|by right].
    apply (is_fresh_antitone _ _ now'); [|done..].
    by apply Hobs, (best_evidence_elem _ _ _ _ now _ He).
  - right. inversion Hj as [|? Hc Hw|e ? Hc ? Hw| | |].
    + by apply judged_absent.
    + by apply (judged_weak _ _ _ _ e).
Qed.

(** The report lists are exactly the labels of the requirements with the
    corresponding verdict, in profile order: [missing], [stale_evidence],
    [incompatible] and [satisfied]; and [requirement_outcomes] has one entry
    per requirement, under that requirement's label. *)
Theorem evaluate_readiness_reports engine profile inc evidence now :
  let r := evaluate_readiness engine profile inc evidence now in
  let reqs := profile.(Prof.requirements) in
  r.(Res.missing) = labels engine evidence now Missing reqs ∧
  r.(Res.stale_evidence) = labels engine evidence now Expired reqs ∧
  r.(Res.incompatible) = labels engine evidence now Mismatched reqs ∧
  r.(Res.satisfied) = labels engine evidence now Met reqs ∧
  ReqOut.subject <$> r.(Res.requirement_outcomes) = req_label <$> reqs.
Proof.
  intros r reqs. rw /r /evaluate_readiness -/reqs.
  pose proof (processed_loop engine evidence now reqs
    (Locals.mk (initial_result engine profile inc) false false false false)) as Hp.
  destruct (conclude_reports evidence now (foldl (eval_requirement engine evidence now)
    (Locals.mk (initial_result engine profile inc) false false false false) reqs))
    as (-> & -> & -> & -> & ->).
  by destruct Hp as [_ _ _ _ -> -> -> -> ->].
Qed.

Lemma serving_supported engine profile inc evidence now :
  serving_outcome (evaluate_readiness engine profile inc evidence now).(Res.outcome) = true →
  ∀ req, req ∈ profile.(Prof.requirements) → req.(Req.kind) ≠ RequirementKind.OPTIONAL →
  supported engine evidence now req.
Proof.
  rw evaluate_outcome serving_verdict_outcome. intros Hall req Hreq Hk.
  by apply judged_supported, Hall.
Qed.

(** C2. Serving is never inferred from process existence: when the evaluation
    says READY or DEGRADED, every requirement of the profile that is not
    OPTIONAL is backed by a fresh record of the published evidence, of the
    requirement's category and subject, at least as strong as its minimum
    state, with the exact compatibility key and generation it demands. *)
Theorem serving_requires_evidence engine profile inc evidence now :
  serving_outcome (evaluate_readiness engine profile inc evidence now).(Res.outcome) = true →
  ∀ req, req ∈ profile.(Prof.requirements) → req.(Req.kind) ≠ RequirementKind.OPTIONAL →
  supported engine evidence now req.
Proof. apply serving_supported. Qed.

Lemma serving_requires_evidence_witness :
  (evaluate_readiness reference_definition reference_profile EngineIncarnation.default
     (example_bundle (mkId 2) (mkGen 1)) 100).(Res.outcome) = ReadinessOutcome.READY ∧
  ∀ req, req ∈ reference_requirements → req.(Req.kind) ≠ RequirementKind.OPTIONAL →
  supported reference_definition (example_bundle (mkId 2) (mkGen 1)) 100 req.
Proof.
  split; [vm_compute; reflexivity|].
  apply (serving_requires_evidence reference_definition reference_profile
    EngineIncarnation.default (example_bundle (mkId 2) (mkGen 1)) 100).
  vm_compute. reflexivity.
Defined.

(** Readiness decays: for evidence already observed, letting time pass
    never turns a blocked or stale incarnation into a serving one. *)
Theorem readiness_decays engine profile inc evidence now now' :
  (∀ e, e ∈ evidence → e.(Ev.observed_at_ns) ≤ now) → now ≤ now' →
  serving_outcome (evaluate_readiness engine profile inc evidence now').(Res.outcome) = true →
  serving_outcome (evaluate_readiness engine profile inc evidence now).(Res.outcome) = true.
Proof.
  intros Hobs Hle. rw !evaluate_outcome !serving_verdict_outcome.
  intros Hall req Hreq. by apply (judged_antitone _ _ _ now'), Hall.
Qed.

Lemma readiness_decays_witness :
  serving_outcome (evaluate_readiness reference_definition reference_profile
    EngineIncarnation.default (example_bundle (mkId 2) (mkGen 1)) 100).(Res.outcome) = true.
Proof.
  apply (readiness_decays _ _ _ _ 100 200).
  - intros e He. repeat (apply elem_of_cons in He as [->|He]; [vm_compute; discriminate|]).
    by apply elem_of_nil in He.
  - vm_compute. discriminate.
  - vm_compute. reflexivity.
Defined.

(** [best_evidence] returns no record exactly when no record of the list
    matches the category, subject and namespace selectors, and otherwise the
    unique record that supersedes every matching one before it (larger
    evidence generation, or the same generation observed strictly later) and
    is superseded by none after it. *)
Theorem best_evidence_selects evidence now cat subj nsp :
  (best_evidence evidence now cat subj nsp = None ↔
     ∀ x, x ∈ evidence →
       ¬ (x.(Ev.category) = cat ∧ (subj = "" ∨ x.(Ev.subject) = subj)
          ∧ (nsp = "" ∨ x.(Ev.namespace_) = nsp))) ∧
  (∀ e, best_evidence evidence now cat subj nsp = Some e ↔
     ∃ i, selected_at evidence cat subj nsp i e).
Proof.
  split; [|intros e; apply best_evidence_Some]. rw best_evidence_None.
  by setoid_rewrite <-not_true_iff_false; setoid_rewrite selects_spec.
Qed.
