(* ===== verification/Economics.v ===== *)
(** * Recovery economics

    [src/economics/economics.cpp]: the aggregation of named cost components
    with its saturating sum, the selection of the cheapest alternative, and the
    monotonicity check of dependency generations. *)

From S2P Require Import Prelude Identities Enums Model.
Local Open Scope N_scope.

(** [static_cast<int>] of a [size_t]: two's complement on 32 bits. *)
Definition to_int (x : N) : Z :=
  let w := Z.of_N (u32 x) in if (w <? 2 ^ 31)%Z then w else (w - 2 ^ 32)%Z.

(** The local variables of the aggregation loop. *)
Module Totals.
Record t := mk {
  total : N;
  critical_path : N;
  any_measured : bool;
  any_unknown : bool;
}.
#[global] Instance eta : Eta t := fields! mk <total; critical_path; any_measured; any_unknown>.
Definition zero : t := mk 0 0 false false.
End Totals.

(** The part of the loop body before the overflow guard. *)
Definition see_component (c : CostComponent) (s : Totals.t) : Totals.t :=
  let eff := Cost.effective_ns c in
  let s := if bool_decide (c.(Cost.provenance) = Provenance.MEASURED)
           then s <| Totals.any_measured := true |> else s in
  let s := if (eff =? 0) && ((c.(Cost.estimated_ns) =? 0) && (c.(Cost.measured_ns) =? 0))
           then s <| Totals.any_unknown := true |> else s in
  s <| Totals.critical_path ::= λ m, N.max m eff |>.

(** The loop over the components; the overflow guard leaves it. *)
Fixpoint add_components (cs : list CostComponent) (s : Totals.t) : Totals.t :=
  match cs with
  | [] => s
  | c :: cs =>
    let eff := Cost.effective_ns c in
    let s := see_component c s in
    if (2 ^ 64 - 1) - eff <? s.(Totals.total) then s <| Totals.total := 2 ^ 64 - 1 |>
    else add_components cs (s <| Totals.total ::= λ t, u64 (t + eff) |>)
  end.

Definition aggregate_recovery_cost (components : list CostComponent) (action : RecoveryAction.t)
    (aggregation_model : string) : RecoveryCost :=
  let s := add_components components Totals.zero in
  let cost := RecoveryCost.default
    <| RCost.action := action |>
    <| RCost.components := components |>
    <| RCost.aggregation_model := aggregation_model |>
    <| RCost.provenance := Provenance.ESTIMATED |> in
  let finish (cost : RecoveryCost) :=
    let cost := cost <| RCost.parallel_best_ns := s.(Totals.critical_path) |> in
    if s.(Totals.any_measured) then cost <| RCost.provenance := Provenance.MEASURED |>
    else if negb s.(Totals.any_unknown) then cost <| RCost.provenance := Provenance.ESTIMATED |>
    else cost in
  if String.eqb aggregation_model "SEQUENTIAL" then
    finish (cost <| RCost.total_ns := s.(Totals.total) |>)
  else if String.eqb aggregation_model "PARALLEL_CRITICAL_PATH" then
    finish (cost <| RCost.total_ns := s.(Totals.critical_path) |>)
  else cost <| RCost.total_ns := 0 |>.

(** ** Comparison *)

(** One iteration of the selection loop: [best] indexes [alternatives]. *)
Definition best_index_step (alternatives : list RecoveryCost) (best i : nat) : nat :=
  match alternatives !! best, alternatives !! i with
  | Some a, Some b =>
    if b.(RCost.total_ns) <? a.(RCost.total_ns) then i
    else if b.(RCost.total_ns) =? a.(RCost.total_ns) then
      if RecoveryAction.to_int b.(RCost.action) <? RecoveryAction.to_int a.(RCost.action) then i
      else best
    else best
  | _, _ => best  (* never: both indices are below the size *)
  end.

Definition best_index (alternatives : list RecoveryCost) : nat :=
  foldl (best_index_step alternatives) 0%nat (seq 1 (length alternatives - 1)).

Definition compare_recovery_costs (alternatives : list RecoveryCost) : CostComparison :=
  let cmp := CostComparison.default <| Cmp.alternatives := alternatives |> in
  let best := N.of_nat (best_index alternatives) in
  if negb (bool_decide (alternatives = [])) then
    cmp <| Cmp.selected_index := to_int best |>
        <| Cmp.selection_reason := "lowest total cost alternative at index " +:+ pretty best |>
  else
    cmp <| Cmp.selected_index := (-1)%Z |>
        <| Cmp.selection_reason := "no alternatives supplied" |>.

Fixpoint validate_dependency_generation_is_monotonic (generations : list N) : bool :=
  match generations with
  | a :: ((b :: _) as rest) =>
    if b <? a then false else validate_dependency_generation_is_monotonic rest
  | _ => true
  end.

(** * The aggregation *)

(** [std::uint64_t] fields. *)
Definition cost_wf (c : CostComponent) : Prop := Cost.effective_ns c < 2 ^ 64.
Definition sum_ns (cs : list CostComponent) : N := foldr (λ c s, Cost.effective_ns c + s) 0 cs.
Definition max_ns (cs : list CostComponent) : N :=
  foldr (λ c m, N.max (Cost.effective_ns c) m) 0 cs.

Lemma see_component_spec c s :
  Totals.total (see_component c s) = Totals.total s ∧
  Totals.critical_path (see_component c s)
  = N.max (Totals.critical_path s) (Cost.effective_ns c).
Proof. rw /see_component. by destruct (bool_decide _), (_ && _). Qed.

Lemma add_components_total cs s :
  Forall cost_wf cs → s.(Totals.total) < 2 ^ 64 →
  (add_components cs s).(Totals.total) = N.min (s.(Totals.total) + sum_ns cs) (2 ^ 64 - 1).
Proof.
  intros Hwf. revert s; induction Hwf as [|c cs Hc Hwf IH]; intros s Hs; [simpl; lia|].
  cbn [add_components sum_ns foldr]. fold (sum_ns cs).
  rw /cost_wf in Hc. destruct (see_component_spec c s) as [Ht _].
  destruct (see_component c s) as [t m am au]; simpl in Ht; subst t.
  cbn [Totals.total]. case: N.ltb_spec => Hov; [simpl; lia|].
  rw IH /= /u64 ?N.mod_small; lia.
Qed.

Lemma add_components_critical_path cs s :
  Forall cost_wf cs → s.(Totals.total) + sum_ns cs < 2 ^ 64 →
  (add_components cs s).(Totals.critical_path) = N.max s.(Totals.critical_path) (max_ns cs).
Proof.
  intros Hwf. revert s; induction Hwf as [|c cs Hc Hwf IH]; intros s; [simpl; lia|].
  cbn [add_components sum_ns max_ns foldr]. fold (sum_ns cs) (max_ns cs).
  rw /cost_wf in Hc. intros Hs. destruct (see_component_spec c s) as [Ht Hm].
  destruct (see_component c s) as [t m am au]; simpl in Ht, Hm; subst t m.
  cbn [Totals.total]. case: N.ltb_spec => Hov; [lia|].
  rw IH /= /u64 ?N.mod_small; lia.
Qed.

(** Sequential recovery cost is the saturating sum: the aggregated total
    is the sum of the components' effective costs, clamped to the largest
    64-bit value instead of wrapping. *)
Theorem aggregate_sequential_total cs action :
  Forall cost_wf cs →
  (aggregate_recovery_cost cs action "SEQUENTIAL").(RCost.total_ns)
  = N.min (sum_ns cs) (2 ^ 64 - 1).
Proof.
  intros Hwf. trans (add_components cs Totals.zero).(Totals.total).
  - rw /aggregate_recovery_cost /=. by destruct (add_components cs Totals.zero) as [? ? [] []].
  - by rw add_components_total.
Qed.

Lemma aggregate_sequential_total_witness :
  let c := CostComponent.default <| Cost.measured_ns := 2 ^ 63 |> in
  (aggregate_recovery_cost [c; c; c] RecoveryAction.REPLACE_LOST "SEQUENTIAL").(RCost.total_ns)
  = N.min (3 * 2 ^ 63) (2 ^ 64 - 1).
Proof.
  intros c. apply (aggregate_sequential_total [c; c; c] RecoveryAction.REPLACE_LOST).
  repeat constructor; vm_compute; reflexivity.
Defined.

(** C26. The critical path is the largest component cost as long as the sum of
    the costs does not overflow 64 bits, for both aggregation models. *)
Theorem aggregate_critical_path cs action model :
  Forall cost_wf cs → sum_ns cs < 2 ^ 64 →
  model = "SEQUENTIAL" ∨ model = "PARALLEL_CRITICAL_PATH" →
  (aggregate_recovery_cost cs action model).(RCost.parallel_best_ns) = max_ns cs.
Proof.
  intros Hwf Hs Hm. trans (add_components cs Totals.zero).(Totals.critical_path).
  - rw /aggregate_recovery_cost. destruct Hm as [-> | ->]; simpl;
      by destruct (add_components cs Totals.zero) as [? ? [] []].
  - rw add_components_critical_path; [simpl; lia|done|simpl; lia].
Qed.

Lemma aggregate_critical_path_witness :
  let c n := CostComponent.default <| Cost.estimated_ns := n |> in
  (aggregate_recovery_cost [c 5; c 9; c 2] RecoveryAction.REPLACE_LOST
     "PARALLEL_CRITICAL_PATH").(RCost.parallel_best_ns) = 9.
Proof.
  intros c. apply (aggregate_critical_path [c 5; c 9; c 2] RecoveryAction.REPLACE_LOST).
  - repeat constructor; vm_compute; reflexivity.
  - vm_compute. reflexivity.
  - by right.
Defined.

(** After the sum has saturated, the loop no longer looks at the remaining
    components, so the PARALLEL_CRITICAL_PATH total depends on the order of
    the components and can miss the longest one. *)
Theorem critical_path_ignores_components_after_overflow :
  ∃ cs cs' action,
    cs ≡ₚ cs' ∧ Forall cost_wf cs ∧
    (aggregate_recovery_cost cs action "PARALLEL_CRITICAL_PATH").(RCost.total_ns) < max_ns cs ∧
    (aggregate_recovery_cost cs' action "PARALLEL_CRITICAL_PATH").(RCost.total_ns) = max_ns cs'.
Proof.
  pose (c := λ n, CostComponent.default <| Cost.measured_ns := n |>).
  exists [c (2 ^ 63); c (2 ^ 63); c (2 ^ 63 + 7)], [c (2 ^ 63 + 7); c (2 ^ 63); c (2 ^ 63)],
    RecoveryAction.REPLACE_LOST.
  split_and!; [by solve_Permutation| |by vm_compute..].
  repeat constructor; by vm_compute.
Qed.

(** * The comparison *)

(** The order alternatives are compared in: total first, then the action. *)
Definition cost_key (a : RecoveryCost) : N * N :=
  (a.(RCost.total_ns), RecoveryAction.to_int a.(RCost.action)).
Definition cheaper (a b : RecoveryCost) : Prop :=
  (cost_key a).1 < (cost_key b).1
  ∨ ((cost_key a).1 = (cost_key b).1 ∧ (cost_key a).2 < (cost_key b).2).

(** Index [i] holds the first of the cheapest among the first [n]. *)
Definition first_cheapest (alts : list RecoveryCost) (n i : nat) : Prop :=
  (i < n)%nat ∧ ∃ a, alts !! i = Some a ∧
  ∀ j b, (j < n)%nat → alts !! j = Some b → ¬ cheaper b a ∧ ((j < i)%nat → cheaper a b).

Lemma best_index_step_spec alts n i :
  (n < length alts)%nat → first_cheapest alts n i →
  first_cheapest alts (S n) (best_index_step alts i n).
Proof.
  intros Hn (Hi & a & Ha & Hall). destruct (lookup_lt_is_Some_2 alts n Hn) as [b Hb].
  assert (best_index_step alts i n = n ∧ cheaper b a ∨
          best_index_step alts i n = i ∧ ¬ cheaper b a) as [[-> Hc]|[-> Hc]].
  { rw /best_index_step Ha Hb /cheaper /=.
    case: N.ltb_spec => ?; [auto|]. case: N.eqb_spec => ?; [|right; split; [done|lia]].
    case: N.ltb_spec => ?; [auto|right; split; [done|lia]]. }
  - split; [lia|]. exists b. split; [done|]. intros j x Hj Hx.
    destruct (decide (j = n)) as [-> |]; [simplify_eq; split; [rw /cheaper; lia|lia]|].
    destruct (Hall j x ltac:(lia) Hx) as [H1 H2]. revert Hc H1. rw /cheaper /=. lia.
  - split; [lia|]. exists a. split; [done|]. intros j x Hj Hx.
    destruct (decide (j = n)) as [-> |]; [|apply Hall; [lia|done]].
    simplify_eq. split; [done|lia].
Qed.

Lemma best_index_spec alts : alts ≠ [] → first_cheapest alts (length alts) (best_index alts).
Proof.
  intros Hne. rw /best_index.
  assert (∀ k, (k < length alts)%nat →
    first_cheapest alts (S k) (foldl (best_index_step alts) 0%nat (seq 1 k))) as H.
  { induction k as [|k IH]; intros Hk.
    - destruct alts as [|a alts]; [done|]. simpl foldl. split; [lia|]. exists a. split; [done|].
      intros [|j] b Hj Hb; [|lia]. simplify_eq/=. split; [rw /cheaper; lia|lia].
    - rw seq_S foldl_snoc. apply best_index_step_spec; [lia|]. apply IH. lia. }
  destruct alts as [|a alts]; [done|]. specialize (H (length alts)). simpl in H |- *.
  rw Nat.sub_0_r. apply H. lia.
Qed.

(** The comparison is deterministic and correct: with no alternatives it
    selects -1, otherwise the first alternative of least total cost, ties
    broken by the smaller action; every earlier alternative is strictly
    worse. *)
Theorem compare_selects_cheapest alts :
  N.of_nat (length alts) < 2 ^ 31 →
  let cmp := compare_recovery_costs alts in
  (cmp.(Cmp.selected_index) = (-1)%Z ↔ alts = []) ∧
  (∀ i, cmp.(Cmp.selected_index) = Z.of_nat i ↔ first_cheapest alts (length alts) i).
Proof.
  intros Hlen. rw /compare_recovery_costs. case_bool_decide as Hne; simpl.
  { subst. split; [done|]. intros i. split; [lia|intros [H _]; simpl in H; lia]. }
  destruct (best_index_spec alts Hne) as (Hi & a & Ha & Hall).
  assert (to_int (N.of_nat (best_index alts)) = Z.of_nat (best_index alts)) as ->.
  { rw /to_int u32_small; [|lia]. rw nat_N_Z. case: Z.ltb_spec; lia. }
  split; [split; [lia|done]|]. intros i. split.
  - intros <-%Nat2Z.inj. by split; [|exists a].
  - intros (Hi' & b & Hb & Hall'). f_equal.
    destruct (Hall i b Hi' Hb) as [H1 H2], (Hall' _ a Hi Ha) as [H3 H4].
    destruct (lt_eq_lt_dec i (best_index alts)) as [[?|?]|?]; [|done|]; exfalso; auto.
Qed.

Lemma compare_selects_cheapest_witness :
  let c n := RecoveryCost.default <| RCost.total_ns := n |> in
  let cmp := compare_recovery_costs [c 7; c 3; c 3] in
  (cmp.(Cmp.selected_index) = (-1)%Z ↔ [c 7; c 3; c 3] = []) ∧
  (∀ i, cmp.(Cmp.selected_index) = Z.of_nat i ↔ first_cheapest [c 7; c 3; c 3] 3 i).
Proof.
  intros c. apply (compare_selects_cheapest [c 7; c 3; c 3]).
  vm_compute. reflexivity.
Defined.

(** The monotonicity check accepts exactly the non-decreasing sequences. *)
Theorem dependency_generations_monotonic gens :
  validate_dependency_generation_is_monotonic gens = true ↔ Sorted N.le gens.
Proof.
  induction gens as [|a [|b gens] IH].
  - split; [intros _; by constructor|done].
  - split; [intros _; by repeat constructor|done].
  - cbn [validate_dependency_generation_is_monotonic]. case: N.ltb_spec => Hab.
    + split; [done|]. intros [_ H]%Sorted_inv. apply HdRel_inv in H. lia.
    + rw IH. split; [intros ?; by constructor; [|constructor]|by intros [??]%Sorted_inv].
Qed.
