(* ===== verification/Standby.v ===== *)
(** * Standby reconciliation

    [src/standby/standby.cpp]: the deterministic reconciliation of a pool
    policy with the eligible and blocked incarnations. *)

From S2P Require Import Prelude Identities Enums Model Readiness.
Local Open Scope N_scope.

(** The order of the [std::sort]: incarnation id, then process id.  Elements
    the comparator does not separate carry the same id, which is all the
    reconciliation reports of them. *)
Definition sort_le (a b : EngineIncarnation) : Prop :=
  Identity.ltb a.(Inc.incarnation_id) b.(Inc.incarnation_id) = true ∨
  (a.(Inc.incarnation_id) = b.(Inc.incarnation_id) ∧
   pid a.(Inc.process) <= pid b.(Inc.process)).

#[export] Instance sort_le_dec a b : Decision (sort_le a b).
Proof. apply _. Defined.

(** The hard exclusions that [continue] without counting the incarnation. *)
Definition standby_excluded (c : EngineIncarnation) : bool :=
  negb (bool_decide (c.(Inc.state).(St.lifecycle) = ProcessLifecycle.RUNNING))
  || bool_decide (c.(Inc.state).(St.activation) = ActivationState.ACTIVE).

Definition standby_ready (readiness : gmap EngineIncarnationId ReadinessOutcome.t)
    (c : EngineIncarnation) : bool :=
  match readiness !! c.(Inc.incarnation_id) with
  | None => false
  | Some o => serving_outcome o
  end.

(** The loop over the ordered candidates: the [stale] counter and the list
    [eligible]. *)
Definition eligible_step (readiness : gmap EngineIncarnationId ReadinessOutcome.t)
    (acc : N * list EngineIncarnation) (c : EngineIncarnation) : N * list EngineIncarnation :=
  let '(stale, eligible) := acc in
  if standby_excluded c then (stale, eligible)
  else if negb (standby_ready readiness c) then (u32 (stale + 1), eligible)
  else (stale, eligible ++ [c]).

(** The slot loop: [assigned] indexes [eligible]. *)
Definition slot_step (eligible : list EngineIncarnation)
    (st : nat * list EngineIncarnationId * list EngineSlotId) (slot : EngineSlotId)
    : nat * list EngineIncarnationId * list EngineSlotId :=
  let '(assigned, candidates, deferred) := st in
  match eligible !! assigned with
  | Some c => (S assigned, candidates ++ [c.(Inc.incarnation_id)], deferred)
  | None => (assigned, candidates, deferred ++ [slot])
  end.

Definition blocked_message (b : EngineIncarnation) : string :=
  "blocked:" +:+ pretty (Identity.raw b.(Inc.incarnation_id)) +:+ ":"
  +:+ PreparationState.to_string b.(Inc.state).(St.preparation).
Definition deficit_message (deficit : N) : string :=
  "deficit:need " +:+ pretty deficit +:+ " standby".

Definition reconcile_standby (policy : StandbyPoolPolicy) (slots : list EngineSlotId)
    (eligible_candidates blocked : list EngineIncarnation)
    (readiness : gmap EngineIncarnationId ReadinessOutcome.t) (active_count : N)
    : StandbyAccounting :=
  let acc := StandbyAccounting.default
    <| Acc.pool_id := policy.(Pool.pool_id) |>
    <| Acc.target := policy.(Pool.target_standby) |> in
  let ordered := merge_sort sort_le eligible_candidates in
  let '(stale, eligible) := foldl (eligible_step readiness) (0, []) ordered in
  let acc := acc <| Acc.stale := stale |> in
  let acc :=
    if negb (bool_decide (slots = [])) then
      let '(_, candidates, deferred) := foldl (slot_step eligible) (0%nat, [], []) slots in
      acc <| Acc.candidates := candidates |>
          <| Acc.deferred_slots := deferred |>
          <| Acc.eligible := u32 (N.of_nat (length eligible `min` length slots)) |>
    else acc <| Acc.eligible := u32 (N.of_nat (length eligible)) |> in
  let acc := acc <| Acc.blockers ::= λ l, l ++ (blocked_message <$> blocked) |> in
  let acc := acc <| Acc.active := active_count |> in
  let acc := acc <| Acc.deficit :=
    if acc.(Acc.eligible) <? acc.(Acc.target) then acc.(Acc.target) - acc.(Acc.eligible)
    else 0 |> in
  if 0 <? acc.(Acc.deficit) then
    acc <| Acc.blockers ::= λ l,
      l ++ replicate (N.to_nat (N.min acc.(Acc.deficit) 8)) (deficit_message acc.(Acc.deficit)) |>
  else acc.

(** * Specification *)

#[export] Instance sort_le_total : Total sort_le.
Proof.
  intros a b. rw /sort_le /Identity.ltb !N.ltb_lt.
  destruct (N.lt_trichotomy (id_raw (Inc.incarnation_id a)) (id_raw (Inc.incarnation_id b)))
    as [?|[->%id_raw_inj|?]]; [by auto| |by auto].
  destruct (N.le_ge_cases (pid (Inc.process a)) (pid (Inc.process b))); auto.
Qed.
#[export] Instance sort_le_trans : Transitive sort_le.
Proof.
  intros a b c. rw /sort_le /Identity.ltb !N.ltb_lt.
  intros [?|[E1 ?]] [?|[E2 ?]]; [left; lia|left; by rw -E2|left; by rw E1|right].
  split; [by trans (Inc.incarnation_id b)|lia].
Qed.

Section spec.
Context (readiness : gmap EngineIncarnationId ReadinessOutcome.t).

(** Warm, running, not active and READY or DEGRADED. *)
Definition standby_eligible (c : EngineIncarnation) : Prop :=
  standby_excluded c = false ∧ standby_ready readiness c = true.
Definition standby_stale (c : EngineIncarnation) : Prop :=
  standby_excluded c = false ∧ standby_ready readiness c = false.

#[export] Instance standby_eligible_dec c : Decision (standby_eligible c) := _.
#[export] Instance standby_stale_dec c : Decision (standby_stale c) := _.

Lemma eligible_loop cs n el :
  foldl (eligible_step readiness) (u32 n, el) cs
  = (u32 (n + N.of_nat (length (filter standby_stale cs))), el ++ filter standby_eligible cs).
Proof.
  revert n el; induction cs as [|c cs IH]; intros n el; simpl; [by rw N.add_0_r app_nil_r|].
  rw /eligible_step !filter_cons -/(eligible_step readiness).
  destruct (decide (standby_stale c)) as [[He Hr]|Hs], (decide (standby_eligible c)) as [[He' Hr']|Hel].
  - congruence.
  - rw He Hr /= /u32 N.Div0.add_mod_idemp_l -/(u32 _) IH.
    f_equal. rw -/(u32 (n + _)). f_equal. lia.
  - rw He' Hr' /= IH. by rw -(assoc_L (++)).
  - destruct (standby_excluded c) eqn:He; [by rw IH|].
    destruct (standby_ready readiness c) eqn:Hr; [by destruct Hel|by destruct Hs].
Qed.
End spec.

Lemma slot_loop el slots i cands defs :
  (i ≤ length el)%nat →
  foldl (slot_step el) (i, cands, defs) slots
  = ((i + length (take (length slots) (drop i el)))%nat,
     cands ++ (Inc.incarnation_id <$> take (length slots) (drop i el)),
     defs ++ drop (length el - i) slots).
Proof.
  revert i cands defs; induction slots as [|s slots IH]; intros i cands defs Hi.
  { by rw drop_nil /= Nat.add_0_r !app_nil_r. }
  cbn [foldl length]. rw {2}/slot_step. destruct (el !! i) as [c|] eqn:Hc.
  - pose proof (lookup_lt_Some _ _ _ Hc). rw IH; [|lia]. rw (drop_S _ _ _ Hc) /=.
    rw -(assoc_L (++)) Nat.add_succ_r. do 2 f_equal.
    replace (length el - i)%nat with (S (length el - S i)) by lia. done.
  - apply lookup_ge_None in Hc. rw IH //. rw drop_ge // !take_nil /=.
    replace (length el - i)%nat with 0%nat by lia. by rw !drop_0 -(assoc_L (++)).
Qed.

(** The ids of a sorted list of incarnations are sorted. *)
Lemma sorted_ids cs :
  StronglySorted sort_le cs → StronglySorted N.le (id_raw ∘ Inc.incarnation_id <$> cs).
Proof.
  induction 1 as [|c cs _ IH Hall]; simpl; constructor; [done|].
  apply Forall_fmap. eapply Forall_impl; [done|]. intros b [Hlt|[Heq _]]; simpl.
  - apply N.ltb_lt in Hlt. lia.
  - by rw Heq.
Qed.

Lemma StronglySorted_filter {A} (R : relation A) (P : A → Prop) `{∀ x, Decision (P x)} l :
  StronglySorted R l → StronglySorted R (filter P l).
Proof.
  induction 1 as [|x l _ IH Hall]; [constructor|]. rw filter_cons. destruct (decide (P x)); [|done].
  constructor; [done|]. apply Forall_forall. intros y [_ Hy]%list_elem_of_filter.
  by rewrite ->Forall_forall in Hall; apply Hall.
Qed.

(** The candidate order does not depend on the order of the input. *)
Lemma ordered_ids_perm (P : EngineIncarnation → Prop) `{∀ x, Decision (P x)} cs cs' :
  cs ≡ₚ cs' →
  Inc.incarnation_id <$> filter P (merge_sort sort_le cs)
  = Inc.incarnation_id <$> filter P (merge_sort sort_le cs').
Proof.
  intros Hp. apply (list_fmap_eq_inj id_raw id_raw_inj). rw -!list_fmap_compose.
  assert (∀ l, StronglySorted N.le
    (id_raw ∘ Inc.incarnation_id <$> filter P (merge_sort sort_le l))) as Hs.
  { intros l. apply sorted_ids, StronglySorted_filter, (StronglySorted_merge_sort _). }
  apply (StronglySorted_unique N.le); [apply Hs..|].
  by rw !merge_sort_Permutation Hp.
Qed.

Section reconcile.
Context (policy : StandbyPoolPolicy) (slots : list EngineSlotId).
Context (cands blocked : list EngineIncarnation).
Context (readiness : gmap EngineIncarnationId ReadinessOutcome.t) (active : N).

Definition warm : list EngineIncarnation :=
  filter (standby_eligible readiness) (merge_sort sort_le cands).
Definition stale_count : nat := length (filter (standby_stale readiness) cands).

Lemma warm_length : length warm = length (filter (standby_eligible readiness) cands).
Proof. rw /warm. by rw merge_sort_Permutation. Qed.

(** The number of warm incarnations the slots can hold. *)
Definition standby_capacity : nat :=
  if bool_decide (slots = []) then length warm else Nat.min (length warm) (length slots).

Definition shortfall : N := policy.(Pool.target_standby) - u32 (N.of_nat standby_capacity).

Definition accounting : StandbyAccounting := {|
  Acc.pool_id := policy.(Pool.pool_id);
  Acc.target := policy.(Pool.target_standby);
  Acc.eligible := u32 (N.of_nat standby_capacity);
  Acc.preparing := 0;
  Acc.blocked := 0;
  Acc.stale := u32 (N.of_nat stale_count);
  Acc.active := active;
  Acc.deficit := shortfall;
  Acc.blockers := (blocked_message <$> blocked)
    ++ replicate (N.to_nat (N.min shortfall 8)) (deficit_message shortfall);
  Acc.candidates := Inc.incarnation_id <$> take (length slots) warm;
  Acc.deferred_slots := if bool_decide (slots = []) then [] else drop (length warm) slots;
|}.

Lemma reconcile_standby_eq :
  reconcile_standby policy slots cands blocked readiness active = accounting.
Proof.
  rw /reconcile_standby. rw -{1}(u32_small 0) // eligible_loop -/warm.
  assert (length (filter (standby_stale readiness) (merge_sort sort_le cands)) = stale_count)
    as -> by (by rw merge_sort_Permutation).
  rw app_nil_l N.add_0_l /accounting /shortfall /standby_capacity. case_bool_decide as Hs.
  - subst slots. simpl negb. cbn iota. simpl.
    case: (N.ltb_spec (u32 (N.of_nat (length warm)))) => Hd; simpl.
    + case: (N.ltb_spec 0) => ?; [done|lia].
    + replace (_ - _) with 0 by lia. by rw /= app_nil_r.
  - simpl negb. cbn iota. rw slot_loop; [|lia].
    rw drop_0 !app_nil_l Nat.sub_0_r /=. set k := u32 _.
    case: (N.ltb_spec k) => Hd; simpl.
    + case: (N.ltb_spec 0) => ?; [done|lia].
    + replace (_ - _) with 0 by lia. by rw /= app_nil_r.
Qed.
End reconcile.

(** C25. The reconciliation is exact: the candidates are the ids of the first
    warm incarnations (running, not active, READY or DEGRADED) in id order, one
    per slot; the remaining slots are deferred; [eligible] is the number of warm
    incarnations when no slots are given, and otherwise the smaller of it and
    the number of slots, as 32 bits hold it; [stale] counts the running
    non-active incarnations without readiness; and [deficit] is the exact
    truncated difference between the target and [eligible], reported by at most
    eight blocker messages after those of the blocked incarnations. *)
Theorem reconcile_standby_exact policy slots cands blocked readiness active :
  let acc := reconcile_standby policy slots cands blocked readiness active in
  let w := warm cands readiness in
  acc.(Acc.eligible)
  = u32 (N.of_nat (if bool_decide (slots = []) then length w
                   else length w `min` length slots)%nat) ∧
  acc.(Acc.stale) = u32 (N.of_nat (stale_count cands readiness)) ∧
  acc.(Acc.deficit) = acc.(Acc.target) - acc.(Acc.eligible) ∧
  acc.(Acc.candidates) = Inc.incarnation_id <$> take (length slots) w ∧
  acc.(Acc.deferred_slots) = (if bool_decide (slots = []) then [] else drop (length w) slots) ∧
  acc.(Acc.blockers) = (blocked_message <$> blocked)
    ++ replicate (N.to_nat (N.min acc.(Acc.deficit) 8)) (deficit_message acc.(Acc.deficit)) ∧
  (length acc.(Acc.candidates) + length acc.(Acc.deferred_slots) = length slots)%nat.
Proof.
  intros acc w. rw /acc reconcile_standby_eq /= /shortfall -/w. split_and!; [done..|].
  rw length_fmap length_take. case_bool_decide; [subst; simpl; lia|].
  rw length_drop. lia.
Qed.

(** The reconciliation is deterministic: its accounting does not depend on
    the order in which the hash map delivered the eligible incarnations. *)
Theorem reconcile_standby_deterministic policy slots cands cands' blocked readiness active :
  cands ≡ₚ cands' →
  reconcile_standby policy slots cands blocked readiness active
  = reconcile_standby policy slots cands' blocked readiness active.
Proof.
  intros Hp. rw !reconcile_standby_eq /accounting /shortfall /standby_capacity !warm_length.
  assert (∀ P `{∀ x, Decision (P x)}, length (filter P cands) = length (filter P cands')) as Hl
    by (intros; by rw Hp).
  rw /stale_count !Hl. f_equal.
  rw !fmap_take /warm. f_equal. by apply ordered_ids_perm.
Qed.

(** Two running incarnations, ready and unready. *)
Definition example_standby (i : N) : EngineIncarnation :=
  EngineIncarnation.default
    <| Inc.incarnation_id := mkId i |>
    <| Inc.state ::= λ s, s <| St.lifecycle := ProcessLifecycle.RUNNING |> |>.

Lemma reconcile_standby_deterministic_witness :
  let a := example_standby 2 in let b := example_standby 3 in
  let r := {[ mkId 2 := ReadinessOutcome.READY; mkId 3 := ReadinessOutcome.DEGRADED ]} in
  reconcile_standby StandbyPoolPolicy.default [mkId 1] [a; b] [] r 0
  = reconcile_standby StandbyPoolPolicy.default [mkId 1] [b; a] [] r 0.
Proof.
  intros a b r. apply (reconcile_standby_deterministic _ _ [a; b] [b; a]). apply perm_swap.
Defined.

(** Candidates are distinct and in id order whenever the incarnations the
    runtime passes are distinct. *)
Theorem standby_candidates_ordered policy slots cands blocked readiness active :
  NoDup (Inc.incarnation_id <$> cands) →
  let acc := reconcile_standby policy slots cands blocked readiness active in
  NoDup acc.(Acc.candidates) ∧
  StronglySorted N.le (id_raw <$> acc.(Acc.candidates)) ∧
  ∀ i, i ∈ acc.(Acc.candidates) →
    ∃ c, c ∈ cands ∧ c.(Inc.incarnation_id) = i ∧ standby_eligible readiness c.
Proof.
  intros Hnd acc. rw /acc reconcile_standby_eq /= fmap_take. split_and!.
  - eapply sublist_NoDup, sublist_take. rw /warm.
    eapply sublist_NoDup, fmap_sublist, sublist_filter. by rw merge_sort_Permutation.
  - rw fmap_take -list_fmap_compose.
    assert (StronglySorted N.le (id_raw ∘ Inc.incarnation_id <$> warm cands readiness)) as Hs
      by (apply sorted_ids, StronglySorted_filter, (StronglySorted_merge_sort _)).
    rewrite <-(take_drop (length slots) (id_raw ∘ Inc.incarnation_id <$> warm cands readiness)) in Hs.
    by apply StronglySorted_app_1_l in Hs.
  - intros i Hi. eapply subseteq_take, list_elem_of_fmap in Hi as (c & -> & Hc).
    apply list_elem_of_filter in Hc as [He Hc]. exists c. split_and!; [|done..].
    by rw merge_sort_Permutation in Hc.
Qed.

Lemma standby_candidates_ordered_witness :
  let cs := [example_standby 3; example_standby 2] in
  NoDup (Inc.incarnation_id <$> cs) ∧
  NoDup (reconcile_standby StandbyPoolPolicy.default [mkId 1; mkId 2] cs []
    {[ mkId 2 := ReadinessOutcome.READY; mkId 3 := ReadinessOutcome.READY ]} 0).(Acc.candidates).
Proof.
  intros cs. assert (NoDup (Inc.incarnation_id <$> cs)) as H.
  { repeat constructor; set_solver. }
  split; [exact H|].
  apply (standby_candidates_ordered StandbyPoolPolicy.default [mkId 1; mkId 2] cs [] _ 0 H).
Defined.
