(* ===== verification/Runtime.v ===== *)
(** * The runtime

    [src/runtime.cpp]: the state [EngineResidencyImpl] and every operation of
    the [EngineResidency] facade as a computation over it.  Each operation of
    the source runs under the instance's lock from its first statement to its
    last, so an operation is one atomic computation; a throw leaves the
    mutations made before it.  [serialize] and [load] are in [Recovery]. *)

From S2P Require Import Prelude Identities Enums Model Readiness Economics Standby.
Local Open Scope N_scope.

(** ** The clock

    [Clock::now_ns] is virtual: [source n] is what the [n]-th call returns. *)
Module Clock.
Record t := mk {
  source : nat → N;
  reads : nat;
}.
#[global] Instance eta : Eta t := fields! mk <source; reads>.
(** A [ManualClock] nobody advances. *)
Definition stopped (now : N) : t := mk (λ _, now) 0.
End Clock.
Abbreviation Clock := Clock.t.

(** ** [EngineResidencyImpl] *)

Module EngineResidencyImpl.
Record t := mk {
  clock : Clock;
  opts : RuntimeOptions;
  authority : AuthorityState;
  epoch_started : bool;
  engines : gmap EngineId EngineDefinition;
  profiles : gmap ReadinessProfileId ReadinessProfile;
  incarnations : gmap EngineIncarnationId EngineIncarnation;
  current_by_engine : gmap EngineId EngineIncarnationId;
  evidence : gmap EngineIncarnationId (list ComponentEvidence);
  active_attempt : gmap EngineIncarnationId PreparationAttemptId;
  attempts : gmap PreparationAttemptId PreparationAttempt;
  plans : gmap PreparationPlanId PreparationPlan;
  active_uses : gmap ServingUseId ActiveUse;
  active_use_count : N;
  slots : gmap EngineSlotId StandbySlot;
  pools : gmap EnginePoolId StandbyPoolPolicy;
  activations : gmap ActivationId ActivationRecord;
  drains : gmap EngineIncarnationId DrainState;
  replacement_plans : gmap ReplacementId ReplacementPlan;
  permits : gmap RegistrationPermitId RegistrationPermit;
  consumed : gset RegistrationPermitId;
  fenced : gmap WorkerId (gset WorkerBootId);
  cost_history : list CostComponent;
  id_engine : N;
  id_profile : N;
  id_inc : N;
  id_evid : N;
  id_use : N;
  id_attempt : N;
  id_plan : N;
  id_activation : N;
  id_slot : N;
  id_repl : N;
  id_permit : N;
}.
#[global] Instance eta : Eta t := fields! mk <clock; opts; authority; epoch_started; engines;
  profiles; incarnations; current_by_engine; evidence; active_attempt; attempts; plans;
  active_uses; active_use_count; slots; pools; activations; drains; replacement_plans;
  permits; consumed; fenced; cost_history; id_engine; id_profile; id_inc; id_evid; id_use;
  id_attempt; id_plan; id_activation; id_slot; id_repl; id_permit>.

(** The member initialisers, for a clock and options. *)
Definition init (c : Clock) (o : RuntimeOptions) : t := {|
  clock := c; opts := o; authority := AuthorityState.default; epoch_started := false;
  engines := ∅; profiles := ∅; incarnations := ∅; current_by_engine := ∅; evidence := ∅;
  active_attempt := ∅; attempts := ∅; plans := ∅; active_uses := ∅; active_use_count := 0;
  slots := ∅; pools := ∅; activations := ∅; drains := ∅; replacement_plans := ∅;
  permits := ∅; consumed := ∅; fenced := ∅; cost_history := [];
  id_engine := 0; id_profile := 0; id_inc := 0; id_evid := 0; id_use := 0; id_attempt := 0;
  id_plan := 0; id_activation := 0; id_slot := 0; id_repl := 0; id_permit := 0;
|}.
End EngineResidencyImpl.
Module Impl := EngineResidencyImpl.

(** An operation of the runtime. *)
Abbreviation Run := (M Impl.t Exn).

(** ** Shared pieces of the operations *)

Definition ensure_epoch : Run CoordinatorEpoch :=
  started ← gets Impl.epoch_started;
  (if negb started then
     modify (λ s, s <| Impl.authority ::= λ a, a <| Auth.epoch := mkGen 1 |>
                                                 <| Auth.authority := mkGen 1 |> |>
                    <| Impl.epoch_started := true |>)
   else mret ());;
  gets (λ s, s.(Impl.authority).(Auth.epoch)).

Definition find_inc (id : EngineIncarnationId) : Run (option EngineIncarnation) :=
  gets (λ s, s.(Impl.incarnations) !! id).

(** [impl_->clock.now_ns()] *)
Definition now_ns : Run N := λ s,
  let c := s.(Impl.clock) in
  (Ok (Clock.source c (Clock.reads c)), s <| Impl.clock := c <| Clock.reads ::= S |> |>).

(** A lookup followed by [if (it == end()) throw_error(code, msg);] *)
Definition found {A} (o : option A) (code : ErrorCode) (msg : string) : Run A :=
  match o with
  | Some a => mret a
  | None => throw_error code msg
  end.

(** [impl_->engines.at(id)] *)
Definition engines_at (id : EngineId) : Run EngineDefinition :=
  o ← gets (λ s, s.(Impl.engines) !! id);
  match o with
  | Some d => mret d
  | None => throw StdOutOfRange
  end.

(** Writing through a pointer into [incarnations], [attempts] or [drains]. *)
Definition set_inc (id : EngineIncarnationId) (f : EngineIncarnation → EngineIncarnation) : Run () :=
  modify (λ s, s <| Impl.incarnations ::= alter f id |>).
Definition set_attempt (id : PreparationAttemptId) (f : PreparationAttempt → PreparationAttempt)
    : Run () :=
  modify (λ s, s <| Impl.attempts ::= alter f id |>).
(** [impl_->drains[id]] inserts a default [DrainState] for a missing key. *)
Definition drains_at (id : EngineIncarnationId) (s : Impl.t) : DrainState :=
  default DrainState.default (s.(Impl.drains) !! id).
Definition set_drain (id : EngineIncarnationId) (f : DrainState → DrainState) : Run () :=
  modify (λ s, s <| Impl.drains ::= <[id := f (drains_at id s)]> |>).

(** [fenced.find(w)] and the [count(b)] on what it finds. *)
Definition is_fenced (w : WorkerId) (b : WorkerBootId) (s : Impl.t) : bool :=
  match s.(Impl.fenced) !! w with
  | None => false
  | Some boots => bool_decide (b ∈ boots)
  end.

(** [evidence.count(id) ? evidence.at(id) : {}] *)
Definition evidence_of (id : EngineIncarnationId) (s : Impl.t) : list ComponentEvidence :=
  default [] (s.(Impl.evidence) !! id).

(** [detail::evaluate_readiness] on the current evidence and time. *)
Definition readiness_now (d : EngineDefinition) (p : ReadinessProfile) (inc : EngineIncarnation)
    (id : EngineIncarnationId) : Run ReadinessResult :=
  ev ← gets (evidence_of id);
  t ← now_ns;
  mret (evaluate_readiness d p inc ev t).

(** [inc->readiness_generation = inc->readiness_generation.next();] *)
Definition bump_readiness (id : EngineIncarnationId) (inc : EngineIncarnation) : Run () :=
  g ← Generation.next inc.(Inc.readiness_generation);
  set_inc id (λ i, i <| Inc.readiness_generation := g |>).

(** The count of unreleased uses of an incarnation, in a [std::uint32_t]. *)
Definition unreleased (id : EngineIncarnationId) (s : Impl.t) : gmap ServingUseId ActiveUse :=
  filter (λ ku, ku.2.(Use.incarnation_id) = id ∧ ku.2.(Use.released) = false)
    s.(Impl.active_uses).
Definition remaining (id : EngineIncarnationId) (s : Impl.t) : N :=
  u32 (N.of_nat (size (unreleased id s))).

(** LOST, FAILED and RETIRED incarnations no longer hold their place. *)
Definition is_gone (l : ProcessLifecycle.t) : bool :=
  bool_decide (l = ProcessLifecycle.LOST) || bool_decide (l = ProcessLifecycle.FAILED)
  || bool_decide (l = ProcessLifecycle.RETIRED).

(** [impl_->active_attempt.erase(id);] *)
Definition erase_active_attempt (id : EngineIncarnationId) : Run () :=
  modify (λ s, s <| Impl.active_attempt ::= delete id |>).

(** The local variables of [reconcile_standby]. *)
Module Sweep.
Record t := mk {
  eligible : list EngineIncarnation;
  blocked : list EngineIncarnation;
  readiness : gmap EngineIncarnationId ReadinessOutcome.t;
  active : N;
}.
#[global] Instance eta : Eta t := fields! mk <eligible; blocked; readiness; active>.
End Sweep.

(** ** The operations *)

Module EngineResidency.
Section operations.
Context `{Ord : HashOrder}.

(** The constructor. *)
Definition create (c : Clock) (o : RuntimeOptions) : Impl.t := (ensure_epoch (Impl.init c o)).2.

(** *** Definitions and profiles *)

Definition define_engine (def : EngineDefinition) : Run EngineDefinition :=
  throw_error_if (negb (Identity.is_valid def.(Def.engine_id)))
    InvalidArgument "engine id required";;
  def ← (if negb (Generation.is_valid def.(Def.engine_generation)) then
           modify (λ s, s <| Impl.id_engine ::= λ n, u64 (n + 1) |>);;
           n ← gets Impl.id_engine;
           mret (def <| Def.engine_generation := mkGen (u64 (n + 1)) |>)
         else mret def);
  let def := if negb (Generation.is_valid def.(Def.config_generation))
             then def <| Def.config_generation := mkGen 1 |> else def in
  full ← gets (λ s, s.(Impl.opts).(Opts.max_engines) <=? N.of_nat (size s.(Impl.engines)));
  throw_error_if full BoundsExceeded "max engines";;
  modify (λ s, s <| Impl.engines ::= <[def.(Def.engine_id) := def]> |>);;
  mret def.

(** The body of the invalidation loop, for one entry of [incarnations]. *)
Definition invalidate_for_engine (engine_id : EngineId)
    (kv : EngineIncarnationId * EngineIncarnation) : Run () :=
  if Identity.eqb kv.2.(Inc.engine_id) engine_id then
    set_inc kv.1 (λ i, i <| Inc.state ::=
      λ st, st <| St.preparation := PreparationState.INVALIDATED |> |>);;
    bump_readiness kv.1 kv.2
  else mret ().

Definition update_engine_config (engine_id : EngineId) (new_gen : EngineConfigGeneration)
    (reason : string) : Run () :=
  it ← gets (λ s, s.(Impl.engines) !! engine_id);
  def ← found it UnknownEngine "unknown engine";
  throw_error_if (Generation.is_at_or_before new_gen def.(Def.config_generation))
    StaleGeneration "config generation regression";;
  modify (λ s, s <| Impl.engines ::=
    alter (λ d, d <| Def.config_generation := new_gen |>) engine_id |>);;
  incs ← gets Impl.incarnations;
  for_each (invalidate_for_engine engine_id) (iteration incs).

Definition define_profile (profile : ReadinessProfile) : Run ReadinessProfile :=
  profile ← (if negb (Identity.is_valid profile.(Prof.profile_id)) then
               modify (λ s, s <| Impl.id_profile ::= λ n, u64 (n + 1) |>);;
               n ← gets Impl.id_profile;
               mret (profile <| Prof.profile_id := mkId (u64 (n + 1)) |>)
             else mret profile);
  let profile := if negb (Generation.is_valid profile.(Prof.profile_generation))
                 then profile <| Prof.profile_generation := mkGen 1 |> else profile in
  it ← gets (λ s, s.(Impl.engines) !! profile.(Prof.engine_id));
  found it UnknownEngine "engine not defined";;
  modify (λ s, s <| Impl.profiles ::= <[profile.(Prof.profile_id) := profile]> |>);;
  mret profile.

(** *** Registration and authority *)

Definition issue_registration_permit (w : WorkerId) (b : WorkerBootId) (s_ : SourceId)
    (sb : SourceBootId) : Run RegistrationPermit :=
  ensure_epoch;;
  throw_error_if (Generation.is_before b (mkGen 1)) InvalidArgument "worker boot required";;
  f ← gets (is_fenced w b);
  throw_error_if f FencedWorker "fenced worker boot";;
  full ← gets (λ s, s.(Impl.opts).(Opts.max_registration_permits)
                    <=? N.of_nat (size s.(Impl.permits)));
  throw_error_if full BoundsExceeded "max permits";;
  modify (λ s, s <| Impl.id_permit ::= λ n, u64 (n + 1) |>);;
  modify (λ s, s <| Impl.authority ::=
    λ a, a <| Auth.registration_counter ::= λ n, u64 (n + 1) |> |>);;
  s ← gets (λ s, s);
  let p := RegistrationPermit.default
    <| Permit.permit_id := mkId (u64 (s.(Impl.id_permit) + 1)) |>
    <| Permit.epoch := s.(Impl.authority).(Auth.epoch) |>
    <| Permit.worker_id := w |> <| Permit.worker_boot := b |>
    <| Permit.sequence := s.(Impl.authority).(Auth.registration_counter) |>
    <| Permit.authority := s.(Impl.authority).(Auth.authority) |>
    <| Permit.consumed := false |> in
  modify (λ s, s <| Impl.permits ::= <[p.(Permit.permit_id) := p]> |>);;
  mret p.

(** A live incarnation of the same worker boot. *)
Definition same_live_boot (inc other : EngineIncarnation) : bool :=
  Identity.eqb other.(Inc.worker_id) inc.(Inc.worker_id)
  && Generation.eqb other.(Inc.worker_boot) inc.(Inc.worker_boot)
  && negb (is_gone other.(Inc.state).(St.lifecycle)).

(** The engine's current incarnation is registered and not gone. *)
Definition has_current (engine_id : EngineId) (s : Impl.t) : bool :=
  match s.(Impl.current_by_engine) !! engine_id with
  | None => false
  | Some cur =>
    match s.(Impl.incarnations) !! cur with
    | None => false
    | Some curinc => negb (is_gone curinc.(Inc.state).(St.lifecycle))
    end
  end.

Definition register_incarnation (inc : EngineIncarnation) (permit : RegistrationPermit)
    : Run EngineIncarnation :=
  ensure_epoch;;
  pit ← gets (λ s, s.(Impl.permits) !! permit.(Permit.permit_id));
  p ← found pit RegistrationRejected "unknown permit";
  throw_error_if p.(Permit.consumed) RegistrationRejected "permit already consumed";;
  throw_error_if (negb (Identity.eqb p.(Permit.worker_id) inc.(Inc.worker_id))
                  || negb (Generation.eqb p.(Permit.worker_boot) inc.(Inc.worker_boot)))
    RegistrationRejected "permit/worker mismatch";;
  auth ← gets Impl.authority;
  throw_error_if (negb (Generation.eqb p.(Permit.epoch) auth.(Auth.epoch)))
    StaleEpoch "permit epoch stale";;
  f ← gets (is_fenced inc.(Inc.worker_id) inc.(Inc.worker_boot));
  throw_error_if f FencedWorker "fenced boot";;
  eit ← gets (λ s, s.(Impl.engines) !! inc.(Inc.engine_id));
  found eit UnknownEngine "unknown engine";;
  incs ← gets Impl.incarnations;
  throw_error_if (existsb (λ kv, same_live_boot inc kv.2) (map_to_list incs))
    RegistrationRejected "duplicate incarnation for boot";;
  full ← gets (λ s, s.(Impl.opts).(Opts.max_incarnations) <=? N.of_nat (size s.(Impl.incarnations)));
  throw_error_if full BoundsExceeded "max incarnations";;
  modify (λ s, s <| Impl.id_inc ::= λ n, u64 (n + 1) |>);;
  n ← gets Impl.id_inc;
  t ← now_ns;
  cur ← gets (has_current inc.(Inc.engine_id));
  let inc := inc
    <| Inc.incarnation_id := mkId (u64 (n + 1)) |>
    <| Inc.incarnation_generation := mkGen 1 |>
    <| Inc.coordinator_epoch := auth.(Auth.epoch) |>
    <| Inc.authority_generation := auth.(Auth.authority) |>
    <| Inc.registration := RegistrationState.REGISTERED |>
    <| Inc.state ::= λ st, st <| St.lifecycle := ProcessLifecycle.STARTING |>
                              <| St.recovery := RecoveryState.NOMINAL |>
                              <| St.registration := RegistrationState.REGISTERED |> |>
    <| Inc.readiness_generation := mkGen 1 |>
    <| Inc.last_activity_ns := t |>
    <| Inc.is_current := negb cur |> in
  (if inc.(Inc.is_current) then
     modify (λ s, s <| Impl.current_by_engine ::=
       <[inc.(Inc.engine_id) := inc.(Inc.incarnation_id)]> |>)
   else mret ());;
  modify (λ s, s <| Impl.incarnations ::= <[inc.(Inc.incarnation_id) := inc]> |>);;
  modify (λ s, s <| Impl.permits ::=
    alter (λ p, p <| Permit.consumed := true |>) permit.(Permit.permit_id) |>);;
  modify (λ s, s <| Impl.consumed ::= λ c, {[permit.(Permit.permit_id)]} ∪ c |>);;
  mret inc.

Definition mark_running (inc_id : EngineIncarnationId) : Run () :=
  o ← find_inc inc_id;
  found o UnknownIncarnation "unknown incarnation";;
  set_inc inc_id (λ i, i <| Inc.state ::=
    λ st, st <| St.lifecycle := ProcessLifecycle.RUNNING |>
             <| St.health := HealthState.HEALTHY |> |>);;
  t ← now_ns;
  set_inc inc_id (λ i, i <| Inc.last_activity_ns := t |>).

Definition revalidate (inc_id : EngineIncarnationId) : Run () :=
  o ← find_inc inc_id;
  inc ← found o UnknownIncarnation "unknown incarnation";
  set_inc inc_id (λ i, i
    <| Inc.state ::= λ st, st <| St.recovery := RecoveryState.NOMINAL |>
                              <| St.preparation := PreparationState.PREPARED |> |>
    <| Inc.is_current := true |>
    <| Inc.state ::= λ st, st <| St.lifecycle := ProcessLifecycle.RUNNING |> |>);;
  modify (λ s, s <| Impl.current_by_engine ::=
    <[inc.(Inc.engine_id) := inc.(Inc.incarnation_id)]> |>);;
  bump_readiness inc_id inc.

Definition fence_incarnation (w : WorkerId) (b : WorkerBootId) (i : EngineIncarnation)
    : EngineIncarnation :=
  if Identity.eqb i.(Inc.worker_id) w && Generation.eqb i.(Inc.worker_boot) b then
    i <| Inc.state ::= λ st, st <| St.health := HealthState.FENCED |>
                                <| St.lifecycle := ProcessLifecycle.LOST |>
                                <| St.activation := ActivationState.FENCED |>
                                <| St.registration := RegistrationState.FENCED |> |>
      <| Inc.is_current := false |>
  else i.

Definition fence_worker (w : WorkerId) (b : WorkerBootId) (reason : string) : Run () :=
  modify (λ s, s <| Impl.fenced ::=
    λ m, <[w := {[b]} ∪ default ∅ (m !! w)]> m |>);;
  modify (λ s, s <| Impl.incarnations ::= fmap (fence_incarnation w b) |>).

Definition require_revalidation (i : EngineIncarnation) : EngineIncarnation :=
  if bool_decide (i.(Inc.state).(St.lifecycle) = ProcessLifecycle.RUNNING) then
    i <| Inc.state ::= λ st, st <| St.recovery := RecoveryState.REVALIDATING |> |>
      <| Inc.is_current := false |>
  else i.

Definition advance_epoch : Run CoordinatorEpoch :=
  ensure_epoch;;
  auth ← gets Impl.authority;
  e ← Generation.next auth.(Auth.epoch);
  modify (λ s, s <| Impl.authority ::= λ a, a <| Auth.epoch := e |> |>);;
  g ← Generation.next auth.(Auth.authority);
  modify (λ s, s <| Impl.authority ::= λ a, a <| Auth.authority := g |> |>);;
  modify (λ s, s <| Impl.incarnations ::= fmap require_revalidation |>);;
  modify (λ s, s <| Impl.slots := ∅ |>);;
  gets (λ s, s.(Impl.authority).(Auth.epoch)).

(** *** Component evidence *)

Definition total_evidence (s : Impl.t) : nat :=
  map_fold (λ _ l n, length l + n)%nat 0%nat s.(Impl.evidence).

Definition publish_component (ev : ComponentEvidence) : Run ComponentEvidence :=
  ensure_epoch;;
  o ← find_inc ev.(Ev.incarnation_id);
  inc ← found o UnknownIncarnation "unknown incarnation";
  throw_error_if (bool_decide (inc.(Inc.state).(St.registration) = RegistrationState.FENCED)
                  || bool_decide (inc.(Inc.state).(St.health) = HealthState.FENCED))
    FencedWorker "fenced incarnation";;
  f ← gets (is_fenced inc.(Inc.worker_id) inc.(Inc.worker_boot));
  throw_error_if f FencedWorker "fenced boot";;
  epoch ← gets (λ s, s.(Impl.authority).(Auth.epoch));
  throw_error_if (negb (Generation.eqb ev.(Ev.coordinator_epoch) epoch))
    StaleEpoch "evidence epoch is not current";;
  full ← gets (λ s, s.(Impl.opts).(Opts.max_component_evidence) <=? N.of_nat (total_evidence s));
  throw_error_if full BoundsExceeded "max component evidence";;
  modify (λ s, s <| Impl.id_evid ::= λ n, u64 (n + 1) |>);;
  n ← gets Impl.id_evid;
  t ← now_ns;
  let ev := ev <| Ev.evidence_id := mkId (u64 (n + 1)) |>
               <| Ev.evidence_generation := mkGen 1 |>
               <| Ev.observed_at_ns := t |> in
  modify (λ s, s <| Impl.evidence ::=
    λ m, <[ev.(Ev.incarnation_id) := default [] (m !! ev.(Ev.incarnation_id)) ++ [ev]]> m |>);;
  set_inc ev.(Ev.incarnation_id) (λ i, i <| Inc.last_activity_ns := ev.(Ev.observed_at_ns) |>);;
  (if (bool_decide (ev.(Ev.category) = ComponentCategory.BACKEND)
       || bool_decide (ev.(Ev.category) = ComponentCategory.DEVICE_CONTEXT))
      && bool_decide (inc.(Inc.state).(St.lifecycle) = ProcessLifecycle.STARTING) then
     set_inc ev.(Ev.incarnation_id) (λ i, i <| Inc.state ::=
       λ st, st <| St.lifecycle := ProcessLifecycle.RUNNING |>
                <| St.health := HealthState.HEALTHY |> |>)
   else mret ());;
  mret ev.

(** *** Readiness *)

Definition awaits_authority (inc : EngineIncarnation) : bool :=
  bool_decide (inc.(Inc.state).(St.recovery) = RecoveryState.REVALIDATING)
  || bool_decide (inc.(Inc.state).(St.recovery) = RecoveryState.AWAITING_AUTHORITY).

Definition evaluate_readiness (inc_id : EngineIncarnationId) (prof_id : ReadinessProfileId)
    : Run ReadinessResult :=
  o ← find_inc inc_id;
  inc ← found o UnknownIncarnation "unknown incarnation";
  pit ← gets (λ s, s.(Impl.profiles) !! prof_id);
  prof ← found pit UnknownProfile "unknown profile";
  throw_error_if (negb (Identity.eqb prof.(Prof.engine_id) inc.(Inc.engine_id)))
    IncompatibleProfile "profile belongs to another engine";;
  eit ← gets (λ s, s.(Impl.engines) !! inc.(Inc.engine_id));
  def ← found eit UnknownEngine "unknown engine";
  if awaits_authority inc then
    mret (ReadinessResult.default
      <| Res.engine_id := inc.(Inc.engine_id) |>
      <| Res.engine_generation := inc.(Inc.engine_generation) |>
      <| Res.incarnation_id := inc.(Inc.incarnation_id) |>
      <| Res.incarnation_generation := inc.(Inc.incarnation_generation) |>
      <| Res.profile_id := prof_id |>
      <| Res.profile_generation := prof.(Prof.profile_generation) |>
      <| Res.readiness_generation := inc.(Inc.readiness_generation) |>
      <| Res.outcome := ReadinessOutcome.REVALIDATION_REQUIRED |>
      <| Res.coherent_snapshot := false |>
      <| Res.detail := "incarnation requires revalidation under current authority" |>)
  else readiness_now def prof inc inc_id.

(** *** Preparation *)

(** The loop that turns missing components into steps; [steps] counts up to
    the bound, which leaves the loop. *)
Fixpoint plan_steps (max steps : N) (missing : list string) : list PreparationStep :=
  match missing with
  | [] => []
  | m :: missing =>
    if max <=? steps then [] else
    (PreparationStep.default
       <| Step.action := PreparationAction.BIND_MODEL |>
       <| Step.category := ComponentCategory.MODEL |>
       <| Step.subject := m |>
       <| Step.description := "prepare missing component " +:+ m |>
       <| Step.rollback_required := false |>)
    :: plan_steps max (steps + 1) missing
  end.

Definition warm_up_step : PreparationStep :=
  PreparationStep.default
    <| Step.action := PreparationAction.WARM_UP |>
    <| Step.category := ComponentCategory.WARMUP |>
    <| Step.subject := "warmup" |>
    <| Step.description := "run warmup" |>.

Definition create_preparation_plan (inc_id : EngineIncarnationId) (prof_id : ReadinessProfileId)
    (target : DesiredResidency.t) : Run PreparationPlan :=
  o ← find_inc inc_id;
  inc ← found o UnknownIncarnation "unknown incarnation";
  throw_error_if (negb inc.(Inc.is_current)) StaleIncarnation "not current";;
  pit ← gets (λ s, s.(Impl.profiles) !! prof_id);
  prof ← found pit UnknownProfile "unknown profile";
  full ← gets (λ s, s.(Impl.opts).(Opts.max_pending_preparation_attempts)
                    <=? N.of_nat (size s.(Impl.plans)));
  throw_error_if full BoundsExceeded "max plans";;
  def ← engines_at inc.(Inc.engine_id);
  rr ← readiness_now def prof inc inc_id;
  modify (λ s, s <| Impl.id_plan ::= λ n, u64 (n + 1) |>);;
  s ← gets (λ s, s);
  let steps := plan_steps s.(Impl.opts).(Opts.max_preparation_plan_steps) 0 rr.(Res.missing) in
  let plan := PreparationPlan.default
    <| Plan.plan_id := mkId (u64 (s.(Impl.id_plan) + 1)) |>
    <| Plan.plan_generation := mkGen 1 |>
    <| Plan.incarnation_id := inc_id |>
    <| Plan.incarnation_generation := inc.(Inc.incarnation_generation) |>
    <| Plan.profile_id := prof_id |>
    <| Plan.profile_generation := prof.(Prof.profile_generation) |>
    <| Plan.target_residency := target |>
    <| Plan.epoch := s.(Impl.authority).(Auth.epoch) |>
    <| Plan.authority := s.(Impl.authority).(Auth.authority) |>
    <| Plan.source_boot := inc.(Inc.source_boot) |>
    <| Plan.steps := if bool_decide (steps = []) then [warm_up_step] else steps |>
    <| Plan.cancellation_boundary := "before readiness publication" |>
    <| Plan.rollback_action := "release attempt-owned resources; keep verified state" |>
    <| Plan.expected_readiness := "READY after all steps complete" |> in
  modify (λ s, s <| Impl.plans ::= <[plan.(Plan.plan_id) := plan]> |>);;
  set_inc inc_id (λ i, i <| Inc.state ::=
    λ st, st <| St.preparation := PreparationState.PLANNED |> |>);;
  mret plan.

(** [inc == nullptr || !inc->is_current] *)
Definition require_current (o : option EngineIncarnation) : Run EngineIncarnation :=
  inc ← found o StaleIncarnation "incarnation not current";
  throw_error_if (negb inc.(Inc.is_current)) StaleIncarnation "incarnation not current";;
  mret inc.

Definition begin_preparation (plan : PreparationPlan) : Run PreparationAttempt :=
  pit ← gets (λ s, s.(Impl.plans) !! plan.(Plan.plan_id));
  stored ← found pit UnknownAttempt "unknown plan";
  epoch ← gets (λ s, s.(Impl.authority).(Auth.epoch));
  throw_error_if (negb (Generation.eqb stored.(Plan.epoch) epoch)) PlanStale "plan epoch stale";;
  o ← find_inc plan.(Plan.incarnation_id);
  require_current o;;
  prev ← gets (λ s, s.(Impl.active_attempt) !! plan.(Plan.incarnation_id));
  throw_error_if (bool_decide (is_Some prev)) InvalidState "attempt already active";;
  full ← gets (λ s, s.(Impl.opts).(Opts.max_pending_preparation_attempts)
                    <=? N.of_nat (size s.(Impl.active_attempt)));
  throw_error_if full BoundsExceeded "max attempts";;
  modify (λ s, s <| Impl.id_attempt ::= λ n, u64 (n + 1) |>);;
  s ← gets (λ s, s);
  let a := PreparationAttempt.default
    <| Att.attempt_id := mkId (u64 (s.(Impl.id_attempt) + 1)) |>
    <| Att.attempt_generation := mkGen 1 |>
    <| Att.plan_id := plan.(Plan.plan_id) |>
    <| Att.plan_generation := plan.(Plan.plan_generation) |>
    <| Att.incarnation_id := plan.(Plan.incarnation_id) |>
    <| Att.incarnation_generation := plan.(Plan.incarnation_generation) |>
    <| Att.profile_id := plan.(Plan.profile_id) |>
    <| Att.profile_generation := plan.(Plan.profile_generation) |>
    <| Att.epoch := s.(Impl.authority).(Auth.epoch) |>
    <| Att.authority := s.(Impl.authority).(Auth.authority) |>
    <| Att.state := PreparationState.PLANNED |>
    <| Att.cancelled := false |> <| Att.published_ready := false |> in
  modify (λ s, s <| Impl.attempts ::= <[a.(Att.attempt_id) := a]> |>);;
  modify (λ s, s <| Impl.active_attempt ::=
    <[plan.(Plan.incarnation_id) := a.(Att.attempt_id)]> |>);;
  set_inc plan.(Plan.incarnation_id) (λ i, i <| Inc.state ::=
    λ st, st <| St.preparation := PreparationState.PREPARING |> |>);;
  mret a.

(** One step: record the description and advance the index; the state is set
    once the index has reached the end. *)
Definition advance_step (plan : PreparationPlan) (a : PreparationAttempt) : PreparationAttempt :=
  let a :=
    match plan.(Plan.steps) !! N.to_nat a.(Att.next_step_index) with
    | Some st => a <| Att.completed_steps ::= λ l, l ++ [st.(Step.description)] |>
                   <| Att.next_step_index ::= λ n, n + 1 |>
    | None => a
    end in
  if N.of_nat (length plan.(Plan.steps)) <=? a.(Att.next_step_index)
  then a <| Att.state := PreparationState.PREPARING |> else a.

Definition step_preparation (attempt_id : PreparationAttemptId) : Run PreparationAttempt :=
  it ← gets (λ s, s.(Impl.attempts) !! attempt_id);
  a ← found it UnknownAttempt "unknown attempt";
  throw_error_if a.(Att.cancelled) AttemptCancelled "attempt cancelled";;
  epoch ← gets (λ s, s.(Impl.authority).(Auth.epoch));
  throw_error_if (negb (Generation.eqb a.(Att.epoch) epoch)) StaleEpoch "attempt epoch stale";;
  pit ← gets (λ s, s.(Impl.plans) !! a.(Att.plan_id));
  plan ← found pit UnknownAttempt "unknown plan";
  set_attempt attempt_id (advance_step plan);;
  mret (advance_step plan a).

Definition complete_preparation (attempt_id : PreparationAttemptId) : Run PreparationAttempt :=
  it ← gets (λ s, s.(Impl.attempts) !! attempt_id);
  a ← found it UnknownAttempt "unknown attempt";
  throw_error_if a.(Att.cancelled) AttemptCancelled "attempt cancelled";;
  auth ← gets Impl.authority;
  throw_error_if (negb (Generation.eqb a.(Att.epoch) auth.(Auth.epoch)))
    StaleEpoch "attempt epoch stale";;
  throw_error_if (negb (Generation.eqb a.(Att.authority) auth.(Auth.authority)))
    StaleAuthority "attempt authority stale";;
  o ← find_inc a.(Att.incarnation_id);
  inc ← require_current o;
  pit ← gets (λ s, s.(Impl.profiles) !! a.(Att.profile_id));
  prof ← found pit UnknownProfile "unknown profile";
  eit ← gets (λ s, s.(Impl.engines) !! inc.(Inc.engine_id));
  def ← found eit UnknownEngine "unknown engine";
  rr ← readiness_now def prof inc a.(Att.incarnation_id);
  set_attempt attempt_id (λ a, a <| Att.authority_revalidated := true |>);;
  (if serving_outcome rr.(Res.outcome) then
     set_attempt attempt_id (λ a, a <| Att.state := PreparationState.PREPARED |>
                                    <| Att.published_ready := true |>);;
     set_inc a.(Att.incarnation_id) (λ i, i <| Inc.state ::=
       λ st, st <| St.preparation := PreparationState.PREPARED |> |>);;
     bump_readiness a.(Att.incarnation_id) inc;;
     set_inc a.(Att.incarnation_id) (λ i, i <| Inc.state ::=
       λ st, st <| St.observed := DesiredResidency.WARM |> |>)
   else
     set_attempt attempt_id (λ a, a <| Att.state := PreparationState.FAILED |>
                                    <| Att.failure_stage := "readiness not achieved" |>);;
     set_inc a.(Att.incarnation_id) (λ i, i <| Inc.state ::=
       λ st, st <| St.preparation := PreparationState.FAILED |> |>));;
  erase_active_attempt a.(Att.incarnation_id);;
  it ← gets (λ s, s.(Impl.attempts) !! attempt_id);
  mret (default a it).

Definition cancel_preparation (attempt_id : PreparationAttemptId) (reason : string) : Run () :=
  it ← gets (λ s, s.(Impl.attempts) !! attempt_id);
  a ← found it UnknownAttempt "unknown attempt";
  throw_error_if a.(Att.published_ready) InvalidState "cannot cancel committed attempt";;
  set_attempt attempt_id (λ a, a <| Att.cancelled := true |>
                                 <| Att.state := PreparationState.FAILED |>);;
  erase_active_attempt a.(Att.incarnation_id).

Definition rollback_preparation (attempt_id : PreparationAttemptId) (reason : string) : Run () :=
  it ← gets (λ s, s.(Impl.attempts) !! attempt_id);
  a ← found it UnknownAttempt "unknown attempt";
  set_attempt attempt_id (λ a, a <| Att.state := PreparationState.FAILED |>
                                 <| Att.failure_stage := "rolled back" |>);;
  erase_active_attempt a.(Att.incarnation_id).

(** *** Standby *)

(** The loop over the profiles; a READY result leaves it. *)
Fixpoint best_readiness (policy : StandbyPoolPolicy) (ir : EngineIncarnation)
    (profs : list (ReadinessProfileId * ReadinessProfile)) (best : ReadinessOutcome.t)
    : Run ReadinessOutcome.t :=
  match profs with
  | [] => mret best
  | (_, prof) :: profs =>
    if negb (Identity.eqb prof.(Prof.engine_id) policy.(Pool.engine_id))
    then best_readiness policy ir profs best
    else
      def ← engines_at ir.(Inc.engine_id);
      r ← readiness_now def prof ir ir.(Inc.incarnation_id);
      match r.(Res.outcome) with
      | ReadinessOutcome.READY => mret ReadinessOutcome.READY
      | ReadinessOutcome.DEGRADED => best_readiness policy ir profs ReadinessOutcome.DEGRADED
      | _ => best_readiness policy ir profs best
      end
  end.

Definition is_lost (ir : EngineIncarnation) : bool :=
  bool_decide (ir.(Inc.state).(St.health) = HealthState.LOST)
  || bool_decide (ir.(Inc.state).(St.health) = HealthState.FENCED)
  || is_gone ir.(Inc.state).(St.lifecycle).

Fixpoint sweep (policy : StandbyPoolPolicy) (incs : list (EngineIncarnationId * EngineIncarnation))
    (w : Sweep.t) : Run Sweep.t :=
  match incs with
  | [] => mret w
  | (_, ir) :: incs =>
    if negb (Identity.eqb ir.(Inc.engine_id) policy.(Pool.engine_id)) then sweep policy incs w
    else if is_lost ir then sweep policy incs (w <| Sweep.blocked ::= λ l, l ++ [ir] |>)
    else if bool_decide (ir.(Inc.state).(St.activation) = ActivationState.ACTIVE) then
      sweep policy incs (w <| Sweep.active ::= λ n, u32 (n + 1) |>)
    else
      profs ← gets Impl.profiles;
      best ← best_readiness policy ir (iteration profs) ReadinessOutcome.UNKNOWN;
      let w := w <| Sweep.readiness ::= <[ir.(Inc.incarnation_id) := best]> |> in
      sweep policy incs
        (if serving_outcome best then w <| Sweep.eligible ::= λ l, l ++ [ir] |>
         else w <| Sweep.blocked ::= λ l, l ++ [ir] |>)
  end.

Definition reconcile_standby (policy : StandbyPoolPolicy) : Run StandbyAccounting :=
  incs ← gets Impl.incarnations;
  w ← sweep policy (iteration incs) (Sweep.mk [] [] ∅ 0);
  slots ← gets Impl.slots;
  mret (Standby.reconcile_standby policy (fst <$> iteration slots)
    w.(Sweep.eligible) w.(Sweep.blocked) w.(Sweep.readiness) w.(Sweep.active)).

(** *** Activation *)

(** A holder that no longer blocks a takeover of its slot. *)
Definition holder_dead (holder : option EngineIncarnation) : bool :=
  match holder with
  | None => true
  | Some h =>
    bool_decide (h.(Inc.state).(St.health) = HealthState.FENCED)
    || bool_decide (h.(Inc.state).(St.health) = HealthState.LOST)
    || bool_decide (h.(Inc.state).(St.lifecycle) = ProcessLifecycle.LOST)
    || bool_decide (h.(Inc.state).(St.lifecycle) = ProcessLifecycle.RETIRED)
    || bool_decide (h.(Inc.state).(St.lifecycle) = ProcessLifecycle.FAILED)
    || awaits_authority h
  end.

(** The exclusive-slot block of [activate]. *)
Definition claim_slot (slot_id : EngineSlotId) (inc : EngineIncarnation) : Run () :=
  if Identity.is_valid slot_id then
    sit ← gets (λ s, s.(Impl.slots) !! slot_id);
    match sit with
    | Some slot =>
      holder ← find_inc slot.(Slot.assigned_incarnation);
      throw_error_if (Identity.is_valid slot.(Slot.assigned_incarnation)
        && negb (Identity.eqb slot.(Slot.assigned_incarnation) inc.(Inc.incarnation_id))
        && negb (holder_dead holder))
        ActivationConflict "exclusive slot already assigned";;
      modify (λ s, s <| Impl.slots ::=
        alter (λ sl, sl <| Slot.assigned_incarnation := inc.(Inc.incarnation_id) |>) slot_id |>)
    | None =>
      modify (λ s, s <| Impl.slots ::=
        <[slot_id := StandbySlot.default
            <| Slot.slot_id := slot_id |> <| Slot.pool_id := mkId 1 |>
            <| Slot.name := "default" |>
            <| Slot.assigned_incarnation := inc.(Inc.incarnation_id) |>]> |>)
    end
  else mret ().

Definition activate (req : ActivationRequest) : Run ActivationRecord :=
  auth ← gets (λ s, s.(Impl.authority).(Auth.authority));
  throw_error_if (negb (Generation.eqb req.(ActReq.caller_authority) auth))
    StaleAuthority "caller authority stale";;
  o ← find_inc req.(ActReq.incarnation_id);
  inc ← found o UnknownIncarnation "unknown incarnation";
  throw_error_if (bool_decide (inc.(Inc.state).(St.health) = HealthState.FENCED)
                  || bool_decide (inc.(Inc.state).(St.registration) = RegistrationState.FENCED))
    FencedWorker "fenced incarnation";;
  throw_error_if (negb (bool_decide (inc.(Inc.state).(St.lifecycle) = ProcessLifecycle.RUNNING)))
    InvalidState "incarnation not running";;
  throw_error_if (negb (Generation.eqb inc.(Inc.readiness_generation)
                          req.(ActReq.readiness_generation)))
    StaleGeneration "readiness generation stale";;
  (if Identity.is_valid req.(ActReq.profile_id) then
     pit ← gets (λ s, s.(Impl.profiles) !! req.(ActReq.profile_id));
     prof ← found pit UnknownProfile "unknown profile";
     def ← engines_at inc.(Inc.engine_id);
     rr ← readiness_now def prof inc inc.(Inc.incarnation_id);
     throw_error_if (negb (serving_outcome rr.(Res.outcome)))
       InvalidState "activation requires current readiness"
   else mret ());;
  claim_slot req.(ActReq.slot_id) inc;;
  modify (λ s, s <| Impl.id_activation ::= λ n, u64 (n + 1) |>);;
  n ← gets Impl.id_activation;
  let rec := ActivationRecord.default
    <| Act.activation_id := mkId (u64 (n + 1)) |>
    <| Act.activation_generation := mkGen 1 |>
    <| Act.engine_id := inc.(Inc.engine_id) |>
    <| Act.engine_generation := inc.(Inc.engine_generation) |>
    <| Act.incarnation_id := inc.(Inc.incarnation_id) |>
    <| Act.incarnation_generation := inc.(Inc.incarnation_generation) |>
    <| Act.profile_id := req.(ActReq.profile_id) |>
    <| Act.readiness_generation := inc.(Inc.readiness_generation) |>
    <| Act.standby_generation := req.(ActReq.standby_generation) |>
    <| Act.slot_id := req.(ActReq.slot_id) |>
    <| Act.prior := inc.(Inc.state).(St.activation) |>
    <| Act.state := ActivationState.ACTIVE |>
    <| Act.current := true |>
    <| Act.detail := "authorized local activation" |> in
  set_inc req.(ActReq.incarnation_id) (λ i, i
    <| Inc.state ::= λ st, st <| St.activation := ActivationState.ACTIVE |> |>
    <| Inc.is_current := true |>);;
  modify (λ s, s <| Impl.current_by_engine ::=
    <[inc.(Inc.engine_id) := inc.(Inc.incarnation_id)]> |>);;
  modify (λ s, s <| Impl.activations ::= <[rec.(Act.activation_id) := rec]> |>);;
  mret rec.

(** *** Serving use *)

Definition admission_fenced (id : EngineIncarnationId) (s : Impl.t) : bool :=
  match s.(Impl.drains) !! id with
  | None => false
  | Some d => d.(Drn.admission_fenced)
  end.

Definition acquire_serving_use (wanted : ServingUseToken) (caller : string) : Run ServingUseToken :=
  o ← find_inc wanted.(Tok.incarnation_id);
  inc ← found o UnknownIncarnation "unknown incarnation";
  throw_error_if (negb inc.(Inc.is_current)) StaleIncarnation "not current";;
  throw_error_if (negb (bool_decide (inc.(Inc.state).(St.lifecycle) = ProcessLifecycle.RUNNING)))
    InvalidState "not running";;
  fenced ← gets (admission_fenced wanted.(Tok.incarnation_id));
  throw_error_if fenced UseAfterDrain "admission fenced by drain";;
  throw_error_if (negb (Generation.eqb wanted.(Tok.readiness_generation)
                          inc.(Inc.readiness_generation)))
    StaleGeneration "stale readiness acquisition";;
  pit ← gets (λ s, s.(Impl.profiles) !! wanted.(Tok.profile_id));
  prof ← found pit UnknownProfile "unknown profile";
  eit ← gets (λ s, s.(Impl.engines) !! inc.(Inc.engine_id));
  def ← found eit UnknownEngine "unknown engine";
  rr ← readiness_now def prof inc inc.(Inc.incarnation_id);
  throw_error_if (negb (serving_outcome rr.(Res.outcome))) InvalidState
    ("readiness no longer satisfied: " +:+ ReadinessOutcome.to_string rr.(Res.outcome));;
  full ← gets (λ s, s.(Impl.opts).(Opts.max_active_uses) <=? s.(Impl.active_use_count));
  throw_error_if full BoundsExceeded "max active uses";;
  modify (λ s, s <| Impl.id_use ::= λ n, u64 (n + 1) |>);;
  n ← gets Impl.id_use;
  let tok := wanted <| Tok.use_id := mkId (u64 (n + 1)) |>
                    <| Tok.use_generation := mkGen 1 |> in
  t ← now_ns;
  let au := ActiveUse.default
    <| Use.use_id := tok.(Tok.use_id) |>
    <| Use.use_generation := tok.(Tok.use_generation) |>
    <| Use.engine_id := inc.(Inc.engine_id) |>
    <| Use.engine_generation := inc.(Inc.engine_generation) |>
    <| Use.incarnation_id := inc.(Inc.incarnation_id) |>
    <| Use.incarnation_generation := inc.(Inc.incarnation_generation) |>
    <| Use.profile_id := wanted.(Tok.profile_id) |>
    <| Use.readiness_generation := wanted.(Tok.readiness_generation) |>
    <| Use.activation_generation := wanted.(Tok.activation_generation) |>
    <| Use.execution_id := wanted.(Tok.execution_id) |>
    <| Use.released := false |>
    <| Use.outcome := WorkOutcome.COMPLETED |>
    <| Use.admitted_at_ns := t |>
    <| Use.detail := "admitted" |> in
  modify (λ s, s <| Impl.active_uses ::= <[au.(Use.use_id) := au]> |>);;
  modify (λ s, s <| Impl.active_use_count ::= λ n, u64 (n + 1) |>);;
  set_inc wanted.(Tok.incarnation_id) (λ i, i <| Inc.last_activity_ns := t |>);;
  mret tok.

(** The drain progress at the end of a release. *)
Definition settle_drain (id : EngineIncarnationId) : Run () :=
  s ← gets (λ s, s);
  match s.(Impl.drains) !! id with
  | Some d =>
    if d.(Drn.admission_fenced) && (remaining id s =? 0) then
      set_drain id (λ d, if d.(Drn.backend_cleanup_ack)
                         then d <| Drn.phase := DrainPhase.DRAINED |>
                         else d <| Drn.phase := DrainPhase.BACKEND_CLEANUP_PENDING |>)
    else mret ()
  | None => mret ()
  end.

Definition release_serving_use (token : ServingUseToken) (outcome : WorkOutcome.t)
    (detail : string) : Run () :=
  it ← gets (λ s, s.(Impl.active_uses) !! token.(Tok.use_id));
  au ← found it UnknownUse "unknown serving use";
  throw_error_if au.(Use.released) DuplicateRelease "duplicate release has no effect";;
  throw_error_if (negb (Identity.eqb au.(Use.incarnation_id) token.(Tok.incarnation_id)))
    StaleIncarnation "release from old incarnation";;
  t ← now_ns;
  modify (λ s, s <| Impl.active_uses ::= alter (λ u, u
    <| Use.released := true |> <| Use.outcome := outcome |>
    <| Use.released_at_ns := t |> <| Use.detail := detail |>) token.(Tok.use_id) |>);;
  count ← gets Impl.active_use_count;
  throw_error_if (count =? 0) InvalidState "active use underflow";;
  modify (λ s, s <| Impl.active_use_count := count - 1 |>);;
  settle_drain token.(Tok.incarnation_id).

(** *** Drain *)

Definition request_drain (inc_id : EngineIncarnationId) : Run () :=
  o ← find_inc inc_id;
  found o UnknownIncarnation "unknown incarnation";;
  set_drain inc_id (λ d, d);;
  d ← gets (drains_at inc_id);
  g ← Generation.next d.(Drn.generation);
  set_drain inc_id (λ d, d <| Drn.generation := g |> <| Drn.admission_fenced := true |>
                           <| Drn.detail := "drain requested" |>);;
  set_inc inc_id (λ i, i <| Inc.state ::=
    λ st, st <| St.lifecycle := ProcessLifecycle.DRAINING |>
             <| St.activation := ActivationState.DRAINING |> |>);;
  set_drain inc_id (λ d, if bool_decide (d.(Drn.phase) = DrainPhase.NONE)
                         then d <| Drn.phase := DrainPhase.REQUESTED |> else d);;
  n ← gets (remaining inc_id);
  set_drain inc_id (λ d, if n =? 0 then d <| Drn.phase := DrainPhase.BACKEND_CLEANUP_PENDING |>
                         else d <| Drn.phase := DrainPhase.ACTIVE_USE_REMAINING |>).

Definition acknowledge_backend_cleanup (inc_id : EngineIncarnationId) : Run () :=
  it ← gets (λ s, s.(Impl.drains) !! inc_id);
  found it InvalidState "no drain in progress";;
  set_drain inc_id (λ d, d <| Drn.backend_cleanup_ack := true |>);;
  n ← gets (remaining inc_id);
  set_drain inc_id (λ d, if d.(Drn.admission_fenced) && (n =? 0)
                         then d <| Drn.phase := DrainPhase.DRAINED |> else d).

Definition drain_state (inc_id : EngineIncarnationId) : Run DrainState :=
  gets (λ s, match s.(Impl.drains) !! inc_id with
             | None => DrainState.default <| Drn.phase := DrainPhase.NONE |>
             | Some d => d
             end).

(** *** Replacement *)

(** [cand == nullptr || cand->state.lifecycle != RUNNING] *)
Definition require_running (o : option EngineIncarnation) : Run EngineIncarnation :=
  cand ← found o StaleIncarnation "candidate not running";
  throw_error_if (negb (bool_decide (cand.(Inc.state).(St.lifecycle) = ProcessLifecycle.RUNNING)))
    StaleIncarnation "candidate not running";;
  mret cand.

Definition begin_replacement (plan : ReplacementPlan) : Run ReplacementPlan :=
  auth ← gets Impl.authority;
  throw_error_if (negb (Generation.eqb plan.(Repl.epoch) auth.(Auth.epoch)))
    StaleEpoch "replacement epoch stale";;
  throw_error_if (negb (Generation.eqb plan.(Repl.authority) auth.(Auth.authority)))
    StaleAuthority "replacement authority stale";;
  o ← find_inc plan.(Repl.candidate_incarnation);
  cand ← require_running o;
  o ← find_inc plan.(Repl.old_incarnation);
  oldi ← found o UnknownIncarnation "old incarnation unknown";
  throw_error_if (Identity.eqb cand.(Inc.incarnation_id) oldi.(Inc.incarnation_id))
    InvalidArgument "candidate and old identical";;
  modify (λ s, s <| Impl.id_repl ::= λ n, u64 (n + 1) |>);;
  n ← gets Impl.id_repl;
  let stored := plan
    <| Repl.replacement_id := mkId (u64 (n + 1)) |>
    <| Repl.replacement_generation := mkGen 1 |>
    <| Repl.phase := ReplacementPhase.PREPARING |>
    <| Repl.resource_overlap_available := plan.(Repl.overlap_bytes) =? 0 |> in
  modify (λ s, s <| Impl.replacement_plans ::= <[stored.(Repl.replacement_id) := stored]> |>);;
  mret stored.

Definition commit_cutover (rid : ReplacementId) : Run ReplacementPlan :=
  it ← gets (λ s, s.(Impl.replacement_plans) !! rid);
  p ← found it NotFound "replacement not found";
  throw_error_if (negb (bool_decide (p.(Repl.phase) = ReplacementPhase.PREPARING)))
    InvalidState "not in preparing phase";;
  o ← find_inc p.(Repl.candidate_incarnation);
  cand ← require_running o;
  oldi ← find_inc p.(Repl.old_incarnation);
  match oldi with
  | Some oldi =>
    set_drain oldi.(Inc.incarnation_id) (λ d, d <| Drn.admission_fenced := true |>);;
    set_inc p.(Repl.old_incarnation) (λ i, i
      <| Inc.state ::= λ st, st <| St.activation := ActivationState.FENCED |> |>
      <| Inc.is_current := false |>)
  | None => mret ()
  end;;
  set_inc p.(Repl.candidate_incarnation) (λ i, i
    <| Inc.is_current := true |>
    <| Inc.state ::= λ st, st <| St.activation := ActivationState.STANDBY |>
                              <| St.lifecycle := ProcessLifecycle.RUNNING |> |>);;
  modify (λ s, s <| Impl.current_by_engine ::=
    <[cand.(Inc.engine_id) := cand.(Inc.incarnation_id)]> |>);;
  let p := p <| Repl.phase := ReplacementPhase.CUTOVER |> in
  modify (λ s, s <| Impl.replacement_plans ::= <[rid := p]> |>);;
  mret p.

Definition retire_old (rid : ReplacementId) : Run ReplacementPlan :=
  it ← gets (λ s, s.(Impl.replacement_plans) !! rid);
  p ← found it NotFound "replacement not found";
  set_inc p.(Repl.old_incarnation) (λ i, i
    <| Inc.state ::= λ st, st <| St.lifecycle := ProcessLifecycle.RETIRED |>
                              <| St.health := HealthState.LOST |> |>
    <| Inc.is_current := false |>);;
  let p := p <| Repl.phase := ReplacementPhase.COMPLETE |> in
  modify (λ s, s <| Impl.replacement_plans ::= <[rid := p]> |>);;
  mret p.

(** *** Invalidation *)

Definition invalidate_incarnation_components (inc_id : EngineIncarnationId) (reason : string)
    : Run () :=
  o ← find_inc inc_id;
  inc ← found o UnknownIncarnation "unknown incarnation";
  modify (λ s, s <| Impl.evidence ::= alter (fmap (λ e, e
    <| Ev.state := ComponentState.REVALIDATION_REQUIRED |>
    <| Ev.invalidation_reason := reason |>)) inc_id |>);;
  set_inc inc_id (λ i, i <| Inc.state ::=
    λ st, st <| St.preparation := PreparationState.INVALIDATED |> |>);;
  bump_readiness inc_id inc.

(** *** Recovery economics *)

Definition aggregate_recovery_cost (components : list CostComponent) (action : RecoveryAction.t)
    (aggregation_model : string) : Run RecoveryCost :=
  full ← gets (λ s, s.(Impl.opts).(Opts.max_cost_samples)
                    <? N.of_nat (length s.(Impl.cost_history) + length components));
  throw_error_if full BoundsExceeded "max cost samples";;
  modify (λ s, s <| Impl.cost_history ::= λ l, l ++ components |>);;
  mret (Economics.aggregate_recovery_cost components action aggregation_model).

Definition compare_recovery_costs (alternatives : list RecoveryCost) : Run CostComparison :=
  mret (Economics.compare_recovery_costs alternatives).

(** *** Inspection *)

Definition engines : Run (list EngineDefinition) := gets (λ s, snd <$> iteration s.(Impl.engines)).
Definition incarnations : Run (list EngineIncarnation) :=
  gets (λ s, snd <$> iteration s.(Impl.incarnations)).
Definition profiles : Run (list ReadinessProfile) :=
  gets (λ s, snd <$> iteration s.(Impl.profiles)).
Definition active_use_count : Run Z := gets (λ s, to_int s.(Impl.active_use_count)).
Definition current_epoch : Run CoordinatorEpoch := gets (λ s, s.(Impl.authority).(Auth.epoch)).
Definition current_authority : Run AuthorityGeneration :=
  gets (λ s, s.(Impl.authority).(Auth.authority)).
Definition current_readiness_generation (inc_id : EngineIncarnationId) : Run ReadinessGeneration :=
  o ← find_inc inc_id;
  inc ← found o UnknownIncarnation "unknown incarnation";
  mret inc.(Inc.readiness_generation).
Definition incarnation_is_fenced (inc_id : EngineIncarnationId) : Run bool :=
  o ← find_inc inc_id;
  mret match o with
       | None => true
       | Some inc =>
         bool_decide (inc.(Inc.state).(St.health) = HealthState.FENCED)
         || bool_decide (inc.(Inc.state).(St.registration) = RegistrationState.FENCED)
         || bool_decide (inc.(Inc.state).(St.lifecycle) = ProcessLifecycle.LOST)
         || bool_decide (inc.(Inc.state).(St.lifecycle) = ProcessLifecycle.RETIRED)
       end.
End operations.
End EngineResidency.
