(* ===== verification/Loading.v ===== *)
(** * Saving and loading

    [EngineResidency::serialize] and [load]: the image a runtime saves, the state
    a blob is restored to, and the tables that come out of it. *)

From S2P Require Import Prelude Identities Enums Model Reference Codec Persistence Readiness Runtime.
Local Open Scope N_scope.

(** ** The operations *)

Section operations.
Context `{Ord : HashOrder}.

(** The loops that fill [PersistentState]. *)
Definition persistent_image (s : Impl.t) : PersistentState := {|
  PS.version := kPersistenceVersion;
  PS.coordinator_epoch := Generation.raw s.(Impl.authority).(Auth.epoch);
  PS.authority_generation := Generation.raw s.(Impl.authority).(Auth.authority);
  PS.registration_counter := s.(Impl.authority).(Auth.registration_counter);
  PS.engines := snd <$> iteration s.(Impl.engines);
  PS.profiles := snd <$> iteration s.(Impl.profiles);
  PS.incarnations := snd <$> iteration s.(Impl.incarnations);
  PS.evidence := concat (snd <$> iteration s.(Impl.evidence));
  PS.replacements := snd <$> iteration s.(Impl.replacement_plans);
  PS.cost_history := s.(Impl.cost_history)
|}.

Definition serialize : Run Bytes :=
  s ← gets (λ s, s);
  match serialize_persistent_state (persistent_image s) with
  | Ok blob => mret blob
  | Throw e => throw e
  end.
End operations.

(** [for (auto& x : l) m[x.key] = x;] *)
Definition store_all {K V} `{Countable K} (key : V → K) (l : list V) (m : gmap K V) : gmap K V :=
  foldl (λ m x, <[key x := x]> m) m l.

(** A restored incarnation and a restored piece of evidence. *)
Definition demote (i : EngineIncarnation) : EngineIncarnation :=
  i <| Inc.state ::= λ st, st <| St.recovery := RecoveryState.REVALIDATING |> |>
    <| Inc.is_current := false |>
    <| Inc.state ::= λ st, st <| St.activation := ActivationState.INACTIVE |>
                              <| St.preparation := PreparationState.REVALIDATION_REQUIRED |> |>.
Definition expire (e : ComponentEvidence) : ComponentEvidence :=
  e <| Ev.state := ComponentState.REVALIDATION_REQUIRED |>.

Definition store_evidence (l : list ComponentEvidence)
    (m : gmap EngineIncarnationId (list ComponentEvidence)) :
    gmap EngineIncarnationId (list ComponentEvidence) :=
  foldl (λ m e, <[e.(Ev.incarnation_id) := default [] (m !! e.(Ev.incarnation_id)) ++ [e]]> m) m l.

Definition or_one (n : N) : N := if 0 <? n then n else 1.

(** The state the validated [p] is applied to. *)
Definition restore (p : PersistentState) (s : Impl.t) : Impl.t :=
  s <| Impl.authority := {|
         Auth.epoch := mkGen (or_one p.(PS.coordinator_epoch));
         Auth.authority := mkGen (or_one p.(PS.authority_generation));
         Auth.registration_counter := p.(PS.registration_counter) |} |>
    <| Impl.epoch_started := true |>
    <| Impl.engines := store_all Def.engine_id p.(PS.engines) ∅ |>
    <| Impl.profiles := store_all Prof.profile_id p.(PS.profiles) ∅ |>
    <| Impl.incarnations := store_all Inc.incarnation_id (demote <$> p.(PS.incarnations)) ∅ |>
    <| Impl.evidence := store_evidence (expire <$> p.(PS.evidence)) ∅ |>
    <| Impl.replacement_plans := store_all Repl.replacement_id p.(PS.replacements) ∅ |>
    <| Impl.cost_history := p.(PS.cost_history) |>
    <| Impl.current_by_engine := ∅ |>
    <| Impl.id_inc := 1000000 |> <| Impl.id_evid := 1000000 |> <| Impl.id_use := 1000000 |>
    <| Impl.id_attempt := 1000000 |> <| Impl.id_plan := 1000000 |>
    <| Impl.id_activation := 1000000 |> <| Impl.id_slot := 1000000 |>
    <| Impl.id_repl := 1000000 |> <| Impl.id_permit := 1000000 |>.

Definition load (blob : Bytes) : Run () :=
  match deserialize_persistent_state blob with
  | Throw err => throw_error PersistenceCorrupt err
  | Ok p =>
    throw_error_if (negb (p.(PS.version) =? kPersistenceVersion))
      PersistenceUnsupportedVersion "unsupported version";;
    modify (restore p)
  end.

(** ** Restored tables *)

Lemma store_all_app {K V} `{Countable K} (key : V → K) l x m :
  store_all key (l ++ [x]) m = <[key x := x]> (store_all key l m).
Proof. by rw /store_all foldl_snoc. Qed.

Lemma store_all_elem {K V} `{Countable K} (key : V → K) l k x :
  store_all key l ∅ !! k = Some x → x ∈ l ∧ key x = k.
Proof.
  induction l as [|y l IH] using rev_ind; [by rw lookup_empty|]. rw store_all_app.
  destruct (decide (key y = k)) as [<-|Hne].
  - rw lookup_insert_eq. intros [= <-]. split; [set_solver|done].
  - rw lookup_insert_ne //. intros Hx. destruct (IH Hx). set_solver.
Qed.

Lemma store_all_lookup {K V} `{Countable K} (key : V → K) l x :
  NoDup (key <$> l) → x ∈ l → store_all key l ∅ !! key x = Some x.
Proof.
  induction l as [|y l IH] using rev_ind; [set_solver|]. rw store_all_app fmap_app.
  intros (Hnd & Hdis & _)%NoDup_app [Hl| ->%list_elem_of_singleton]%elem_of_app.
  - rw lookup_insert_ne; [by apply IH|]. intros Heq. apply (Hdis (key x)); [set_solver|].
    rw -Heq. set_solver.
  - by rw lookup_insert_eq.
Qed.

Lemma store_all_some {K V} `{Countable K} (key : V → K) l x : x ∈ l → is_Some (store_all key l ∅ !! key x).
Proof.
  induction l as [|y l IH] using rev_ind; [set_solver|]. rw store_all_app.
  intros [Hl| ->%list_elem_of_singleton]%elem_of_app; [|rw lookup_insert_eq; by eexists].
  destruct (decide (key y = key x)) as [Heq|Hne]; [rw Heq lookup_insert_eq; by eexists|].
  rw lookup_insert_ne //. by apply IH.
Qed.

(** A table filed by its keys is restored whatever the iteration order. *)
Lemma store_all_iteration `{HashOrder} {K V} `{Countable K} (key : V → K) (f : V → V) (m : gmap K V) :
  map_Forall (λ k x, key x = k) m → (∀ x, key (f x) = key x) →
  store_all key (f <$> (snd <$> iteration m)) ∅ = f <$> m.
Proof.
  intros Hkey Hf.
  assert (key <$> (f <$> (snd <$> iteration m)) = (iteration m).*1) as Hkeys.
  { rw -!list_fmap_compose. apply list_fmap_ext. intros i [k x] Hi. simpl. rw Hf.
    apply Hkey. apply elem_of_iteration. by eapply list_elem_of_lookup_2. }
  apply map_eq. intros k. apply option_eq. intros x. split.
  - intros [Hx <-]%store_all_elem.
    apply list_elem_of_fmap in Hx as (y & -> & Hy).
    apply list_elem_of_fmap in Hy as ([k' y'] & -> & Hy). apply elem_of_iteration in Hy.
    by rw lookup_fmap Hf /= (Hkey _ _ Hy) Hy.
  - rw lookup_fmap. intros (y & Hy & ->)%fmap_Some. rw -(Hkey _ _ Hy) -(Hf y).
    apply store_all_lookup; [rw Hkeys; apply NoDup_iteration_keys|].
    apply list_elem_of_fmap. eexists. split; [reflexivity|].
    apply list_elem_of_fmap. exists (k, y). split; [done|]. by apply elem_of_iteration.
Qed.

Lemma store_all_id `{HashOrder} {K V} `{Countable K} (key : V → K) (m : gmap K V) :
  map_Forall (λ k x, key x = k) m → store_all key (snd <$> iteration m) ∅ = m.
Proof.
  intros Hkey. pose proof (store_all_iteration key id m Hkey (λ _, eq_refl)) as Hm.
  by rw list_fmap_id map_fmap_id in Hm.
Qed.

(** ** Evidence is regrouped as it was *)

Lemma store_evidence_lookup l m k :
  default [] (store_evidence l m !! k)
  = default [] (m !! k) ++ filter (λ e, e.(Ev.incarnation_id) = k) l.
Proof.
  revert m. induction l as [|e l IH]; intros m; [by rw /= app_nil_r|].
  rw /store_evidence /= -/(store_evidence l _) IH filter_cons.
  destruct (decide (e.(Ev.incarnation_id) = k)) as [<-|Hne].
  - by rw lookup_insert_eq /= -app_assoc.
  - by rw lookup_insert_ne.
Qed.

Lemma filter_same_key k (g : list ComponentEvidence) :
  Forall (λ e, e.(Ev.incarnation_id) = k) g → filter (λ e, e.(Ev.incarnation_id) = k) g = g.
Proof. induction 1 as [|e g He _ IH]; [done|]. by rw filter_cons_True // IH. Qed.
Lemma filter_other_key j k (g : list ComponentEvidence) :
  j ≠ k → Forall (λ e, e.(Ev.incarnation_id) = j) g →
  filter (λ e, e.(Ev.incarnation_id) = k) g = [].
Proof. intros Hne. induction 1 as [|e g He _ IH]; [done|]. rw filter_cons_False //. congruence. Qed.

Lemma filter_groups (l : list (EngineIncarnationId * list ComponentEvidence)) k :
  NoDup l.*1 → Forall (λ kl, Forall (λ e, e.(Ev.incarnation_id) = kl.1) kl.2) l →
  filter (λ e, e.(Ev.incarnation_id) = k) (concat l.*2)
  = default [] ((list_to_map l : gmap _ _) !! k).
Proof.
  induction l as [|[j g] l IH]; intros Hnd Hall; [done|].
  apply NoDup_cons in Hnd as [Hj Hnd]. apply Forall_cons in Hall as [Hg Hall].
  rw /= filter_app IH //. simpl in Hg. destruct (decide (j = k)) as [<-|Hne].
  - by rw lookup_insert_eq /= not_elem_of_list_to_map_1 // app_nil_r filter_same_key.
  - by rw lookup_insert_ne // (filter_other_key j k).
Qed.

Lemma filter_expire k (l : list ComponentEvidence) :
  filter (λ e, e.(Ev.incarnation_id) = k) (expire <$> l)
  = expire <$> filter (λ e, e.(Ev.incarnation_id) = k) l.
Proof.
  induction l as [|e l IH]; [done|]. rw fmap_cons !filter_cons IH /=. by case_decide.
Qed.

(** ** Effects *)

Lemma load_effect blob s :
  wp (load blob)
    (λ _ s', ∃ p, deserialize_persistent_state blob = Ok p ∧ s' = restore p s)
    (λ e s', s' = s ∧ ∃ err, deserialize_persistent_state blob = Throw err ∧
       e = DomainError PersistenceCorrupt err) s.
Proof.
  rw /load. destruct (deserialize_persistent_state blob) as [p|err] eqn:Hd.
  - apply wp_bind, wp_throw_if; intros Hv; [exfalso|by apply wp_modify; exists p].
    apply deserialize_accepted in Hd as [_ _ _ Hb].
    destruct (sound_body _ _ _ Hb) as (_ & _ & (Hver & _) & _). by rw Hver in Hv.
  - apply wp_throw. split; [done|by exists err].
Qed.

Lemma restored_incarnation p s k i :
  (restore p s).(Impl.incarnations) !! k = Some i → ∃ j, j ∈ p.(PS.incarnations) ∧ i = demote j.
Proof. intros [(j & -> & Hj)%list_elem_of_fmap _]%store_all_elem. by exists j. Qed.

Lemma restored_evidence p s k :
  evidence_of k (restore p s)
  = expire <$> filter (λ e, e.(Ev.incarnation_id) = k) p.(PS.evidence).
Proof. by rw /evidence_of /= store_evidence_lookup lookup_empty /= filter_expire. Qed.

Lemma serialize_effect `{HashOrder} s blob s' :
  serialize s = (Ok blob, s') →
  s' = s ∧ serialize_persistent_state (persistent_image s) = Ok blob.
Proof.
  rw /serialize /gets /mbind /M_bind.
  by destruct (serialize_persistent_state _); intros [= <- <-].
Qed.
