(* ===== verification/Transitions.v ===== *)
(** * The runtime as a transition system

    [Op] names an operation of the facade with its arguments, [step] runs one,
    [loaded] replaces the live state by a saved one, and what both reach is
    [arises], or [reachable] where the counters of identities are bounded.  The lemmas and tactics here let an invariant's
    proof visit only the operations that touch what it is about. *)

From S2P Require Import Prelude Identities Enums Model Readiness Economics Standby Persistence Runtime Loading.
Local Open Scope N_scope.

(** ** Operations as data

    Every operation that changes the live state, but for [load], which replaces
    it and is a transition of its own below. *)

Inductive Op :=
  | DefineEngine (def : EngineDefinition)
  | UpdateEngineConfig (engine_id : EngineId) (new_gen : EngineConfigGeneration) (reason : string)
  | DefineProfile (profile : ReadinessProfile)
  | IssueRegistrationPermit (w : WorkerId) (b : WorkerBootId) (src : SourceId) (src_boot : SourceBootId)
  | RegisterIncarnation (inc : EngineIncarnation) (permit : RegistrationPermit)
  | MarkRunning (inc_id : EngineIncarnationId)
  | Revalidate (inc_id : EngineIncarnationId)
  | FenceWorker (w : WorkerId) (b : WorkerBootId) (reason : string)
  | AdvanceEpoch
  | PublishComponent (ev : ComponentEvidence)
  | EvaluateReadiness (inc_id : EngineIncarnationId) (prof_id : ReadinessProfileId)
  | CreatePreparationPlan (inc_id : EngineIncarnationId) (prof_id : ReadinessProfileId)
      (target : DesiredResidency.t)
  | BeginPreparation (plan : PreparationPlan)
  | StepPreparation (attempt_id : PreparationAttemptId)
  | CompletePreparation (attempt_id : PreparationAttemptId)
  | CancelPreparation (attempt_id : PreparationAttemptId) (reason : string)
  | RollbackPreparation (attempt_id : PreparationAttemptId) (reason : string)
  | ReconcileStandby (policy : StandbyPoolPolicy)
  | Activate (req : ActivationRequest)
  | AcquireServingUse (wanted : ServingUseToken) (caller : string)
  | ReleaseServingUse (token : ServingUseToken) (outcome : WorkOutcome.t) (detail : string)
  | RequestDrain (inc_id : EngineIncarnationId)
  | AcknowledgeBackendCleanup (inc_id : EngineIncarnationId)
  | BeginReplacement (plan : ReplacementPlan)
  | CommitCutover (rid : ReplacementId)
  | RetireOld (rid : ReplacementId)
  | InvalidateIncarnationComponents (inc_id : EngineIncarnationId) (reason : string)
  | AggregateRecoveryCost (components : list CostComponent) (action : RecoveryAction.t)
      (model : string).

Definition discard {A} (m : Run A) : Run () := m;; mret ().

Section transitions.
Context `{Ord : HashOrder}.

Definition run_op (o : Op) : Run () :=
  match o with
  | DefineEngine def => discard (EngineResidency.define_engine def)
  | UpdateEngineConfig e g r => EngineResidency.update_engine_config e g r
  | DefineProfile p => discard (EngineResidency.define_profile p)
  | IssueRegistrationPermit w b s sb =>
    discard (EngineResidency.issue_registration_permit w b s sb)
  | RegisterIncarnation i p => discard (EngineResidency.register_incarnation i p)
  | MarkRunning i => EngineResidency.mark_running i
  | Revalidate i => EngineResidency.revalidate i
  | FenceWorker w b r => EngineResidency.fence_worker w b r
  | AdvanceEpoch => discard EngineResidency.advance_epoch
  | PublishComponent ev => discard (EngineResidency.publish_component ev)
  | EvaluateReadiness i p => discard (EngineResidency.evaluate_readiness i p)
  | CreatePreparationPlan i p t => discard (EngineResidency.create_preparation_plan i p t)
  | BeginPreparation p => discard (EngineResidency.begin_preparation p)
  | StepPreparation a => discard (EngineResidency.step_preparation a)
  | CompletePreparation a => discard (EngineResidency.complete_preparation a)
  | CancelPreparation a r => EngineResidency.cancel_preparation a r
  | RollbackPreparation a r => EngineResidency.rollback_preparation a r
  | ReconcileStandby p => discard (EngineResidency.reconcile_standby p)
  | Activate r => discard (EngineResidency.activate r)
  | AcquireServingUse w c => discard (EngineResidency.acquire_serving_use w c)
  | ReleaseServingUse t o d => EngineResidency.release_serving_use t o d
  | RequestDrain i => EngineResidency.request_drain i
  | AcknowledgeBackendCleanup i => EngineResidency.acknowledge_backend_cleanup i
  | BeginReplacement p => discard (EngineResidency.begin_replacement p)
  | CommitCutover r => discard (EngineResidency.commit_cutover r)
  | RetireOld r => discard (EngineResidency.retire_old r)
  | InvalidateIncarnationComponents i r => EngineResidency.invalidate_incarnation_components i r
  | AggregateRecoveryCost c a m => discard (EngineResidency.aggregate_recovery_cost c a m)
  end.
End transitions.

(** One operation, under any iteration order of the hash maps. *)
Definition step (s s' : Impl.t) : Prop := ∃ (Ord : HashOrder) o, (run_op o s).2 = s'.

(** ** Histories

    [load] puts every counter of identities back to a constant, whatever
    identities the live tables hold.  A history therefore bounds the counters by
    an index [n], which an operation raises by one and a load leaves at that
    constant, and admits a load while [n] has not passed it. *)

Definition load_base : N := 1000000.

(** Which saved states a history may load, and in which state. *)
Definition Policy := PersistentState → Impl.t → Prop.
Definition any : Policy := λ _ _, True.
Definition none : Policy := λ _ _, False.

(** A successful load of a blob the policy allows. *)
Definition loaded (L : Policy) (s s' : Impl.t) : Prop :=
  ∃ blob p, deserialize_persistent_state blob = Ok p ∧ L p s ∧ load blob s = (Ok tt, s').

(** [reachable_under L init n s]: [s] is reached from a start state of [init] by
    operations and by loads that [L] allows. *)
Inductive reachable_under (L : Policy) (init : N → Impl.t → Prop) : N → Impl.t → Prop :=
  | reachable_init n s : init n s → reachable_under L init n s
  | reachable_step n s s' :
    reachable_under L init n s → n + 2 < 2 ^ 64 → step s s' → reachable_under L init (n + 1) s'
  | reachable_load n s s' :
    reachable_under L init n s → n <= load_base → loaded L s s' → reachable_under L init load_base s'.
Arguments reachable_init {L} init n s.
Arguments reachable_step {L} init n s s'.
Arguments reachable_load {L} init n s s'.
Abbreviation reachable := (reachable_under any).

(** What happens from [s] on. *)
Inductive runs_under (L : Policy) : N → Impl.t → N → Impl.t → Prop :=
  | runs_refl n s : runs_under L n s n s
  | runs_step n s n' s' s'' :
    runs_under L n s n' s' → n' + 2 < 2 ^ 64 → step s' s'' → runs_under L n s (n' + 1) s''
  | runs_load n s n' s' s'' :
    runs_under L n s n' s' → n' <= load_base → loaded L s' s'' → runs_under L n s load_base s''.
Arguments runs_refl {L} n s.
Arguments runs_step {L} n s n' s' s''.
Arguments runs_load {L} n s n' s' s''.
Abbreviation runs := (runs_under any).

Lemma loaded_restore L s s' : loaded L s s' → ∃ p, L p s ∧ s' = restore p s.
Proof.
  intros (blob & p & Hd & Hp & Hrun).
  destruct (wp_ok _ _ _ _ _ _ (load_effect blob s) Hrun) as (p' & Hd' & ->).
  exists p. split; [done|]. congruence.
Qed.
Lemma loaded_mono (L L' : Policy) s s' :
  (∀ p, L p s → L' p s) → loaded L s s' → loaded L' s s'.
Proof. intros H (blob & p & Hd & Hp & Hrun). exists blob, p. auto. Qed.

Lemma reachable_mono (L L' : Policy) init n s :
  (∀ p s, L p s → L' p s) → reachable_under L init n s → reachable_under L' init n s.
Proof.
  intros HL. induction 1 as [n s H|n s s' _ IH Hn Hs|n s s' _ IH Hn Hl]; [by apply reachable_init|..].
  - by eapply reachable_step.
  - eapply reachable_load; [done..|]. eapply loaded_mono; [|exact Hl]. auto.
Qed.
Lemma runs_mono (L L' : Policy) n s n' s' :
  (∀ p s, L p s → L' p s) → runs_under L n s n' s' → runs_under L' n s n' s'.
Proof.
  intros HL. induction 1 as [n s|n s n' s' s'' _ IH Hn Hs|n s n' s' s'' _ IH Hn Hl]; [apply runs_refl|..].
  - by eapply runs_step.
  - eapply runs_load; [done..|]. eapply loaded_mono; [|exact Hl]. auto.
Qed.
Lemma reachable_any L init n s : reachable_under L init n s → reachable init n s.
Proof. by apply reachable_mono. Qed.

Lemma reachable_runs L init n s n' s' :
  reachable_under L init n s → runs_under L n s n' s' → reachable_under L init n' s'.
Proof.
  intros Hr. induction 1 as [n s|n s n' s' s'' _ IH|n s n' s' s'' _ IH]; [done|..]; specialize (IH Hr).
  - by eapply reachable_step.
  - by eapply reachable_load.
Qed.

(** Any number of operations and loads, for what does not depend on fresh
    identities and so needs no index. *)
Definition history (L : Policy) : Impl.t → Impl.t → Prop := rtc (λ s s', step s s' ∨ loaded L s s').

(** A freshly constructed runtime; the bounds are [std::uint32_t]. *)
Definition opts_wf (o : RuntimeOptions) : Prop := o.(Opts.max_active_uses) < 2 ^ 32.
Definition created (n : N) (s : Impl.t) : Prop :=
  n = 0 ∧ ∃ c o, opts_wf o ∧ s = EngineResidency.create c o.

(** ** Preservation, primitive by primitive *)

Section preservation.
Context (I : Impl.t → Prop).

Lemma preserves_ret {A} (a : A) : preserves I (mret a : Run A).
Proof. by intros s Hs. Qed.
Lemma preserves_bind {A B} (m : Run A) (k : A → Run B) :
  preserves I m → (∀ a, preserves I (k a)) → preserves I (m ≫= k).
Proof.
  intros Hm Hk s Hs. apply wp_bind. eapply wp_mono; [| |by apply Hm]; [|done].
  intros a s' Hs'. by apply Hk.
Qed.
(** A bind that remembers what its first part found. *)
Lemma preserves_gets_bind {A B} (f : Impl.t → A) (k : A → Run B) :
  (∀ s, I s → preserves I (k (f s))) → preserves I (gets f ≫= k).
Proof. intros Hk s Hs. apply wp_bind, wp_gets. by apply (Hk s Hs). Qed.
Lemma preserves_found_bind {A B} (o : option A) code msg (k : A → Run B) :
  (∀ a, o = Some a → preserves I (k a)) → preserves I (found o code msg ≫= k).
Proof. intros Hk s Hs. destruct o as [a|]; [by apply (Hk a)|done]. Qed.
Lemma preserves_throw_error_if_bind {B} c code msg (k : () → Run B) :
  (c = false → preserves I (k ())) → preserves I (throw_error_if c code msg ≫= k).
Proof. intros Hk s Hs. destruct c; [done|]. by apply (Hk eq_refl). Qed.
Lemma preserves_next_bind {t B} (g : Generation t) (k : Generation t → Run B) :
  (gen_raw g ≠ 2 ^ 64 - 1 → preserves I (k (mkGen (gen_raw g + 1)))) →
  preserves I (Generation.next g ≫= k).
Proof. intros Hk s Hs. apply wp_bind, wp_next; [done|]. intros Hg. by apply (Hk Hg). Qed.
Lemma preserves_gets {A} (f : Impl.t → A) : preserves I (gets f : Run A).
Proof. by intros s Hs. Qed.
Lemma preserves_throw {A} e : preserves I (throw e : Run A).
Proof. by intros s Hs. Qed.
Lemma preserves_throw_error_if c code msg : preserves I (throw_error_if c code msg : Run ()).
Proof. intros s Hs. by apply wp_throw_if. Qed.
Lemma preserves_found {A} (o : option A) code msg : preserves I (found o code msg : Run A).
Proof. destruct o; [apply preserves_ret|apply preserves_throw]. Qed.
Lemma preserves_next {t} (g : Generation t) : preserves I (Generation.next g : Run _).
Proof. intros s Hs. by apply wp_next. Qed.
Lemma preserves_find_inc id : preserves I (find_inc id).
Proof. apply preserves_gets. Qed.
Lemma preserves_engines_at id : preserves I (engines_at id).
Proof.
  apply preserves_bind; [apply preserves_gets|].
  intros []; [apply preserves_ret|apply preserves_throw].
Qed.
Lemma preserves_require_current o : preserves I (EngineResidency.require_current o).
Proof.
  apply preserves_bind; [apply preserves_found|intros a].
  apply preserves_bind; [apply preserves_throw_error_if|intros []; apply preserves_ret].
Qed.
Lemma preserves_require_running o : preserves I (EngineResidency.require_running o).
Proof.
  apply preserves_bind; [apply preserves_found|intros a].
  apply preserves_bind; [apply preserves_throw_error_if|intros []; apply preserves_ret].
Qed.
Lemma preserves_require_current_bind {B} o (k : EngineIncarnation → Run B) :
  (∀ a, o = Some a → preserves I (k a)) →
  preserves I (EngineResidency.require_current o ≫= k).
Proof.
  intros Hk s Hs. destruct o as [a|]; [|done]. specialize (Hk a eq_refl s Hs). revert Hk.
  rw /EngineResidency.require_current /wp /mbind /M_bind /=. by destruct (negb _).
Qed.
Lemma preserves_require_running_bind {B} o (k : EngineIncarnation → Run B) :
  (∀ a, o = Some a → preserves I (k a)) →
  preserves I (EngineResidency.require_running o ≫= k).
Proof.
  intros Hk s Hs. destruct o as [a|]; [|done]. specialize (Hk a eq_refl s Hs). revert Hk.
  rw /EngineResidency.require_running /wp /mbind /M_bind /=. by destruct (negb _).
Qed.
Lemma preserves_modify f : (∀ s, I s → I (f s)) → preserves I (modify f : Run ()).
Proof. intros H s Hs. by apply wp_modify, H. Qed.
Lemma preserves_for_each {A} (f : A → Run ()) l :
  (∀ x, x ∈ l → preserves I (f x)) → preserves I (for_each f l).
Proof. intros Hf s Hs. by apply wp_for_each. Qed.
Lemma preserves_now_ns :
  (∀ s c, I s → I (s <| Impl.clock := c |>)) → preserves I now_ns.
Proof. intros H s Hs. by apply H. Qed.
End preservation.

#[export] Hint Resolve preserves_ret preserves_gets preserves_throw preserves_throw_error_if
  preserves_found preserves_next preserves_find_inc preserves_engines_at
  preserves_require_current preserves_require_running : residency.

(** Everything but the clock is left alone by the readiness evaluations. *)
Section clock_only.
Context (I : Impl.t → Prop) (Hclock : ∀ s c, I s → I (s <| Impl.clock := c |>)).

Lemma preserves_readiness_now d p inc id : preserves I (readiness_now d p inc id).
Proof.
  apply preserves_bind; [apply preserves_gets|intros ev].
  apply preserves_bind; [by apply preserves_now_ns|intros t; apply preserves_ret].
Qed.

Lemma preserves_best_readiness policy ir profs best :
  preserves I (EngineResidency.best_readiness policy ir profs best).
Proof.
  revert best; induction profs as [|[? p] profs IH]; intros best; [apply preserves_ret|].
  cbn [EngineResidency.best_readiness]. destruct (negb _); [apply IH|].
  apply preserves_bind; [apply preserves_engines_at|intros def].
  apply preserves_bind; [apply preserves_readiness_now|intros r].
  destruct (Res.outcome r); first [apply preserves_ret|apply IH].
Qed.

Lemma preserves_sweep `{Ord : HashOrder} policy incs w :
  preserves I (EngineResidency.sweep policy incs w).
Proof.
  revert w; induction incs as [|[? ir] incs IH]; intros w; [apply preserves_ret|].
  cbn [EngineResidency.sweep]. destruct (negb _); [apply IH|].
  destruct (EngineResidency.is_lost ir); [apply IH|]. destruct (bool_decide _); [apply IH|].
  apply preserves_bind; [apply preserves_gets|intros profs].
  apply preserves_bind; [apply preserves_best_readiness|intros best]. apply IH.
Qed.
End clock_only.

Create HintDb runtime_ops.
#[export] Hint Unfold discard EngineResidency.define_engine EngineResidency.update_engine_config
  EngineResidency.invalidate_for_engine EngineResidency.define_profile
  EngineResidency.issue_registration_permit EngineResidency.register_incarnation
  EngineResidency.mark_running EngineResidency.revalidate EngineResidency.fence_worker
  EngineResidency.advance_epoch EngineResidency.publish_component
  EngineResidency.evaluate_readiness EngineResidency.create_preparation_plan
  EngineResidency.begin_preparation EngineResidency.step_preparation
  EngineResidency.complete_preparation EngineResidency.cancel_preparation
  EngineResidency.rollback_preparation EngineResidency.reconcile_standby
  EngineResidency.activate EngineResidency.claim_slot EngineResidency.acquire_serving_use
  EngineResidency.release_serving_use EngineResidency.settle_drain
  EngineResidency.request_drain EngineResidency.acknowledge_backend_cleanup
  EngineResidency.begin_replacement EngineResidency.commit_cutover EngineResidency.retire_old
  EngineResidency.invalidate_incarnation_components EngineResidency.aggregate_recovery_cost
  ensure_epoch bump_readiness erase_active_attempt : runtime_ops.

(** Decompose [preserves I m]: what is left are the writes that [I] sees.
    A write to other fields leaves [I] convertible. *)
Ltac write_elsewhere :=
  intros ? ?; match goal with H : _ |- _ => exact H end.
Ltac clock_elsewhere :=
  intros ? ? ?; match goal with H : _ |- _ => exact H end.
Ltac preserve_step :=
  match goal with
  | |- preserves _ (gets _ ≫= _) => apply preserves_gets_bind; intros ? ?
  | |- preserves _ (find_inc _ ≫= _) => apply preserves_gets_bind; intros ? ?
  | |- preserves _ (found _ _ _ ≫= _) => apply preserves_found_bind; intros ? ?
  | |- preserves _ (EngineResidency.require_current _ ≫= _) =>
    apply preserves_require_current_bind; intros ? ?
  | |- preserves _ (EngineResidency.require_running _ ≫= _) =>
    apply preserves_require_running_bind; intros ? ?
  | |- preserves _ (throw_error_if _ _ _ ≫= _) => apply preserves_throw_error_if_bind; intros ?
  | |- preserves _ (Generation.next _ ≫= _) => apply preserves_next_bind; intros ?
  | |- preserves _ (mbind _ _) => apply preserves_bind; [|intros ?]
  | |- preserves _ (for_each _ _) => apply preserves_for_each; intros ? ?
  | |- preserves _ (modify _) => apply preserves_modify; write_elsewhere
  | |- preserves _ (set_inc _ _) => apply preserves_modify; write_elsewhere
  | |- preserves _ (set_attempt _ _) => apply preserves_modify; write_elsewhere
  | |- preserves _ (set_drain _ _) => apply preserves_modify; write_elsewhere
  | |- preserves _ now_ns => apply preserves_now_ns; clock_elsewhere
  | |- preserves _ (readiness_now _ _ _ _) => apply preserves_readiness_now; clock_elsewhere
  | |- preserves _ (EngineResidency.sweep _ _ _) => apply preserves_sweep; clock_elsewhere
  | |- preserves _ _ => solve [eauto 2 with residency]
  | |- preserves _ (match ?x with _ => _ end) => destruct x eqn:?
  end.
(** [tac] takes care of the writes the invariant sees. *)
Ltac preserve_with tac :=
  autounfold with runtime_ops; cbv zeta;
  repeat (first [progress tac | preserve_step]; cbv beta zeta).
Ltac preserve := preserve_with fail.

(** Transport along [reachable]. *)
Lemma preserved_step (I : Impl.t → Prop) :
  (∀ (Ord : HashOrder) o, preserves I (run_op o)) → ∀ s s', step s s' → I s → I s'.
Proof. intros H s s' (Ord & o & <-) Hs. by apply preserves_run. Qed.

(** ** Symbolic execution *)

Lemma wp_found {A} (o : option A) code msg (Q : A → Impl.t → Prop) X s :
  (∀ a, o = Some a → Q a s) → (o = None → X (DomainError code msg) s) →
  wp (found o code msg) Q X s.
Proof. destruct o; rw /wp /=; auto. Qed.
Lemma wp_now_ns (Q : N → Impl.t → Prop) X s :
  (∀ t c, Clock.source c = Clock.source s.(Impl.clock) →
    t = Clock.source s.(Impl.clock) (Clock.reads s.(Impl.clock)) →
    Q t (s <| Impl.clock := c |>)) →
  wp now_ns Q X s.
Proof. intros H. by apply H. Qed.
Lemma wp_readiness_now d p inc id (Q : ReadinessResult → Impl.t → Prop) X s :
  (∀ t c, t = Clock.source s.(Impl.clock) (Clock.reads s.(Impl.clock)) →
    Q (evaluate_readiness d p inc (evidence_of id s) t) (s <| Impl.clock := c |>)) →
  wp (readiness_now d p inc id) Q X s.
Proof. intros H. by apply H. Qed.
Lemma wp_engines_at id (Q : EngineDefinition → Impl.t → Prop) X s :
  (∀ d, s.(Impl.engines) !! id = Some d → Q d s) →
  (s.(Impl.engines) !! id = None → X StdOutOfRange s) →
  wp (engines_at id) Q X s.
Proof.
  intros H1 H2. rw /engines_at. apply wp_bind, wp_gets.
  destruct (_ !! _); [by apply H1|by apply wp_throw, H2].
Qed.

Lemma wp_conj {A} (m : Run A) (Q Q' : A → Impl.t → Prop) (X X' : Exn → Impl.t → Prop) s :
  wp m Q X s → wp m Q' X' s → wp m (λ a s, Q a s ∧ Q' a s) (λ e s, X e s ∧ X' e s) s.
Proof. rw /wp. by destruct (m s) as [[]]. Qed.

(** The operation does not succeed from [s]. *)
Definition rejected {A} (m : Run A) (s : Impl.t) : Prop := ∀ a s', m s ≠ (Ok a, s').

Lemma wp_rejected {A} (m : Run A) s : wp m (λ _ _, False) (λ _ _, True) s → rejected m s.
Proof. intros Hwp a s' Hm. exact (wp_ok _ _ _ _ _ _ Hwp Hm). Qed.

(** The only possible outcome. *)
Lemma wp_throws {A} (m : Run A) s e s' :
  wp m (λ _ _, False) (λ e' s'', e' = e ∧ s'' = s') s → m s = (Throw e, s').
Proof. rw /wp. by destruct (m s) as [[|] ?]; [|intros [-> ->]]. Qed.
Lemma wp_returns {A} (m : Run A) s a s' :
  wp m (λ a' s'', a' = a ∧ s'' = s') (λ _ _, False) s → m s = (Ok a, s').
Proof. rw /wp. by destruct (m s) as [[|] ?]; [intros [-> ->]|]. Qed.

Ltac wp_step :=
  match goal with
  | |- wp (mbind _ _) _ _ _ => apply wp_bind
  | |- wp (mret _) _ _ _ => apply wp_ret
  | |- wp (gets _) _ _ _ => apply wp_gets
  | |- wp (find_inc _) _ _ _ => apply wp_gets
  | |- wp (modify _) _ _ _ => apply wp_modify
  | |- wp (set_inc _ _) _ _ _ => apply wp_modify
  | |- wp (set_attempt _ _) _ _ _ => apply wp_modify
  | |- wp (set_drain _ _) _ _ _ => apply wp_modify
  | |- wp (throw_error_if _ _ _) _ _ _ => apply wp_throw_if; intros ?
  | |- wp (throw_error _ _) _ _ _ => apply wp_throw
  | |- wp (throw _) _ _ _ => apply wp_throw
  | |- wp (found _ _ _) _ _ _ => apply wp_found; [intros ? ?|intros ?]
  | |- wp (Generation.next _) _ _ _ => apply wp_next; [intros ? ?|intros ?]
  | |- wp now_ns _ _ _ => apply wp_now_ns; intros ? ? ? ?
  | |- wp (readiness_now _ _ _ _) _ _ _ => apply wp_readiness_now; intros ? ? ?
  | |- wp (engines_at _) _ _ _ => apply wp_engines_at; [intros ? ?|intros ?]
  | |- wp (EngineResidency.require_current _) _ _ _ => rw /EngineResidency.require_current
  | |- wp (EngineResidency.require_running _) _ _ _ => rw /EngineResidency.require_running
  | |- wp (match ?x with _ => _ end) _ _ _ => destruct x eqn:?
  end.
(** [tac] closes the branches that cannot happen as soon as they open. *)
Ltac wp_go_with tac :=
  autounfold with runtime_ops; cbv zeta;
  repeat (first [solve [tac]|wp_step; cbv beta zeta]).
Ltac wp_go := wp_go_with fail.
(** Two readings of the same untouched test disagree. *)
Ltac absurd_test := idtac;
  match goal with
  | H : ?a = true, H' : ?b = false |- _ => exfalso; exact (eq_true_false_abs _ H H')
  end.

Lemma preserved_runs L (I : Impl.t → Prop) :
  (∀ (Ord : HashOrder) o, preserves I (run_op o)) → (∀ p s, L p s → I s → I (restore p s)) →
  ∀ n s n' s', runs_under L n s n' s' → I s → I s'.
Proof.
  intros H Hload n s n' s'. induction 1 as [|n s n' s' s'' _ IH _ Hs|n s n' s' s'' _ IH _ Hl]; [done|..]; intros HI.
  - eapply preserved_step; eauto.
  - apply loaded_restore in Hl as (p & Hp & ->). auto.
Qed.

Lemma preserved_history L (I : Impl.t → Prop) :
  (∀ (Ord : HashOrder) o, preserves I (run_op o)) → (∀ p s, L p s → I s → I (restore p s)) →
  ∀ s s', history L s s' → I s → I s'.
Proof.
  intros H Hload. induction 1 as [s|s s' s'' [Hs|Hl] _ IH]; [done|..]; intros HI; apply IH.
  - eapply preserved_step; eauto.
  - apply loaded_restore in Hl as (p & Hp & ->). auto.
Qed.

(** A state that some history leads to. *)
Definition arises (s : Impl.t) : Prop := ∃ n s0, created n s0 ∧ history any s0 s.

Lemma arises_invariant (I : Impl.t → Prop) :
  (∀ n s, created n s → I s) →
  (∀ (Ord : HashOrder) o, preserves I (run_op o)) → (∀ p s, I s → I (restore p s)) →
  ∀ s, arises s → I s.
Proof.
  intros Hinit Hop Hload s (n & s0 & H0 & Hs).
  eapply (preserved_history any I); [exact Hop|intros p t _; apply Hload|exact Hs|by eapply Hinit].
Qed.
Lemma reachable_arises L n s : reachable_under L created n s → arises s.
Proof.
  assert (∀ s s', arises s → step s s' ∨ loaded any s s' → arises s') as Hnext.
  { intros t t' (m & s0 & H0 & Ht) Hstep. exists m, s0. split; [done|]. by eapply rtc_r. }
  induction 1 as [n s H|n s s' _ IH _ Hs|n s s' _ IH _ Hl].
  - exists n, s. split; [done|apply rtc_refl].
  - eapply Hnext; [exact IH|by left].
  - eapply Hnext; [exact IH|]. right. eapply loaded_mono; [|exact Hl]. done.
Qed.

(** The same with the help of an invariant [J] of the reachable states; what
    happens from [s] on may load less. *)
Lemma preserved_runs_using (L L' : Policy) (init J : N → Impl.t → Prop) (I : Impl.t → Prop) :
  (∀ p s, L' p s → L p s) →
  (∀ n s, reachable_under L init n s → J n s) →
  (∀ (Ord : HashOrder) o n s, n + 2 < 2 ^ 64 → J n s → I s →
    wp (run_op o) (λ _, I) (λ _, I) s) →
  (∀ p n s, n <= load_base → L' p s → J n s → I s → I (restore p s)) →
  ∀ n s n' s', reachable_under L init n s → runs_under L' n s n' s' → I s → I s'.
Proof.
  intros HL HJ Hstep Hload n s n' s' Hr Hruns.
  induction Hruns as [|n s n' s' s'' Hruns IH Hn (Ord & o & <-)|n s n' s' s'' Hruns IH Hn Hl]; [done|..];
    intros Hs; specialize (IH Hr Hs);
    pose proof (HJ _ _ (reachable_runs _ _ _ _ _ _ Hr (runs_mono _ _ _ _ _ _ HL Hruns))) as Hj.
  - specialize (Hstep Ord o n' s' Hn Hj IH). rw /wp in Hstep. by destruct (run_op o s') as [[]].
  - apply loaded_restore in Hl as (p & Hp & ->). by eapply Hload.
Qed.

(** An invariant indexed by the bound on the counters. *)
Definition advances {A} (I : N → Impl.t → Prop) (m : Run A) : Prop :=
  ∀ n s, n + 2 < 2 ^ 64 → I n s → wp m (λ _, I (n + 1)) (λ _, I (n + 1)) s.

Lemma preserves_advances {A} (I : N → Impl.t → Prop) (m : Run A) :
  (∀ n s, I n s → I (n + 1) s) → (∀ n, preserves (I n) m) → advances I m.
Proof.
  intros Hmono Hm n s _ Hs. eapply wp_mono; [| |by apply (Hm n)]; intros; by apply Hmono.
Qed.

Lemma reachable_invariant L (init I : N → Impl.t → Prop) :
  (∀ n s, init n s → I n s) →
  (∀ (Ord : HashOrder) o, advances I (run_op o)) →
  (∀ p n s, n <= load_base → L p s → I n s → I load_base (restore p s)) →
  ∀ n s, reachable_under L init n s → I n s.
Proof.
  intros Hinit Hstep Hload n s. induction 1 as [n s H|n s s' _ IH Hn (Ord & o & <-)|n s s' _ IH Hn Hl]; [by apply Hinit|..].
  - specialize (Hstep Ord o n s Hn IH). rw /wp in Hstep. by destruct (run_op o s) as [[]].
  - apply loaded_restore in Hl as (p & Hp & ->). by eapply Hload.
Qed.

Lemma reachable_invariant_using L (init I J : N → Impl.t → Prop) :
  (∀ n s, reachable_under L init n s → J n s) → (∀ n s, init n s → I n s) →
  (∀ (Ord : HashOrder) o n s, n + 2 < 2 ^ 64 → J n s → I n s →
    wp (run_op o) (λ _, I (n + 1)) (λ _, I (n + 1)) s) →
  (∀ p n s, n <= load_base → L p s → J n s → I n s → I load_base (restore p s)) →
  ∀ n s, reachable_under L init n s → I n s.
Proof.
  intros HJ Hinit Hstep Hload n s.
  induction 1 as [n s H|n s s' Hr IH Hn (Ord & o & <-)|n s s' Hr IH Hn Hl]; [by apply Hinit|..].
  - specialize (Hstep Ord o n s Hn (HJ n s Hr) IH). rw /wp in Hstep. by destruct (run_op o s) as [[]].
  - apply loaded_restore in Hl as (p & Hp & ->). by eapply Hload; [..|apply HJ|].
Qed.

Lemma created_counters n s (f : Impl.t → N) :
  created n s → (∀ c o, f (EngineResidency.create c o) = 0) → f s ≤ n.
Proof. intros [-> (c & o & _ & ->)] H. by rw H. Qed.

(** ** A first use: the options never change *)

Lemma run_op_opts `{HashOrder} o os : preserves (λ s, s.(Impl.opts) = os) (run_op o).
Proof. destruct o; cbn [run_op]; preserve. Qed.

(** ** Concrete histories *)

Section histories.
Context `{Ord : HashOrder}.

Definition run_ops (l : list Op) (s : Impl.t) : Impl.t := foldl (λ s o, (run_op o s).2) s l.

Lemma run_ops_snoc l o s : run_ops (l ++ [o]) s = (run_op o (run_ops l s)).2.
Proof. by rw /run_ops foldl_snoc. Qed.

Lemma run_ops_history {L} l s : history L s (run_ops l s).
Proof.
  induction l as [|o l IH] using rev_ind; [apply rtc_refl|]. rw run_ops_snoc.
  eapply rtc_r; [exact IH|]. left. by exists Ord, o.
Qed.
Lemma run_ops_runs {L} l n s :
  n + N.of_nat (length l) + 2 < 2 ^ 64 → runs_under L n s (n + N.of_nat (length l)) (run_ops l s).
Proof.
  rw /run_ops. induction l as [|o l IH] using rev_ind; intros Hn.
  - rw N.add_0_r. apply runs_refl.
  - rw foldl_snoc length_app Nat2N.inj_add N.add_assoc. rw length_app /= in Hn.
    apply (runs_step _ _ _ (run_ops l s)); [apply IH; lia|lia|by exists Ord, o].
Qed.

Lemma run_ops_reachable {L} l c o :
  opts_wf o → N.of_nat (length l) + 2 < 2 ^ 64 →
  reachable_under L created (N.of_nat (length l)) (run_ops l (EngineResidency.create c o)).
Proof.
  intros Ho Hl. eapply reachable_runs; [apply reachable_init; split; [done|by exists c, o]|].
  rw -{1}(N.add_0_l (N.of_nat _)). by apply run_ops_runs.
Qed.
End histories.
