(* ===== verification/Scenario.v ===== *)
(** * A running example

    The reference engine with one prepared incarnation, as a history of
    operations from the constructor: the input of the witnesses. *)

From S2P Require Import Prelude Identities Enums Model Reference Readiness Runtime Transitions.
Local Open Scope N_scope.

Definition demo_clock : Clock := Clock.stopped 100.
Definition demo_start : Impl.t := EngineResidency.create demo_clock RuntimeOptions.default.

(** The reference incarnation of a worker boot and a permit by number. *)
Definition demo_incarnation (w b : N) : EngineIncarnation :=
  EngineIncarnation.default
    <| Inc.engine_id := mkId 1 |> <| Inc.engine_generation := mkGen 1 |>
    <| Inc.worker_id := mkId w |> <| Inc.worker_boot := mkGen b |>.
Definition demo_permit (p : N) : RegistrationPermit :=
  RegistrationPermit.default <| Permit.permit_id := mkId p |>.

Definition demo_define : list Op :=
  [DefineEngine reference_definition; DefineProfile reference_profile].
Definition demo_register (w b p : N) : list Op :=
  [IssueRegistrationPermit (mkId w) (mkGen b) (mkId 1) (mkGen 1);
   RegisterIncarnation (demo_incarnation w b) (demo_permit p)].
(** Register a worker as the incarnation [i] and publish its evidence. *)
Definition demo_worker (w b p i : N) : list Op :=
  demo_register w b p
    ++ (PublishComponent <$> example_bundle (mkId i) (mkGen 1)) ++ [MarkRunning (mkId i)].
Definition demo_prepare : list Op := demo_define ++ demo_worker 1 1 2 2.

(** One incarnation, 2, running and READY. *)
Definition demo_ready : Impl.t := run_ops demo_prepare demo_start.
(** Two incarnations, 2 and 3, running and READY; 2 is current. *)
Definition demo_pair : Impl.t := run_ops (demo_prepare ++ demo_worker 2 1 3 3) demo_start.

(** The token a client of incarnation [i] at readiness generation [g] asks with. *)
Definition demo_token (i g : N) : ServingUseToken :=
  ServingUseToken.default
    <| Tok.incarnation_id := mkId i |> <| Tok.profile_id := mkId 1 |>
    <| Tok.readiness_generation := mkGen g |>.

(** The state the example operation [o] leaves, and whether it succeeded. *)
Definition succeeds (o : Op) (s : Impl.t) : bool :=
  match run_op o s with
  | (Ok _, _) => true
  | (Throw _, _) => false
  end.
Definition throws (o : Op) (s : Impl.t) : option ErrorCode :=
  match run_op o s with
  | (Throw (DomainError c _), _) => Some c
  | _ => None
  end.

Definition use_op (i g : N) : Op := AcquireServingUse (demo_token i g) "client".

Example demo_ready_serves : succeeds (use_op 2 1) demo_ready = true.
Proof. vm_compute. reflexivity. Qed.
Example demo_pair_second_not_current : throws (use_op 3 1) demo_pair = Some StaleIncarnation.
Proof. vm_compute. reflexivity. Qed.
Example demo_start_unknown : throws (use_op 2 1) demo_start = Some UnknownIncarnation.
Proof. vm_compute. reflexivity. Qed.

Lemma demo_reachable {L} l :
  N.of_nat (length l) + 2 < 2 ^ 64 → reachable_under L created (N.of_nat (length l)) (run_ops l demo_start).
Proof. intros H. apply run_ops_reachable; [done|exact H]. Qed.

Lemma demo_ready_reachable {L} : reachable_under L created 12 demo_ready.
Proof. apply (demo_reachable demo_prepare). vm_compute. reflexivity. Qed.
Lemma demo_pair_reachable {L} : reachable_under L created 22 demo_pair.
Proof. apply (demo_reachable (demo_prepare ++ demo_worker 2 1 3 3)). vm_compute. reflexivity. Qed.
