(* ===== verification/Tables.v ===== *)
(** * Tables filed by their keys

    Every engine, profile, incarnation and replacement plan is filed under its
    own identity, and every evidence under the incarnation it names, whatever
    operations and loads came before. *)

From S2P Require Import Prelude Identities Enums Model Readiness Economics Standby Runtime.
From S2P Require Import Loading Transitions.
Local Open Scope N_scope.

Definition keyed (s : Impl.t) : Prop :=
  map_Forall (λ k d, d.(Def.engine_id) = k) s.(Impl.engines) ∧
  map_Forall (λ k p, p.(Prof.profile_id) = k) s.(Impl.profiles) ∧
  map_Forall (λ k l, Forall (λ e, e.(Ev.incarnation_id) = k) l) s.(Impl.evidence) ∧
  map_Forall (λ k p, p.(Repl.replacement_id) = k) s.(Impl.replacement_plans) ∧
  map_Forall (λ k i, i.(Inc.incarnation_id) = k) s.(Impl.incarnations).

Lemma map_Forall_alter {K V} `{Countable K} (P : K → V → Prop) f (m : gmap K V) k :
  (∀ x, P k x → P k (f x)) → map_Forall P m → map_Forall P (alter f k m).
Proof.
  intros Hf Hm j x. destruct (decide (k = j)) as [<-|Hne].
  - rw lookup_alter_eq. intros (y & Hy & ->)%fmap_Some. by apply Hf, Hm.
  - rw lookup_alter_ne //. apply Hm.
Qed.

Lemma map_Forall_fmap_2 {K V} `{Countable K} (P : K → V → Prop) f (m : gmap K V) :
  (∀ k x, P k x → P k (f x)) → map_Forall P m → map_Forall P (f <$> m).
Proof. intros Hf Hm k x. rw lookup_fmap. intros (y & Hy & ->)%fmap_Some. by apply Hf, Hm. Qed.

Lemma keyed_replacement s k p :
  keyed s → s.(Impl.replacement_plans) !! k = Some p → p.(Repl.replacement_id) = k.
Proof. intros (_ & _ & _ & H & _) Hp. exact (H k p Hp). Qed.
Lemma keyed_lookup s k i :
  keyed s → s.(Impl.incarnations) !! k = Some i → i.(Inc.incarnation_id) = k.
Proof. intros (_ & _ & _ & _ & H) Hi. exact (H k i Hi). Qed.

Lemma fence_incarnation_id w b i :
  (EngineResidency.fence_incarnation w b i).(Inc.incarnation_id) = i.(Inc.incarnation_id).
Proof. rw /EngineResidency.fence_incarnation. by destruct (_ && _). Qed.
Lemma require_revalidation_id i :
  (EngineResidency.require_revalidation i).(Inc.incarnation_id) = i.(Inc.incarnation_id).
Proof. rw /EngineResidency.require_revalidation. by destruct (bool_decide _). Qed.

Ltac keyed_write := idtac;
  match goal with
  | |- preserves keyed (set_inc _ _) =>
    apply preserves_modify; intros ? (? & ? & ? & ? & ?); split_and!; simpl;
    first [assumption|by apply map_Forall_alter]
  | |- preserves keyed (modify _) =>
    apply preserves_modify; intros ? (? & ? & ? & ? & ?); split_and!; simpl;
    first [assumption|apply map_Forall_insert_2; [|assumption]|apply map_Forall_alter; [|assumption]
          |apply map_Forall_fmap_2; [|assumption]; intros ? ?;
             first [by rw fence_incarnation_id|by rw require_revalidation_id]]
  end.

Lemma run_op_keyed `{HashOrder} o : preserves keyed (run_op o).
Proof.
  destruct o; cbn [run_op]; try (preserve; fail); preserve_with keyed_write; try done.
  - apply Forall_app. split; [|by repeat constructor].
    match goal with H : map_Forall _ ?m |- Forall _ (default [] (?m !! ?k)) =>
      destruct (m !! k) as [l|] eqn:Hl; [exact (H k l Hl)|done] end.
  - match goal with H : keyed ?s, Hp : Impl.replacement_plans ?s !! rid = Some _ |- _ =>
      exact (keyed_replacement _ _ _ H Hp) end.
  - match goal with H : keyed ?s, Hp : Impl.replacement_plans ?s !! rid = Some _ |- _ =>
      exact (keyed_replacement _ _ _ H Hp) end.
  - intros l Hl. by apply Forall_fmap.
Qed.

(** A load files everything it restores. *)
Lemma store_evidence_keyed l m :
  map_Forall (λ k l, Forall (λ e, e.(Ev.incarnation_id) = k) l) m →
  map_Forall (λ k l, Forall (λ e, e.(Ev.incarnation_id) = k) l) (store_evidence l m).
Proof.
  revert m. induction l as [|e l IH]; intros m Hm; [done|]. apply IH, map_Forall_insert_2; [|done].
  apply Forall_app. split; [|by repeat constructor].
  destruct (m !! _) as [l'|] eqn:Hl; [exact (Hm _ _ Hl)|done].
Qed.
Lemma restore_keyed p s : keyed (restore p s).
Proof.
  split_and!; cbn; try (intros k x; by intros [_ ?]%store_all_elem).
  by apply store_evidence_keyed, map_Forall_empty.
Qed.

Lemma arises_keyed s : arises s → keyed s.
Proof.
  apply arises_invariant; [by intros ?? [-> (c & o & _ & ->)]|intros; apply run_op_keyed
                          |intros; apply restore_keyed].
Qed.
Lemma reachable_keyed L n s : reachable_under L created n s → keyed s.
Proof. intros Hr. by eapply arises_keyed, reachable_arises. Qed.
