(* ===== verification/Helpers.v ===== *)
(** * Diagnostics and small predicates

    The names of the error codes and the one-line predicates the runtime's
    small translation units export. *)

From stdpp Require Import pretty.
From S2P Require Import Prelude Identities Enums Model Runtime.
Local Open Scope N_scope.

(** ** [errors.hpp] *)

(** [(int)code]: the enumerators are numbered from 0. *)
Definition ErrorCode_to_int (c : ErrorCode) : N :=
  match c with
  | None_ => 0 | InvalidArgument => 1 | InvalidState => 2 | StaleAuthority => 3
  | StaleIncarnation => 4 | StaleGeneration => 5 | StaleEpoch => 6 | UnknownIncarnation => 7
  | UnknownEngine => 8 | UnknownProfile => 9 | UnknownSlot => 10 | UnknownUse => 11
  | UnknownAttempt => 12 | NotCurrentAuthority => 13 | RegistrationRejected => 14 | FencedWorker => 15
  | DrainInProgress => 16 | ActivationConflict => 17 | ActivationRequired => 18 | UseConflict => 19
  | UseAfterDrain => 20 | UseOverflow => 21 | DuplicateRelease => 22 | StandbyConflict => 23
  | CapacityExhausted => 24 | PlanStale => 25 | AttemptCancelled => 26 | AttemptFailed => 27
  | RollbackRequired => 28 | IncarnationGone => 29 | ProcessLost => 30 | BackendMissing => 31
  | BackendError => 32 | GraphInvalid => 33 | KernelMissing => 34 | ModelMissing => 35
  | AdapterMismatch => 36 | KvCapacityInsufficient => 37 | IncompatibleProfile => 38 | DependencyInvalidated => 39
  | PersistenceCorrupt => 40 | PersistenceUnsupportedVersion => 41 | PersistenceRejected => 42 | GenerationExhausted => 43
  | BoundsExceeded => 44 | ProtocolError => 45 | FrameMalformed => 46 | ChecksumMismatch => 47
  | NotPermitted => 48 | NotSupported => 49 | NotFound => 50 | Internal => 51
  end.

Definition ErrorCode_to_string (c : ErrorCode) : string :=
  match c with
  | None_ => "None"
  | InvalidArgument => "InvalidArgument"
  | InvalidState => "InvalidState"
  | StaleAuthority => "StaleAuthority"
  | StaleIncarnation => "StaleIncarnation"
  | StaleGeneration => "StaleGeneration"
  | StaleEpoch => "StaleEpoch"
  | UnknownIncarnation => "UnknownIncarnation"
  | UnknownEngine => "UnknownEngine"
  | UnknownProfile => "UnknownProfile"
  | UnknownSlot => "UnknownSlot"
  | UnknownUse => "UnknownUse"
  | UnknownAttempt => "UnknownAttempt"
  | NotCurrentAuthority => "NotCurrentAuthority"
  | RegistrationRejected => "RegistrationRejected"
  | FencedWorker => "FencedWorker"
  | DrainInProgress => "DrainInProgress"
  | ActivationConflict => "ActivationConflict"
  | ActivationRequired => "ActivationRequired"
  | UseConflict => "UseConflict"
  | UseAfterDrain => "UseAfterDrain"
  | UseOverflow => "UseOverflow"
  | DuplicateRelease => "DuplicateRelease"
  | StandbyConflict => "StandbyConflict"
  | CapacityExhausted => "CapacityExhausted"
  | PlanStale => "PlanStale"
  | AttemptCancelled => "AttemptCancelled"
  | AttemptFailed => "AttemptFailed"
  | RollbackRequired => "RollbackRequired"
  | IncarnationGone => "IncarnationGone"
  | ProcessLost => "ProcessLost"
  | BackendMissing => "BackendMissing"
  | BackendError => "BackendError"
  | GraphInvalid => "GraphInvalid"
  | KernelMissing => "KernelMissing"
  | ModelMissing => "ModelMissing"
  | AdapterMismatch => "AdapterMismatch"
  | KvCapacityInsufficient => "KvCapacityInsufficient"
  | IncompatibleProfile => "IncompatibleProfile"
  | DependencyInvalidated => "DependencyInvalidated"
  | PersistenceCorrupt => "PersistenceCorrupt"
  | PersistenceUnsupportedVersion => "PersistenceUnsupportedVersion"
  | PersistenceRejected => "PersistenceRejected"
  | GenerationExhausted => "GenerationExhausted"
  | BoundsExceeded => "BoundsExceeded"
  | ProtocolError => "ProtocolError"
  | FrameMalformed => "FrameMalformed"
  | ChecksumMismatch => "ChecksumMismatch"
  | NotPermitted => "NotPermitted"
  | NotSupported => "NotSupported"
  | NotFound => "NotFound"
  | Internal => "Internal"
  end.

(** The names tell the codes apart: a client that is sent the name of an
    error, as the sessions do, knows the code. *)
Lemma ErrorCode_to_string_inj c c' : ErrorCode_to_string c = ErrorCode_to_string c' → c = c'.
Proof. destruct c, c'; first [reflexivity|discriminate]. Qed.

(** ** [identities.hpp] *)

Definition ProcessId_is_valid (p : ProcessId) : bool := negb (p.(pid) =? 0).
Definition ProcessId_eqb (a b : ProcessId) : bool :=
  (a.(pid) =? b.(pid)) && (a.(start_seconds) =? b.(start_seconds)) && String.eqb a.(label) b.(label).

Lemma ProcessId_eqb_eq a b : ProcessId_eqb a b = true ↔ a = b.
Proof.
  rw /ProcessId_eqb !andb_true_iff !N.eqb_eq String.eqb_eq. destruct a, b; simpl.
  split; [by intros [[-> ->] ->]|by intros [= -> -> ->]].
Qed.

(** ** [activation.cpp], [drain.cpp] *)

Definition activation_is_serving (r : ActivationRecord) : bool :=
  bool_decide (r.(Act.state) = ActivationState.ACTIVE) && r.(Act.current).
Definition drain_admission_fenced (d : DrainState) : bool := d.(Drn.admission_fenced).

(** ** [authority.cpp], [adapters.cpp] *)

Definition advance_epoch_monotonic {S} (current : CoordinatorEpoch) : M S Exn CoordinatorEpoch :=
  Generation.next current.
Definition apply_adapter_stub (ev : ComponentEvidence) : ComponentEvidence := ev.

(** ** [components.cpp], [registry.cpp] *)

Definition describe_component (e : ComponentEvidence) : string :=
  (e.(Ev.subject) ++ ":" ++ ComponentState.to_string e.(Ev.state))%string.

Definition describe_incarnation_authority (i : EngineIncarnation) : string :=
  ("incarnation=" ++ pretty (Identity.raw i.(Inc.incarnation_id))
    ++ (if i.(Inc.is_current) then " CURRENT" else "")
    ++ " worker=" ++ pretty (Identity.raw i.(Inc.worker_id))
    ++ " boot=" ++ pretty (Generation.raw i.(Inc.worker_boot))
    ++ " epoch=" ++ pretty (Generation.raw i.(Inc.coordinator_epoch)))%string.

(** ** [definition.cpp] *)

Definition validate_engine_definition (d : EngineDefinition) : bool :=
  if negb (Identity.is_valid d.(Def.engine_id)) then false
  else if (0 <? d.(Def.standby_target)) && negb d.(Def.standby_eligible) then false
  else if d.(Def.graph_required) && d.(Def.graph_optional_fallback) then false
  else true.
Definition validate_profile_definition (p : ReadinessProfile) (d : EngineDefinition) : bool :=
  Identity.eqb p.(Prof.engine_id) d.(Def.engine_id).
