(* ===== verification/Incarnations.v ===== *)
(** * Incarnations: identity and evolution

    Invariants of the incarnation table: every incarnation is filed under its
    own id, ids are never reused, what identifies an incarnation never
    changes, and its readiness generation only grows. *)

From S2P Require Import Prelude Identities Enums Model Readiness Economics Standby Persistence Runtime.
From S2P Require Import Loading Transitions Scenario Tables.
Local Open Scope N_scope.

(** ** Filing *)

Definition filed (n : N) (s : Impl.t) : Prop :=
  s.(Impl.id_inc) <= n ∧
  map_Forall (λ k i, i.(Inc.incarnation_id) = k ∧ id_raw k <= s.(Impl.id_inc) + 1)
    s.(Impl.incarnations).

Lemma filed_mono n s : filed n s → filed (n + 1) s.
Proof. intros []. split; [lia|done]. Qed.

Lemma filed_lookup n s k i :
  filed n s → s.(Impl.incarnations) !! k = Some i → i.(Inc.incarnation_id) = k.
Proof. intros [_ H] Hk. by apply (H k i Hk). Qed.

Lemma filed_set_inc n id f :
  (∀ i, (f i).(Inc.incarnation_id) = i.(Inc.incarnation_id)) → preserves (filed n) (set_inc id f).
Proof.
  intros Hf. apply preserves_modify. intros s [Hc Hi]. split; [done|].
  intros k i; simpl. intros [(<- & j & Hj & ->)|[Hne Hk]]%lookup_alter_Some; [|by apply Hi].
  rw Hf. by apply Hi.
Qed.

Lemma filed_fmap n f :
  (∀ i, (f i).(Inc.incarnation_id) = i.(Inc.incarnation_id)) →
  preserves (filed n) (modify (λ s, s <| Impl.incarnations ::= fmap f |>) : Run ()).
Proof.
  intros Hf. apply preserves_modify. intros s [Hc Hi]. split; [done|].
  intros k i; simpl. intros (j & <- & Hj)%lookup_fmap_Some. rw Hf. by apply Hi.
Qed.

Ltac filed_write := idtac;
  match goal with
  | |- preserves (filed _) (set_inc _ _) => apply filed_set_inc; done
  | |- preserves (filed _) (modify _) =>
    apply filed_fmap; first [apply fence_incarnation_id|apply require_revalidation_id]
  end.

(** What a registration does to the table. *)
Lemma filed_insert n s s' k i :
  filed n s → n + 2 < 2 ^ 64 →
  s'.(Impl.id_inc) = u64 (s.(Impl.id_inc) + 1) → k = mkId (u64 (s'.(Impl.id_inc) + 1)) →
  i.(Inc.incarnation_id) = k →
  s'.(Impl.incarnations) = <[k := i]> s.(Impl.incarnations) → filed (n + 1) s'.
Proof.
  intros [Hc Hi] Hn Hid Hk <- Hincs. rw u64_small in Hid; [|lia]. rw Hid u64_small in Hk; [|lia].
  split; rw Hid; [lia|]. rw Hincs. apply map_Forall_insert_2; [split; [done|]; rw Hk /=; lia|].
  eapply map_Forall_impl; [done|]. intros k' j [? ?]. split; [done|lia].
Qed.

Lemma filed_fresh n s :
  filed n s → n + 2 < 2 ^ 64 →
  s.(Impl.incarnations) !! mkId (u64 (u64 (s.(Impl.id_inc) + 1) + 1)) = None.
Proof.
  intros [Hc Hi] Hn. rw !u64_small; [|lia..]. apply eq_None_not_Some. intros [i Hk].
  apply Hi in Hk as [_ Hk]. simpl in Hk. lia.
Qed.

Lemma filed_advances `{HashOrder} o : advances filed (run_op o).
Proof.
  destruct o; cbn [run_op];
    try (apply preserves_advances; [apply filed_mono|intros n; preserve_with filed_write; fail]).
  intros n s Hn Hs. wp_go; try (apply filed_mono; exact Hs).
  all: eapply (filed_insert n s); [exact Hs|exact Hn| | | |reflexivity]; reflexivity.
Qed.

(** A saved state whose incarnations all have identities below those the next
    registrations get; every state saved before the counter passes
    [load_base] is one. *)
Definition low_identities : Policy := λ p _,
  Forall (λ i, id_raw i.(Inc.incarnation_id) <= load_base + 1) p.(PS.incarnations).

Lemma filed_restore p n s : n <= load_base → low_identities p s → filed n s → filed load_base (restore p s).
Proof.
  intros _ Hp _. split; [reflexivity|]. cbn. intros k i ((j & -> & Hj)%list_elem_of_fmap & Hk)%store_all_elem.
  split; [exact Hk|]. rw -Hk. apply (proj1 (Forall_forall _ _) Hp j Hj).
Qed.
Lemma filed_reachable L init n s :
  (∀ p s, L p s → low_identities p s) → (∀ n s, init n s → filed n s) →
  reachable_under L init n s → filed n s.
Proof.
  intros HL Hinit. apply reachable_invariant; [done|intros; apply filed_advances|].
  intros p n' s' Hn Hp. by apply filed_restore, HL.
Qed.

Lemma created_filed n s : created n s → filed n s.
Proof. intros [-> (c & o & _ & ->)]. split; [done|]. by intros k i Hk. Qed.
Lemma created_reachable_filed L n s :
  (∀ p s, L p s → low_identities p s) → reachable_under L created n s → filed n s.
Proof. intros HL. apply filed_reachable; [done|apply created_filed]. Qed.
Lemma low_filed n s : reachable_under low_identities created n s → filed n s.
Proof. by apply created_reachable_filed. Qed.

(** What is saved before the counter passes [load_base] has low identities. *)
Lemma saved_low_identities `{HashOrder} n s t :
  filed n s → n <= load_base → low_identities (persistent_image s) t.
Proof.
  intros [Hc Hi] Hn. apply Forall_forall. cbn. intros i ([k j] & -> & Hk%elem_of_iteration)%list_elem_of_fmap.
  cbn. destruct (Hi k j Hk) as [-> Hle]. lia.
Qed.

(** ** Evolution *)

(** What never changes about an incarnation. *)
Definition frozen (i : EngineIncarnation) : EngineIncarnation :=
  i <| Inc.state := StateSet.default |> <| Inc.readiness_generation := gen0 |>
    <| Inc.is_current := false |> <| Inc.last_activity_ns := 0 |>.

Definition evolves (i j : EngineIncarnation) : Prop :=
  frozen i = frozen j ∧
  gen_raw i.(Inc.readiness_generation) <= gen_raw j.(Inc.readiness_generation).

Definition tracks (k : EngineIncarnationId) (i : EngineIncarnation) (s : Impl.t) : Prop :=
  ∃ j, s.(Impl.incarnations) !! k = Some j ∧ evolves i j.

Lemma evolves_refl i : evolves i i.
Proof. done. Qed.

Lemma tracks_lookup k i s j :
  tracks k i s → s.(Impl.incarnations) !! k = Some j → evolves i j.
Proof. intros (j' & Hj & He) Hj'. by simplify_eq. Qed.

Section tracking.
Context (k : EngineIncarnationId) (i : EngineIncarnation).

Lemma tracks_alter id f s :
  (∀ j, id = k → evolves i j → evolves i (f j)) → tracks k i s →
  tracks k i (s <| Impl.incarnations ::= alter f id |>).
Proof.
  intros Hf (j & Hj & He). rw /tracks /=. destruct (decide (id = k)) as [-> |Hne].
  - exists (f j). split; [by rw lookup_alter_eq Hj|by apply Hf].
  - exists j. by rw lookup_alter_ne.
Qed.
Lemma tracks_set_inc id f :
  (∀ j, evolves j (f j)) → preserves (tracks k i) (set_inc id f).
Proof.
  intros Hf. apply preserves_modify. intros s. apply tracks_alter. intros j _ [He Hle].
  destruct (Hf j) as [He' Hle']. split; [congruence|lia].
Qed.
Lemma tracks_bump id inc s :
  tracks k i s → s.(Impl.incarnations) !! id = Some inc →
  preserves (tracks k i) (set_inc id (λ j, j <| Inc.readiness_generation :=
    mkGen (gen_raw inc.(Inc.readiness_generation) + 1) |>)).
Proof.
  intros Ht Hinc. apply preserves_modify. intros s'. apply tracks_alter.
  intros j -> [He _]. destruct (tracks_lookup _ _ _ _ Ht Hinc) as [_ Hle].
  split; [exact He|simpl; lia].
Qed.
Lemma tracks_fmap f :
  (∀ j, evolves j (f j)) →
  preserves (tracks k i) (modify (λ s, s <| Impl.incarnations ::= fmap f |>) : Run ()).
Proof.
  intros Hf. apply preserves_modify. intros s (j & Hj & He & Hle). exists (f j).
  destruct (Hf j) as [He' Hle']. rw /= lookup_fmap Hj. split; [done|]. split; [congruence|lia].
Qed.
End tracking.

Lemma evolves_fence w b j : evolves j (EngineResidency.fence_incarnation w b j).
Proof. rw /EngineResidency.fence_incarnation. by destruct (_ && _). Qed.
Lemma evolves_revalidation j : evolves j (EngineResidency.require_revalidation j).
Proof. rw /EngineResidency.require_revalidation. by destruct (bool_decide _). Qed.

Ltac tracks_write := idtac;
  match goal with
  | |- preserves (tracks _ _) (set_inc _ _) => apply tracks_set_inc; done
  | |- preserves (tracks _ _) (set_inc _ _) => eapply tracks_bump; [|eassumption]; eassumption
  | H : ?kv ∈ iteration _, Ht : tracks _ _ _ |- preserves (tracks _ _) (set_inc _ _) =>
    destruct kv; apply (tracks_bump _ _ _ _ _ Ht), elem_of_iteration; exact H
  | |- preserves (tracks _ _) (modify _) =>
    apply tracks_fmap; first [apply evolves_fence|apply evolves_revalidation]
  end.

Lemma run_op_tracks `{HashOrder} o k i n s :
  n + 2 < 2 ^ 64 → filed n s → tracks k i s → wp (run_op o) (λ _, tracks k i) (λ _, tracks k i) s.
Proof.
  intros Hn Hf. revert s Hf. destruct o; intros s Hf; cbn [run_op]; try
    (match goal with
     | |- _ → wp ?m _ _ _ => cut (preserves (tracks k i) m); [by auto|]
     end; preserve_with tracks_write; fail).
  intros (j & Hj & He). wp_go; exists j; (split; [|exact He]); try exact Hj.
  all: refine (eq_trans (lookup_insert_ne _ _ _ _ _) Hj); intros E.
  all: assert (Impl.incarnations s !! k = None) by (subst k; exact (filed_fresh n s Hf Hn)).
  all: congruence.
Qed.

(** Until the next load. *)
Lemma tracks_runs n s n' s' k i :
  reachable_under low_identities created n s → runs_under none n s n' s' → tracks k i s → tracks k i s'.
Proof.
  eapply (preserved_runs_using low_identities none created filed).
  - by intros ?? [].
  - apply low_filed.
  - intros. by eapply run_op_tracks.
  - by intros ???? [].
Qed.

(** An incarnation is a fixed thing: once registered it stays in the table
    under its own id through every later operation but a load, everything that
    identifies it (engine, worker, boot, source, epoch and authority of its
    registration, device, process) never changes, and its readiness
    generation never goes back. *)
Theorem incarnation_identity_permanent n s n' s' k i :
  reachable_under low_identities created n s → runs_under none n s n' s' → s.(Impl.incarnations) !! k = Some i →
  i.(Inc.incarnation_id) = k ∧
  ∃ i', s'.(Impl.incarnations) !! k = Some i' ∧ frozen i' = frozen i ∧
    gen_raw i.(Inc.readiness_generation) <= gen_raw i'.(Inc.readiness_generation).
Proof.
  intros Hr Hruns Hi. split; [by apply (filed_lookup n s), Hi; apply low_filed|].
  destruct (tracks_runs n s n' s' k i Hr Hruns) as (i' & Hi' & He & Hle).
  - by exists i.
  - by exists i'.
Qed.

Definition demo_later : list Op :=
  [InvalidateIncarnationComponents (mkId 2) "reload"; FenceWorker (mkId 1) (mkGen 1) "lost"].

Lemma incarnation_identity_permanent_witness :
  ∃ i i', demo_ready.(Impl.incarnations) !! mkId 2 = Some i ∧
    (run_ops demo_later demo_ready).(Impl.incarnations) !! mkId 2 = Some i' ∧
    frozen i' = frozen i.
Proof.
  assert (runs_under none 12 demo_ready 14 (run_ops demo_later demo_ready)) as Hruns
    by (apply (run_ops_runs demo_later 12); vm_compute; reflexivity).
  destruct (demo_ready.(Impl.incarnations) !! mkId 2) as [i|] eqn:Hi; [|by vm_compute in Hi].
  destruct (incarnation_identity_permanent 12 demo_ready 14 _ (mkId 2) i demo_ready_reachable Hruns Hi)
    as (_ & i' & Hi' & He & _).
  exists i, i'. split; [reflexivity|]. by split.
Defined.
