(* ===== verification/Authority.v ===== *)
(** * Authority: epochs, permits and fencing

    The coordinator epoch and authority generation only grow; a permit admits
    at most one registration; a fenced worker boot stays rejected; advancing
    the epoch suspends every running incarnation. *)

From S2P Require Import Prelude Identities Enums Model Reference Readiness Persistence Runtime.
From S2P Require Import Loading Transitions Scenario Tables Incarnations.
Local Open Scope N_scope.

(** The constructor has started the epoch: [ensure_epoch] does nothing. *)
Ltac restarted Hs :=
  match goal with
  | H : negb (Impl.epoch_started _) = true |- _ => exfalso; rw Hs in H; discriminate H
  end.

(** ** Monotone authority *)

Definition authority_at (e a : N) (s : Impl.t) : Prop :=
  s.(Impl.epoch_started) = true ∧
  e <= gen_raw s.(Impl.authority).(Auth.epoch) ∧
  a <= gen_raw s.(Impl.authority).(Auth.authority).

Ltac authority_write := idtac;
  match goal with
  | |- preserves (authority_at _ _) (modify _) =>
    apply preserves_modify; intros ? [? [? ?]]; unfold authority_at in *; simpl in *;
    repeat match goal with
      | H : _ ∧ _ |- _ => destruct H
      | H : negb _ = true |- _ => apply negb_true_iff in H
      end;
    first [congruence|split; [done|]; lia]
  end.

Lemma run_op_authority `{HashOrder} e a o : preserves (authority_at e a) (run_op o).
Proof. destruct o; cbn [run_op]; preserve_with authority_write. Qed.

Lemma created_started n s : created n s → s.(Impl.epoch_started) = true.
Proof. by intros [-> (c & o & _ & ->)]. Qed.

Lemma or_one_positive n : 1 <= or_one n.
Proof. rw /or_one. destruct (N.ltb_spec 0 n); lia. Qed.
Lemma restore_authority_least p s : authority_at 1 1 (restore p s).
Proof. split; [done|]. split; apply or_one_positive. Qed.
Lemma arises_authority s : arises s → authority_at 1 1 s.
Proof.
  apply arises_invariant; [by intros ?? [-> (c & o & _ & ->)]|intros; apply run_op_authority
                          |intros; apply restore_authority_least].
Qed.
Lemma reachable_authority L n s : reachable_under L created n s → authority_at 1 1 s.
Proof. intros Hr. by eapply arises_authority, reachable_arises. Qed.

(** A saved state whose epoch and authority are not behind the live ones. *)
Definition no_older : Policy := λ p s,
  gen_raw s.(Impl.authority).(Auth.epoch) <= or_one p.(PS.coordinator_epoch) ∧
  gen_raw s.(Impl.authority).(Auth.authority) <= or_one p.(PS.authority_generation).

Lemma restore_authority_at e a p s : no_older p s → authority_at e a s → authority_at e a (restore p s).
Proof. intros [He Ha] (_ & He' & Ha'). split; [done|]. cbn. lia. Qed.

(** C14. The coordinator's authority is monotone: from whatever state any
    operations and loads lead to, across any number of operations, failed ones
    included, and of loads of states that are not behind the live one, neither
    the epoch nor the authority generation ever goes back; a successful
    [advance_epoch] raises both by exactly one without wrapping; and a
    successful [load] sets both to what the blob says, 1 for 0, whatever they
    were, so that a load of an older state is the one way back. *)
Theorem authority_monotone s s' :
  arises s → history no_older s s' →
  (gen_raw s.(Impl.authority).(Auth.epoch) <= gen_raw s'.(Impl.authority).(Auth.epoch) ∧
   gen_raw s.(Impl.authority).(Auth.authority) <= gen_raw s'.(Impl.authority).(Auth.authority)) ∧
  (∀ e s'', EngineResidency.advance_epoch s' = (Ok e, s'') →
    gen_raw s''.(Impl.authority).(Auth.epoch) = gen_raw s'.(Impl.authority).(Auth.epoch) + 1 ∧
    gen_raw s''.(Impl.authority).(Auth.authority)
    = gen_raw s'.(Impl.authority).(Auth.authority) + 1 ∧
    e = s''.(Impl.authority).(Auth.epoch)) ∧
  ∀ blob s'', load blob s' = (Ok tt, s'') →
    ∃ p, deserialize_persistent_state blob = Ok p ∧
      gen_raw s''.(Impl.authority).(Auth.epoch) = or_one p.(PS.coordinator_epoch) ∧
      gen_raw s''.(Impl.authority).(Auth.authority) = or_one p.(PS.authority_generation).
Proof.
  intros Hs0 Hruns. destruct (arises_authority s Hs0) as [Hs _].
  destruct (preserved_history no_older (authority_at (gen_raw s.(Impl.authority).(Auth.epoch))
    (gen_raw s.(Impl.authority).(Auth.authority)))) with (3 := Hruns) as (Hs' & He & Ha).
  { intros. apply run_op_authority. }
  { intros p t. apply restore_authority_at. }
  { split; [done|lia]. }
  split; [done|]. split; [|by intros blob s'' (p & Hp & ->)%(wp_ok _ _ _ _ _ _ (load_effect blob s')); exists p].
  intros e s''.
  assert (wp EngineResidency.advance_epoch (λ e s'',
    gen_raw s''.(Impl.authority).(Auth.epoch) = gen_raw s'.(Impl.authority).(Auth.epoch) + 1 ∧
    gen_raw s''.(Impl.authority).(Auth.authority)
    = gen_raw s'.(Impl.authority).(Auth.authority) + 1 ∧
    e = s''.(Impl.authority).(Auth.epoch)) (λ _ _, True) s') as Hwp.
  { wp_go; try done. by rw Hs' in Heqb. }
  intros Hrun. exact (wp_ok _ _ _ _ _ _ Hwp Hrun).
Qed.

Lemma authority_monotone_witness :
  gen_raw (run_ops [AdvanceEpoch] demo_ready).(Impl.authority).(Auth.epoch) = 2.
Proof.
  destruct (authority_monotone demo_ready demo_ready) as (_ & H & _);
    [apply (reachable_arises any 12), demo_ready_reachable|done|].
  destruct (H (mkGen 2) (run_ops [AdvanceEpoch] demo_ready)) as [-> _].
  - vm_compute. reflexivity.
  - vm_compute. reflexivity.
Defined.

(** ** Fencing *)

Lemma is_fenced_spec w b s :
  is_fenced w b s = true ↔ ∃ boots, s.(Impl.fenced) !! w = Some boots ∧ b ∈ boots.
Proof.
  rw /is_fenced. destruct (_ !! w) as [boots|]; [|naive_solver].
  rw bool_decide_eq_true. naive_solver.
Qed.

Lemma fence_stays w b w' b' s :
  is_fenced w b s = true →
  is_fenced w b (s <| Impl.fenced ::= λ m, <[w' := {[b']} ∪ default ∅ (m !! w')]> m |>) = true.
Proof.
  rw !is_fenced_spec /=. intros (boots & Hw & Hb).
  destruct (decide (w' = w)) as [-> |Hne].
  - rw lookup_insert_eq Hw /=. eexists. split; [done|set_solver].
  - rw lookup_insert_ne //. by exists boots.
Qed.

Ltac fence_write := idtac;
  match goal with
  | |- preserves (λ s, is_fenced _ _ s = true) (modify _) =>
    apply preserves_modify; intros ?; apply fence_stays
  end.

Lemma run_op_fenced `{HashOrder} w b o : preserves (λ s, is_fenced w b s = true) (run_op o).
Proof. destruct o; cbn [run_op]; preserve_with fence_write. Qed.

(** The admission paths of a worker boot. *)
Lemma permit_fenced w b src sb s :
  is_fenced w b s = true →
  wp (EngineResidency.issue_registration_permit w b src sb) (λ _ _, False) (λ _ _, True) s.
Proof. intros Hf. by wp_go_with absurd_test. Qed.
Lemma register_fenced inc permit s :
  is_fenced inc.(Inc.worker_id) inc.(Inc.worker_boot) s = true →
  wp (EngineResidency.register_incarnation inc permit) (λ _ _, False) (λ _ _, True) s.
Proof. intros Hf. by wp_go_with absurd_test. Qed.
Lemma publish_fenced ev i s :
  s.(Impl.incarnations) !! ev.(Ev.incarnation_id) = Some i →
  is_fenced i.(Inc.worker_id) i.(Inc.worker_boot) s = true →
  wp (EngineResidency.publish_component ev) (λ _ _, False) (λ _ _, True) s.
Proof.
  intros Hi Hf. wp_go_with ltac:(idtac; first [absurd_test|simplify_eq/=; absurd_test]); simplify_eq/=; done.
Qed.

(** C13. Fencing is permanent: once [fence_worker] has fenced a worker boot, no
    later state of the runtime, whatever operations and loads lead to it, issues
    it a permit, registers an incarnation under it, or accepts component evidence
    from one of its incarnations. *)
Theorem fenced_boot_rejected_forever s w b reason s1 s' :
  EngineResidency.fence_worker w b reason s = (Ok tt, s1) → history any s1 s' →
  (∀ src sb, rejected (EngineResidency.issue_registration_permit w b src sb) s') ∧
  (∀ inc permit, inc.(Inc.worker_id) = w → inc.(Inc.worker_boot) = b →
     rejected (EngineResidency.register_incarnation inc permit) s') ∧
  (∀ ev i, s'.(Impl.incarnations) !! ev.(Ev.incarnation_id) = Some i →
     i.(Inc.worker_id) = w → i.(Inc.worker_boot) = b →
     rejected (EngineResidency.publish_component ev) s').
Proof.
  intros Hfence Hruns.
  assert (is_fenced w b s' = true) as Hf.
  { apply (preserved_history any (λ s, is_fenced w b s = true)) with (3 := Hruns).
    { intros. apply run_op_fenced. }
    { done. }
    injection Hfence as <-. apply is_fenced_spec. rw /= lookup_insert_eq.
    eexists. split; [done|set_solver]. }
  split_and!.
  - intros src sb. by apply wp_rejected, permit_fenced.
  - intros inc permit <- <-. by apply wp_rejected, register_fenced.
  - intros ev i Hi <- <-. by apply wp_rejected, (publish_fenced ev i).
Qed.

Lemma fenced_boot_rejected_forever_witness :
  is_fenced (mkId 1) (mkGen 1) (run_ops [FenceWorker (mkId 1) (mkGen 1) "lost"] demo_start) = true ∧
  ∀ src sb, rejected (EngineResidency.issue_registration_permit (mkId 1) (mkGen 1) src sb)
    (run_ops (FenceWorker (mkId 1) (mkGen 1) "lost" :: demo_register 1 1 2) demo_start).
Proof.
  split; [vm_compute; reflexivity|].
  apply (fenced_boot_rejected_forever demo_start (mkId 1) (mkGen 1) "lost"
    (run_ops [FenceWorker (mkId 1) (mkGen 1) "lost"] demo_start)).
  - reflexivity.
  - apply (run_ops_history (demo_register 1 1 2)).
Defined.

(** ** Registration *)

(** What a successful registration of [inc] under [permit] from [s] found. *)
Record admissible (inc : EngineIncarnation) (permit : RegistrationPermit) (s : Impl.t) : Prop := {
  adm_permit : ∃ p, s.(Impl.permits) !! permit.(Permit.permit_id) = Some p ∧
    p.(Permit.consumed) = false ∧ p.(Permit.worker_id) = inc.(Inc.worker_id) ∧
    p.(Permit.worker_boot) = inc.(Inc.worker_boot) ∧
    p.(Permit.epoch) = s.(Impl.authority).(Auth.epoch);
  adm_fence : is_fenced inc.(Inc.worker_id) inc.(Inc.worker_boot) s = false;
  adm_engine : is_Some (s.(Impl.engines) !! inc.(Inc.engine_id));
  adm_boot : ∀ k i, s.(Impl.incarnations) !! k = Some i →
    i.(Inc.worker_id) = inc.(Inc.worker_id) → i.(Inc.worker_boot) = inc.(Inc.worker_boot) →
    is_gone i.(Inc.state).(St.lifecycle) = true;
  adm_bound : N.of_nat (size s.(Impl.incarnations)) < s.(Impl.opts).(Opts.max_incarnations);
}.

(** The record it stores, and the state it leaves. *)
Record registered (inc : EngineIncarnation) (permit : RegistrationPermit) (s : Impl.t)
    (r : EngineIncarnation) (s' : Impl.t) : Prop := {
  reg_fresh : s.(Impl.incarnations) !! r.(Inc.incarnation_id) = None;
  reg_stored : s'.(Impl.incarnations) = <[r.(Inc.incarnation_id) := r]> s.(Impl.incarnations);
  reg_worker : r.(Inc.worker_id) = inc.(Inc.worker_id) ∧ r.(Inc.worker_boot) = inc.(Inc.worker_boot)
    ∧ r.(Inc.engine_id) = inc.(Inc.engine_id);
  reg_epoch : r.(Inc.coordinator_epoch) = s.(Impl.authority).(Auth.epoch) ∧
    r.(Inc.authority_generation) = s.(Impl.authority).(Auth.authority);
  reg_state : r.(Inc.state).(St.lifecycle) = ProcessLifecycle.STARTING ∧
    r.(Inc.readiness_generation) = mkGen 1;
  reg_current : r.(Inc.is_current) = negb (EngineResidency.has_current inc.(Inc.engine_id) s) ∧
    s'.(Impl.current_by_engine)
    = if r.(Inc.is_current)
      then <[r.(Inc.engine_id) := r.(Inc.incarnation_id)]> s.(Impl.current_by_engine)
      else s.(Impl.current_by_engine);
  reg_consumed : ∃ p, s'.(Impl.permits) !! permit.(Permit.permit_id) = Some p ∧
    p.(Permit.consumed) = true;
}.

Lemma existsb_map_false {K V} `{Countable K} (f : K * V → bool) (m : gmap K V) k v :
  existsb f (map_to_list m) = false → m !! k = Some v → f (k, v) = false.
Proof.
  intros He Hk. apply not_true_iff_false. intros Hf. apply not_true_iff_false in He.
  apply He, existsb_exists. exists (k, v). by rw -list_elem_of_In elem_of_map_to_list.
Qed.

Lemma same_live_boot_false inc i :
  EngineResidency.same_live_boot inc i = false →
  i.(Inc.worker_id) = inc.(Inc.worker_id) → i.(Inc.worker_boot) = inc.(Inc.worker_boot) →
  is_gone i.(Inc.state).(St.lifecycle) = true.
Proof.
  rw /EngineResidency.same_live_boot. intros H E1 E2. revert H.
  rw E1 E2 Identity_eqb_refl Generation_eqb_refl /=. by destruct (is_gone _).
Qed.

Lemma admissible_guards inc permit s p d :
  s.(Impl.permits) !! permit.(Permit.permit_id) = Some p → p.(Permit.consumed) = false →
  negb (Identity.eqb p.(Permit.worker_id) inc.(Inc.worker_id))
    || negb (Generation.eqb p.(Permit.worker_boot) inc.(Inc.worker_boot)) = false →
  negb (Generation.eqb p.(Permit.epoch) s.(Impl.authority).(Auth.epoch)) = false →
  is_fenced inc.(Inc.worker_id) inc.(Inc.worker_boot) s = false →
  s.(Impl.engines) !! inc.(Inc.engine_id) = Some d →
  existsb (λ kv, EngineResidency.same_live_boot inc kv.2) (map_to_list s.(Impl.incarnations)) = false →
  (s.(Impl.opts).(Opts.max_incarnations) <=? N.of_nat (size s.(Impl.incarnations))) = false →
  admissible inc permit s.
Proof.
  intros Hp Hc [Hw%negb_false_iff Hb%negb_false_iff]%orb_false_iff He%negb_false_iff Hf Hd Hx Hs.
  apply Identity_eqb_eq in Hw. apply Generation_eqb_eq in Hb, He. split; [by exists p|done|by eexists| |].
  - intros k i Hk. apply same_live_boot_false. exact (existsb_map_false _ _ _ _ Hx Hk).
  - by apply N.leb_gt.
Qed.

Lemma register_ok n inc permit s :
  filed n s → n + 2 < 2 ^ 64 → s.(Impl.epoch_started) = true →
  wp (EngineResidency.register_incarnation inc permit)
    (λ r s', admissible inc permit s ∧ registered inc permit s r s') (λ _ _, True) s.
Proof.
  intros Hf Hn Hs. wp_go_with ltac:(idtac; first [exact I|restarted Hs]);
    (split; [by eapply admissible_guards|]).
  all: split; [exact (filed_fresh n s Hf Hn)|reflexivity|done|done|done| |].
  all: try (split; [reflexivity|rw Heqb0; reflexivity]).
  all: eexists; split; [simpl; by rw lookup_alter_eq H|done].
Qed.

(** C12. Registration is sound: from a state that operations reach, and among
    their first million the load of a state whose incarnations have identities up
    to 1000001 (as all have that are saved in that time), it succeeds only under a
    known, unconsumed permit issued in the current epoch to that worker boot, when
    the boot is not fenced, the engine is known, no live incarnation runs under
    the same boot, and the table has room; then it files exactly one new
    incarnation, under an identity that no incarnation on file has, bound to the
    current epoch and authority, STARTING, with readiness generation 1, current
    precisely when the engine has no live current incarnation; and it consumes the
    permit.  (After the load of a state with a higher identity the new one may be
    taken already.) *)
Theorem register_incarnation_sound n s inc permit r s' :
  reachable_under low_identities created n s → n + 2 < 2 ^ 64 →
  EngineResidency.register_incarnation inc permit s = (Ok r, s') →
  admissible inc permit s ∧ registered inc permit s r s'.
Proof.
  intros Hr Hn Hrun. destruct (reachable_authority _ n s Hr) as [Hs _].
  exact (wp_ok _ _ _ _ _ _ (register_ok n inc permit s (low_filed n s Hr) Hn Hs) Hrun).
Qed.

Lemma demo_issued_reachable {L} :
  reachable_under L created 3 (run_ops (demo_define ++ take 1 (demo_register 1 1 2)) demo_start).
Proof. apply (demo_reachable (demo_define ++ take 1 (demo_register 1 1 2))). vm_compute. reflexivity. Qed.

Lemma register_incarnation_sound_witness :
  let s := run_ops (demo_define ++ take 1 (demo_register 1 1 2)) demo_start in
  ∃ r s', EngineResidency.register_incarnation (demo_incarnation 1 1) (demo_permit 2) s = (Ok r, s')
    ∧ registered (demo_incarnation 1 1) (demo_permit 2) s r s'.
Proof.
  intros s.
  destruct (EngineResidency.register_incarnation (demo_incarnation 1 1) (demo_permit 2) s)
    as [[r|e] s'] eqn:Hrun; [|by vm_compute in Hrun].
  exists r, s'. split; [reflexivity|].
  apply (register_incarnation_sound 3 s (demo_incarnation 1 1) (demo_permit 2) r s');
    [exact demo_issued_reachable|vm_compute; reflexivity|exact Hrun].
Defined.

(** ** Permits are single-use *)

Definition filed_permits (n : N) (s : Impl.t) : Prop :=
  s.(Impl.id_permit) <= n ∧
  map_Forall (λ k _, id_raw k <= s.(Impl.id_permit) + 1) s.(Impl.permits).

Definition spent (k : RegistrationPermitId) (s : Impl.t) : Prop :=
  ∃ p, s.(Impl.permits) !! k = Some p ∧ p.(Permit.consumed) = true.

Lemma permit_ids_alter k f (m : gmap RegistrationPermitId RegistrationPermit) b :
  map_Forall (λ k _, id_raw k <= b) m → map_Forall (λ k _, id_raw k <= b) (alter f k m).
Proof.
  intros H k' p [(<- & q & Hq & _)|[_ Hp]]%lookup_alter_Some; [by apply (H _ q)|by apply (H _ p)].
Qed.

(** What issuing a permit does to the table; a refusal does nothing to it. *)
Definition permits_kept (s s' : Impl.t) : Prop :=
  s'.(Impl.permits) = s.(Impl.permits) ∧ s'.(Impl.id_permit) = s.(Impl.id_permit).
Definition permit_added (s s' : Impl.t) : Prop :=
  s'.(Impl.id_permit) = u64 (s.(Impl.id_permit) + 1) ∧
  ∃ p, s'.(Impl.permits) = <[mkId (u64 (s'.(Impl.id_permit) + 1)) := p]> s.(Impl.permits).

Lemma issue_effect w b src sb s :
  wp (EngineResidency.issue_registration_permit w b src sb)
    (λ _, permit_added s) (λ _, permits_kept s) s.
Proof.
  wp_go; try (split; reflexivity).
  all: split; [reflexivity|eexists; reflexivity].
Qed.

Lemma issue_filed n s s' p :
  filed_permits n s → n + 2 < 2 ^ 64 → s'.(Impl.id_permit) = u64 (s.(Impl.id_permit) + 1) →
  s'.(Impl.permits) = <[mkId (u64 (s'.(Impl.id_permit) + 1)) := p]> s.(Impl.permits) →
  filed_permits (n + 1) s'.
Proof.
  intros [Hc Hi] Hn Hid Hp. rw u64_small in Hid; [|lia]. rw Hid u64_small in Hp; [|lia].
  rw /filed_permits Hid Hp. split; [lia|].
  apply map_Forall_insert_2; [simpl; lia|]. eapply map_Forall_impl; [done|]. simpl. lia.
Qed.

Lemma permit_fresh n s :
  filed_permits n s → n + 2 < 2 ^ 64 →
  s.(Impl.permits) !! mkId (u64 (u64 (s.(Impl.id_permit) + 1) + 1)) = None.
Proof.
  intros [Hc Hi] Hn. rw !u64_small; [|lia..]. apply eq_None_not_Some. intros [p Hp].
  apply Hi in Hp. simpl in Hp. lia.
Qed.

Lemma filed_permits_advances `{HashOrder} o : advances filed_permits (run_op o).
Proof.
  assert (∀ n s, filed_permits n s → filed_permits (n + 1) s) as Hmono
    by (intros n s [? ?]; split; [lia|done]).
  destruct o; cbn [run_op];
    try (apply preserves_advances; [done|intros n; preserve; fail]).
  - intros n s Hn Hs. apply wp_bind. eapply wp_mono; [| |apply issue_effect].
    + intros r s' [Hid [p Hp]]. by eapply issue_filed.
    + intros e s' [Hp Hid]. apply Hmono. by rw /filed_permits Hp Hid.
  - intros n s Hn Hs. wp_go; try (apply Hmono; exact Hs).
    all: destruct Hs as [Hc Hi]; (split; [simpl; lia|]); simpl; by apply permit_ids_alter.
Qed.

Lemma created_filed_permits n s : created n s → filed_permits n s.
Proof. intros [-> (c & o & _ & ->)]. split; [done|]. by intros k p Hk. Qed.

Lemma filed_permits_restore p n s : n <= load_base → filed_permits n s → filed_permits load_base (restore p s).
Proof.
  intros Hn [Hc Hi]. split; [done|]. eapply map_Forall_impl; [exact Hi|]. cbn. intros k q Hk.
  rw /load_base in Hn. lia.
Qed.
Lemma reachable_filed_permits L n s : reachable_under L created n s → filed_permits n s.
Proof.
  apply reachable_invariant; [apply created_filed_permits|intros; apply filed_permits_advances|].
  intros p n' s' Hn _. by apply filed_permits_restore.
Qed.

Lemma spent_alter k k' s :
  spent k s →
  spent k (s <| Impl.permits ::= alter (λ p, p <| Permit.consumed := true |>) k' |>).
Proof.
  intros (p & Hp & Hc). rw /spent /=. destruct (decide (k' = k)) as [-> |Hne].
  - eexists. by rw lookup_alter_eq Hp.
  - exists p. by rw lookup_alter_ne.
Qed.

Ltac spent_write := idtac;
  match goal with
  | |- preserves (spent _) (modify _) => apply preserves_modify; intros ?; apply spent_alter
  end.

Lemma run_op_spent `{HashOrder} o k n s :
  n + 2 < 2 ^ 64 → filed_permits n s → spent k s → wp (run_op o) (λ _, spent k) (λ _, spent k) s.
Proof.
  intros Hn Hf. destruct o; cbn [run_op]; try
    (match goal with
     | |- _ → wp ?m _ _ _ => cut (preserves (spent k) m); [by auto|]
     end; preserve_with spent_write; fail).
  intros (p & Hp & Hc). apply wp_bind. eapply wp_mono; [| |apply issue_effect].
  - intros r s' [Hid [q Hq]]. exists p. split; [|done]. rw Hq lookup_insert_ne // Hid.
    intros <-. by rw (permit_fresh n s Hf Hn) in Hp.
  - intros e s' [Hq _]. exists p. by rw Hq.
Qed.

Lemma register_spent inc permit s :
  s.(Impl.epoch_started) = true → spent permit.(Permit.permit_id) s →
  EngineResidency.register_incarnation inc permit s
  = (Throw (DomainError RegistrationRejected "permit already consumed"), s).
Proof.
  intros Hs (p & Hp & Hc). apply wp_throws. rw /EngineResidency.register_incarnation /ensure_epoch.
  do 3 wp_step. cbv beta. rw Hs /=. do 5 wp_step; cbv beta. rw Hp. apply wp_bind, wp_ret, wp_bind.
  by rw Hc.
Qed.

(** A permit admits one registration: once a registration under it has
    succeeded, every later one with that permit, whatever incarnation it
    brings and whatever happened in between, loads of states with low identities
    included, is rejected as already consumed and changes nothing. *)
Theorem permit_single_use n s inc permit r s1 n' s' inc' permit' :
  reachable_under low_identities created n s → n + 2 < 2 ^ 64 →
  EngineResidency.register_incarnation inc permit s = (Ok r, s1) → runs_under low_identities (n + 1) s1 n' s' →
  permit'.(Permit.permit_id) = permit.(Permit.permit_id) →
  EngineResidency.register_incarnation inc' permit' s'
  = (Throw (DomainError RegistrationRejected "permit already consumed"), s').
Proof.
  intros Hr Hn Hreg Hruns Hid.
  destruct (wp_ok _ _ _ _ _ _ (register_ok n inc permit s (low_filed n s Hr) Hn
    (proj1 (reachable_authority _ n s Hr))) Hreg) as [_ [_ _ _ _ _ _ Hspent]].
  assert (reachable_under low_identities created (n + 1) s1) as Hr1.
  { apply (reachable_step _ n s); [done..|]. exists map_to_list_order, (RegisterIncarnation inc permit).
    by rw /= /discard /mbind /M_bind Hreg. }
  pose proof (reachable_runs _ _ _ _ _ _ Hr1 Hruns) as Hr'.
  apply register_spent; [apply (reachable_authority _ n' s' Hr')|]. rw Hid.
  eapply (preserved_runs_using low_identities low_identities created filed_permits);
    [done|apply reachable_filed_permits| | |exact Hr1|exact Hruns|exact Hspent].
  - intros. by eapply run_op_spent.
  - by intros.
Qed.

Lemma permit_single_use_witness :
  let s := run_ops (demo_define ++ take 1 (demo_register 1 1 2)) demo_start in
  ∃ r s1, EngineResidency.register_incarnation (demo_incarnation 1 1) (demo_permit 2) s = (Ok r, s1) ∧
    EngineResidency.register_incarnation (demo_incarnation 7 7) (demo_permit 2)
      (run_ops [MarkRunning (mkId 2)] s1)
    = (Throw (DomainError RegistrationRejected "permit already consumed"),
       run_ops [MarkRunning (mkId 2)] s1).
Proof.
  intros s.
  destruct (EngineResidency.register_incarnation (demo_incarnation 1 1) (demo_permit 2) s)
    as [[r|e] s1] eqn:Hrun; [|by vm_compute in Hrun].
  exists r, s1. split; [reflexivity|].
  apply (permit_single_use 3 s (demo_incarnation 1 1) (demo_permit 2) r s1 5
    (run_ops [MarkRunning (mkId 2)] s1) (demo_incarnation 7 7) (demo_permit 2)).
  - exact demo_issued_reachable.
  - vm_compute. reflexivity.
  - exact Hrun.
  - apply (run_ops_runs [MarkRunning (mkId 2)] 4). vm_compute. reflexivity.
  - reflexivity.
Defined.
