(* ===== verification/ServingUse.v ===== *)
(** * Serving use and drain

    Admission, exact use accounting, and the drain protocol: what a successful
    acquisition guarantees, what the counter counts, what each drain phase
    means, and that a fenced admission stays fenced. *)

From S2P Require Import Prelude Identities Enums Model Reference Readiness Runtime.
From S2P Require Import Loading Transitions Scenario Tables Incarnations Authority.
Local Open Scope N_scope.

(** ** Admission *)

(** What [acquire_serving_use] demands, evaluated at time [t]. *)
Record admits (wanted : ServingUseToken) (t : N) (inc : EngineIncarnation) (s : Impl.t) : Prop := {
  admits_inc : s.(Impl.incarnations) !! wanted.(Tok.incarnation_id) = Some inc;
  admits_current : inc.(Inc.is_current) = true;
  admits_running : inc.(Inc.state).(St.lifecycle) = ProcessLifecycle.RUNNING;
  admits_fence : EngineResidency.admission_fenced wanted.(Tok.incarnation_id) s = false;
  admits_generation : wanted.(Tok.readiness_generation) = inc.(Inc.readiness_generation);
  admits_ready : ∃ prof def,
    s.(Impl.profiles) !! wanted.(Tok.profile_id) = Some prof ∧
    s.(Impl.engines) !! inc.(Inc.engine_id) = Some def ∧
    serving_outcome (evaluate_readiness def prof inc
      (evidence_of inc.(Inc.incarnation_id) s) t).(Res.outcome) = true;
  admits_room : s.(Impl.active_use_count) < s.(Impl.opts).(Opts.max_active_uses);
}.

(** The current reading of the clock, and a state that differs in it only. *)
Definition time (s : Impl.t) : N := Clock.source s.(Impl.clock) (Clock.reads s.(Impl.clock)).
Definition same_but_clock (s s' : Impl.t) : Prop := ∃ c, s' = s <| Impl.clock := c |>.

(** What a successful acquisition does. *)
Record admitted (wanted : ServingUseToken) (inc : EngineIncarnation) (s : Impl.t)
    (tok : ServingUseToken) (s' : Impl.t) : Prop := {
  adm_token : tok = wanted <| Tok.use_id := mkId (u64 (u64 (s.(Impl.id_use) + 1) + 1)) |>
                           <| Tok.use_generation := mkGen 1 |>;
  adm_use : ∃ u, s'.(Impl.active_uses) = <[tok.(Tok.use_id) := u]> s.(Impl.active_uses) ∧
    u.(Use.use_id) = tok.(Tok.use_id) ∧ u.(Use.released) = false ∧
    u.(Use.incarnation_id) = inc.(Inc.incarnation_id) ∧
    u.(Use.readiness_generation) = inc.(Inc.readiness_generation) ∧
    u.(Use.profile_id) = wanted.(Tok.profile_id);
  adm_count : s'.(Impl.active_use_count) = u64 (s.(Impl.active_use_count) + 1);
  adm_counter : s'.(Impl.id_use) = u64 (s.(Impl.id_use) + 1);
  adm_drains : s'.(Impl.drains) = s.(Impl.drains) ∧ s'.(Impl.opts) = s.(Impl.opts);
  adm_others : ∀ k, k ≠ wanted.(Tok.incarnation_id) →
    s'.(Impl.incarnations) !! k = s.(Impl.incarnations) !! k;
}.

Lemma same_but_clock_refl s : same_but_clock s s.
Proof. exists s.(Impl.clock). by destruct s. Qed.
Lemma same_but_clock_set s c : same_but_clock s (s <| Impl.clock := c |>).
Proof. by exists c. Qed.

(** The boolean guards of the code as propositions. *)
Ltac guard_facts :=
  repeat match goal with
  | H : negb _ = true |- _ => apply negb_true_iff in H
  | H : negb _ = false |- _ => apply negb_false_iff in H
  | H : _ || _ = false |- _ => apply orb_false_iff in H as [? ?]
  | H : bool_decide _ = true |- _ => apply bool_decide_eq_true in H
  | H : bool_decide _ = false |- _ => apply bool_decide_eq_false in H
  | H : Generation.eqb _ _ = true |- _ => apply Generation_eqb_eq in H
  | H : Generation.eqb _ _ = false |- _ => apply Generation_eqb_neq in H
  | H : Identity.eqb _ _ = true |- _ => apply Identity_eqb_eq in H
  | H : Identity.eqb _ _ = false |- _ => apply Identity_eqb_neq in H
  | H : (_ <=? _) = true |- _ => apply N.leb_le in H
  | H : (_ <=? _) = false |- _ => apply N.leb_gt in H
  | H : (_ =? _) = true |- _ => apply N.eqb_eq in H
  | H : (_ =? _) = false |- _ => apply N.eqb_neq in H
  end.
Ltac guards := guard_facts; first [done|congruence|assumption|auto].
Ltac contradict_guards :=
  repeat match goal with H : ∃ _, _ |- _ => destruct H | H : _ ∧ _ |- _ => destruct H end;
  unfold time in *; simplify_eq/=; guard_facts; first [congruence|lia].

(** Either the request is admissible and admitted, or it is refused and only
    the clock has been read. *)
Lemma acquire_effect wanted caller s :
  wp (EngineResidency.acquire_serving_use wanted caller)
    (λ tok s', ∃ inc, admits wanted (time s) inc s ∧ admitted wanted inc s tok s')
    (λ e s', (∀ inc, ¬ admits wanted (time s) inc s) ∧ same_but_clock s s' ∧ e ≠ StdOutOfRange) s.
Proof.
  wp_go.
  all: try (match goal with |- _ ∧ same_but_clock _ _ ∧ _ =>
    split_and!; [intros inc []|first [apply same_but_clock_refl|apply same_but_clock_set]|done];
    contradict_guards; fail end).
  exists a. split; [split; guards|].
  - by exists a0, a1; subst; guards.
  - split; [reflexivity| |reflexivity..| |].
    + eexists. split_and!; [reflexivity..| |reflexivity]. guards.
    + done.
    + intros k Hk. simpl. by rw lookup_alter_ne.
Qed.

(** ** Accounting *)

Definition outstanding (s : Impl.t) : gmap ServingUseId ActiveUse :=
  filter (λ ku, ku.2.(Use.released) = false) s.(Impl.active_uses).

(** The counter is exact, bounded, and no use id is ever reused. *)
Definition accounted (n : N) (s : Impl.t) : Prop :=
  s.(Impl.id_use) <= n ∧
  map_Forall (λ k u, id_raw k <= s.(Impl.id_use) + 1) s.(Impl.active_uses) ∧
  s.(Impl.active_use_count) = N.of_nat (size (outstanding s)) ∧
  s.(Impl.active_use_count) <= s.(Impl.opts).(Opts.max_active_uses) ∧
  opts_wf s.(Impl.opts).

(** What the phase of a drain record says. *)
Definition drain_means (s : Impl.t) (id : EngineIncarnationId) (d : DrainState) : Prop :=
  match d.(Drn.phase) with
  | DrainPhase.NONE => True
  | DrainPhase.REQUESTED | DrainPhase.ADMISSION_FENCED | DrainPhase.RETIRED => False
  | DrainPhase.ACTIVE_USE_REMAINING =>
    d.(Drn.admission_fenced) = true ∧ unreleased id s ≠ ∅
  | DrainPhase.BACKEND_CLEANUP_PENDING =>
    d.(Drn.admission_fenced) = true ∧ unreleased id s = ∅
  | DrainPhase.DRAINED =>
    d.(Drn.admission_fenced) = true ∧ d.(Drn.backend_cleanup_ack) = true ∧ unreleased id s = ∅
  end.

Definition drains_mean (s : Impl.t) : Prop := map_Forall (drain_means s) s.(Impl.drains).

Definition use_invariant (n : N) (s : Impl.t) : Prop := accounted n s ∧ drains_mean s.

Lemma use_invariant_mono n s : use_invariant n s → use_invariant (n + 1) s.
Proof. intros [(? & ?) ?]. split; [split; [lia|done]|done]. Qed.

Lemma unreleased_subseteq id s : unreleased id s ⊆ outstanding s.
Proof. apply map_filter_subseteq_ext. intros ??? []. done. Qed.

(** The 32-bit count does not wrap. *)
Lemma remaining_zero n s id :
  accounted n s → (remaining id s =? 0) = true ↔ unreleased id s = ∅.
Proof.
  intros (_ & _ & Hc & Hb & Ho). rw N.eqb_eq /remaining -map_size_empty_iff u32_small; [lia|].
  pose proof (map_subseteq_size _ _ (unreleased_subseteq id s)). rw /opts_wf in Ho. lia.
Qed.

(** An acquisition adds a fresh unreleased use. *)
Lemma outstanding_add (m : gmap ServingUseId ActiveUse) k u :
  m !! k = None → u.(Use.released) = false →
  size (filter (λ ku, ku.2.(Use.released) = false) (<[k:=u]> m))
  = S (size (filter (λ ku, ku.2.(Use.released) = false) m)).
Proof.
  intros Hk Hu. rw map_filter_insert_True // map_size_insert_None //.
  apply map_lookup_filter_None. by left.
Qed.
(** A release takes one away. *)
Lemma outstanding_remove (m : gmap ServingUseId ActiveUse) k u v :
  m !! k = Some u → u.(Use.released) = false → v.(Use.released) = true →
  S (size (filter (λ ku, ku.2.(Use.released) = false) (<[k:=v]> m)))
  = size (filter (λ ku, ku.2.(Use.released) = false) m).
Proof.
  intros Hk Hu Hv. rw map_filter_insert_False /=; [|congruence].
  rw map_filter_delete. assert (filter (λ ku, Use.released ku.2 = false) m !! k = Some u) as Hf
    by (by apply map_lookup_filter_Some).
  rw map_size_delete_Some; [|by eexists].
  pose proof (map_size_ne_0_lookup_2 (filter (λ ku, Use.released ku.2 = false) m) k ltac:(by eexists)). lia.
Qed.

Lemma alter_insert {K V} `{Countable K} (f : V → V) (m : gmap K V) k v :
  m !! k = Some v → alter f k m = <[k := f v]> m.
Proof.
  intros Hk. apply map_eq. intros j. destruct (decide (k = j)) as [<-|Hne].
  - by rw lookup_alter_eq Hk lookup_insert_eq.
  - by rw lookup_alter_ne // lookup_insert_ne.
Qed.

(** *** Release *)

(** The drain table after a release, as a function of what remains. *)
Definition settled (id : EngineIncarnationId) (rem : N) (m : gmap EngineIncarnationId DrainState)
    : gmap EngineIncarnationId DrainState :=
  match m !! id with
  | Some d =>
    if d.(Drn.admission_fenced) && (rem =? 0) then
      <[id := if d.(Drn.backend_cleanup_ack) then d <| Drn.phase := DrainPhase.DRAINED |>
              else d <| Drn.phase := DrainPhase.BACKEND_CLEANUP_PENDING |>]> m
    else m
  | None => m
  end.

Lemma settle_drain_effect id s :
  wp (EngineResidency.settle_drain id)
    (λ _ s', s' = s <| Impl.drains := settled id (remaining id s) s.(Impl.drains) |>)
    (λ _ _, False) s.
Proof.
  rw /EngineResidency.settle_drain /settled. apply wp_bind, wp_gets.
  destruct (Impl.drains s !! id) as [d|] eqn:Hd; [|by apply wp_ret; destruct s].
  destruct (_ && _); [|by apply wp_ret; destruct s].
  apply wp_modify. by rw /drains_at Hd.
Qed.

(** What a successful release does. *)
Record released_use (token : ServingUseToken) (s s' : Impl.t) : Prop := {
  rel_use : ∃ u v, s.(Impl.active_uses) !! token.(Tok.use_id) = Some u ∧
    u.(Use.released) = false ∧ u.(Use.incarnation_id) = token.(Tok.incarnation_id) ∧
    v.(Use.released) = true ∧ v.(Use.incarnation_id) = u.(Use.incarnation_id) ∧
    s'.(Impl.active_uses) = <[token.(Tok.use_id) := v]> s.(Impl.active_uses);
  rel_count : 0 < s.(Impl.active_use_count) ∧
    s'.(Impl.active_use_count) = s.(Impl.active_use_count) - 1;
  rel_drains : s'.(Impl.drains)
    = settled token.(Tok.incarnation_id) (remaining token.(Tok.incarnation_id) s') s.(Impl.drains);
  rel_rest : s'.(Impl.id_use) = s.(Impl.id_use) ∧ s'.(Impl.opts) = s.(Impl.opts) ∧
    s'.(Impl.incarnations) = s.(Impl.incarnations);
}.

(** Which releases are refused, and with what. *)
Definition release_refused (token : ServingUseToken) (s : Impl.t) (code : ErrorCode) : Prop :=
  match s.(Impl.active_uses) !! token.(Tok.use_id) with
  | None => code = UnknownUse
  | Some u =>
    if u.(Use.released) then code = DuplicateRelease
    else u.(Use.incarnation_id) ≠ token.(Tok.incarnation_id) ∧ code = StaleIncarnation
  end.

Lemma release_effect token outcome detail s :
  (∀ u, s.(Impl.active_uses) !! token.(Tok.use_id) = Some u → u.(Use.released) = false →
    s.(Impl.active_use_count) ≠ 0) →
  wp (EngineResidency.release_serving_use token outcome detail)
    (λ _, released_use token s)
    (λ e s', s' = s ∧ ∃ code msg, e = DomainError code msg ∧ release_refused token s code) s.
Proof.
  intros Hpos. rw /EngineResidency.release_serving_use. do 4 (wp_step; cbv beta).
  2:{ split; [done|]. do 2 eexists. split; [done|]. by rw /release_refused H. }
  rename a into u, H into Hu. do 2 (wp_step; cbv beta).
  { split; [done|]. do 2 eexists. split; [done|]. by rw /release_refused Hu H. }
  do 2 (wp_step; cbv beta).
  { split; [done|]. do 2 eexists. split; [done|]. rw /release_refused Hu H. by guard_facts. }
  do 8 (wp_step; cbv beta); guard_facts.
  { by destruct (Hpos u). }
  do 2 (wp_step; cbv beta). eapply wp_mono; [| |apply settle_drain_effect]; [|done]. intros [] s' ->.
  split.
  - eexists u, _. split_and!; [done..| | |simpl; by apply alter_insert]; done.
  - simpl in *. split; [lia|done].
  - reflexivity.
  - done.
Qed.

(** *** Drain *)

Lemma wp_set_drain id f s (Q : () → Impl.t → Prop) X d m :
  s.(Impl.drains) = <[id := d]> m → Q () (s <| Impl.drains := <[id := f d]> m |>) →
  wp (set_drain id f) Q X s.
Proof.
  intros Hs HQ. apply wp_modify.
  change (Q () (s <| Impl.drains := <[id := f (drains_at id s)]> s.(Impl.drains) |>)).
  by rw /drains_at Hs lookup_insert_eq insert_insert_eq.
Qed.

(** The use tables are the same. *)
Definition same_uses (s s' : Impl.t) : Prop :=
  s'.(Impl.active_uses) = s.(Impl.active_uses) ∧ s'.(Impl.id_use) = s.(Impl.id_use) ∧
  s'.(Impl.active_use_count) = s.(Impl.active_use_count) ∧ s'.(Impl.opts) = s.(Impl.opts).

(** The drain record after a request. *)
Definition requested (id : EngineIncarnationId) (s : Impl.t) : DrainState :=
  (drains_at id s)
    <| Drn.generation ::= λ g, mkGen (gen_raw g + 1) |>
    <| Drn.admission_fenced := true |>
    <| Drn.detail := "drain requested" |>
    <| Drn.phase := if remaining id s =? 0 then DrainPhase.BACKEND_CLEANUP_PENDING
                    else DrainPhase.ACTIVE_USE_REMAINING |>.

Lemma request_drain_effect id s :
  wp (EngineResidency.request_drain id)
    (λ _ s', same_uses s s' ∧ s'.(Impl.drains) = <[id := requested id s]> s.(Impl.drains) ∧
      is_Some (s.(Impl.incarnations) !! id))
    (λ e s', same_uses s s' ∧ (s'.(Impl.drains) = s.(Impl.drains) ∨
      s'.(Impl.drains) = <[id := drains_at id s]> s.(Impl.drains)))
    s.
Proof.
  rw /EngineResidency.request_drain. do 4 (wp_step; cbv beta); [|by split; [|left]].
  apply wp_bind, wp_modify. do 3 (wp_step; cbv beta).
  wp_step; [by split; [|right]|]. apply wp_bind. eapply wp_set_drain; [reflexivity|].
  do 2 (wp_step; cbv beta). apply wp_bind. eapply wp_set_drain; [reflexivity|].
  do 2 (wp_step; cbv beta). eapply wp_set_drain; [reflexivity|].
  split; [done|]. split; [|by eexists]. rw /= /requested /drains_at lookup_insert_eq /=. f_equal.
  change (remaining id _) with (remaining id s) at 1.
  destruct (default _ _); simpl. case_bool_decide; by destruct (remaining id s =? 0).
Qed.

Definition acknowledged (id : EngineIncarnationId) (s : Impl.t) (d : DrainState) : DrainState :=
  let d := d <| Drn.backend_cleanup_ack := true |> in
  if d.(Drn.admission_fenced) && (remaining id s =? 0)
  then d <| Drn.phase := DrainPhase.DRAINED |> else d.

Lemma acknowledge_effect id s :
  wp (EngineResidency.acknowledge_backend_cleanup id)
    (λ _ s', ∃ d, s.(Impl.drains) !! id = Some d ∧
      s' = s <| Impl.drains := <[id := acknowledged id s d]> s.(Impl.drains) |>)
    (λ e s', s' = s ∧ s.(Impl.drains) !! id = None) s.
Proof.
  rw /EngineResidency.acknowledge_backend_cleanup. do 4 (wp_step; cbv beta); [|done].
  rename a into d, H into Hd. apply wp_bind, wp_modify. do 2 (wp_step; cbv beta).
  eapply wp_set_drain; [reflexivity|]. exists d. split; [done|].
  rw /acknowledged /drains_at Hd /=. by destruct s.
Qed.

Lemma cutover_effect rid s :
  wp (EngineResidency.commit_cutover rid)
    (λ _ s', same_uses s s' ∧ ∃ p, s.(Impl.replacement_plans) !! rid = Some p ∧
      s'.(Impl.drains) = match s.(Impl.incarnations) !! p.(Repl.old_incarnation) with
        | Some o => <[o.(Inc.incarnation_id) := (drains_at o.(Inc.incarnation_id) s)
                        <| Drn.admission_fenced := true |>]> s.(Impl.drains)
        | None => s.(Impl.drains)
        end) (λ _ s', s' = s) s.
Proof.
  wp_go; try done; (split; [done|]); exists a; (split; [done|]); by rw Heqo.
Qed.

(** ** Every operation keeps the invariant *)

Lemma drains_mean_insert s s' id d :
  drains_mean s → s'.(Impl.active_uses) = s.(Impl.active_uses) →
  s'.(Impl.drains) = <[id := d]> s.(Impl.drains) → drain_means s id d → drains_mean s'.
Proof.
  intros Hm Hu Hd Hid. rw /drains_mean Hd. apply map_Forall_insert_2.
  - revert Hid. by rw /drain_means /unreleased Hu.
  - eapply map_Forall_impl; [done|]. intros k e. by rw /drain_means /unreleased Hu.
Qed.

Lemma drains_at_means s id : drains_mean s → drain_means s id (drains_at id s).
Proof.
  intros Hm. rw /drains_at. destruct (_ !! id) as [d|] eqn:Hd; [by apply (Hm id)|done].
Qed.

Lemma accounted_same n s s' : same_uses s s' → accounted n s → accounted n s'.
Proof. by intros (Hu & Hi & Hc & Ho); rw /accounted /outstanding Hu Hi Hc Ho. Qed.

Lemma fence_means s id d :
  drain_means s id d → drain_means s id (d <| Drn.admission_fenced := true |>).
Proof. rw /drain_means /=. destruct (Drn.phase d); naive_solver. Qed.

Lemma requested_means n s id : accounted n s → drain_means s id (requested id s).
Proof.
  intros Ha. pose proof (remaining_zero n s id Ha) as Hz. rw /drain_means /requested /=.
  destruct (remaining id s =? 0); simpl; (split; [done|]); [by apply Hz|].
  intros Hu. by apply Hz in Hu.
Qed.

Lemma acknowledged_means n s id d :
  accounted n s → drain_means s id d → drain_means s id (acknowledged id s d).
Proof.
  intros Ha Hd. pose proof (remaining_zero n s id Ha) as Hz. rw /acknowledged /=.
  destruct (Drn.admission_fenced d) eqn:Hf, (remaining id s =? 0); simpl.
  - rw /drain_means /= Hf. split_and!; [done..|by apply Hz].
  - revert Hd. rw /drain_means /=. destruct (Drn.phase d); naive_solver.
  - revert Hd. rw /drain_means /=. destruct (Drn.phase d); naive_solver.
  - revert Hd. rw /drain_means /=. destruct (Drn.phase d); naive_solver.
Qed.

(** An admission touches no drain with a meaning: it is not fenced. *)
Lemma admitted_invariant n s wanted inc tok s' t :
  n + 2 < 2 ^ 64 → keyed s → use_invariant n s →
  admits wanted t inc s → admitted wanted inc s tok s' → use_invariant (n + 1) s'.
Proof.
  intros Hn Hf [(Hc & Hids & Hcount & Hb & Ho) Hd] [Hinc _ _ Hfence _ _ Hroom].
  intros [-> (u & Hu & _ & Hrel & Huinc & _) Hcnt Hid [Hdr Hopts] _].
  rw (keyed_lookup s _ _ Hf Hinc) in Huinc. simpl in Hu. rw !u64_small in Hu; [|lia..].
  rw u64_small in Hid; [|lia]. rw /opts_wf in Ho. rw u64_small in Hcnt; [|lia].
  assert (s.(Impl.active_uses) !! mkId (Impl.id_use s + 1 + 1) = None) as Hfresh.
  { apply eq_None_not_Some. intros [v Hv]. apply Hids in Hv. simpl in Hv. lia. }
  split.
  - rw /accounted Hid Hcnt Hopts. split_and!; [lia| | |lia|done].
    + rw Hu. apply map_Forall_insert_2; [simpl; lia|]. eapply map_Forall_impl; [done|]. simpl. lia.
    + rw /outstanding Hu outstanding_add // -/(outstanding s). lia.
  - rw /drains_mean Hdr. intros id d Hid'. specialize (Hd id d Hid'). simpl in Hd.
    rw /drain_means in Hd |- *. destruct (decide (id = wanted.(Tok.incarnation_id))) as [-> |Hne].
    { rw /EngineResidency.admission_fenced Hid' in Hfence. revert Hd. rw Hfence.
      destruct (Drn.phase d); naive_solver. }
    assert (unreleased id s' = unreleased id s) as ->; [|done].
    rw /unreleased Hu. apply map_filter_insert_not'.
    + simpl. intros [E _]. congruence.
    + intros y Hy. by rw Hfresh in Hy.
Qed.

Lemma unreleased_release s s' token u v id :
  s.(Impl.active_uses) !! token.(Tok.use_id) = Some u →
  u.(Use.incarnation_id) = token.(Tok.incarnation_id) → v.(Use.released) = true →
  s'.(Impl.active_uses) = <[token.(Tok.use_id) := v]> s.(Impl.active_uses) →
  id ≠ token.(Tok.incarnation_id) → unreleased id s' = unreleased id s.
Proof.
  intros Hu Hinc Hv Hs' Hne. rw /unreleased Hs'. apply map_filter_insert_not'; simpl.
  - intros [_ ?]. congruence.
  - intros y Hy [E _]. congruence.
Qed.

Lemma settled_means n s s' id m :
  accounted n s' → m = s.(Impl.drains) → drains_mean s → unreleased id s ≠ ∅ →
  (∀ id', id' ≠ id → unreleased id' s' = unreleased id' s) →
  map_Forall (drain_means s') (settled id (remaining id s') m).
Proof.
  intros Ha -> Hd Hopen Hother. pose proof (remaining_zero n s' id Ha) as Hz.
  assert (∀ k d, k ≠ id → s.(Impl.drains) !! k = Some d → drain_means s' k d) as Hrest.
  { intros k d Hk Hkd. specialize (Hd k d Hkd). revert Hd. by rw /drain_means Hother. }
  rw /settled. destruct (s.(Impl.drains) !! id) as [d|] eqn:Hid.
  2:{ intros k e He. apply Hrest; [congruence|done]. }
  specialize (Hd id d Hid) as Hdm.
  destruct (Drn.admission_fenced d && (remaining id s' =? 0)) eqn:Hb.
  - apply andb_true_iff in Hb as [Hf Hr]. apply Hz in Hr. intros k e.
    destruct (decide (id = k)) as [<-|Hne]; [rw lookup_insert_eq|rw lookup_insert_ne //; by apply Hrest].
    intros [= <-]. rw /drain_means. by destruct (Drn.backend_cleanup_ack d) eqn:?; rw /= Hf.
  - intros k e He. destruct (decide (k = id)) as [-> |]; [|by apply Hrest]. simplify_eq.
    revert Hdm. rw /drain_means. destruct (Drn.phase d); try naive_solver.
    intros [Hf _]. split; [done|]. intros Hu. apply Hz in Hu. by rw Hf Hu in Hb.
Qed.

Lemma released_invariant n s s' token :
  use_invariant n s → released_use token s s' → use_invariant n s'.
Proof.
  intros [(Hc & Hids & Hcount & Hb & Ho) Hd].
  intros [(u & v & Hu & Hrel & Hinc & Hv & Hvi & Hs') [Hpos Hcnt] Hdr (Hid & Hopts & _)].
  assert (accounted n s') as Ha.
  { rw /accounted Hid Hcnt Hopts. split_and!; [done| | |lia|done].
    - rw Hs'. apply map_Forall_insert_2; [by apply (Hids _ u)|done].
    - rw /outstanding Hs'. pose proof (outstanding_remove _ _ _ v Hu Hrel Hv) as Hsz.
      rw /outstanding in Hcount. lia. }
  split; [done|]. rw /drains_mean Hdr. eapply settled_means; [done|reflexivity|done| |].
  - intros He. assert (unreleased token.(Tok.incarnation_id) s !! token.(Tok.use_id) = Some u) as Hl
      by (by apply map_lookup_filter_Some).
    by rw He in Hl.
  - intros id' Hne. by eapply unreleased_release.
Qed.

Lemma counted_positive n s token u :
  accounted n s → s.(Impl.active_uses) !! token = Some u → u.(Use.released) = false →
  s.(Impl.active_use_count) ≠ 0.
Proof.
  intros (_ & _ & -> & _) Hu Hr. pose proof (map_size_ne_0_lookup_2 (outstanding s) token) as Hs.
  assert (is_Some (outstanding s !! token)) as Hl by (exists u; by apply map_lookup_filter_Some).
  specialize (Hs Hl). lia.
Qed.

Lemma run_op_uses `{HashOrder} o n s :
  n + 2 < 2 ^ 64 → keyed s → use_invariant n s →
  wp (run_op o) (λ _, use_invariant (n + 1)) (λ _, use_invariant (n + 1)) s.
Proof.
  intros Hn Hf Hs. pose proof (use_invariant_mono n s Hs) as Hs1. revert Hs.
  destruct o; cbn [run_op]; try
    (match goal with
     | |- _ → wp ?m _ _ _ => intros _; cut (preserves (use_invariant (n + 1)) m); [by auto|]
     end; preserve; fail).
  - intros Hs. apply wp_bind. eapply wp_mono; [| |apply acquire_effect].
    + intros tok s' (inc & Hadm & Hdone). by eapply admitted_invariant.
    + by intros e s' (_ & [c ->] & _).
  - intros [Ha Hd]. eapply wp_mono; [| |apply release_effect].
    + intros [] s' Hrel. by eapply use_invariant_mono, released_invariant.
    + by intros e s' [-> _].
    + intros u. by eapply counted_positive.
  - intros [Ha Hd]. eapply wp_mono; [| |apply request_drain_effect].
    + intros [] s' (Hsame & Hdr & _). split; [by eapply accounted_same, Hs1|].
      eapply drains_mean_insert; [done|apply Hsame|done|by eapply requested_means].
    + intros e s' (Hsame & Hdr). split; [by eapply accounted_same, Hs1|].
      destruct Hdr as [Hdr|Hdr].
      * rw /drains_mean Hdr. eapply map_Forall_impl; [done|]. intros k d.
        destruct Hsame as [Hu _]. by rw /drain_means /unreleased Hu.
      * eapply drains_mean_insert; [done|apply Hsame|done|by apply drains_at_means].
  - intros [Ha Hd]. eapply wp_mono; [| |apply acknowledge_effect].
    + intros [] s' (d & Hid & ->). split; [apply Hs1|].
      eapply drains_mean_insert; [done|reflexivity|reflexivity|].
      by eapply acknowledged_means, (Hd inc_id).
    + by intros e s' [-> _].
  - intros [Ha Hd]. apply wp_bind. eapply wp_mono; [| |apply cutover_effect].
    + intros r s' (Hsame & p & _ & Hdr). split; [by eapply accounted_same, Hs1|].
      destruct (_ !! Repl.old_incarnation p) as [old|].
      * eapply drains_mean_insert; [done|apply Hsame|done|].
        by apply fence_means, drains_at_means.
      * rw /drains_mean Hdr. eapply map_Forall_impl; [done|]. intros k d.
        destruct Hsame as [Hu _]. by rw /drain_means /unreleased Hu.
    + by intros e s' ->.
Qed.

Lemma created_use_invariant n s : created n s → use_invariant n s.
Proof.
  intros [-> (c & o & Ho & ->)]. split; [split_and!; [done..| |done]|done].
  simpl. lia.
Qed.

(** A load leaves the uses and the drains alone. *)
Lemma use_invariant_restore p n s : n <= load_base → use_invariant n s → use_invariant load_base (restore p s).
Proof.
  intros Hn [(Hc & Hi & Hrest) Hd]. split; [|exact Hd]. split; [done|]. split; [|exact Hrest].
  eapply map_Forall_impl; [exact Hi|]. cbn. intros k u Hk. rw /load_base in Hn. lia.
Qed.
Lemma reachable_use_invariant L n s : reachable_under L created n s → use_invariant n s.
Proof.
  apply (reachable_invariant_using L created use_invariant (λ _, keyed) (reachable_keyed L)
    created_use_invariant).
  - intros Ord o m s'. apply run_op_uses.
  - intros p m s' Hm _ _. by apply use_invariant_restore.
Qed.

(** * Properties *)

(** C10. Active use is counted exactly and bounded: in every state that operations,
    and a load among their first million, reach, the counter equals the number of
    admitted uses that have not been released, and it never exceeds the
    configured maximum.  (A second load sets the counter of identities back below
    live uses.) *)
Theorem uses_counted_exactly n s :
  reachable created n s →
  s.(Impl.active_use_count)
  = N.of_nat (size (filter (λ ku, ku.2.(Use.released) = false) s.(Impl.active_uses))) ∧
  s.(Impl.active_use_count) <= s.(Impl.opts).(Opts.max_active_uses).
Proof. intros Hr. by destruct (reachable_use_invariant _ n s Hr) as [(_ & _ & ? & ? & _) _]. Qed.

Definition demo_in_use : Impl.t := run_ops [use_op 2 1; use_op 2 1; RequestDrain (mkId 2)] demo_ready.
Lemma demo_in_use_reachable {L} : reachable_under L created 15 demo_in_use.
Proof.
  eapply reachable_runs; [exact demo_ready_reachable|].
  apply (run_ops_runs [use_op 2 1; use_op 2 1; RequestDrain (mkId 2)] 12). vm_compute. reflexivity.
Qed.

Lemma uses_counted_exactly_witness :
  N.of_nat (size (filter (λ ku, ku.2.(Use.released) = false) demo_in_use.(Impl.active_uses))) = 2.
Proof.
  destruct (uses_counted_exactly 15 demo_in_use demo_in_use_reachable) as [<- _].
  vm_compute. reflexivity.
Defined.

(** C17. Drain phases tell the truth in every state that operations, and a load
    among their first million, reach: DRAINED only with admission fenced, backend cleanup acknowledged and every admitted use
    of the incarnation released; BACKEND_CLEANUP_PENDING only with admission
    fenced and no use left; ACTIVE_USE_REMAINING only with admission fenced
    and some use left; and no other phase but NONE is ever stored. *)
Theorem drain_phases_truthful n s id d :
  reachable created n s → s.(Impl.drains) !! id = Some d →
  match d.(Drn.phase) with
  | DrainPhase.NONE => True
  | DrainPhase.ACTIVE_USE_REMAINING => d.(Drn.admission_fenced) = true ∧
      ∃ k u, s.(Impl.active_uses) !! k = Some u ∧ u.(Use.incarnation_id) = id ∧
        u.(Use.released) = false
  | DrainPhase.BACKEND_CLEANUP_PENDING => d.(Drn.admission_fenced) = true ∧
      ∀ k u, s.(Impl.active_uses) !! k = Some u → u.(Use.incarnation_id) = id →
        u.(Use.released) = true
  | DrainPhase.DRAINED => d.(Drn.admission_fenced) = true ∧ d.(Drn.backend_cleanup_ack) = true ∧
      ∀ k u, s.(Impl.active_uses) !! k = Some u → u.(Use.incarnation_id) = id →
        u.(Use.released) = true
  | _ => False
  end.
Proof.
  intros Hr Hd. destruct (reachable_use_invariant _ n s Hr) as [_ Hm].
  specialize (Hm id d Hd). revert Hm. rw /drain_means.
  assert (unreleased id s = ∅ → ∀ k u, s.(Impl.active_uses) !! k = Some u →
    u.(Use.incarnation_id) = id → u.(Use.released) = true) as Hnone.
  { intros He k u Hk Hi. destruct (Use.released u) eqn:Hrel; [done|].
    assert (unreleased id s !! k = Some u) as Hl by (by apply map_lookup_filter_Some).
    by rw He in Hl. }
  destruct (Drn.phase d); try done.
  - intros [Hf (k & u & Hk)%map_choose]. split; [done|].
    apply map_lookup_filter_Some in Hk as [Hk [? ?]]. by exists k, u.
  - intros [Hf He]. split; [done|]. by apply Hnone.
  - intros (Hf & Ha & He). split_and!; [done..|]. by apply Hnone.
Qed.

Lemma drain_phases_truthful_witness :
  ∃ k u, demo_in_use.(Impl.active_uses) !! k = Some u ∧ u.(Use.incarnation_id) = mkId 2 ∧
    u.(Use.released) = false.
Proof.
  destruct (demo_in_use.(Impl.drains) !! mkId 2) as [d|] eqn:Hd; [|by vm_compute in Hd].
  pose proof (drain_phases_truthful 15 demo_in_use (mkId 2) d demo_in_use_reachable Hd) as H.
  assert (Drn.phase d = DrainPhase.ACTIVE_USE_REMAINING) as Hp
    by (vm_compute in Hd; injection Hd as <-; reflexivity).
  rw Hp in H. apply H.
Defined.

(** C9. Acquisition admits exactly the admissible requests, in any state: it
    succeeds if and only if the incarnation is known, current and RUNNING, its
    admission is not fenced, the token carries its current readiness
    generation, the profile and engine are known, the profile is READY or
    DEGRADED on the current evidence at that very moment, and the use bound is
    not reached.  A success records one new unreleased use of that incarnation
    and counts it; a refusal is a [DomainError] and changes nothing but the
    clock reading. *)
Theorem acquire_serving_use_admits wanted caller s :
  match EngineResidency.acquire_serving_use wanted caller s with
  | (Ok tok, s') => ∃ inc, admits wanted (time s) inc s ∧ admitted wanted inc s tok s'
  | (Throw e, s') => (∀ inc, ¬ admits wanted (time s) inc s) ∧ same_but_clock s s' ∧ e ≠ StdOutOfRange
  end.
Proof.
  pose proof (acquire_effect wanted caller s) as H. rw /wp in H.
  by destruct (EngineResidency.acquire_serving_use wanted caller s) as [[]].
Qed.

(** *** Release, exactly once *)

Definition use_closed (k : ServingUseId) (s : Impl.t) : Prop :=
  ∃ u, s.(Impl.active_uses) !! k = Some u ∧ u.(Use.released) = true.

Lemma run_op_use_closed `{HashOrder} o k n s :
  n + 2 < 2 ^ 64 → keyed s ∧ use_invariant n s → use_closed k s →
  wp (run_op o) (λ _, use_closed k) (λ _, use_closed k) s.
Proof.
  intros Hn [Hf [Ha Hd]]. destruct o; cbn [run_op]; try
    (match goal with
     | |- _ → wp ?m _ _ _ => cut (preserves (use_closed k) m); [by auto|]
     end; preserve; fail).
  - intros (u & Hu & Hr). apply wp_bind. eapply wp_mono; [| |apply acquire_effect].
    + intros tok s' (inc & _ & [-> (v & Hv & _) _ _ _ _]). exists u. split; [|done].
      rw Hv lookup_insert_ne //=. intros <-. destruct Ha as (Hc & Hids & _).
      rw !u64_small in Hu; [|lia..]. apply Hids in Hu. simpl in Hu. lia.
    + intros e s' (_ & [c ->] & _). by exists u.
  - intros (u & Hu & Hr). eapply wp_mono; [| |apply release_effect].
    + intros [] s' [(u' & v & Hu' & Hrel & _ & Hv & _ & Hs') _ _ _].
      exists u. split; [|done]. rw Hs' lookup_insert_ne //. congruence.
    + intros e s' [-> _]. by exists u.
    + intros u'. by eapply counted_positive.
Qed.

Lemma reachable_keyed_uses L n s : reachable_under L created n s → keyed s ∧ use_invariant n s.
Proof. intros Hr. by split; [eapply reachable_keyed|eapply reachable_use_invariant]. Qed.

(** [release_serving_use] on every branch, from a reachable state: an
    unknown use, an already released use, and a token naming another
    incarnation are refused with UnknownUse, DuplicateRelease and
    StaleIncarnation and change nothing; any other release marks exactly that
    use as released, lowers the count by one and moves the incarnation's drain
    to DRAINED or BACKEND_CLEANUP_PENDING when its admission is fenced and
    nothing remains.  The underflow check never fires. *)
Theorem release_serving_use_spec n s token outcome detail :
  reachable created n s →
  match EngineResidency.release_serving_use token outcome detail s with
  | (Ok _, s') => released_use token s s'
  | (Throw e, s') => s' = s ∧ ∃ code msg, e = DomainError code msg ∧ release_refused token s code
  end.
Proof.
  intros Hr. destruct (reachable_keyed_uses _ n s Hr) as [Hf [Ha Hd]].
  pose proof (release_effect token outcome detail s (λ u, counted_positive n s _ u Ha)) as H.
  rw /wp in H. by destruct (EngineResidency.release_serving_use token outcome detail s) as [[]].
Qed.

(** The token of the first use of the example. *)
Definition demo_used_token : ServingUseToken := (demo_token 2 1) <| Tok.use_id := mkId 2 |>.

Lemma release_serving_use_spec_witness :
  ∃ s', EngineResidency.release_serving_use demo_used_token WorkOutcome.COMPLETED "done" demo_in_use
    = (Ok tt, s') ∧ released_use demo_used_token demo_in_use s'.
Proof.
  pose proof (release_serving_use_spec 15 demo_in_use demo_used_token WorkOutcome.COMPLETED "done"
    demo_in_use_reachable) as H.
  destruct (EngineResidency.release_serving_use demo_used_token WorkOutcome.COMPLETED "done" demo_in_use)
    as [[[]|e] s'] eqn:Hrun; [|vm_compute in Hrun; discriminate Hrun].
  exists s'. split; [reflexivity|exact H].
Defined.

(** C11. A serving use is released exactly once: after a successful release,
    which lowers the count by exactly one, every later release of that use, with
    any token and in any state that operations, and a load among the first
    million, reach, is refused as a duplicate without any effect. *)
Theorem release_exactly_once n s token outcome detail s1 n' s' token' outcome' detail' :
  reachable created n s → n + 2 < 2 ^ 64 →
  EngineResidency.release_serving_use token outcome detail s = (Ok tt, s1) →
  runs (n + 1) s1 n' s' → token'.(Tok.use_id) = token.(Tok.use_id) →
  s1.(Impl.active_use_count) + 1 = s.(Impl.active_use_count) ∧
  EngineResidency.release_serving_use token' outcome' detail' s'
  = (Throw (DomainError DuplicateRelease "duplicate release has no effect"), s').
Proof.
  intros Hr Hn Hrun Hruns Hid. destruct (reachable_keyed_uses _ n s Hr) as [Hf [Ha Hd]].
  assert (released_use token s s1) as Hrel.
  { refine (wp_ok _ _ _ _ _ _ (release_effect token outcome detail s _) Hrun).
    intros u. by eapply counted_positive. }
  assert (reachable created (n + 1) s1) as Hr1.
  { apply (reachable_step _ n s); [done..|].
    exists map_to_list_order, (ReleaseServingUse token outcome detail). by rw /= Hrun. }
  destruct Hrel as [(u & v & Hu & _ & _ & Hv & _ & Hs1) [Hpos Hc] _ _]. split; [lia|].
  assert (use_closed token.(Tok.use_id) s') as (w & Hw & Hwr).
  { eapply (preserved_runs_using any any created (λ n s, keyed s ∧ use_invariant n s));
      [done|apply reachable_keyed_uses| | |exact Hr1|exact Hruns|].
    - intros. by eapply run_op_use_closed.
    - by intros.
    - exists v. by rw Hs1 lookup_insert_eq. }
  apply wp_throws. rw /EngineResidency.release_serving_use. do 2 (wp_step; cbv beta).
  rw Hid Hw. apply wp_bind, wp_ret, wp_bind. by rw Hwr.
Qed.

Lemma release_exactly_once_witness :
  ∃ s1, EngineResidency.release_serving_use demo_used_token WorkOutcome.COMPLETED "done" demo_in_use
    = (Ok tt, s1) ∧
  EngineResidency.release_serving_use demo_used_token WorkOutcome.FAILED "again" s1
  = (Throw (DomainError DuplicateRelease "duplicate release has no effect"), s1).
Proof.
  destruct (EngineResidency.release_serving_use demo_used_token WorkOutcome.COMPLETED "done" demo_in_use)
    as [[[]|e] s1] eqn:Hrun; [|vm_compute in Hrun; discriminate Hrun].
  exists s1. split; [reflexivity|].
  apply (release_exactly_once 15 demo_in_use demo_used_token WorkOutcome.COMPLETED "done" s1 16 s1
    demo_used_token WorkOutcome.FAILED "again").
  - exact demo_in_use_reachable.
  - vm_compute. reflexivity.
  - exact Hrun.
  - apply (runs_refl 16 s1).
  - reflexivity.
Defined.

(** *** A fenced admission stays fenced *)

Lemma admission_fenced_insert id id' d s :
  EngineResidency.admission_fenced id s = true →
  (id = id' → d.(Drn.admission_fenced) = true) →
  EngineResidency.admission_fenced id (s <| Impl.drains ::= <[id' := d]> |>) = true.
Proof.
  rw /EngineResidency.admission_fenced /=. intros Hf Hd. destruct (decide (id = id')) as [<-|Hne].
  - rw lookup_insert_eq. auto.
  - by rw lookup_insert_ne.
Qed.

Lemma fenced_set_drain id id' f :
  (∀ d, d.(Drn.admission_fenced) = true → (f d).(Drn.admission_fenced) = true) →
  preserves (λ s, EngineResidency.admission_fenced id s = true) (set_drain id' f).
Proof.
  intros Hf. apply preserves_modify. intros s Hs. apply admission_fenced_insert; [done|].
  intros <-. apply Hf. revert Hs. rw /EngineResidency.admission_fenced /drains_at.
  by destruct (_ !! id).
Qed.

Ltac fenced_write := idtac;
  match goal with
  | |- preserves _ (set_drain _ _) => apply fenced_set_drain; intros [];
      simpl; intros ->; simpl; repeat case_match; reflexivity
  end.

Lemma run_op_admission_fenced `{HashOrder} id o :
  preserves (λ s, EngineResidency.admission_fenced id s = true) (run_op o).
Proof. destruct o; cbn [run_op]; preserve_with fenced_write. Qed.

(** What fences an incarnation's admission: a drain request and a cutover. *)
Lemma request_drain_fences id s s' :
  EngineResidency.request_drain id s = (Ok tt, s') → EngineResidency.admission_fenced id s' = true.
Proof.
  intros Hrun. destruct (wp_ok _ _ _ _ _ _ (request_drain_effect id s) Hrun) as (_ & Hd & _).
  by rw /EngineResidency.admission_fenced Hd lookup_insert_eq.
Qed.

Lemma fenced_rejected id s s' wanted caller :
  EngineResidency.admission_fenced id s = true → history any s s' →
  wanted.(Tok.incarnation_id) = id →
  rejected (EngineResidency.acquire_serving_use wanted caller) s'.
Proof.
  intros Hs Hruns Hid. assert (EngineResidency.admission_fenced id s' = true) as Hf.
  { apply (preserved_history any (λ s, EngineResidency.admission_fenced id s = true)) with (3 := Hruns);
      [intros; apply run_op_admission_fenced|done..]. }
  apply wp_rejected. eapply wp_mono; [| |apply acquire_effect]; [|done].
  intros tok s'' (inc & [] & _). congruence.
Qed.

(** C16. Drain is final for admission: after a successful [request_drain], and
    whatever operations and loads follow (marking it running, revalidating or
    activating it again included), no serving use of that incarnation is ever
    admitted. *)
Theorem drained_admission_never_reopens s id s1 s' wanted caller :
  EngineResidency.request_drain id s = (Ok tt, s1) → history any s1 s' →
  wanted.(Tok.incarnation_id) = id →
  rejected (EngineResidency.acquire_serving_use wanted caller) s'.
Proof.
  intros Hreq. apply fenced_rejected. by apply (request_drain_fences id s).
Qed.

Lemma drained_admission_never_reopens_witness :
  rejected (EngineResidency.acquire_serving_use (demo_token 2 2) "client")
    (run_ops [Revalidate (mkId 2)] (run_ops [RequestDrain (mkId 2)] demo_ready)).
Proof.
  apply (drained_admission_never_reopens demo_ready (mkId 2) (run_ops [RequestDrain (mkId 2)] demo_ready)
    _ (demo_token 2 2)).
  - vm_compute. reflexivity.
  - apply (run_ops_history [Revalidate (mkId 2)] (run_ops [RequestDrain (mkId 2)] demo_ready)).
  - reflexivity.
Defined.

(** *** A drain can always be completed *)

Definition token_of (k : ServingUseId) (u : ActiveUse) : ServingUseToken :=
  ServingUseToken.default <| Tok.use_id := k |> <| Tok.incarnation_id := u.(Use.incarnation_id) |>.
Definition release_op (ku : ServingUseId * ActiveUse) : Op :=
  ReleaseServingUse (token_of ku.1 ku.2) WorkOutcome.COMPLETED "".
(** Release what is admitted, then acknowledge the backend's cleanup. *)
Definition finish_drain (id : EngineIncarnationId) (s : Impl.t) : list Op :=
  (release_op <$> map_to_list (unreleased id s)) ++ [AcknowledgeBackendCleanup id].

Section drain_progress.
Context (id : EngineIncarnationId).
#[local] Existing Instance map_to_list_order.

Lemma release_one n s k u :
  accounted n s → unreleased id s !! k = Some u →
  released_use (token_of k u) s (run_op (release_op (k, u)) s).2.
Proof.
  intros Ha Hk. apply map_lookup_filter_Some in Hk as (Hk & Hi & Hr).
  pose proof (release_effect (token_of k u) WorkOutcome.COMPLETED "" s
    (λ v, counted_positive n s _ v Ha)) as H.
  rw /run_op /release_op /wp /= in H |- *. revert H.
  destruct (EngineResidency.release_serving_use _ _ _ s) as [[[]|e] s']; [done|].
  intros (_ & code & msg & _ & Href). exfalso. revert Href.
  rw /release_refused /= Hk Hr. by intros [? _].
Qed.

Lemma release_all n l s :
  use_invariant n s → EngineResidency.admission_fenced id s = true → NoDup l.*1 →
  unreleased id s = list_to_map l →
  let s' := run_ops (release_op <$> l) s in
  use_invariant n s' ∧ EngineResidency.admission_fenced id s' = true ∧ unreleased id s' = ∅.
Proof.
  revert s; induction l as [|[k u] l IH]; intros s Hs Hf Hnd Hl; [done|]. simpl.
  inversion_clear Hnd as [|? ? Hk Hnd'].
  assert (unreleased id s !! k = Some u) as Hu by (by rw Hl /= lookup_insert_eq).
  pose proof (release_one n s k u (proj1 Hs) Hu) as Hrel.
  apply IH; [by eapply released_invariant| |done|].
  - by apply (preserves_run _ _ _ (run_op_admission_fenced id (release_op (k, u)))).
  - destruct Hrel as [(u' & v & _ & _ & _ & Hv & _ & Hs') _ _ _].
    rw /unreleased Hs' map_filter_insert_False /=; [|intros [_ ?]; congruence].
    rw map_filter_delete -/(unreleased id s) Hl /=.
    rw delete_insert_id //. by apply not_elem_of_list_to_map_1.
Qed.
End drain_progress.

(** C18. A drain can always be completed: from any state that operations, and a
    load among their first million, reach, and in which the admission of an incarnation with a drain record is fenced, releasing each
    of its outstanding uses once and then acknowledging the backend cleanup
    ends in DRAINED. *)
Theorem drain_can_complete n s id :
  reachable created n s → EngineResidency.admission_fenced id s = true →
  ∃ d, (run_ops (finish_drain id s) s).(Impl.drains) !! id = Some d ∧
    d.(Drn.phase) = DrainPhase.DRAINED.
Proof.
  intros Hr Hf. pose proof (reachable_use_invariant _ n s Hr) as Hs.
  destruct (release_all id n (map_to_list (unreleased id s)) s Hs Hf (NoDup_fst_map_to_list _))
    as (Hs' & Hf' & He'); [by rw list_to_map_to_list|].
  rw /finish_drain run_ops_snoc. revert Hs' Hf' He'.
  generalize (run_ops (release_op <$> map_to_list (unreleased id s)) s) as s'.
  intros s' Hs' Hf' He'. pose proof (acknowledge_effect id s') as H. rw /wp in H.
  cbn [run_op]. destruct (EngineResidency.acknowledge_backend_cleanup id s') as [[[]|e] s''].
  - destruct H as (d & Hd & ->). exists (acknowledged id s' d). split; [by rw /= lookup_insert_eq|].
    rw /EngineResidency.admission_fenced Hd in Hf'. rw /acknowledged /= Hf'.
    by rw (proj2 (remaining_zero n s' id (proj1 Hs')) He').
  - destruct H as [_ Hd]. by rw /EngineResidency.admission_fenced Hd in Hf'.
Qed.

Lemma drain_can_complete_witness :
  ∃ d, (run_ops (finish_drain (mkId 2) demo_in_use) demo_in_use).(Impl.drains) !! mkId 2 = Some d ∧
    d.(Drn.phase) = DrainPhase.DRAINED.
Proof.
  apply (drain_can_complete 15 demo_in_use (mkId 2) demo_in_use_reachable).
  vm_compute. reflexivity.
Defined.
