(* ===== verification/Publication.v ===== *)
(** * Publishing evidence

    What more evidence means for readiness, the bound on the evidence a runtime
    keeps, and the exact effect of [publish_component] by an incarnation that
    runs. *)

From S2P Require Import Prelude Identities Enums Model Reference Codec Readiness Runtime Transitions.
From S2P Require Import ServingUse.
Local Open Scope N_scope.

(** ** Readiness under more evidence *)

(** Every requirement is an ordinary one, has evidence, and all the evidence it
    can be answered by is strong enough and does not age. *)
Definition backs (engine : EngineDefinition) (req : ProfileRequirement) (e : ComponentEvidence) : Prop :=
  selects req.(Req.category) req.(Req.subject) "" e = true →
  usable engine req e ∧ e.(Ev.max_age_ns) = 0.
Record provided (engine : EngineDefinition) (evidence : list ComponentEvidence)
    (req : ProfileRequirement) : Prop := {
  prov_kind : req.(Req.kind) = RequirementKind.REQUIRED;
  prov_some : ∃ e, e ∈ evidence ∧ selects req.(Req.category) req.(Req.subject) "" e = true;
  prov_all e : e ∈ evidence → backs engine req e;
}.

(** The same, decided. *)
Definition backs_b (engine : EngineDefinition) (req : ProfileRequirement) (e : ComponentEvidence) : bool :=
  negb (selects req.(Req.category) req.(Req.subject) "" e)
  || state_satisfies e.(Ev.state) req.(Req.min_state)
     && negb (Key.is_valid req.(Req.compatibility) && negb (Key.eqb req.(Req.compatibility) e.(Ev.compatibility)))
     && negb (negb (bool_decide (req.(Req.generation_family) = GenerationFamily.NONE)) && gen_mismatch engine req e)
     && (e.(Ev.max_age_ns) =? 0).
Definition provided_b (engine : EngineDefinition) (evidence : list ComponentEvidence)
    (req : ProfileRequirement) : bool :=
  is_kind req RequirementKind.REQUIRED
  && existsb (selects req.(Req.category) req.(Req.subject) "") evidence
  && forallb (backs_b engine req) evidence.
Lemma backs_b_backs engine req e : backs_b engine req e = true → backs engine req e.
Proof.
  rw /backs_b. intros Hb Hsel. rw Hsel /= in Hb.
  apply andb_true_iff in Hb as [[[Hs Hk%negb_true_iff]%andb_true_iff Hg%negb_true_iff]%andb_true_iff Ha%N.eqb_eq].
  apply state_satisfies_spec in Hs. pose proof (proj1 (key_check_spec req e) Hk) as Hk'. split; [|done]. split; [done..|].
  exact (proj1 (gen_mismatch_spec engine req e Hk') Hg).
Qed.
Lemma forallb_elem_of {A} (f : A → bool) (l : list A) x : forallb f l = true → x ∈ l → f x = true.
Proof. rw forallb_forall. intros Hf Hx. by apply Hf, list_elem_of_In. Qed.
Lemma provided_b_provided engine evidence req : provided_b engine evidence req = true → provided engine evidence req.
Proof.
  rw /provided_b. intros [[Hk%is_kind_spec (e & He & Hs)%existsb_exists]%andb_true_iff Hall]%andb_true_iff.
  split; [done| |].
  - exists e. by rw list_elem_of_In.
  - intros e' He'. apply backs_b_backs. by apply (forallb_elem_of _ evidence).
Qed.

Lemma provided_met engine evidence now req : provided engine evidence req → judged engine evidence now req Met.
Proof.
  intros [Hk (e0 & He0 & Hs0) Hall].
  destruct (best_evidence evidence now req.(Req.category) req.(Req.subject) "") as [e|] eqn:He.
  - apply best_evidence_elem in He as Hin. destruct Hin as [Hin Hsel].
    destruct (Hall e Hin Hsel) as [Hu Hage].
    apply (judged_met _ _ _ _ e); [by rw Hk|exact He|done|]. left. by rw /Ev.is_fresh Hage.
  - rewrite ->best_evidence_None in He. by rw (He e0 He0) in Hs0.
Qed.
Lemma provided_ready engine profile inc evidence now :
  (∀ req, req ∈ profile.(Prof.requirements) → provided engine evidence req) →
  (evaluate_readiness engine profile inc evidence now).(Res.outcome) = ReadinessOutcome.READY.
Proof.
  intros Hp.
  assert (∀ r, r ∈ profile.(Prof.requirements) → judged engine evidence now r Met ∨ judged engine evidence now r Waived)
    as Hall by (intros r Hr; left; by apply provided_met, Hp).
  destruct (proj2 (all_accepted _ _ _ _) Hall) as (H1 & H2 & H3).
  rw evaluate_outcome /verdict_outcome H1 H2 H3.
  destruct (existsb (is_fallback _ _ _) _) eqn:Hf; [|done].
  apply (fallback_spec _ _ _ _ Hall) in Hf as (r & Hr & Hk). destruct (Hp r Hr) as [Hk' _ _]. congruence.
Qed.
Lemma provided_snoc engine evidence req e :
  provided engine evidence req → backs engine req e → provided engine (evidence ++ [e]) req.
Proof.
  intros [Hk (e0 & He0 & Hs0) Hall] He. split; [done| |].
  - exists e0. split; [|done]. apply elem_of_app. by left.
  - intros e' [Hin|Hin%list_elem_of_singleton]%elem_of_app; [by apply Hall|by subst].
Qed.
(** The identity and the time the runtime stamps on a record. *)
Lemma backs_stamped engine req e id g t :
  backs engine req e →
  backs engine req (e <| Ev.evidence_id := id |> <| Ev.evidence_generation := g |> <| Ev.observed_at_ns := t |>).
Proof. intros Hb Hsel. destruct (Hb Hsel) as [[? ? ?] ?]. by split. Qed.

Lemma eval_requirement_coherent engine evidence now l req :
  (eval_requirement engine evidence now l req).(Locals.result).(Res.coherent_snapshot)
  = l.(Locals.result).(Res.coherent_snapshot).
Proof. rw /eval_requirement. cbv zeta. by repeat case_match. Qed.
(** The evaluation of an incarnation that need not revalidate is a coherent
    snapshot. *)
Lemma evaluate_coherent engine profile inc evidence now :
  (evaluate_readiness engine profile inc evidence now).(Res.coherent_snapshot) = true.
Proof.
  rw /evaluate_readiness.
  assert (∀ reqs l, l.(Locals.result).(Res.coherent_snapshot) = true →
    (foldl (eval_requirement engine evidence now) l reqs).(Locals.result).(Res.coherent_snapshot) = true) as Hloop.
  { induction reqs as [|r reqs IH]; intros l Hl; [done|]. apply IH. by rw eval_requirement_coherent. }
  pose proof (Hloop (Prof.requirements profile)
    (Locals.mk (initial_result engine profile inc) false false false false) eq_refl) as Hres.
  rw /conclude. by repeat case_match.
Qed.

(** *** The bound on evidence *)

Definition evidence_sum (m : gmap EngineIncarnationId (list ComponentEvidence)) : nat :=
  map_fold (λ _ l n, length l + n)%nat 0%nat m.
Lemma evidence_sum_delete k m :
  evidence_sum m = (length (default [] (m !! k)) + evidence_sum (delete k m))%nat.
Proof.
  destruct (m !! k) as [l|] eqn:Hk; [|by rw delete_id].
  rw /evidence_sum (map_fold_delete_L _ _ k l m) //. intros. lia.
Qed.
Lemma evidence_sum_push k (e : ComponentEvidence) m :
  evidence_sum (<[k := default [] (m !! k) ++ [e]]> m) = S (evidence_sum m).
Proof.
  rw (evidence_sum_delete k (<[k := _]> m)) (evidence_sum_delete k m).
  rw lookup_insert_eq delete_insert_eq /= length_app /=. lia.
Qed.

(** ** A runtime in service *)

(** ** Publication *)

(** The incarnation runs and is not fenced, and there is room for more. *)
Record may_publish (inc : EngineIncarnationId) (s : Impl.t) (i : EngineIncarnation) : Prop := {
  mp_found : s.(Impl.incarnations) !! inc = Some i;
  mp_running : i.(Inc.state).(St.lifecycle) ≠ ProcessLifecycle.STARTING;
  mp_registered : i.(Inc.state).(St.registration) ≠ RegistrationState.FENCED;
  mp_healthy : i.(Inc.state).(St.health) ≠ HealthState.FENCED;
  mp_unfenced : is_fenced i.(Inc.worker_id) i.(Inc.worker_boot) s = false;
  mp_started : s.(Impl.epoch_started) = true;
  mp_room : N.of_nat (evidence_sum s.(Impl.evidence)) < s.(Impl.opts).(Opts.max_component_evidence);
}.
(** What a publication by that incarnation leaves: one more record, and a
    later time of activity. *)
Record pushed (inc : EngineIncarnationId) (ev : ComponentEvidence) (t : N) (s s' : Impl.t) : Prop := {
  pu_incs : s'.(Impl.incarnations) = alter (λ i, i <| Inc.last_activity_ns := t |>) inc s.(Impl.incarnations);
  pu_evidence : s'.(Impl.evidence) = <[inc := evidence_of inc s ++ [ev]]> s.(Impl.evidence);
  pu_uses : s'.(Impl.active_uses) = s.(Impl.active_uses) ∧ s'.(Impl.active_use_count) = s.(Impl.active_use_count);
  pu_defs : s'.(Impl.profiles) = s.(Impl.profiles) ∧ s'.(Impl.engines) = s.(Impl.engines);
  pu_fences : s'.(Impl.fenced) = s.(Impl.fenced) ∧ s'.(Impl.drains) = s.(Impl.drains);
  pu_authority : s'.(Impl.authority) = s.(Impl.authority) ∧ s'.(Impl.epoch_started) = s.(Impl.epoch_started);
  pu_opts : s'.(Impl.opts) = s.(Impl.opts);
}.

Lemma wp_ensure_epoch_started (Q : CoordinatorEpoch → Impl.t → Prop) X s :
  s.(Impl.epoch_started) = true → Q s.(Impl.authority).(Auth.epoch) s → wp ensure_epoch Q X s.
Proof. intros Hst HQ. rw /ensure_epoch. wp_go; [by rw Hst in Heqb|done]. Qed.
(** Such a publication succeeds: the record is stamped with an identity and the
    time, and appended. *)
Lemma publish_effect inc ev s i :
  may_publish inc s i → ev.(Ev.incarnation_id) = inc →
  ev.(Ev.coordinator_epoch) = s.(Impl.authority).(Auth.epoch) →
  wp (EngineResidency.publish_component ev)
    (λ _ s', ∃ id t, pushed inc (ev <| Ev.evidence_id := id |> <| Ev.evidence_generation := mkGen 1 |>
                                    <| Ev.observed_at_ns := t |>) t s s')
    (λ _ _, False) s.
Proof.
  intros [Hi Hr Hreg Hh Hf Hst Hroom] Hinc Hepoch.
  rw /EngineResidency.publish_component. apply wp_bind, wp_ensure_epoch_started; [done|].
  do 4 (wp_step; cbv beta); [|congruence]. assert (a = i) as -> by congruence.
  do 2 (wp_step; cbv beta); [by apply orb_true_iff in H0 as [?%bool_decide_eq_true|?%bool_decide_eq_true]|].
  do 4 (wp_step; cbv beta); [congruence|]. do 4 (wp_step; cbv beta).
  { apply negb_true_iff, Generation_eqb_neq in H2. congruence. }
  do 4 (wp_step; cbv beta).
  { apply N.leb_le in H3. change (EngineResidency.total_evidence s) with (evidence_sum s.(Impl.evidence)) in H3. lia. }
  do 12 (wp_step; cbv beta).
  { by apply andb_true_iff in Heqb as [_ Hlc%bool_decide_eq_true]. }
  do 2 (wp_step; cbv beta). do 2 eexists.
  rw Hinc. split; first [reflexivity|split; reflexivity].
Qed.
(** And it leaves room for the next, if there is any. *)
Lemma pushed_may_publish inc ev t s s' i :
  pushed inc ev t s s' → may_publish inc s i →
  N.of_nat (S (evidence_sum s.(Impl.evidence))) < s.(Impl.opts).(Opts.max_component_evidence) →
  may_publish inc s' (i <| Inc.last_activity_ns := t |>).
Proof.
  intros [Hi Hev _ _ [Hf _] [_ Hst] Ho] [Hfound Hr Hreg Hh Hfen Hs _] Hroom.
  split; rw ?Hst ?Ho ?Hev ?evidence_sum_push //.
  - by rw Hi lookup_alter_eq Hfound.
  - by rw /is_fenced Hf.
Qed.
