(* ===== verification/Invalidation.v ===== *)
(** * Invalidation

    What supersedes old authority: an epoch advance suspends every running
    incarnation and voids permits, attempts and evidence of the old epoch; a
    configuration update or an explicit invalidation advances the readiness
    generation, and a token with an old one never serves again. *)

From S2P Require Import Prelude Identities Enums Model Reference Readiness Runtime.
From S2P Require Import Transitions Scenario Incarnations Authority ServingUse.
Local Open Scope N_scope.

(** ** Advancing the epoch *)

Record epoch_advanced (s s' : Impl.t) : Prop := {
  adv_epoch : gen_raw s'.(Impl.authority).(Auth.epoch) = gen_raw s.(Impl.authority).(Auth.epoch) + 1;
  adv_incs : s'.(Impl.incarnations) = EngineResidency.require_revalidation <$> s.(Impl.incarnations);
  adv_slots : s'.(Impl.slots) = ∅;
  adv_started : s'.(Impl.epoch_started) = true;
}.

Lemma advance_epoch_effect s :
  s.(Impl.epoch_started) = true →
  wp EngineResidency.advance_epoch (λ _, epoch_advanced s) (λ _ _, True) s.
Proof. intros Hs. by wp_go_with ltac:(idtac; first [exact I|restarted Hs]). Qed.

Lemma revalidation_not_current i :
  (EngineResidency.require_revalidation i).(Inc.state).(St.lifecycle) = ProcessLifecycle.RUNNING →
  (EngineResidency.require_revalidation i).(Inc.is_current) = false ∧
  EngineResidency.awaits_authority (EngineResidency.require_revalidation i) = true.
Proof.
  rw /EngineResidency.require_revalidation. by case_bool_decide.
Qed.

(** Two different generations fail the equality guard. *)
Ltac stale_epoch H :=
  match goal with
  | Hg : negb (Generation.eqb _ _) = false |- _ =>
    exfalso; apply negb_false_iff, Generation_eqb_eq in Hg; apply H; exact Hg
  end.

Section old_epoch.
Context (s : Impl.t) (e : CoordinatorEpoch).
Context (Hold : e ≠ s.(Impl.authority).(Auth.epoch)) (Hs : s.(Impl.epoch_started) = true).

Lemma old_evidence_rejected ev :
  ev.(Ev.coordinator_epoch) = e → rejected (EngineResidency.publish_component ev) s.
Proof.
  intros <-. apply wp_rejected.
  wp_go_with ltac:(idtac; first [exact I|restarted Hs|stale_epoch Hold]).
Qed.

Lemma old_permit_rejected inc permit p :
  s.(Impl.permits) !! permit.(Permit.permit_id) = Some p → p.(Permit.epoch) = e →
  rejected (EngineResidency.register_incarnation inc permit) s.
Proof.
  intros Hp <-. apply wp_rejected.
  wp_go_with ltac:(idtac; first [exact I|restarted Hs|simplify_eq; stale_epoch Hold]).
Qed.

Lemma old_attempt_rejected a att :
  s.(Impl.attempts) !! a = Some att → att.(Att.epoch) = e →
  rejected (EngineResidency.step_preparation a) s ∧ rejected (EngineResidency.complete_preparation a) s.
Proof.
  intros Ha <-. split; apply wp_rejected;
    wp_go_with ltac:(idtac; first [exact I|simplify_eq; stale_epoch Hold]).
Qed.
End old_epoch.

(** C15. Advancing the epoch suspends all service and voids the old epoch: right
    after a successful [advance_epoch] no serving use can be acquired, every
    RUNNING incarnation evaluates to REVALIDATION_REQUIRED for every profile,
    no standby slot is assigned, and evidence, registration permits and
    preparation attempts of the previous epoch are refused. *)
Theorem advance_epoch_suspends_service s e s' :
  arises s → EngineResidency.advance_epoch s = (Ok e, s') →
  let old := s.(Impl.authority).(Auth.epoch) in
  s'.(Impl.slots) = ∅ ∧
  (∀ wanted caller, rejected (EngineResidency.acquire_serving_use wanted caller) s') ∧
  (∀ k i prof r s'', s'.(Impl.incarnations) !! k = Some i →
     i.(Inc.state).(St.lifecycle) = ProcessLifecycle.RUNNING →
     EngineResidency.evaluate_readiness k prof s' = (Ok r, s'') →
     r.(Res.outcome) = ReadinessOutcome.REVALIDATION_REQUIRED) ∧
  (∀ ev, ev.(Ev.coordinator_epoch) = old → rejected (EngineResidency.publish_component ev) s') ∧
  (∀ inc permit p, s'.(Impl.permits) !! permit.(Permit.permit_id) = Some p → p.(Permit.epoch) = old →
     rejected (EngineResidency.register_incarnation inc permit) s') ∧
  (∀ a att, s'.(Impl.attempts) !! a = Some att → att.(Att.epoch) = old →
     rejected (EngineResidency.step_preparation a) s' ∧
     rejected (EngineResidency.complete_preparation a) s').
Proof.
  intros Hr Hrun old. destruct (arises_authority s Hr) as [Hs _].
  destruct (wp_ok _ _ _ _ _ _ (advance_epoch_effect s Hs) Hrun) as [He Hincs Hslots Hs'].
  assert (old ≠ s'.(Impl.authority).(Auth.epoch)) as Hold by (intros E; rw -E /old in He; lia).
  assert (∀ k i, s'.(Impl.incarnations) !! k = Some i →
    i.(Inc.state).(St.lifecycle) = ProcessLifecycle.RUNNING →
    i.(Inc.is_current) = false ∧ EngineResidency.awaits_authority i = true) as Hsusp.
  { intros k i. rw Hincs. intros (j & <- & _)%lookup_fmap_Some. apply revalidation_not_current. }
  split_and!; [done| | |by apply old_evidence_rejected|by apply old_permit_rejected
    |by apply old_attempt_rejected].
  - intros wanted caller. apply wp_rejected. eapply wp_mono; [| |apply acquire_effect]; [|done].
    intros tok s'' (inc & [Hi Hc Hl _ _ _ _] & _). destruct (Hsusp _ _ Hi Hl). congruence.
  - intros k i prof r s'' Hi Hl. destruct (Hsusp k i Hi Hl) as [_ Ha].
    intros Hev.
    refine (wp_ok _ (λ r _, r.(Res.outcome) = ReadinessOutcome.REVALIDATION_REQUIRED)
      (λ _ _, True) s' r s'' _ Hev).
    wp_go_with ltac:(idtac; exact I); simplify_eq; [done|congruence].
Qed.

Lemma advance_epoch_suspends_service_witness :
  throws (use_op 2 1) demo_ready = None ∧
  ∀ wanted caller, rejected (EngineResidency.acquire_serving_use wanted caller)
    (EngineResidency.advance_epoch demo_ready).2.
Proof.
  split; [vm_compute; reflexivity|].
  destruct (EngineResidency.advance_epoch demo_ready) as [[e|x] s'] eqn:Hrun;
    [|vm_compute in Hrun; discriminate Hrun].
  apply (advance_epoch_suspends_service demo_ready e s'); [|exact Hrun].
  apply (reachable_arises any 12), demo_ready_reachable.
Defined.

(** ** Readiness generations *)

(** Old readiness never authorises serving: once the readiness generation
    of an incarnation has passed [g], no history without a load brings it back, so
    neither an acquisition nor an activation that presents [g] for it ever
    succeeds again. *)
Theorem stale_readiness_rejected_forever n s k i n' s' g :
  reachable_under low_identities created n s → runs_under none n s n' s' →
  s.(Impl.incarnations) !! k = Some i →
  gen_raw g < gen_raw i.(Inc.readiness_generation) →
  (∀ wanted caller, wanted.(Tok.incarnation_id) = k → wanted.(Tok.readiness_generation) = g →
     rejected (EngineResidency.acquire_serving_use wanted caller) s') ∧
  (∀ req, req.(ActReq.incarnation_id) = k → req.(ActReq.readiness_generation) = g →
     rejected (EngineResidency.activate req) s').
Proof.
  intros Hr Hruns Hi Hg.
  destruct (tracks_runs n s n' s' k i Hr Hruns) as (i' & Hi' & _ & Hle);
    [by exists i|].
  split.
  - intros wanted caller <- <-. apply wp_rejected. eapply wp_mono; [| |apply acquire_effect]; [|done].
    intros tok s'' (inc & [Hinc _ _ _ Hgen _ _] & _). simplify_eq. rw Hgen in Hg. lia.
  - intros req <- <-. apply wp_rejected.
    wp_go_with ltac:(idtac; first [exact I
      |match goal with Hn : negb (Generation.eqb _ _) = false, Hj : _ !! _ = Some ?j |- _ =>
         exfalso; apply negb_false_iff, Generation_eqb_eq in Hn; simplify_eq; rw Hn in Hle; lia
       end]).
Qed.

Lemma stale_readiness_rejected_forever_witness :
  let s := run_ops [InvalidateIncarnationComponents (mkId 2) "reload"] demo_ready in
  rejected (EngineResidency.acquire_serving_use (demo_token 2 1) "client")
    (run_ops [Revalidate (mkId 2)] s).
Proof.
  intros s. assert (reachable_under low_identities created 13 s) as Hr.
  { eapply reachable_runs; [exact demo_ready_reachable|].
    apply (run_ops_runs [InvalidateIncarnationComponents (mkId 2) "reload"] 12). vm_compute. reflexivity. }
  destruct (s.(Impl.incarnations) !! mkId 2) as [i|] eqn:Hi; [|vm_compute in Hi; discriminate Hi].
  apply (stale_readiness_rejected_forever 13 s (mkId 2) i 14 (run_ops [Revalidate (mkId 2)] s) (mkGen 1) Hr).
  - apply (run_ops_runs [Revalidate (mkId 2)] 13 s). vm_compute. reflexivity.
  - exact Hi.
  - vm_compute in Hi. injection Hi as <-. vm_compute. reflexivity.
  - reflexivity.
  - reflexivity.
Defined.

(** ** Configuration updates *)

(** One incarnation after its engine's configuration changed. *)
Definition superseded (engine_id : EngineId) (i : EngineIncarnation) : EngineIncarnation :=
  if Identity.eqb i.(Inc.engine_id) engine_id then
    i <| Inc.state ::= λ st, st <| St.preparation := PreparationState.INVALIDATED |> |>
      <| Inc.readiness_generation ::= λ g, mkGen (gen_raw g + 1) |>
  else i.

Lemma invalidate_one_effect `{HashOrder} engine_id k i s :
  s.(Impl.incarnations) !! k = Some i →
  wp (EngineResidency.invalidate_for_engine engine_id (k, i))
    (λ _ s', s' = s <| Impl.incarnations := <[k := superseded engine_id i]> s.(Impl.incarnations) |>)
    (λ _ _, True) s.
Proof.
  intros Hk. rw /EngineResidency.invalidate_for_engine /superseded /=.
  destruct (Identity.eqb _ _).
  - rw /bump_readiness. do 4 (wp_step; cbv beta); [done|]. wp_step.
    change (s <| Impl.incarnations := alter (λ j, j <| Inc.readiness_generation :=
        mkGen (gen_raw i.(Inc.readiness_generation) + 1) |>) k
      (alter (λ j, j <| Inc.state ::= λ st, st <| St.preparation := PreparationState.INVALIDATED |> |>) k
        s.(Impl.incarnations)) |> = s <| Impl.incarnations := <[k := i
          <| Inc.state ::= λ st, st <| St.preparation := PreparationState.INVALIDATED |> |>
          <| Inc.readiness_generation ::= λ g, mkGen (gen_raw g + 1) |>]> s.(Impl.incarnations) |>).
    by rw (alter_insert _ s.(Impl.incarnations) k i Hk)
      (alter_insert _ _ k _ (lookup_insert_eq _ _ _)) insert_insert_eq.
  - apply wp_ret. rw insert_id //. by destruct s.
Qed.

Lemma invalidate_all_effect `{HashOrder} engine_id l s :
  NoDup l.*1 → (∀ kv, kv ∈ l → s.(Impl.incarnations) !! kv.1 = Some kv.2) →
  wp (for_each (EngineResidency.invalidate_for_engine engine_id) l)
    (λ _ s', s' = s <| Impl.incarnations := s'.(Impl.incarnations) |> ∧
      ∀ k, s'.(Impl.incarnations) !! k
           = if decide (k ∈ l.*1) then superseded engine_id <$> s.(Impl.incarnations) !! k
             else s.(Impl.incarnations) !! k)
    (λ _ _, True) s.
Proof.
  revert s; induction l as [|[k i] l IH]; intros s Hnd Hl.
  { apply wp_ret. split; [by destruct s|]. intros k.
    by destruct (decide _) as [?%elem_of_nil|]. }
  inversion_clear Hnd as [|? ? Hk Hnd']. pose proof (Hl (k, i) ltac:(left)) as Hki. simpl in Hki.
  cbn [for_each]. apply wp_bind. eapply wp_mono; [| |by apply invalidate_one_effect]; [|done].
  intros [] s1 ->. eapply wp_mono; [| |apply IH]; [|done|done|].
  - intros [] s2 [Hs2 Hinc]. split; [by rw Hs2|]. intros k'. rw Hinc /=. destruct (decide (k = k')) as [<-|Hne].
    + rw lookup_insert_eq Hki. destruct (decide (k ∈ l.*1)) as [Hin|_]; [by destruct Hk|].
      case_decide as Hn; [done|]. destruct Hn. by left.
    + rw lookup_insert_ne //.
      destruct (decide (k' ∈ l.*1)); case_decide as Hin; try done.
      * destruct Hin. by right.
      * by apply elem_of_cons in Hin as [?|?].
  - intros [k' i'] Hk'. simpl. rw lookup_insert_ne; [by apply (Hl (k', i')); right|].
    intros ->. apply Hk. by apply (list_elem_of_fmap_2' fst l (k', i')).
Qed.

(** A configuration update supersedes old readiness, whatever the hash
    map's iteration order: when it succeeds the generation moved strictly
    forward, the engine's definition carries the new one, every incarnation of
    the engine is INVALIDATED with its readiness generation advanced by one,
    and every other incarnation and the rest of the state are as before.  (A
    regressing or unknown update is refused without effect.) *)
Theorem update_engine_config_supersedes (Ord : HashOrder) engine_id new_gen reason s :
  match EngineResidency.update_engine_config engine_id new_gen reason s with
  | (Ok _, s') => ∃ d, s.(Impl.engines) !! engine_id = Some d ∧
      gen_raw d.(Def.config_generation) < gen_raw new_gen ∧
      s' = s <| Impl.engines := <[engine_id := d <| Def.config_generation := new_gen |>]> s.(Impl.engines) |>
             <| Impl.incarnations := superseded engine_id <$> s.(Impl.incarnations) |>
  | (Throw e, s') =>
    (s.(Impl.engines) !! engine_id = None ∧ e = DomainError UnknownEngine "unknown engine" ∧ s' = s) ∨
    (∃ d, s.(Impl.engines) !! engine_id = Some d ∧
       (gen_raw new_gen <= gen_raw d.(Def.config_generation) ∧
        e = DomainError StaleGeneration "config generation regression" ∧ s' = s ∨
        gen_raw d.(Def.config_generation) < gen_raw new_gen))
  end.
Proof.
  assert (wp (EngineResidency.update_engine_config engine_id new_gen reason)
    (λ _ s', ∃ d, s.(Impl.engines) !! engine_id = Some d ∧
      gen_raw d.(Def.config_generation) < gen_raw new_gen ∧
      s' = s <| Impl.engines := <[engine_id := d <| Def.config_generation := new_gen |>]> s.(Impl.engines) |>
             <| Impl.incarnations := superseded engine_id <$> s.(Impl.incarnations) |>)
    (λ e s', (s.(Impl.engines) !! engine_id = None ∧ e = DomainError UnknownEngine "unknown engine" ∧ s' = s) ∨
      (∃ d, s.(Impl.engines) !! engine_id = Some d ∧
       (gen_raw new_gen <= gen_raw d.(Def.config_generation) ∧
        e = DomainError StaleGeneration "config generation regression" ∧ s' = s ∨
        gen_raw d.(Def.config_generation) < gen_raw new_gen))) s) as Hwp.
  2:{ rw /wp in Hwp. by destruct (EngineResidency.update_engine_config _ _ _ s) as [[]]. }
  rw /EngineResidency.update_engine_config. do 4 (wp_step; cbv beta); [|by left].
  rename a into d, H into Hd. do 2 (wp_step; cbv beta).
  { right. exists d. split; [done|]. left. split; [by apply N.leb_le|done]. }
  apply N.leb_gt in H. do 4 (wp_step; cbv beta).
  eapply wp_mono; [| |apply invalidate_all_effect].
  - intros [] s' [Hs' Hinc]. exists d. split_and!; [done..|].
    assert (s'.(Impl.incarnations) = superseded engine_id <$> s.(Impl.incarnations)) as Hsup.
    { apply map_eq. intros k. rw Hinc lookup_fmap /=. destruct (decide _) as [_|Hn]; [done|].
      destruct (Impl.incarnations s !! k) as [i|] eqn:Hk; [|done]. destruct Hn.
      apply list_elem_of_fmap. exists (k, i). by rw elem_of_iteration. }
    rw Hs' Hsup -(alter_insert (λ d, d <| Def.config_generation := new_gen |>) _ _ _ Hd). done.
  - intros e s' _. right. exists d. by split; [|right].
  - apply NoDup_iteration_keys.
  - intros [k i]. by rw elem_of_iteration.
Qed.
