(* ===== verification/Preparation.v ===== *)
(** * Preparation

    Plans are non-empty and bounded, an attempt records exactly the steps it
    has taken, a cancelled attempt never publishes, and an attempt publishes
    readiness only on current evidence. *)

From S2P Require Import Prelude Identities Enums Model Reference Readiness Runtime.
From S2P Require Import Loading Transitions Scenario Incarnations Authority ServingUse.
Local Open Scope N_scope.

(** [preparation.cpp]: the steps an attempt still has to take. *)
Definition preparation_remaining_steps (a : PreparationAttempt) (p : PreparationPlan) : N :=
  if a.(Att.next_step_index) <? N.of_nat (length p.(Plan.steps))
  then N.of_nat (length p.(Plan.steps)) - a.(Att.next_step_index) else 0.

(** ** The invariant *)

Definition descriptions (p : PreparationPlan) : list string := Step.description <$> p.(Plan.steps).

Definition plan_ok (o : RuntimeOptions) (p : PreparationPlan) : Prop :=
  p.(Plan.steps) ≠ [] ∧
  N.of_nat (length p.(Plan.steps)) <= N.max 1 o.(Opts.max_preparation_plan_steps).

Definition attempt_ok (plans : gmap PreparationPlanId PreparationPlan) (a : PreparationAttempt) : Prop :=
  (∃ p, plans !! a.(Att.plan_id) = Some p ∧
     a.(Att.completed_steps) = take (N.to_nat a.(Att.next_step_index)) (descriptions p) ∧
     a.(Att.next_step_index) <= N.of_nat (length p.(Plan.steps))) ∧
  (a.(Att.cancelled) = true → a.(Att.published_ready) = false).

Definition prepared (n : N) (s : Impl.t) : Prop :=
  s.(Impl.id_plan) <= n ∧ s.(Impl.id_attempt) <= n ∧
  map_Forall (λ k p, id_raw k <= s.(Impl.id_plan) + 1 ∧ plan_ok s.(Impl.opts) p) s.(Impl.plans) ∧
  map_Forall (λ k a, id_raw k <= s.(Impl.id_attempt) + 1 ∧ attempt_ok s.(Impl.plans) a)
    s.(Impl.attempts).

Lemma prepared_mono n s : prepared n s → prepared (n + 1) s.
Proof. intros (? & ? & ? & ?). split_and!; [lia..|done|done]. Qed.

(** Plan steps: never more than the bound. *)
Lemma plan_steps_length max steps missing :
  N.of_nat (length (EngineResidency.plan_steps max steps missing)) <= max - steps.
Proof.
  revert steps; induction missing as [|m missing IH]; intros steps; simpl; [lia|].
  case: N.leb_spec => Hle; simpl; [lia|]. specialize (IH (steps + 1)). lia.
Qed.

(** ** Effects *)

(** The preparation tables are the same. *)
Definition same_preparation (s s' : Impl.t) : Prop :=
  s'.(Impl.plans) = s.(Impl.plans) ∧ s'.(Impl.attempts) = s.(Impl.attempts) ∧
  s'.(Impl.id_plan) = s.(Impl.id_plan) ∧ s'.(Impl.id_attempt) = s.(Impl.id_attempt) ∧
  s'.(Impl.opts) = s.(Impl.opts).

Lemma prepared_same n s s' : same_preparation s s' → prepared n s → prepared n s'.
Proof. intros (Hp & Ha & Hi & Hj & Ho). by rw /prepared Hp Ha Hi Hj Ho. Qed.

Record plan_created (s : Impl.t) (p : PreparationPlan) (s' : Impl.t) : Prop := {
  pc_plans : s'.(Impl.plans) = <[mkId (u64 (s'.(Impl.id_plan) + 1)) := p]> s.(Impl.plans);
  pc_counter : s'.(Impl.id_plan) = u64 (s.(Impl.id_plan) + 1);
  pc_ok : plan_ok s.(Impl.opts) p;
  pc_rest : s'.(Impl.attempts) = s.(Impl.attempts) ∧ s'.(Impl.id_attempt) = s.(Impl.id_attempt) ∧
    s'.(Impl.opts) = s.(Impl.opts);
}.

Lemma create_plan_effect inc_id prof_id target s :
  wp (EngineResidency.create_preparation_plan inc_id prof_id target)
    (λ p s', plan_created s p s') (λ _, same_preparation s) s.
Proof.
  wp_go_with ltac:(idtac; match goal with |- same_preparation _ _ => repeat split end). split; [reflexivity..| |done].
  split; simpl; case_bool_decide as Hn; simpl; [done|done|lia|].
  pose proof (plan_steps_length s.(Impl.opts).(Opts.max_preparation_plan_steps) 0
    (Res.missing (evaluate_readiness d a0 a (evidence_of inc_id s) t))) as Hl.
  rw N.sub_0_r in Hl. etrans; [exact Hl|lia].
Qed.

Record attempt_begun (s : Impl.t) (a : PreparationAttempt) (s' : Impl.t) : Prop := {
  ab_attempts : s'.(Impl.attempts) = <[mkId (u64 (s'.(Impl.id_attempt) + 1)) := a]> s.(Impl.attempts);
  ab_counter : s'.(Impl.id_attempt) = u64 (s.(Impl.id_attempt) + 1);
  ab_plan : is_Some (s.(Impl.plans) !! a.(Att.plan_id));
  ab_new : a.(Att.next_step_index) = 0 ∧ a.(Att.completed_steps) = [] ∧ a.(Att.cancelled) = false;
  ab_rest : s'.(Impl.plans) = s.(Impl.plans) ∧ s'.(Impl.id_plan) = s.(Impl.id_plan) ∧
    s'.(Impl.opts) = s.(Impl.opts);
}.

Lemma begin_effect plan s :
  wp (EngineResidency.begin_preparation plan) (λ a s', attempt_begun s a s')
    (λ _, same_preparation s) s.
Proof.
  wp_go_with ltac:(idtac; match goal with |- same_preparation _ _ => repeat split end).
  split; [reflexivity..|by eexists|done|done].
Qed.

(** An update of one attempt, and of nothing else here. *)
Definition attempt_updated (s : Impl.t) (k : PreparationAttemptId) (a' : PreparationAttempt)
    (s' : Impl.t) : Prop :=
  s'.(Impl.attempts) = <[k := a']> s.(Impl.attempts) ∧ s'.(Impl.plans) = s.(Impl.plans) ∧
  s'.(Impl.id_plan) = s.(Impl.id_plan) ∧ s'.(Impl.id_attempt) = s.(Impl.id_attempt) ∧
  s'.(Impl.opts) = s.(Impl.opts).

Lemma prepared_update n s k a a' s' :
  prepared n s → s.(Impl.attempts) !! k = Some a → attempt_ok s.(Impl.plans) a' →
  attempt_updated s k a' s' → prepared n s'.
Proof.
  intros (Hi & Hj & Hp & Ha) Hk Hok (Hs & Hpl & Hi' & Hj' & Ho).
  rw /prepared Hs Hpl Hi' Hj' Ho. split_and!; [done..|].
  apply map_Forall_insert_2; [|done]. split; [by apply (Ha k a)|done].
Qed.

Lemma step_effect k s :
  wp (EngineResidency.step_preparation k)
    (λ r s', ∃ a p, s.(Impl.attempts) !! k = Some a ∧ a.(Att.cancelled) = false ∧
       a.(Att.epoch) = s.(Impl.authority).(Auth.epoch) ∧
       s.(Impl.plans) !! a.(Att.plan_id) = Some p ∧ r = EngineResidency.advance_step p a ∧
       s' = s <| Impl.attempts := <[k := r]> s.(Impl.attempts) |>)
    (λ _ s', s' = s) s.
Proof.
  wp_go_with ltac:(idtac; reflexivity). guard_facts. exists a, a0. split_and!; [done..|].
  by rw -(alter_insert _ _ _ _ H).
Qed.

(** The guards [complete_preparation] passes. *)
Record completable (k : PreparationAttemptId) (a : PreparationAttempt) (inc : EngineIncarnation)
    (prof : ReadinessProfile) (def : EngineDefinition) (s : Impl.t) : Prop := {
  cp_attempt : s.(Impl.attempts) !! k = Some a;
  cp_live : a.(Att.cancelled) = false;
  cp_authority : a.(Att.epoch) = s.(Impl.authority).(Auth.epoch) ∧
    a.(Att.authority) = s.(Impl.authority).(Auth.authority);
  cp_inc : s.(Impl.incarnations) !! a.(Att.incarnation_id) = Some inc ∧ inc.(Inc.is_current) = true;
  cp_prof : s.(Impl.profiles) !! a.(Att.profile_id) = Some prof;
  cp_def : s.(Impl.engines) !! inc.(Inc.engine_id) = Some def;
}.

(** The attempt after its completion, by readiness. *)
Definition concluded (ready : bool) (a : PreparationAttempt) : PreparationAttempt :=
  let a := a <| Att.authority_revalidated := true |> in
  if ready then a <| Att.state := PreparationState.PREPARED |> <| Att.published_ready := true |>
  else a <| Att.state := PreparationState.FAILED |>
         <| Att.failure_stage := "readiness not achieved" |>.

(** The incarnation's side of it. *)
Definition concluded_inc (ready : bool) (i : EngineIncarnation) : EngineIncarnation :=
  if ready then
    i <| Inc.state ::= λ st, st <| St.preparation := PreparationState.PREPARED |> |>
      <| Inc.readiness_generation ::= λ g, mkGen (gen_raw g + 1) |>
      <| Inc.state ::= λ st, st <| St.observed := DesiredResidency.WARM |> |>
  else i <| Inc.state ::= λ st, st <| St.preparation := PreparationState.FAILED |> |>.

Definition ready_now (a : PreparationAttempt) (inc : EngineIncarnation) (prof : ReadinessProfile)
    (def : EngineDefinition) (s : Impl.t) : bool :=
  serving_outcome (evaluate_readiness def prof inc
    (evidence_of a.(Att.incarnation_id) s) (time s)).(Res.outcome).

Lemma alter_alter {V} `{Countable K} (f g : V → V) (m : gmap K V) k v :
  m !! k = Some v → alter f k (alter g k m) = <[k := f (g v)]> m.
Proof.
  intros Hk. rw (alter_insert g m k v Hk) (alter_insert f _ k (g v) (lookup_insert_eq _ _ _)).
  by rw insert_insert_eq.
Qed.

Lemma alter3 {V} `{Countable K} (f g h : V → V) (m : gmap K V) k v :
  m !! k = Some v → alter f k (alter g k (alter h k m)) = <[k := f (g (h v))]> m.
Proof.
  intros Hk. by rw (alter_alter g h m k v Hk) (alter_insert f _ k (g (h v)) (lookup_insert_eq _ _ _))
    insert_insert_eq.
Qed.
Lemma default_alter2 {V} `{Countable K} (f g : V → V) (m : gmap K V) k v :
  m !! k = Some v → default v (alter f k (alter g k m) !! k) = f (g v).
Proof. intros Hk. by rw (alter_alter f g m k v Hk) lookup_insert_eq. Qed.

Lemma complete_effect k s :
  wp (EngineResidency.complete_preparation k)
    (λ r s', ∃ a inc prof def, completable k a inc prof def s ∧
       r = concluded (ready_now a inc prof def s) a ∧ attempt_updated s k r s' ∧
       s'.(Impl.active_attempt) = delete a.(Att.incarnation_id) s.(Impl.active_attempt) ∧
       s'.(Impl.incarnations) = <[a.(Att.incarnation_id) :=
         concluded_inc (ready_now a inc prof def s) inc]> s.(Impl.incarnations))
    (λ e s', same_but_clock s s' ∨ ∃ a inc prof def, completable k a inc prof def s ∧
       ready_now a inc prof def s = true ∧ (∃ msg, e = DomainError GenerationExhausted msg) ∧
       attempt_updated s k (concluded true a) s') s.
Proof.
  wp_go_with ltac:(idtac; match goal with |- same_but_clock _ _ ∨ _ =>
    left; first [apply same_but_clock_refl|apply same_but_clock_set] end).
  all: guard_facts.
  - right. exists a, a0, a1, a2. rw /ready_now -/(time s) in Heqb |- *.
    split_and!; [by split|by subst t|by eexists|].
    split; [exact (alter_alter _ _ _ k a H)|done].
  - exists a, a0, a1, a2. assert (ready_now a a0 a1 a2 s = true) as -> by (by rw /ready_now; subst t).
    split_and!; [by split|exact (default_alter2 _ _ _ k a H)| |reflexivity|exact (alter3 _ _ _ _ _ a0 H3)].
    split; [|done]. etrans; [exact (alter_alter _ _ _ k a H)|].
    f_equal. symmetry. exact (default_alter2 _ _ _ k a H).
  - exists a, a0, a1, a2. assert (ready_now a a0 a1 a2 s = false) as -> by (by rw /ready_now; subst t).
    split_and!; [by split|exact (default_alter2 _ _ _ k a H)| |reflexivity|exact (alter_insert _ _ _ a0 H3)].
    split; [|done]. etrans; [exact (alter_alter _ _ _ k a H)|].
    f_equal. symmetry. exact (default_alter2 _ _ _ k a H).
Qed.

(** ** Every operation keeps the invariant *)

Lemma prepared_attempt n s k a :
  prepared n s → s.(Impl.attempts) !! k = Some a → attempt_ok s.(Impl.plans) a.
Proof. intros (_ & _ & _ & H) Ha. by apply (H k a). Qed.

Lemma advance_step_ok plans p a :
  plans !! a.(Att.plan_id) = Some p → attempt_ok plans a →
  attempt_ok plans (EngineResidency.advance_step p a).
Proof.
  intros Hp [(p' & Hp' & Hc & Hn) Hpub]. simplify_eq. rw /EngineResidency.advance_step.
  destruct (Plan.steps p !! N.to_nat a.(Att.next_step_index)) as [st|] eqn:Hst.
  - assert (attempt_ok plans (a <| Att.completed_steps ::= λ l, l ++ [st.(Step.description)] |>
      <| Att.next_step_index ::= λ n, n + 1 |>)) as Hok.
    { split; [|done]. exists p. pose proof (lookup_lt_Some _ _ _ Hst). split_and!; [done| |simpl; lia].
      simpl. rw Hc N.add_1_r N2Nat.inj_succ (take_S_r _ _ st.(Step.description)) //.
      by rw /descriptions list_lookup_fmap Hst. }
    by destruct (_ <=? _).
  - assert (attempt_ok plans a) by (split; [by exists p|done]). by destruct (_ <=? _).
Qed.

Lemma concluded_ok plans a b :
  a.(Att.cancelled) = false → attempt_ok plans a → attempt_ok plans (concluded b a).
Proof. intros Hl [Hp _]. destruct b; (split; [exact Hp|simpl; congruence]). Qed.

Lemma attempt_ok_more plans k p a :
  plans !! k = None → attempt_ok plans a → attempt_ok (<[k := p]> plans) a.
Proof.
  intros Hk [(q & Hq & Hr) Hpub]. split; [|done]. exists q. split; [|done].
  rw lookup_insert_ne //. congruence.
Qed.

Lemma created_prepared_plan n s p s' :
  n + 2 < 2 ^ 64 → prepared n s → plan_created s p s' → prepared (n + 1) s'.
Proof.
  intros Hn (Hi & Hj & Hp & Ha) [Hpl Hc Hok (Hat & Hid & Ho)].
  rw u64_small in Hc; [|lia]. rw Hc u64_small in Hpl; [|lia].
  assert (s.(Impl.plans) !! mkId (s.(Impl.id_plan) + 1 + 1) = None) as Hfresh.
  { apply eq_None_not_Some. intros [q Hq]. apply Hp in Hq as [Hq _]. simpl in Hq. lia. }
  rw /prepared Hc Hid Hpl Hat Ho. split_and!; [lia..| |].
  - apply map_Forall_insert_2; [by split; [simpl; lia|]|].
    eapply map_Forall_impl; [done|]. intros k q [? ?]. by split; [lia|].
  - eapply map_Forall_impl; [done|]. intros k a [? ?]. by split; [|apply attempt_ok_more].
Qed.

Lemma begun_prepared n s a s' :
  n + 2 < 2 ^ 64 → prepared n s → attempt_begun s a s' → prepared (n + 1) s'.
Proof.
  intros Hn (Hi & Hj & Hp & Ha) [Hat Hc [p Hpl] (Hnext & Hdone & Hlive) (Hps & Hid & Ho)].
  rw u64_small in Hc; [|lia]. rw Hc u64_small in Hat; [|lia].
  rw /prepared Hc Hid Hps Hat Ho. split_and!; [lia..|done|].
  apply map_Forall_insert_2.
  - split; [simpl; lia|]. split; [|congruence]. exists p. rw Hnext Hdone. by split_and!; [..|lia].
  - eapply map_Forall_impl; [done|]. intros k b [? ?]. by split; [lia|].
Qed.

Lemma cancel_effect k reason s :
  wp (EngineResidency.cancel_preparation k reason)
    (λ _ s', ∃ a, s.(Impl.attempts) !! k = Some a ∧ a.(Att.published_ready) = false ∧
       attempt_updated s k (a <| Att.cancelled := true |> <| Att.state := PreparationState.FAILED |>) s' ∧
       s'.(Impl.active_attempt) = delete a.(Att.incarnation_id) s.(Impl.active_attempt))
    (λ _ s', s' = s) s.
Proof.
  wp_go_with ltac:(idtac; reflexivity). exists a. split_and!; [done..| |done].
  split; [exact (alter_insert _ _ k a H)|done].
Qed.

Lemma rollback_effect k reason s :
  wp (EngineResidency.rollback_preparation k reason)
    (λ _ s', ∃ a, s.(Impl.attempts) !! k = Some a ∧
       attempt_updated s k (a <| Att.state := PreparationState.FAILED |>
                              <| Att.failure_stage := "rolled back" |>) s' ∧
       s'.(Impl.active_attempt) = delete a.(Att.incarnation_id) s.(Impl.active_attempt))
    (λ _ s', s' = s) s.
Proof.
  wp_go_with ltac:(idtac; reflexivity). exists a. split_and!; [done..| |done].
  split; [exact (alter_insert _ _ k a H)|done].
Qed.

Lemma run_op_prepared `{HashOrder} o : advances prepared (run_op o).
Proof.
  destruct o; cbn [run_op];
    try (apply preserves_advances; [apply prepared_mono|intros n; preserve; fail]);
    intros n s Hn Hs; pose proof (prepared_mono n s Hs) as Hs1.
  - apply wp_bind. eapply wp_mono; [| |apply create_plan_effect]; intros p s' Hp.
    + by eapply created_prepared_plan.
    + exact (prepared_same _ s s' ltac:(eassumption) Hs1).
  - apply wp_bind. eapply wp_mono; [| |apply begin_effect]; intros a s' Ha.
    + by eapply begun_prepared.
    + exact (prepared_same _ s s' ltac:(eassumption) Hs1).
  - apply wp_bind. eapply wp_mono; [| |apply step_effect].
    + intros r s' (a & p & Ha & _ & _ & Hp & -> & ->).
      eapply (prepared_update _ s); [done..| |by split].
      apply advance_step_ok; [done|]. by eapply prepared_attempt.
    + by intros e s' ->.
  - apply wp_bind. eapply wp_mono; [| |apply complete_effect].
    + intros r s' (a & inc & prof & def & [Ha Hl _ _ _ _] & -> & Hup & _).
      eapply (prepared_update _ s); [done..| |done]. apply concluded_ok; [done|]. by eapply prepared_attempt.
    + intros e s' [[c ->]|(a & inc & prof & def & [Ha Hl _ _ _ _] & _ & _ & Hup)]; [done|].
      eapply (prepared_update _ s); [done..| |done]. apply concluded_ok; [done|]. by eapply prepared_attempt.
  - eapply wp_mono; [| |apply cancel_effect].
    + intros [] s' (a & Ha & Hpub & Hup & _). eapply (prepared_update _ s); [done..| |done].
      destruct (prepared_attempt _ _ _ _ Hs Ha) as [Hp _]. by split.
    + by intros e s' ->.
  - eapply wp_mono; [| |apply rollback_effect].
    + intros [] s' (a & Ha & Hup & _). eapply (prepared_update _ s); [done..| |done].
      exact (prepared_attempt _ _ _ _ Hs Ha).
    + by intros e s' ->.
Qed.

(** A load leaves the plans and the attempts alone. *)
Lemma reachable_prepared L n s : reachable_under L created n s → prepared n s.
Proof.
  apply reachable_invariant; [|intros; apply run_op_prepared|].
  - by intros ?? [-> (c & o & _ & ->)].
  - intros p m s' Hm _ (Hp & Ha & Hps & Has). rw /load_base in Hm.
    split_and!; [reflexivity..| |]; (eapply map_Forall_impl; [eassumption|]);
      cbn; intros k x [? ?]; (split; [lia|done]).
Qed.

(** * Properties *)

Definition demo_plan : PreparationPlan :=
  PreparationPlan.default <| Plan.plan_id := mkId 2 |> <| Plan.incarnation_id := mkId 2 |>
    <| Plan.profile_id := mkId 1 |>.
Definition demo_attempting : list Op :=
  [CreatePreparationPlan (mkId 2) (mkId 1) DesiredResidency.WARM; BeginPreparation demo_plan].
(** Registered but without evidence: seven components are missing. *)
Definition demo_cold : Impl.t :=
  run_ops (demo_define ++ demo_register 1 1 2 ++ demo_attempting) demo_start.

Lemma demo_cold_reachable {L} : reachable_under L created 6 demo_cold.
Proof. apply (demo_reachable (demo_define ++ demo_register 1 1 2 ++ demo_attempting)). vm_compute. reflexivity. Qed.

(** Preparation progress is exact: in every reachable state each stored
    attempt belongs to a stored plan of at least one and at most
    [max(1, max_preparation_plan_steps)] steps, its completed steps are
    precisely the descriptions of the plan's first [next_step_index] steps in
    order, the index never passes the end, and no attempt is both cancelled
    and published. *)
Theorem attempt_records_its_steps n s k a :
  reachable created n s → s.(Impl.attempts) !! k = Some a →
  ∃ p, s.(Impl.plans) !! a.(Att.plan_id) = Some p ∧
    1 <= N.of_nat (length p.(Plan.steps))
      <= N.max 1 s.(Impl.opts).(Opts.max_preparation_plan_steps) ∧
    a.(Att.completed_steps)
    = take (N.to_nat a.(Att.next_step_index)) (Step.description <$> p.(Plan.steps)) ∧
    a.(Att.next_step_index) <= N.of_nat (length p.(Plan.steps)) ∧
    ¬ (a.(Att.cancelled) = true ∧ a.(Att.published_ready) = true).
Proof.
  intros Hr Ha. pose proof (reachable_prepared _ n s Hr) as Hs.
  destruct (prepared_attempt n s k a Hs Ha) as [(p & Hp & Hc & Hn) Hpub].
  exists p. destruct Hs as (_ & _ & Hps & _). destruct (Hps _ _ Hp) as [_ [Hne Hb]].
  split_and!; [done| |done..|].
  - destruct (Plan.steps p); [done|simpl; lia].
  - intros [Hcan Hp']. by rw Hpub in Hp'.
Qed.

Lemma attempt_records_its_steps_witness :
  let s := run_ops [StepPreparation (mkId 2); StepPreparation (mkId 2)] demo_cold in
  ∃ a p, s.(Impl.attempts) !! mkId 2 = Some a ∧ s.(Impl.plans) !! a.(Att.plan_id) = Some p ∧
    a.(Att.next_step_index) = 2 ∧
    a.(Att.completed_steps)
    = take (N.to_nat a.(Att.next_step_index)) (Step.description <$> p.(Plan.steps)).
Proof.
  intros s. destruct (s.(Impl.attempts) !! mkId 2) as [a|] eqn:Ha; [|vm_compute in Ha; discriminate Ha].
  assert (reachable created 8 s) as Hr.
  { eapply reachable_runs; [exact demo_cold_reachable|].
    apply (run_ops_runs [StepPreparation (mkId 2); StepPreparation (mkId 2)] 6). vm_compute. reflexivity. }
  destruct (attempt_records_its_steps 8 s (mkId 2) a Hr Ha) as (p & Hp & _ & Hc & _ & _).
  exists a, p. split_and!; [reflexivity|exact Hp| |exact Hc].
  vm_compute in Ha. injection Ha as <-. vm_compute. reflexivity.
Defined.

(** *** Cancellation *)

Definition dead_attempt (k : PreparationAttemptId) (s : Impl.t) : Prop :=
  ∃ a, s.(Impl.attempts) !! k = Some a ∧ a.(Att.cancelled) = true ∧ a.(Att.published_ready) = false.

Lemma dead_update k s k' a a' s' :
  dead_attempt k s → s.(Impl.attempts) !! k' = Some a → attempt_updated s k' a' s' →
  (a.(Att.cancelled) = true → a.(Att.published_ready) = false →
   a'.(Att.cancelled) = true ∧ a'.(Att.published_ready) = false) →
  dead_attempt k s'.
Proof.
  intros (b & Hb & Hc & Hp) Ha [Hs' _] Hkeep. rw /dead_attempt Hs'.
  destruct (decide (k' = k)) as [-> |Hne].
  - simplify_eq. exists a'. rw lookup_insert_eq. split; [done|]. by apply Hkeep.
  - exists b. by rw lookup_insert_ne.
Qed.

Lemma run_op_dead `{HashOrder} o k n s :
  n + 2 < 2 ^ 64 → prepared n s → dead_attempt k s →
  wp (run_op o) (λ _, dead_attempt k) (λ _, dead_attempt k) s.
Proof.
  intros Hn Hs. destruct o; cbn [run_op]; try
    (match goal with
     | |- _ → wp ?m _ _ _ => cut (preserves (dead_attempt k) m); [by auto|]
     end; preserve; fail); intros Hdead.
  - apply wp_bind. eapply wp_mono; [| |apply begin_effect].
    + intros b s' [Hat Hc _ _ _]. destruct Hdead as (a & Ha & Hd). exists a. split; [|done].
      rw Hat lookup_insert_ne // Hc. intros <-. destruct Hs as (_ & Hj & _ & Hids).
      apply Hids in Ha as [Ha _]. rw !u64_small /= in Ha; lia.
    + intros e s' (_ & Hat & _). destruct Hdead as (a & Ha & Hd). exists a. by rw Hat.
  - apply wp_bind. eapply wp_mono; [| |apply step_effect].
    + intros r s' (a & p & Ha & Hl & _ & _ & -> & ->). eapply (dead_update _ s); [done|done|by split|].
      congruence.
    + by intros e s' ->.
  - apply wp_bind. eapply wp_mono; [| |apply complete_effect].
    + intros r s' (a & inc & prof & def & [Ha Hl _ _ _ _] & -> & Hup & _).
      eapply (dead_update _ s); [done..|congruence].
    + intros e s' [[c ->]|(a & inc & prof & def & [Ha Hl _ _ _ _] & _ & _ & Hup)]; [done|].
      eapply (dead_update _ s); [done..|congruence].
  - eapply wp_mono; [| |apply cancel_effect].
    + intros [] s' (a & Ha & Hpub & Hup & _). by eapply (dead_update _ s).
    + by intros e s' ->.
  - eapply wp_mono; [| |apply rollback_effect].
    + intros [] s' (a & Ha & Hup & _). by eapply (dead_update _ s).
    + by intros e s' ->.
Qed.

Lemma dead_rejected k s :
  dead_attempt k s →
  EngineResidency.step_preparation k s = (Throw (DomainError AttemptCancelled "attempt cancelled"), s) ∧
  EngineResidency.complete_preparation k s = (Throw (DomainError AttemptCancelled "attempt cancelled"), s).
Proof.
  intros (a & Ha & Hc & _). split; apply wp_throws.
  - rw /EngineResidency.step_preparation. do 2 (wp_step; cbv beta). rw Ha.
    apply wp_bind, wp_ret, wp_bind. by rw Hc.
  - rw /EngineResidency.complete_preparation. do 2 (wp_step; cbv beta). rw Ha.
    apply wp_bind, wp_ret, wp_bind. by rw Hc.
Qed.

(** C22. A cancelled attempt never leaves phantom readiness: after a successful
    [cancel_preparation] the attempt stays cancelled and unpublished through
    every later history of operations, and of a load among the first million, and stepping or completing it is always refused with
    AttemptCancelled, without effect. *)
Theorem cancelled_attempt_never_publishes n s k reason s1 n' s' :
  reachable created n s → n + 2 < 2 ^ 64 →
  EngineResidency.cancel_preparation k reason s = (Ok tt, s1) → runs (n + 1) s1 n' s' →
  (∃ a, s'.(Impl.attempts) !! k = Some a ∧ a.(Att.cancelled) = true ∧
     a.(Att.published_ready) = false) ∧
  EngineResidency.step_preparation k s'
  = (Throw (DomainError AttemptCancelled "attempt cancelled"), s') ∧
  EngineResidency.complete_preparation k s'
  = (Throw (DomainError AttemptCancelled "attempt cancelled"), s').
Proof.
  intros Hr Hn Hrun Hruns.
  assert (reachable created (n + 1) s1) as Hr1.
  { apply (reachable_step _ n s); [done..|].
    exists map_to_list_order, (CancelPreparation k reason). by rw /= Hrun. }
  assert (dead_attempt k s') as Hd; [|split; [exact Hd|by apply dead_rejected]].
  eapply (preserved_runs_using any any created prepared);
    [done|apply reachable_prepared| | |exact Hr1|exact Hruns|].
  - intros. by eapply run_op_dead.
  - by intros.
  - destruct (wp_ok _ _ _ _ _ _ (cancel_effect k reason s) Hrun) as (a & Ha & Hp & [Hs1 _] & _).
    eexists. by rw Hs1 lookup_insert_eq.
Qed.

Lemma cancelled_attempt_never_publishes_witness :
  ∃ s1, EngineResidency.cancel_preparation (mkId 2) "stop" demo_cold = (Ok tt, s1) ∧
    EngineResidency.complete_preparation (mkId 2) s1
    = (Throw (DomainError AttemptCancelled "attempt cancelled"), s1).
Proof.
  destruct (EngineResidency.cancel_preparation (mkId 2) "stop" demo_cold) as [[[]|e] s1] eqn:Hrun;
    [|vm_compute in Hrun; discriminate Hrun].
  exists s1. split; [reflexivity|].
  apply (cancelled_attempt_never_publishes 6 demo_cold (mkId 2) "stop" s1 7 s1 demo_cold_reachable).
  - vm_compute. reflexivity.
  - exact Hrun.
  - apply (runs_refl 7 s1).
Defined.

(** *** Progress *)

(** An attempt of the current epoch that may be stepped. *)
Definition steppable (k : PreparationAttemptId) (p : PreparationPlan) (a : PreparationAttempt)
    (s : Impl.t) : Prop :=
  s.(Impl.attempts) !! k = Some a ∧ a.(Att.cancelled) = false ∧
  a.(Att.epoch) = s.(Impl.authority).(Auth.epoch) ∧ s.(Impl.plans) !! a.(Att.plan_id) = Some p.

Lemma step_taken k p a s :
  steppable k p a s →
  EngineResidency.step_preparation k s
  = (Ok (EngineResidency.advance_step p a),
     s <| Impl.attempts := <[k := EngineResidency.advance_step p a]> s.(Impl.attempts) |>).
Proof.
  intros (Ha & Hl & He & Hp). apply wp_returns. wp_go; try (exfalso; contradict_guards; fail).
  assert (a0 = a) as -> by congruence. assert (a1 = p) as -> by congruence.
  split; [reflexivity|]. by rw -(alter_insert _ _ _ _ Ha).
Qed.

Lemma advance_step_same p a :
  (EngineResidency.advance_step p a).(Att.plan_id) = a.(Att.plan_id) ∧
  (EngineResidency.advance_step p a).(Att.cancelled) = a.(Att.cancelled) ∧
  (EngineResidency.advance_step p a).(Att.epoch) = a.(Att.epoch).
Proof. rw /EngineResidency.advance_step. by destruct (Plan.steps p !! _), (_ <=? _). Qed.

Lemma step_keeps_steppable k p a s :
  steppable k p a s →
  steppable k p (EngineResidency.advance_step p a)
    (s <| Impl.attempts := <[k := EngineResidency.advance_step p a]> s.(Impl.attempts) |>).
Proof.
  intros (Ha & Hl & He & Hp). rw /steppable /= lookup_insert_eq. split; [done|].
  by destruct (advance_step_same p a) as (-> & -> & ->).
Qed.

Lemma step_remaining p a :
  preparation_remaining_steps (EngineResidency.advance_step p a) p
  = N.pred (preparation_remaining_steps a p).
Proof.
  rw /preparation_remaining_steps /EngineResidency.advance_step.
  destruct (Plan.steps p !! N.to_nat (Att.next_step_index a)) as [st|] eqn:Hst.
  - apply lookup_lt_Some in Hst. simpl. repeat case: N.leb_spec => ? //=;
      repeat case: N.ltb_spec => ? //=; lia.
  - apply lookup_ge_None in Hst. repeat case: N.leb_spec => ? //=;
      repeat case: N.ltb_spec => ? //=; lia.
Qed.

Lemma run_steps `{HashOrder} k p m a s :
  steppable k p a s →
  ∃ a', steppable k p a' (run_ops (replicate m (StepPreparation k)) s) ∧
    preparation_remaining_steps a' p = preparation_remaining_steps a p - N.of_nat m ∧
    a'.(Att.plan_id) = a.(Att.plan_id).
Proof.
  revert a s. induction m as [|m IH]; intros a s Hs; [exists a; split_and!; [done|lia|done]|].
  destruct (IH _ _ (step_keeps_steppable k p a s Hs)) as (a' & Ha' & Hr & Hpl).
  exists a'. split_and!.
  - rw /run_ops /=. rw /run_ops in Ha'. by rw /discard /mbind /M_bind (step_taken k p a s Hs).
  - rw Hr step_remaining. lia.
  - rw Hpl. apply advance_step_same.
Qed.

(** C24. Stepping finishes: from any state that operations, and a load among
    their first million, reach, calling
    [step_preparation] on a live attempt of the current epoch as often as it
    has remaining steps, with nothing in between, records the description of
    every step of its plan and leaves nothing to do; the next call still
    succeeds and records nothing more. *)
Theorem stepping_finishes `{HashOrder} n s k p a :
  reachable created n s → steppable k p a s →
  let m := N.to_nat (preparation_remaining_steps a p) in
  let s' := run_ops (replicate m (StepPreparation k)) s in
  (n + N.of_nat m + 2 < 2 ^ 64) →
  ∃ a', s'.(Impl.attempts) !! k = Some a' ∧ a'.(Att.completed_steps) = descriptions p ∧
    preparation_remaining_steps a' p = 0 ∧
    ∃ a'' s'', EngineResidency.step_preparation k s' = (Ok a'', s'') ∧
      a''.(Att.completed_steps) = descriptions p.
Proof.
  intros Hr Hs m s' Hn. destruct (run_steps k p m a s Hs) as (a' & Ha' & Hrem & Hpl).
  assert (preparation_remaining_steps a' p = 0) as Hz by (rw Hrem; subst m; lia).
  assert (reachable created (n + N.of_nat m) s') as Hr'.
  { eapply reachable_runs; [exact Hr|]. rw -{1}(length_replicate m (StepPreparation k)).
    apply run_ops_runs. by rw length_replicate. }
  destruct (prepared_attempt _ _ k a' (reachable_prepared _ _ _ Hr') (proj1 Ha')) as [(q & Hq & Hc & Hb) _].
  destruct Ha' as (Ha' & Hl & He & Hp). assert (q = p) as -> by exact (inj Some _ _ (eq_trans (eq_sym Hq) Hp)).
  assert (a'.(Att.next_step_index) = N.of_nat (length p.(Plan.steps))) as Hend.
  { move: Hz. rw /preparation_remaining_steps. case: N.ltb_spec; lia. }
  assert (a'.(Att.completed_steps) = descriptions p) as Hall.
  { rw Hc Hend Nat2N.id take_ge //. rw /descriptions length_fmap. lia. }
  exists a'. split_and!; [done..|].
  do 2 eexists. split; [by apply (step_taken k p a')|].
  rw /EngineResidency.advance_step Hend Nat2N.id lookup_ge_None_2 //. by destruct (_ <=? _).
Qed.

Lemma stepping_finishes_witness :
  ∃ a', (run_ops (replicate 7 (StepPreparation (mkId 2))) demo_cold).(Impl.attempts) !! mkId 2
        = Some a' ∧ length a'.(Att.completed_steps) = 7%nat.
Proof.
  destruct (demo_cold.(Impl.attempts) !! mkId 2) as [a|] eqn:Ha; [|vm_compute in Ha; discriminate Ha].
  destruct (demo_cold.(Impl.plans) !! a.(Att.plan_id)) as [p|] eqn:Hp;
    [|vm_compute in Ha; injection Ha as <-; vm_compute in Hp; discriminate Hp].
  assert (preparation_remaining_steps a p = 7) as Hm
    by (vm_compute in Ha; injection Ha as <-; vm_compute in Hp; injection Hp as <-; reflexivity).
  assert (steppable (mkId 2) p a demo_cold) as Hs.
  { split_and!; [exact Ha| | |exact Hp]; vm_compute in Ha; injection Ha as <-; reflexivity. }
  destruct (stepping_finishes 6 demo_cold (mkId 2) p a demo_cold_reachable Hs) as (a' & Ha' & Hc & _).
  { rw Hm. reflexivity. }
  exists a'. rw Hm in Ha'. split; [exact Ha'|]. rw Hc /descriptions length_fmap.
  clear - Ha Hp. vm_compute in Ha; injection Ha as <-; vm_compute in Hp; injection Hp as <-. reflexivity.
Defined.

(** *** Completion *)

(** C23. Completion publishes on current evidence only: when
    [complete_preparation] returns, the attempt was live and of the current
    epoch and authority, its incarnation current, and the attempt becomes
    PREPARED, with the readiness generation advanced by exactly one and the
    observed residency WARM, if the readiness evaluation at this instant is
    READY or DEGRADED, and FAILED with the readiness generation unchanged
    otherwise; either way the incarnation has no active attempt any more. *)
Theorem complete_preparation_decides k s r s' :
  EngineResidency.complete_preparation k s = (Ok r, s') →
  ∃ a inc prof def, completable k a inc prof def s ∧
    let ready := serving_outcome (evaluate_readiness def prof inc
      (evidence_of a.(Att.incarnation_id) s) (time s)).(Res.outcome) in
    s'.(Impl.attempts) = <[k := r]> s.(Impl.attempts) ∧
    s'.(Impl.active_attempt) !! a.(Att.incarnation_id) = None ∧
    (r.(Att.state) = PreparationState.PREPARED ↔ ready = true) ∧
    (r.(Att.state) = PreparationState.FAILED ↔ ready = false) ∧
    ∃ inc', s'.(Impl.incarnations) = <[a.(Att.incarnation_id) := inc']> s.(Impl.incarnations) ∧
      inc'.(Inc.state).(St.preparation) = r.(Att.state) ∧
      gen_raw inc'.(Inc.readiness_generation)
      = gen_raw inc.(Inc.readiness_generation) + N.b2n ready ∧
      (ready = true → r.(Att.published_ready) = true ∧
         inc'.(Inc.state).(St.observed) = DesiredResidency.WARM).
Proof.
  intros Hrun.
  destruct (wp_ok _ _ _ _ _ _ (complete_effect k s) Hrun)
    as (a & inc & prof & def & Hc & -> & [Hat _] & Hact & Hinc).
  exists a, inc, prof, def. split; [done|]. rw -/(ready_now a inc prof def s). cbv zeta.
  rw Hact lookup_delete_eq Hat Hinc. split_and!; [done..| | |];
    [by destruct (ready_now a inc prof def s)..|].
  exists (concluded_inc (ready_now a inc prof def s) inc). split; [done|].
  destruct (ready_now a inc prof def s); split_and!; [done| |done|done| |done]; simpl; lia.
Qed.

Definition demo_completing : Impl.t := run_ops demo_attempting demo_ready.

Lemma complete_preparation_decides_witness :
  ∃ r s' a, EngineResidency.complete_preparation (mkId 2) demo_completing = (Ok r, s') ∧
    r.(Att.state) = PreparationState.PREPARED ∧
    s'.(Impl.active_attempt) !! a.(Att.incarnation_id) = None.
Proof.
  destruct (EngineResidency.complete_preparation (mkId 2) demo_completing) as [[r|e] s'] eqn:Hrun;
    [|vm_compute in Hrun; discriminate Hrun].
  destruct (complete_preparation_decides (mkId 2) demo_completing r s' Hrun)
    as (a & inc & prof & def & _ & _ & Hact & _).
  exists r, s', a. split; [reflexivity|]. split; [|exact Hact].
  vm_compute in Hrun. injection Hrun as <- _. reflexivity.
Defined.

(** *** Rollback *)

(** A rollback that commits: what it writes. *)
Lemma rollback_writes k reason s s' :
  EngineResidency.rollback_preparation k reason s = (Ok tt, s') →
  ∃ a, s.(Impl.attempts) !! k = Some a ∧
    s'.(Impl.attempts) = <[k := a <| Att.state := PreparationState.FAILED |>
                                  <| Att.failure_stage := "rolled back" |>]> s.(Impl.attempts) ∧
    s'.(Impl.active_attempt) = delete a.(Att.incarnation_id) s.(Impl.active_attempt).
Proof.
  intros Hrun. destruct (wp_ok _ _ _ _ _ _ (rollback_effect k reason s) Hrun) as (a & Ha & [H _] & Hd).
  by exists a.
Qed.

(** Rolling back an attempt clears whichever attempt of its incarnation is
    active, a newer one included: rolling back [k] while [k'] is the
    incarnation's active attempt leaves [k'] exactly as it was and still able
    to publish, but no longer registered as active, so the single-attempt
    guard of [begin_preparation] no longer sees it. *)
Theorem rollback_clears_newer_attempt k k' reason s s' a :
  s.(Impl.attempts) !! k = Some a → k' ≠ k →
  s.(Impl.active_attempt) !! a.(Att.incarnation_id) = Some k' →
  EngineResidency.rollback_preparation k reason s = (Ok tt, s') →
  s'.(Impl.active_attempt) !! a.(Att.incarnation_id) = None ∧
  s'.(Impl.attempts) !! k' = s.(Impl.attempts) !! k'.
Proof.
  intros Ha Hne Hact Hrun. destruct (rollback_writes k reason s s' Hrun) as (b & Hb & Hat & Hd).
  assert (b = a) as -> by exact (inj Some _ _ (eq_trans (eq_sym Hb) Ha)).
  split; [by rw Hd lookup_delete_eq|by rw Hat lookup_insert_ne].
Qed.

(** The reachable history: attempt 2, rolled back; attempt 3; a late second
    rollback of attempt 2; and the attempt 4 that the guard then lets in. *)
Definition demo_second : Impl.t :=
  run_ops [RollbackPreparation (mkId 2) "first"; BeginPreparation demo_plan] demo_completing.

Lemma rollback_clears_newer_attempt_witness :
  ∃ s', EngineResidency.rollback_preparation (mkId 2) "late" demo_second = (Ok tt, s') ∧
    throws (BeginPreparation demo_plan) demo_second = Some InvalidState ∧
    succeeds (BeginPreparation demo_plan) s' = true ∧
    s'.(Impl.active_attempt) !! mkId 2 = None ∧
    succeeds (CompletePreparation (mkId 3)) s' = true.
Proof.
  destruct (EngineResidency.rollback_preparation (mkId 2) "late" demo_second) as [[[]|e] s'] eqn:Hrun;
    [|vm_compute in Hrun; discriminate Hrun].
  destruct (demo_second.(Impl.attempts) !! mkId 2) as [a|] eqn:Ha; [|vm_compute in Ha; discriminate Ha].
  assert (a.(Att.incarnation_id) = mkId 2) as Hi
    by (vm_compute in Ha; injection Ha as <-; reflexivity).
  assert (demo_second.(Impl.active_attempt) !! a.(Att.incarnation_id) = Some (mkId 3)) as Hact
    by (rw Hi; vm_compute; reflexivity).
  destruct (rollback_clears_newer_attempt (mkId 2) (mkId 3) "late" demo_second s' a Ha) as [Hnone _];
    [discriminate|exact Hact|exact Hrun|].
  exists s'. rw Hi in Hnone. split_and!; [reflexivity|vm_compute; reflexivity| |exact Hnone|].
  all: vm_compute in Hrun; injection Hrun as <-; vm_compute; reflexivity.
Defined.
