(* ===== verification/Activation.v ===== *)
(** * Activation and replacement

    Activation is exact: it succeeds just on a running, unfenced incarnation
    asked for at its current readiness generation, with readiness if a profile
    is named, and with its exclusive slot free; a live holder keeps its slot.
    A replacement changes no authority before the cutover, which happens once
    and fences the old incarnation for good. *)

From S2P Require Import Prelude Identities Enums Model Reference Readiness Runtime.
From S2P Require Import Transitions Scenario Incarnations Authority ServingUse.
Local Open Scope N_scope.

(** ** Activation *)

(** The slot is free for the incarnation: nobody holds it, or it does itself,
    or its holder is dead. *)
Definition slot_free (slot_id : EngineSlotId) (inc : EngineIncarnation) (s : Impl.t) : Prop :=
  Identity.is_valid slot_id = true →
  ∀ slot, s.(Impl.slots) !! slot_id = Some slot →
  Identity.is_valid slot.(Slot.assigned_incarnation) = true →
  slot.(Slot.assigned_incarnation) ≠ inc.(Inc.incarnation_id) →
  EngineResidency.holder_dead (s.(Impl.incarnations) !! slot.(Slot.assigned_incarnation)) = true.

Record activatable (req : ActivationRequest) (t : N) (inc : EngineIncarnation) (s : Impl.t) : Prop := {
  act_authority : req.(ActReq.caller_authority) = s.(Impl.authority).(Auth.authority);
  act_inc : s.(Impl.incarnations) !! req.(ActReq.incarnation_id) = Some inc;
  act_unfenced : inc.(Inc.state).(St.health) ≠ HealthState.FENCED ∧
    inc.(Inc.state).(St.registration) ≠ RegistrationState.FENCED;
  act_running : inc.(Inc.state).(St.lifecycle) = ProcessLifecycle.RUNNING;
  act_generation : inc.(Inc.readiness_generation) = req.(ActReq.readiness_generation);
  act_ready : Identity.is_valid req.(ActReq.profile_id) = true → ∃ prof def,
    s.(Impl.profiles) !! req.(ActReq.profile_id) = Some prof ∧
    s.(Impl.engines) !! inc.(Inc.engine_id) = Some def ∧
    serving_outcome (evaluate_readiness def prof inc
      (evidence_of inc.(Inc.incarnation_id) s) t).(Res.outcome) = true;
  act_slot : slot_free req.(ActReq.slot_id) inc s;
}.

(** What activation writes. *)
Record activated (req : ActivationRequest) (inc : EngineIncarnation) (s : Impl.t)
    (rec : ActivationRecord) (s' : Impl.t) : Prop := {
  actd_record : rec.(Act.incarnation_id) = inc.(Inc.incarnation_id) ∧
    rec.(Act.prior) = inc.(Inc.state).(St.activation) ∧
    rec.(Act.state) = ActivationState.ACTIVE ∧ rec.(Act.current) = true ∧
    rec.(Act.readiness_generation) = inc.(Inc.readiness_generation);
  actd_stored : s'.(Impl.activations) = <[rec.(Act.activation_id) := rec]> s.(Impl.activations);
  actd_current : s'.(Impl.current_by_engine)
    = <[inc.(Inc.engine_id) := inc.(Inc.incarnation_id)]> s.(Impl.current_by_engine);
  actd_inc : s'.(Impl.incarnations) = <[req.(ActReq.incarnation_id) :=
    inc <| Inc.state ::= λ st, st <| St.activation := ActivationState.ACTIVE |> |>
        <| Inc.is_current := true |>]> s.(Impl.incarnations);
  actd_slot : Identity.is_valid req.(ActReq.slot_id) = true →
    ∃ slot, s'.(Impl.slots) = <[req.(ActReq.slot_id) := slot]> s.(Impl.slots) ∧
      slot.(Slot.assigned_incarnation) = inc.(Inc.incarnation_id);
  actd_other_slots : Identity.is_valid req.(ActReq.slot_id) = false →
    s'.(Impl.slots) = s.(Impl.slots);
}.

(** The code's test, for a slot that exists. *)
Lemma slot_test slot_id slot inc s :
  Identity.is_valid slot_id = true → s.(Impl.slots) !! slot_id = Some slot →
  Identity.is_valid slot.(Slot.assigned_incarnation)
    && negb (Identity.eqb slot.(Slot.assigned_incarnation) inc.(Inc.incarnation_id))
    && negb (EngineResidency.holder_dead (s.(Impl.incarnations) !! slot.(Slot.assigned_incarnation)))
  = false ↔ slot_free slot_id inc s.
Proof.
  intros Hv Hs. rw /slot_free. split.
  - intros H _ ? [= <-]%(eq_trans (eq_sym Hs)) Hva Hne%Identity_eqb_neq. move: H.
    rw Hva Hne /=. apply negb_false_iff.
  - intros H. apply not_true_iff_false. intros [[Hva Hne]%andb_true_iff Hd]%andb_true_iff.
    apply negb_true_iff, Identity_eqb_neq in Hne. by rw (H Hv slot Hs Hva Hne) in Hd.
Qed.

(** The block that claims the slot. *)
Lemma claim_slot_effect slot_id inc s :
  wp (EngineResidency.claim_slot slot_id inc)
    (λ _ s', slot_free slot_id inc s ∧ ∃ m, s' = s <| Impl.slots := m |> ∧
       (Identity.is_valid slot_id = true → ∃ slot, m = <[slot_id := slot]> s.(Impl.slots) ∧
          slot.(Slot.assigned_incarnation) = inc.(Inc.incarnation_id)) ∧
       (Identity.is_valid slot_id = false → m = s.(Impl.slots)))
    (λ e s', ¬ slot_free slot_id inc s ∧ s' = s ∧
       e = DomainError ActivationConflict "exclusive slot already assigned") s.
Proof.
  rw /EngineResidency.claim_slot. destruct (Identity.is_valid slot_id) eqn:Hv.
  - destruct (s.(Impl.slots) !! slot_id) as [slot|] eqn:Hs.
    + wp_go; simplify_eq.
      * split; [|done]. rw -(slot_test slot_id slot) //. congruence.
      * split; [by apply (slot_test slot_id slot)|]. eexists. split; [reflexivity|].
        split; [|done]. intros _. eexists. by split; [apply (alter_insert _ _ _ slot)|].
    + wp_go; simplify_eq. split; [intros _ ?; congruence|]. eexists. split; [reflexivity|].
      split; [|done]. intros _. by eexists.
  - wp_go. split; [by rw /slot_free Hv|]. exists s.(Impl.slots). split; [by destruct s|done].
Qed.

(** A refusal of [activate] met a guard that [activatable] contradicts. *)
Ltac refused_activation :=
  repeat match goal with
  | H : _ || _ = true |- _ => apply orb_true_iff in H as [H|H]
  | H : ?b = true, H' : ?b = true → _ |- _ => specialize (H' H)
  end; contradict_guards.

Lemma activate_effect req s :
  wp (EngineResidency.activate req)
    (λ rec s', ∃ inc, activatable req (time s) inc s ∧ activated req inc s rec s')
    (λ e s', (∀ inc, ¬ activatable req (time s) inc s) ∧ same_but_clock s s') s.
Proof.
  rw /EngineResidency.activate; cbv zeta. repeat (wp_step; cbv beta zeta).
  all: try (match goal with |- _ ∧ same_but_clock _ _ =>
    split; [intros inc []|first [apply same_but_clock_refl|apply same_but_clock_set]];
    refused_activation; fail end).
  all: eapply wp_mono; [| |apply claim_slot_effect]; cbv beta.
  2,4: intros e s' (Hslot & -> & _); split;
    [intros inc []; contradict_guards|first [apply same_but_clock_refl|apply same_but_clock_set]].
  all: intros [] s' (Hfree & m & -> & Hclaim & Hkeep); repeat (wp_step; cbv beta zeta); guard_facts.
  all: exists a; split; [split; try done; try congruence|].
  all: try (match goal with |- activated _ _ _ _ _ =>
    split; [by split_and!|reflexivity|reflexivity| |exact Hclaim|exact Hkeep];
    by simpl; rw (alter_insert _ _ _ a) end).
  intros _. exists a0, d. split_and!; [done..|]. by subst t.
Qed.

(** C19. Activation is compare-and-commit: it succeeds exactly on a request
    whose authority is the current one, for a known incarnation that is
    RUNNING and not fenced, at its present readiness generation, READY or
    DEGRADED right now if a profile is named, whose exclusive slot (if any) is
    free, its own or held by a dead incarnation; it then files one ACTIVE
    record, makes that incarnation current and gives it the slot; a refusal
    changes nothing but the clock. *)
Theorem activate_exact req s :
  match EngineResidency.activate req s with
  | (Ok rec, s') => ∃ inc, activatable req (time s) inc s ∧ activated req inc s rec s'
  | (Throw e, s') => (∀ inc, ¬ activatable req (time s) inc s) ∧ same_but_clock s s'
  end.
Proof.
  pose proof (activate_effect req s) as H. rw /wp in H.
  by destruct (EngineResidency.activate req s) as [[]].
Qed.

(** *** Exclusive slots *)

(** The slot [k] is held by [h], who is alive. *)
Definition held (k : EngineSlotId) (h : EngineIncarnationId) (s : Impl.t) : Prop :=
  ∃ slot, s.(Impl.slots) !! k = Some slot ∧ slot.(Slot.assigned_incarnation) = h ∧
    Identity.is_valid h = true ∧ EngineResidency.holder_dead (s.(Impl.incarnations) !! h) = false.

Definition assigned (k : EngineSlotId) (h : EngineIncarnationId) (s : Impl.t) : Prop :=
  ∃ slot, s.(Impl.slots) !! k = Some slot ∧ slot.(Slot.assigned_incarnation) = h.

(** [advance_epoch] alone releases the slots. *)
Lemma run_op_slot `{HashOrder} o k h s :
  o ≠ AdvanceEpoch → held k h s → wp (run_op o) (λ _, assigned k h) (λ _, assigned k h) s.
Proof.
  intros Hne (slot & Hs & Hh & Hv & Hd).
  assert (assigned k h s) as Has by (by exists slot). revert Has.
  destruct o; cbn [run_op]; try done; try
    (match goal with
     | |- _ → wp ?m _ _ _ => cut (preserves (assigned k h) m); [by auto|]
     end; preserve; fail).
  intros Has. apply wp_bind. eapply wp_mono; [| |apply activate_effect].
  - intros rec s' (inc & [_ _ _ _ _ _ Hfree] & [_ _ _ _ Hclaim Hkeep]). simpl. apply wp_ret.
    destruct (Identity.is_valid req.(ActReq.slot_id)) eqn:Hvalid.
    + destruct (Hclaim eq_refl) as (sl & Hm & Ha). destruct (decide (req.(ActReq.slot_id) = k)) as [<- |Hk].
      * exists sl. rw Hm lookup_insert_eq Ha. split; [done|].
        destruct (decide (h = inc.(Inc.incarnation_id))) as [->|Hneq]; [done|].
        subst h. by rw (Hfree Hvalid slot Hs Hv Hneq) in Hd.
      * exists slot. by rw Hm lookup_insert_ne.
    + exists slot. by rw (Hkeep eq_refl).
  - by intros e s' (_ & c & ->).
Qed.

(** C20. An exclusive slot has one holder: while the incarnation a slot is
    assigned to is alive, no operation except an epoch advance (which releases
    every slot) reassigns it, and activating any other incarnation into it is
    rejected. *)
Theorem exclusive_slot_keeps_its_holder s k h :
  held k h s →
  (∀ (Ord : HashOrder) o, o ≠ AdvanceEpoch → assigned k h (run_op o s).2) ∧
  (∀ req inc, req.(ActReq.slot_id) = k → Identity.is_valid k = true →
     s.(Impl.incarnations) !! req.(ActReq.incarnation_id) = Some inc →
     inc.(Inc.incarnation_id) ≠ h → rejected (EngineResidency.activate req) s).
Proof.
  intros Hheld. split.
  - intros Ord o Ho. pose proof (run_op_slot o k h s Ho Hheld) as H. rw /wp in H.
    by destruct (run_op o s) as [[]].
  - intros req inc <- Hk Hinc Hne. apply wp_rejected. eapply wp_mono; [| |apply activate_effect]; [|done].
    intros rec s' (i & [_ Hi _ _ _ _ Hfree] & _). destruct Hheld as (slot & Hs & <- & Hv & Hd).
    assert (i = inc) as -> by exact (inj Some _ _ (eq_trans (eq_sym Hi) Hinc)).
    by rw (Hfree Hk slot Hs Hv (not_eq_sym Hne)) in Hd.
Qed.

(** Activate incarnation [i] at readiness generation [g] into slot [sl]. *)
Definition activation_of (i g sl : N) : ActivationRequest :=
  ActivationRequest.default
    <| ActReq.caller_authority := mkGen 1 |> <| ActReq.incarnation_id := mkId i |>
    <| ActReq.readiness_generation := mkGen g |> <| ActReq.slot_id := mkId sl |>
    <| ActReq.profile_id := mkId 1 |>.
Definition demo_active : Impl.t := run_ops [Activate (activation_of 2 1 1)] demo_pair.

Lemma exclusive_slot_keeps_its_holder_witness :
  rejected (EngineResidency.activate (activation_of 3 1 1)) demo_active ∧
  (∀ Ord : HashOrder, assigned (mkId 1) (mkId 2) (run_op (RequestDrain (mkId 2)) demo_active).2).
Proof.
  assert (held (mkId 1) (mkId 2) demo_active) as Hheld.
  { destruct (demo_active.(Impl.slots) !! mkId 1) as [slot|] eqn:Hs; [|vm_compute in Hs; discriminate Hs].
    exists slot. split; [exact Hs|]. vm_compute in Hs. injection Hs as <-. vm_compute. by split_and!. }
  destruct (exclusive_slot_keeps_its_holder demo_active (mkId 1) (mkId 2) Hheld) as [Hkeep Hrej].
  split; [|by intros Ord; apply Hkeep].
  destruct (demo_active.(Impl.incarnations) !! mkId 3) as [inc|] eqn:Hi; [|vm_compute in Hi; discriminate Hi].
  apply (Hrej (activation_of 3 1 1) inc); [reflexivity|reflexivity|exact Hi|].
  vm_compute in Hi. injection Hi as <-. vm_compute. discriminate.
Defined.

(** ** What resumes service *)

(** Starting and revalidating revive any incarnation: whatever its state,
    fenced, lost or retired included, a successful [mark_running] followed by
    a successful [revalidate] leaves it current, RUNNING, HEALTHY and NOMINAL
    at the next readiness generation.  Neither operation consults the fence. *)
Theorem revalidation_revives_any_incarnation k i s s1 s2 :
  s.(Impl.incarnations) !! k = Some i →
  EngineResidency.mark_running k s = (Ok tt, s1) → EngineResidency.revalidate k s1 = (Ok tt, s2) →
  ∃ i', s2.(Impl.incarnations) !! k = Some i' ∧ i'.(Inc.is_current) = true ∧
    i'.(Inc.state).(St.lifecycle) = ProcessLifecycle.RUNNING ∧
    i'.(Inc.state).(St.health) = HealthState.HEALTHY ∧
    i'.(Inc.state).(St.recovery) = RecoveryState.NOMINAL ∧
    i'.(Inc.state).(St.registration) = i.(Inc.state).(St.registration) ∧
    gen_raw i'.(Inc.readiness_generation) = gen_raw i.(Inc.readiness_generation) + 1.
Proof.
  intros Hi Hm Hr.
  assert (∃ i1, s1.(Impl.incarnations) !! k = Some i1 ∧
    i1.(Inc.state).(St.health) = HealthState.HEALTHY ∧
    i1.(Inc.state).(St.registration) = i.(Inc.state).(St.registration) ∧
    i1.(Inc.readiness_generation) = i.(Inc.readiness_generation)) as (i1 & Hi1 & Hh & Hreg & Hg).
  { refine (wp_ok _ (λ _ s', ∃ i1, s'.(Impl.incarnations) !! k = Some i1 ∧ _) (λ _ _, True) _ _ _ _ Hm).
    wp_go; try done. simpl. rw !lookup_alter_eq Hi. by eexists. }
  refine (wp_ok _ (λ _ s', ∃ i1, s'.(Impl.incarnations) !! k = Some i1 ∧ _) (λ _ _, True) _ _ _ _ Hr).
  wp_go; try done. simpl. rw !lookup_alter_eq Hi1. assert (a = i1) as -> by congruence.
  eexists. by rw -Hg -Hreg.
Qed.

(** The worker boot of incarnation 2 is fenced, and it serves again. *)
Definition demo_fenced : Impl.t := run_ops [FenceWorker (mkId 1) (mkGen 1) "lost"] demo_ready.

Lemma revalidation_revives_any_incarnation_witness :
  ∃ s1 s2 i', EngineResidency.mark_running (mkId 2) demo_fenced = (Ok tt, s1) ∧
    EngineResidency.revalidate (mkId 2) s1 = (Ok tt, s2) ∧
    s2.(Impl.incarnations) !! mkId 2 = Some i' ∧ i'.(Inc.is_current) = true ∧
    is_fenced (mkId 1) (mkGen 1) s2 = true ∧ succeeds (use_op 2 2) s2 = true.
Proof.
  destruct (EngineResidency.mark_running (mkId 2) demo_fenced) as [[[]|e] s1] eqn:Hm;
    [|vm_compute in Hm; discriminate Hm].
  destruct (EngineResidency.revalidate (mkId 2) s1) as [[[]|e] s2] eqn:Hr;
    [|vm_compute in Hm; injection Hm as <-; vm_compute in Hr; discriminate Hr].
  destruct (demo_fenced.(Impl.incarnations) !! mkId 2) as [i|] eqn:Hi; [|vm_compute in Hi; discriminate Hi].
  destruct (revalidation_revives_any_incarnation (mkId 2) i demo_fenced s1 s2 Hi Hm Hr)
    as (i' & Hi' & Hc & _).
  exists s1, s2, i'. split_and!; [reflexivity|exact Hr|exact Hi'|exact Hc| |].
  all: vm_compute in Hm; injection Hm as <-; vm_compute in Hr; injection Hr as <-; vm_compute; reflexivity.
Defined.

(** Activation does not wait for revalidation: it restores the currency of
    an incarnation and keeps its recovery state as it was, so an incarnation
    that an epoch advance has marked REVALIDATING becomes current again, still
    REVALIDATING, on an activation request alone. *)
Theorem activation_bypasses_revalidation req s rec s' :
  EngineResidency.activate req s = (Ok rec, s') →
  ∃ i i', s.(Impl.incarnations) !! req.(ActReq.incarnation_id) = Some i ∧
    s'.(Impl.incarnations) !! req.(ActReq.incarnation_id) = Some i' ∧
    i'.(Inc.is_current) = true ∧ i'.(Inc.state).(St.recovery) = i.(Inc.state).(St.recovery) ∧
    i'.(Inc.readiness_generation) = i.(Inc.readiness_generation).
Proof.
  intros Hrun. destruct (wp_ok _ _ _ _ _ _ (activate_effect req s) Hrun) as (i & Hreq & Hact).
  destruct Hreq as [_ Hi _ _ _ _ _], Hact as [_ _ _ Hi' _ _].
  exists i. eexists. split; [exact Hi|]. rw Hi' lookup_insert_eq. by split_and!.
Qed.

Definition demo_advanced : Impl.t := run_ops [AdvanceEpoch] demo_ready.

Lemma activation_bypasses_revalidation_witness :
  let req := (activation_of 2 1 1) <| ActReq.caller_authority := mkGen 2 |> in
  ∃ rec s' i i', EngineResidency.activate req demo_advanced = (Ok rec, s') ∧
    demo_advanced.(Impl.incarnations) !! mkId 2 = Some i ∧
    i.(Inc.state).(St.recovery) = RecoveryState.REVALIDATING ∧ i.(Inc.is_current) = false ∧
    s'.(Impl.incarnations) !! mkId 2 = Some i' ∧ i'.(Inc.is_current) = true ∧
    throws (use_op 2 1) demo_advanced = Some StaleIncarnation ∧ succeeds (use_op 2 1) s' = true.
Proof.
  intros req. destruct (EngineResidency.activate req demo_advanced) as [[rec|e] s'] eqn:Hrun;
    [|vm_compute in Hrun; discriminate Hrun].
  destruct (activation_bypasses_revalidation req demo_advanced rec s' Hrun)
    as (i & i' & Hi & Hi' & Hc & _).
  exists rec, s', i, i'. split_and!; [reflexivity|exact Hi| | |exact Hi'|exact Hc|vm_compute; reflexivity|].
  1, 2: vm_compute in Hi; injection Hi as <-; reflexivity.
  vm_compute in Hrun. injection Hrun as _ <-. vm_compute. reflexivity.
Defined.
