(* ===== verification/Replacement.v ===== *)
(** * Replacement

    Preparing a replacement changes no authority; the cutover happens at most
    once, moves the engine's authority to the candidate and fences the old
    incarnation's admission for good, keeping its admitted uses. *)

From S2P Require Import Prelude Identities Enums Model Reference Readiness Persistence Runtime.
From S2P Require Import Loading Transitions Scenario Tables Incarnations Authority ServingUse.
Local Open Scope N_scope.

(** [replacement.cpp] *)
Definition replacement_is_complete (p : ReplacementPlan) : bool :=
  bool_decide (p.(Repl.phase) = ReplacementPhase.COMPLETE).

(** ** Effects *)

(** The candidate a replacement may cut over to: known and RUNNING. *)
Definition runs_as (k : EngineIncarnationId) (inc : EngineIncarnation) (s : Impl.t) : Prop :=
  s.(Impl.incarnations) !! k = Some inc ∧ inc.(Inc.state).(St.lifecycle) = ProcessLifecycle.RUNNING.

(** What [begin_replacement] demands. *)
Record replaceable (plan : ReplacementPlan) (s : Impl.t) : Prop := {
  rp_epoch : plan.(Repl.epoch) = s.(Impl.authority).(Auth.epoch);
  rp_authority : plan.(Repl.authority) = s.(Impl.authority).(Auth.authority);
  rp_incarnations : ∃ cand old, runs_as plan.(Repl.candidate_incarnation) cand s ∧
    s.(Impl.incarnations) !! plan.(Repl.old_incarnation) = Some old ∧
    cand.(Inc.incarnation_id) ≠ old.(Inc.incarnation_id);
}.

(** The plan it stores, and all it stores. *)
Definition begun (plan : ReplacementPlan) (s : Impl.t) : ReplacementPlan :=
  plan <| Repl.replacement_id := mkId (u64 (u64 (s.(Impl.id_repl) + 1) + 1)) |>
       <| Repl.replacement_generation := mkGen 1 |>
       <| Repl.phase := ReplacementPhase.PREPARING |>
       <| Repl.resource_overlap_available := plan.(Repl.overlap_bytes) =? 0 |>.

Lemma begin_replacement_effect plan s :
  wp (EngineResidency.begin_replacement plan)
    (λ r s', replaceable plan s ∧ r = begun plan s ∧
       s' = s <| Impl.id_repl := u64 (s.(Impl.id_repl) + 1) |>
              <| Impl.replacement_plans ::= <[r.(Repl.replacement_id) := r]> |>)
    (λ _ s', ¬ replaceable plan s ∧ s' = s) s.
Proof.
  wp_go; guard_facts.
  all: try (match goal with |- ¬ _ ∧ _ => split; [intros []|reflexivity] end;
    cbv [runs_as] in *; contradict_guards; fail).
  split; [|by split]. split; [done..|]. by exists a, a0.
Qed.

(** The state of the candidate and of the old incarnation after the cutover. *)
Definition fenced_out (i : EngineIncarnation) : EngineIncarnation :=
  i <| Inc.state ::= λ st, st <| St.activation := ActivationState.FENCED |> |>
    <| Inc.is_current := false |>.
Definition taken_over (i : EngineIncarnation) : EngineIncarnation :=
  i <| Inc.is_current := true |>
    <| Inc.state ::= λ st, st <| St.activation := ActivationState.STANDBY |>
                              <| St.lifecycle := ProcessLifecycle.RUNNING |> |>.

Record cut_over (rid : ReplacementId) (p r : ReplacementPlan) (cand : EngineIncarnation)
    (s s' : Impl.t) : Prop := {
  co_plan : s.(Impl.replacement_plans) !! rid = Some p ∧ p.(Repl.phase) = ReplacementPhase.PREPARING;
  co_candidate : runs_as p.(Repl.candidate_incarnation) cand s;
  co_result : r = p <| Repl.phase := ReplacementPhase.CUTOVER |>;
  co_plans : s'.(Impl.replacement_plans) = <[rid := r]> s.(Impl.replacement_plans);
  co_counter : s'.(Impl.id_repl) = s.(Impl.id_repl);
  co_current : s'.(Impl.current_by_engine)
    = <[cand.(Inc.engine_id) := cand.(Inc.incarnation_id)]> s.(Impl.current_by_engine);
  co_uses : s'.(Impl.active_uses) = s.(Impl.active_uses);
  co_incs : s'.(Impl.incarnations)
    = alter taken_over p.(Repl.candidate_incarnation)
        (alter fenced_out p.(Repl.old_incarnation) s.(Impl.incarnations));
  co_fence : ∀ old, s.(Impl.incarnations) !! p.(Repl.old_incarnation) = Some old →
    EngineResidency.admission_fenced old.(Inc.incarnation_id) s' = true;
}.

Lemma commit_effect rid s :
  wp (EngineResidency.commit_cutover rid)
    (λ r s', ∃ p cand, cut_over rid p r cand s s')
    (λ _ s', (∀ p cand, s.(Impl.replacement_plans) !! rid = Some p →
                p.(Repl.phase) = ReplacementPhase.PREPARING →
                ¬ runs_as p.(Repl.candidate_incarnation) cand s) ∧ s' = s) s.
Proof.
  wp_go; guard_facts.
  all: try (match goal with |- _ ∧ _ => split; [intros p cand ??|reflexivity] end; cbv [runs_as] in *; intros ?;
    contradict_guards; fail).
  - exists a, a0. split; try done.
    + intros old Ho. simpl in *. simplify_eq. by rw /EngineResidency.admission_fenced /= /drains_at /= lookup_insert_eq.
  - exists a, a0. split; try done.
    + simpl in *. rw (alter_id fenced_out) //. intros ? ?. congruence.
    + simpl in *. congruence.
Qed.

(** ** The plans of reachable states *)

Definition replacements (n : N) (s : Impl.t) : Prop :=
  s.(Impl.id_repl) <= n ∧
  map_Forall (λ k p, id_raw k <= s.(Impl.id_repl) + 1 ∧
    p.(Repl.candidate_incarnation) ≠ p.(Repl.old_incarnation)) s.(Impl.replacement_plans).

Lemma replacements_mono n s : replacements n s → replacements (n + 1) s.
Proof. intros [? ?]. split; [lia|done]. Qed.

Lemma replacements_update n s s' rid p r :
  replacements n s → s.(Impl.replacement_plans) !! rid = Some p →
  r.(Repl.candidate_incarnation) = p.(Repl.candidate_incarnation) →
  r.(Repl.old_incarnation) = p.(Repl.old_incarnation) →
  s'.(Impl.replacement_plans) = <[rid := r]> s.(Impl.replacement_plans) →
  s'.(Impl.id_repl) = s.(Impl.id_repl) → replacements n s'.
Proof.
  intros [Hi Hp] Hrid Hc Ho Hs' Hid. rw /replacements Hid Hs'. split; [done|].
  apply map_Forall_insert_2; [|done]. rw Hc Ho. by apply (Hp rid p).
Qed.

Lemma retire_effect rid s :
  wp (EngineResidency.retire_old rid)
    (λ r s', ∃ p, s.(Impl.replacement_plans) !! rid = Some p ∧
       r = p <| Repl.phase := ReplacementPhase.COMPLETE |> ∧
       s'.(Impl.replacement_plans) = <[rid := r]> s.(Impl.replacement_plans) ∧
       s'.(Impl.id_repl) = s.(Impl.id_repl) ∧
       s'.(Impl.incarnations) = alter (λ i, i
         <| Inc.state ::= λ st, st <| St.lifecycle := ProcessLifecycle.RETIRED |>
                                   <| St.health := HealthState.LOST |> |>
         <| Inc.is_current := false |>) p.(Repl.old_incarnation) s.(Impl.incarnations))
    (λ _ s', s.(Impl.replacement_plans) !! rid = None ∧ s' = s) s.
Proof. wp_go; [by exists a|done]. Qed.

Lemma begun_fresh n s plan :
  n + 2 < 2 ^ 64 → replacements n s →
  id_raw (begun plan s).(Repl.replacement_id) = s.(Impl.id_repl) + 2 ∧
  s.(Impl.replacement_plans) !! (begun plan s).(Repl.replacement_id) = None.
Proof.
  intros Hn [Hi Hp]. assert (id_raw (begun plan s).(Repl.replacement_id) = s.(Impl.id_repl) + 2) as Hk.
  { rw /= !u64_small; lia. }
  split; [done|]. apply eq_None_not_Some. intros [p Hk']. apply Hp in Hk' as [Hle _]. lia.
Qed.

Lemma run_op_replacements `{HashOrder} o n s :
  n + 2 < 2 ^ 64 → keyed s → replacements n s →
  wp (run_op o) (λ _, replacements (n + 1)) (λ _, replacements (n + 1)) s.
Proof.
  intros Hn Hf Hs. pose proof (replacements_mono n s Hs) as Hs1. revert Hs1.
  destruct o; cbn [run_op]; try
    (match goal with
     | |- _ → wp ?m _ _ _ => cut (preserves (replacements (n + 1)) m); [by auto|]
     end; preserve; fail); intros Hs1; apply wp_bind.
  - eapply wp_mono; [| |apply begin_replacement_effect]; [|by intros e s' [_ ->]].
    intros r s' ([_ _ (c & o & [Hc _] & Ho & Hne)] & -> & ->). apply wp_ret.
    destruct (begun_fresh n s plan Hn Hs) as [Hk _]. destruct Hs as [Hi Hp].
    rw /replacements /=. rw u64_small; [|lia]. split; [lia|].
    apply map_Forall_insert_2.
    + split; [rw /= ?u64_small; lia|]. simpl.
      rw (keyed_lookup _ _ _ Hf Hc) (keyed_lookup _ _ _ Hf Ho) in Hne. done.
    + eapply map_Forall_impl; [exact Hp|]. intros k p [? ?]. by split; [lia|].
  - eapply wp_mono; [| |apply commit_effect]; [|by intros e s' [_ ->]].
    intros r s' (p & cand & [[Hp _] _ -> Hs' Hid _ _ _ _]). apply wp_ret. by refine (replacements_update _ s s' rid p _ Hs1 Hp _ _ Hs' Hid).
  - eapply wp_mono; [| |apply retire_effect]; [|by intros e s' [_ ->]].
    intros r s' (p & Hp & -> & Hs' & Hid & _). apply wp_ret. by refine (replacements_update _ s s' rid p _ Hs1 Hp _ _ Hs' Hid).
Qed.

(** A saved state whose plans have identities below those the next plans get, and
    replace an incarnation by another one; every state saved before the counter
    passes [load_base] is one. *)
Definition sound_plans : Policy := λ p _,
  Forall (λ r, id_raw r.(Repl.replacement_id) <= load_base + 1 ∧
    r.(Repl.candidate_incarnation) ≠ r.(Repl.old_incarnation)) p.(PS.replacements).

Lemma replacements_restore p n s : sound_plans p s → replacements n s → replacements load_base (restore p s).
Proof.
  intros Hp _. split; [reflexivity|]. cbn. intros k r (Hr & Hk)%store_all_elem.
  destruct (proj1 (Forall_forall _ _) Hp r Hr) as [Hid Hne]. rw Hk in Hid. by split.
Qed.
Lemma reachable_replacements n s : reachable_under sound_plans created n s → replacements n s.
Proof.
  apply (reachable_invariant_using sound_plans created replacements (λ _, keyed) (reachable_keyed _)).
  - by intros ?? [-> (c & o & _ & ->)].
  - intros. by apply run_op_replacements.
  - intros p m s' _ Hp _. by apply replacements_restore.
Qed.

(** *** A plan that has left PREPARING never returns to it *)

Definition past_preparing (rid : ReplacementId) (s : Impl.t) : Prop :=
  ∃ p, s.(Impl.replacement_plans) !! rid = Some p ∧ p.(Repl.phase) ≠ ReplacementPhase.PREPARING.

Lemma past_update rid rid' s s' r :
  past_preparing rid s → r.(Repl.phase) ≠ ReplacementPhase.PREPARING →
  s'.(Impl.replacement_plans) = <[rid' := r]> s.(Impl.replacement_plans) → past_preparing rid s'.
Proof.
  intros (p & Hp & Hph) Hr Hs'. rw /past_preparing Hs'.
  destruct (decide (rid' = rid)) as [->|Hne]; [exists r|exists p].
  - by rw lookup_insert_eq.
  - by rw lookup_insert_ne.
Qed.

Lemma run_op_past `{HashOrder} rid o n s :
  n + 2 < 2 ^ 64 → replacements n s → past_preparing rid s →
  wp (run_op o) (λ _, past_preparing rid) (λ _, past_preparing rid) s.
Proof.
  intros Hn Hs. destruct o; cbn [run_op]; try
    (match goal with
     | |- _ → wp ?m _ _ _ => cut (preserves (past_preparing rid) m); [by auto|]
     end; preserve; fail); intros Hpast; apply wp_bind.
  - eapply wp_mono; [| |apply begin_replacement_effect]; [|by intros e s' [_ ->]].
    intros r s' (_ & -> & ->). destruct Hpast as (p & Hp & Hph). exists p. split; [|done].
    destruct (begun_fresh n s plan Hn Hs) as [_ Hk].
    assert ((begun plan s).(Repl.replacement_id) ≠ rid) as Hne by (intros Heq; by rw Heq Hp in Hk).
    exact (eq_trans (lookup_insert_ne _ _ _ _ Hne) Hp).
  - eapply wp_mono; [| |apply commit_effect]; [|by intros e s' [_ ->]].
    intros r s' (p & cand & [_ _ -> Hs' _ _ _ _ _]). apply wp_ret. by eapply past_update; [exact Hpast| |exact Hs'].
  - eapply wp_mono; [| |apply retire_effect]; [|by intros e s' [_ ->]].
    intros r s' (p & _ & -> & Hs' & _). apply wp_ret. by eapply past_update; [exact Hpast| |exact Hs'].
Qed.

(** A saved state that records that the plan has left PREPARING. *)
Definition records_cutover (rid : ReplacementId) : Policy := λ p s,
  sound_plans p s ∧ (∃ r, r ∈ p.(PS.replacements) ∧ r.(Repl.replacement_id) = rid) ∧
  ∀ r, r ∈ p.(PS.replacements) → r.(Repl.replacement_id) = rid → r.(Repl.phase) ≠ ReplacementPhase.PREPARING.

Lemma restore_past rid p s : records_cutover rid p s → past_preparing rid (restore p s).
Proof.
  intros (_ & (r & Hr & Hid) & Hall).
  destruct (store_all_some Repl.replacement_id p.(PS.replacements) r Hr) as [q Hq].
  rw Hid in Hq. apply store_all_elem in Hq as Hqe. destruct Hqe as [Hq' Hk].
  exists q. split; [exact Hq|by apply Hall].
Qed.
(** What is saved before the counter passes [load_base] is sound, and after a
    cutover it records the cutover. *)
Lemma saved_sound_plans `{HashOrder} n s t :
  keyed s → replacements n s → n <= load_base → sound_plans (persistent_image s) t.
Proof.
  intros Hk [Hc Hp] Hn. apply Forall_forall. cbn. intros r ([k q] & -> & Hq%elem_of_iteration)%list_elem_of_fmap.
  cbn. rw (keyed_replacement _ _ _ Hk Hq). destruct (Hp k q Hq). split; [lia|done].
Qed.
Lemma saved_records_cutover `{HashOrder} n s t rid :
  keyed s → replacements n s → n <= load_base → past_preparing rid s →
  records_cutover rid (persistent_image s) t.
Proof.
  intros Hk Hs Hn (p & Hp & Hph). split; [by eapply saved_sound_plans|]. split.
  - exists p. split; [|by eapply keyed_replacement]. cbn. apply list_elem_of_fmap. exists (rid, p).
    split; [done|by apply elem_of_iteration].
  - cbn. intros r ([k q] & -> & Hq%elem_of_iteration)%list_elem_of_fmap. cbn.
    rw (keyed_replacement _ _ _ Hk Hq). intros ->. congruence.
Qed.

Lemma past_rejected rid s : past_preparing rid s → rejected (EngineResidency.commit_cutover rid) s.
Proof.
  intros (p & Hp & Hph). apply wp_rejected. eapply wp_mono; [| |apply commit_effect]; [|done].
  intros r s' (q & cand & [[Hq Hprep] _ _ _ _ _ _ _ _]). congruence.
Qed.

(** ** Properties *)

(** C21. A cutover moves the authority once and for all: when [commit_cutover]
    succeeds in a state that operations reach, and among their first million the
    load of a state whose plans replace an incarnation by another one and have
    identities up to 1000001 (as all have that are saved in that time), the
    candidate was RUNNING and becomes the engine's current incarnation, the old
    one loses currency and is FENCED while its admitted uses are kept; whatever
    operations and loads follow, no serving use of the old incarnation is
    admitted; and whatever operations follow, and among the first million the load
    of such a state that records that this plan has left PREPARING, the same
    replacement cannot be committed again.  (The load of a state that still has
    it PREPARING lets it be committed again.) *)
Theorem cutover_transfers_authority n s rid r s1 :
  reachable_under sound_plans created n s → n + 2 < 2 ^ 64 →
  EngineResidency.commit_cutover rid s = (Ok r, s1) →
  ∃ p cand, s.(Impl.replacement_plans) !! rid = Some p ∧
    runs_as p.(Repl.candidate_incarnation) cand s ∧
    s1.(Impl.incarnations) !! p.(Repl.candidate_incarnation) = Some (taken_over cand) ∧
    s1.(Impl.current_by_engine) !! cand.(Inc.engine_id) = Some cand.(Inc.incarnation_id) ∧
    s1.(Impl.active_uses) = s.(Impl.active_uses) ∧
    (∀ old, s.(Impl.incarnations) !! p.(Repl.old_incarnation) = Some old →
       s1.(Impl.incarnations) !! p.(Repl.old_incarnation) = Some (fenced_out old) ∧
       ∀ s' wanted caller, history any s1 s' →
         wanted.(Tok.incarnation_id) = p.(Repl.old_incarnation) →
         rejected (EngineResidency.acquire_serving_use wanted caller) s') ∧
    ∀ n' s', runs_under (records_cutover rid) (n + 1) s1 n' s' →
      rejected (EngineResidency.commit_cutover rid) s'.
Proof.
  intros Hr Hn Hrun. pose proof (reachable_replacements n s Hr) as Hs.
  pose proof (reachable_keyed _ n s Hr) as Hf.
  destruct (wp_ok _ _ _ _ _ _ (commit_effect rid s) Hrun)
    as (p & cand & [[Hp Hph] [Hc Hrunning] Hres Hplans _ Hcur Huses Hincs Hfence]).
  assert (p.(Repl.candidate_incarnation) ≠ p.(Repl.old_incarnation)) as Hne
    by (destruct Hs as [_ Hs]; by apply (Hs rid p)).
  exists p, cand. rw Hincs Hcur lookup_alter_eq lookup_alter_ne // Hc lookup_insert_eq.
  split_and!; [done..| |].
  - intros old Hold. rw lookup_alter_ne // lookup_alter_eq Hold. split; [done|].
    intros s' wanted caller Hruns Hw. specialize (Hfence old Hold).
    rw (keyed_lookup _ _ _ Hf Hold) in Hfence. by eapply (fenced_rejected _ s1).
  - intros n' s' Hruns. apply past_rejected.
    eapply (preserved_runs_using sound_plans (records_cutover rid) created replacements);
      [by intros ?? []|apply reachable_replacements|intros; by eapply run_op_past
      |intros p' m t _ Hp' _ _; by apply restore_past| |exact Hruns|].
    + apply (reachable_step _ n s); [done..|]. exists map_to_list_order, (CommitCutover rid).
      by rw /= /discard /mbind /M_bind Hrun.
    + exists r. rw Hplans lookup_insert_eq Hres. done.
Qed.

(** Replace incarnation 2 by 3, with [overlap] bytes of overlap needed. *)
Definition demo_replacement (overlap : N) : ReplacementPlan :=
  ReplacementPlan.default
    <| Repl.epoch := mkGen 1 |> <| Repl.authority := mkGen 1 |>
    <| Repl.old_incarnation := mkId 2 |> <| Repl.candidate_incarnation := mkId 3 |>
    <| Repl.overlap_bytes := overlap |>.
Definition demo_replacing : Impl.t :=
  run_ops (demo_prepare ++ demo_worker 2 1 3 3 ++ [BeginReplacement (demo_replacement 0)]) demo_start.

Lemma demo_replacing_reachable {L} : reachable_under L created 23 demo_replacing.
Proof.
  apply (demo_reachable (demo_prepare ++ demo_worker 2 1 3 3 ++ [BeginReplacement (demo_replacement 0)])).
  vm_compute. reflexivity.
Qed.

Lemma cutover_transfers_authority_witness :
  ∃ r s1, EngineResidency.commit_cutover (mkId 2) demo_replacing = (Ok r, s1) ∧
    succeeds (use_op 2 1) demo_replacing = true ∧ succeeds (use_op 3 1) s1 = true ∧
    rejected (EngineResidency.commit_cutover (mkId 2)) s1.
Proof.
  destruct (EngineResidency.commit_cutover (mkId 2) demo_replacing) as [[r|e] s1] eqn:Hrun;
    [|vm_compute in Hrun; discriminate Hrun].
  assert (23 + 2 < 2 ^ 64) as Hn by reflexivity.
  destruct (cutover_transfers_authority 23 demo_replacing (mkId 2) r s1 demo_replacing_reachable Hn Hrun)
    as (p & cand & _ & _ & _ & _ & _ & _ & Honce).
  exists r, s1. split_and!; [reflexivity|vm_compute; reflexivity| |].
  - vm_compute in Hrun. injection Hrun as _ <-. vm_compute. reflexivity.
  - apply (Honce 24 s1). apply runs_refl.
Defined.

(** Make before break: [begin_replacement] succeeds exactly on a plan of
    the current epoch and authority between two different known incarnations
    whose candidate is RUNNING; it files a PREPARING plan and touches nothing
    else, so the old incarnation keeps its authority: exactly the same serving
    uses are admitted after it as before. *)
Theorem replacement_keeps_old_authority plan s :
  match EngineResidency.begin_replacement plan s with
  | (Ok r, s') =>
    replaceable plan s ∧ r.(Repl.phase) = ReplacementPhase.PREPARING ∧
    s'.(Impl.replacement_plans) = <[r.(Repl.replacement_id) := r]> s.(Impl.replacement_plans) ∧
    s'.(Impl.incarnations) = s.(Impl.incarnations) ∧
    s'.(Impl.current_by_engine) = s.(Impl.current_by_engine) ∧
    ∀ wanted t inc, admits wanted t inc s' ↔ admits wanted t inc s
  | (Throw _, s') => ¬ replaceable plan s ∧ s' = s
  end.
Proof.
  pose proof (begin_replacement_effect plan s) as H. rw /wp in H.
  destruct (EngineResidency.begin_replacement plan s) as [[r|e] s']; [|exact H].
  destruct H as (Hr & -> & ->). split_and!; [done..|]. intros. split; intros []; by split.
Qed.

(** The cutover asks for a running candidate and nothing more: it succeeds
    exactly when the plan is still PREPARING and its candidate known and
    RUNNING, whatever the plan says of the available overlap and whatever the
    candidate's readiness, and a refusal changes nothing. *)
Theorem cutover_ignores_overlap_and_readiness rid s :
  match EngineResidency.commit_cutover rid s with
  | (Ok r, s') => ∃ p cand, cut_over rid p r cand s s'
  | (Throw _, s') =>
    s' = s ∧ ∀ p cand, s.(Impl.replacement_plans) !! rid = Some p →
      p.(Repl.phase) = ReplacementPhase.PREPARING →
      ¬ runs_as p.(Repl.candidate_incarnation) cand s
  end.
Proof.
  pose proof (commit_effect rid s) as H. rw /wp in H.
  by destruct (EngineResidency.commit_cutover rid s) as [[r|e] s']; [|destruct H].
Qed.

(** Retirement consults no phase: [retire_old] succeeds on every known
    plan, one whose cutover has not happened included; it marks the old
    incarnation RETIRED, LOST and not current, makes the plan COMPLETE, and
    thereby bars its cutover. *)
Theorem retire_old_needs_no_cutover rid p s :
  s.(Impl.replacement_plans) !! rid = Some p →
  ∃ r s', EngineResidency.retire_old rid s = (Ok r, s') ∧ replacement_is_complete r = true ∧
    (∀ old, s.(Impl.incarnations) !! p.(Repl.old_incarnation) = Some old →
       ∃ old', s'.(Impl.incarnations) !! p.(Repl.old_incarnation) = Some old' ∧
         old'.(Inc.is_current) = false ∧
         old'.(Inc.state).(St.lifecycle) = ProcessLifecycle.RETIRED) ∧
    rejected (EngineResidency.commit_cutover rid) s'.
Proof.
  intros Hp. pose proof (retire_effect rid s) as H. rw /wp in H.
  destruct (EngineResidency.retire_old rid s) as [[r|e] s']; [|by destruct H as [H _]; rw Hp in H].
  destruct H as (q & Hq & -> & Hplans & _ & Hincs).
  assert (q = p) as -> by exact (inj Some _ _ (eq_trans (eq_sym Hq) Hp)).
  do 2 eexists. split_and!; [reflexivity|by rw /replacement_is_complete bool_decide_eq_true_2| |].
  - intros old Hold. rw Hincs lookup_alter_eq Hold. by eexists.
  - apply past_rejected. eexists. by rw Hplans lookup_insert_eq.
Qed.

Lemma retire_old_needs_no_cutover_witness :
  ∃ r s', EngineResidency.retire_old (mkId 2) demo_replacing = (Ok r, s') ∧
    rejected (EngineResidency.commit_cutover (mkId 2)) s' ∧
    throws (use_op 2 1) s' = Some StaleIncarnation ∧ throws (use_op 3 1) s' = Some StaleIncarnation.
Proof.
  destruct (demo_replacing.(Impl.replacement_plans) !! mkId 2) as [p|] eqn:Hp;
    [|vm_compute in Hp; discriminate Hp].
  destruct (retire_old_needs_no_cutover (mkId 2) p demo_replacing Hp) as (r & s' & Hrun & _ & _ & Hrej).
  exists r, s'. split_and!; [exact Hrun|exact Hrej| |].
  all: vm_compute in Hrun; injection Hrun as _ <-; vm_compute; reflexivity.
Defined.
