(* ===== verification/Recovery.v ===== *)
(** * Recovery

    The restart of the coordinator: what survives, what is demoted, and what a
    later generation of identities collides with. *)

From S2P Require Import Prelude Identities Enums Model Reference Codec Persistence Readiness Runtime.
From S2P Require Import Loading Transitions Scenario Tables Incarnations Authority ServingUse Replacement.
Local Open Scope N_scope.

(** ** The restart *)

(** [run_coordinator]'s block on a state file: a [DomainError] is reported and
    the coordinator goes on with the state as it is. *)
Definition recover (blob : Bytes) : Run () := λ s,
  match (load blob;; discard EngineResidency.advance_epoch) s with
  | (Throw (DomainError _ _), s') => (Ok (), s')
  | r => r
  end.

(** ** Properties *)

(** C30. The durable part of the runtime survives a restart: if what a
    runtime holds after any operations and loads fits the format, serializing it succeeds, changes
    nothing, and (below the 256 MiB cap) loading the result into any runtime
    restores exactly its engines, profiles, replacement plans, cost history,
    epoch, authority and permit counter, and exactly its incarnations and
    evidence, these demoted to what must be revalidated, whatever the order
    the tables are iterated in. *)
Theorem recovery_restores_durable_state `{HashOrder} s :
  arises s → state_wf (persistent_image s) →
  ∃ blob, serialize s = (Ok blob, s) ∧
    (size_of blob <= kMaxSerializedBytes → ∀ t, ∃ t', load blob t = (Ok tt, t') ∧
       t'.(Impl.engines) = s.(Impl.engines) ∧ t'.(Impl.profiles) = s.(Impl.profiles) ∧
       t'.(Impl.incarnations) = demote <$> s.(Impl.incarnations) ∧
       (∀ k, evidence_of k t' = expire <$> evidence_of k s) ∧
       t'.(Impl.replacement_plans) = s.(Impl.replacement_plans) ∧
       t'.(Impl.cost_history) = s.(Impl.cost_history) ∧
       t'.(Impl.authority) = s.(Impl.authority)).
Proof.
  intros Hr Hwf. destruct (round_trips_blob _ Hwf) as (blob & Hser & Hacc). exists blob.
  split; [by rw /serialize /gets /mbind /M_bind Hser|]. intros Hmax t.
  specialize (Hacc Hmax). apply deserialize_accepted in Hacc.
  destruct (arises_keyed s Hr) as (He & Hp & Hev & Hre & Hf).
  exists (restore (persistent_image s) t). split; [by rw /load Hacc|]. split_and!.
  - by apply (store_all_id Def.engine_id).
  - by apply (store_all_id Prof.profile_id).
  - apply (store_all_iteration Inc.incarnation_id demote); done.
  - intros k. rw restored_evidence /persistent_image /=. f_equal.
    rw filter_groups ?iteration_list_to_map //; [apply NoDup_iteration_keys|].
    apply Forall_forall. intros [j l] Hl%elem_of_iteration. exact (Hev j l Hl).
  - by apply (store_all_id Repl.replacement_id).
  - reflexivity.
  - destruct (arises_authority s Hr) as (_ & H1 & H2). revert H1 H2.
    rw /restore /= /or_one /Generation.raw. destruct (Impl.authority s) as [[e] [a] c]. simpl.
    intros H1 H2. rw !(proj2 (N.ltb_lt _ _)) //; lia.
Qed.

(** The reference runtime, persisted. *)
Definition blob_of (s : Impl.t) : Bytes :=
  match serialize s with
  | (Ok blob, _) => blob
  | (Throw _, _) => []
  end.
Definition demo_saved : Bytes := Eval vm_compute in blob_of demo_ready.
(** A fresh coordinator process on the same machine. *)
Definition demo_restarted : Impl.t := restore (persistent_image demo_ready) demo_start.
(** A flipped byte. *)
Definition demo_damaged : Bytes := <[100%nat := Ascii.zero]> demo_saved.

Lemma demo_saved_blob : blob_of demo_ready = demo_saved.
Proof. vm_compute. reflexivity. Qed.
Lemma demo_saved_loads : deserialize_persistent_state demo_saved = Ok (persistent_image demo_ready).
Proof. vm_compute. reflexivity. Qed.

Lemma demo_damaged_refused : deserialize_persistent_state demo_damaged = Throw "checksum mismatch"%string.
Proof. vm_compute. reflexivity. Qed.

Lemma recovery_restores_durable_state_witness :
  ∃ t', load demo_saved demo_start = (Ok tt, t') ∧ t'.(Impl.engines) = demo_ready.(Impl.engines) ∧
    t'.(Impl.incarnations) = demote <$> demo_ready.(Impl.incarnations).
Proof.
  assert (state_wf (persistent_image demo_ready)) as Hwf
    by (apply (bool_decide_unpack _); vm_compute; exact I).
  destruct (recovery_restores_durable_state demo_ready (reachable_arises any 12 _ demo_ready_reachable) Hwf)
    as (blob & Hs & Hload).
  assert (blob = demo_saved) as -> by (by rw -demo_saved_blob /blob_of Hs).
  assert (size_of demo_saved <= kMaxSerializedBytes) as Hmax by (vm_compute; discriminate).
  destruct (Hload Hmax demo_start) as (t' & Ht & He & _ & Hi & _).
  exists t'. split_and!; [exact Ht|exact He|exact Hi].
Defined.

(** A blob that is not accepted changes nothing: when [load] throws, it
    throws PersistenceCorrupt with the decoder's message and the runtime is
    exactly as before. *)
Theorem rejected_load_changes_nothing blob s e s' :
  load blob s = (Throw e, s') →
  s' = s ∧ ∃ err, deserialize_persistent_state blob = Throw err ∧ e = DomainError PersistenceCorrupt err.
Proof. exact (wp_threw _ _ _ _ _ _ (load_effect blob s)). Qed.

Lemma rejected_load_changes_nothing_witness :
  load demo_damaged demo_ready
  = (Throw (DomainError PersistenceCorrupt "checksum mismatch"), demo_ready).
Proof.
  assert (∃ e s', load demo_damaged demo_ready = (Throw e, s')) as (e & s' & Hrun)
    by (rw /load demo_damaged_refused; by eexists _, _).
  destruct (rejected_load_changes_nothing _ _ _ _ Hrun) as (Hs & err & Herr & He).
  rw demo_damaged_refused in Herr. injection Herr as Herr.
  rw Hrun Hs He -Herr. reflexivity.
Defined.

Lemma expired_unsupported engine l now req : ¬ supported engine (expire <$> l) now req.
Proof.
  intros (e & (x & -> & _)%list_elem_of_fmap & _ & _ & [[Hlo Hhi] _ _] & _).
  simpl in Hhi. lia.
Qed.

(** C31. Recovery is conservative: after a successful [load] no incarnation is
    current or active, every one is REVALIDATING, no serving use whatever is
    admitted, every readiness query answers REVALIDATION_REQUIRED, and the
    restored evidence makes no profile ready that requires anything: a
    persisted READY never bypasses revalidation. *)
Theorem load_is_conservative blob s s' :
  load blob s = (Ok tt, s') →
  (∀ k i, s'.(Impl.incarnations) !! k = Some i →
     i.(Inc.is_current) = false ∧ i.(Inc.state).(St.recovery) = RecoveryState.REVALIDATING ∧
     i.(Inc.state).(St.activation) = ActivationState.INACTIVE) ∧
  s'.(Impl.current_by_engine) = ∅ ∧
  (∀ wanted caller, rejected (EngineResidency.acquire_serving_use wanted caller) s') ∧
  (∀ k prof_id r s'', EngineResidency.evaluate_readiness k prof_id s' = (Ok r, s'') →
     r.(Res.outcome) = ReadinessOutcome.REVALIDATION_REQUIRED) ∧
  ∀ engine prof inc k now req,
    req ∈ prof.(Prof.requirements) → req.(Req.kind) ≠ RequirementKind.OPTIONAL →
    serving_outcome (evaluate_readiness engine prof inc (evidence_of k s') now).(Res.outcome) = false.
Proof.
  intros Hrun. destruct (wp_ok _ _ _ _ _ _ (load_effect blob s) Hrun) as (p & _ & ->).
  assert (∀ k i, (restore p s).(Impl.incarnations) !! k = Some i → ∃ j, i = demote j) as Hdem.
  { intros k i Hi. apply restored_incarnation in Hi as (j & _ & ->). by exists j. }
  split_and!.
  - intros k i (j & ->)%Hdem. done.
  - done.
  - intros wanted caller. apply wp_rejected. eapply wp_mono; [| |apply acquire_effect]; [|done].
    intros tok s'' (i & [Hi Hcur _ _ _ _ _] & _). apply Hdem in Hi as [j ->]. done.
  - intros k prof_id r s''. refine (wp_ok _ (λ r _, r.(Res.outcome) = ReadinessOutcome.REVALIDATION_REQUIRED) (λ _ _, True) _ _ _ _).
    wp_go; try done. exfalso. match goal with H : _ !! k = Some _ |- _ => apply Hdem in H as [j ->] end. done.
  - intros engine prof inc k now req Hreq Hk. apply not_true_iff_false. intros Hserve.
    apply serving_supported with (req := req) in Hserve; [|done..].
    rw restored_evidence in Hserve. by eapply expired_unsupported.
Qed.

Lemma demo_restart : load demo_saved demo_start = (Ok tt, demo_restarted).
Proof. by rw /load demo_saved_loads. Qed.

Lemma load_is_conservative_witness :
  succeeds (use_op 2 1) demo_ready = true ∧
  rejected (EngineResidency.acquire_serving_use (demo_token 2 1) "client") demo_restarted.
Proof.
  split; [vm_compute; reflexivity|].
  destruct (load_is_conservative demo_saved demo_start demo_restarted demo_restart)
    as (_ & _ & Hrej & _).
  apply Hrej.
Defined.

(** A recovered coordinator runs in a new epoch: when [run_coordinator]
    recovers from an accepted blob whose epoch and authority can still be
    advanced, the epoch and the authority it goes on with are one above the
    persisted ones, so nothing issued under the persisted epoch is current. *)
Theorem recovered_epoch_is_new blob p s :
  deserialize_persistent_state blob = Ok p →
  or_one p.(PS.coordinator_epoch) < 2 ^ 64 - 1 → or_one p.(PS.authority_generation) < 2 ^ 64 - 1 →
  ∃ s', recover blob s = (Ok tt, s') ∧
    gen_raw s'.(Impl.authority).(Auth.epoch) = or_one p.(PS.coordinator_epoch) + 1 ∧
    gen_raw s'.(Impl.authority).(Auth.authority) = or_one p.(PS.authority_generation) + 1 ∧
    ∀ e, gen_raw e.(Ev.coordinator_epoch) = or_one p.(PS.coordinator_epoch) →
       rejected (EngineResidency.publish_component e) s'.
Proof.
  intros Hd He Ha.
  assert (wp (load blob;; discard EngineResidency.advance_epoch)
    (λ _ s', s'.(Impl.epoch_started) = true ∧
       gen_raw s'.(Impl.authority).(Auth.epoch) = or_one p.(PS.coordinator_epoch) + 1 ∧
       gen_raw s'.(Impl.authority).(Auth.authority) = or_one p.(PS.authority_generation) + 1)
    (λ _ _, False) s) as Hwp.
  { apply wp_bind. eapply wp_mono; [| |apply load_effect].
    - intros [] s' (p' & Hp' & ->). assert (p' = p) as -> by congruence.
      wp_go; simpl in *; first [done|lia].
    - intros e s' (_ & err & Herr & _). congruence. }
  rw /wp in Hwp. destruct ((load blob;; discard EngineResidency.advance_epoch) s) as [[[]|e] s'] eqn:Hrun;
    [|done].
  destruct Hwp as (Hstart & Hepoch & Hauth). exists s'. split_and!; [by rw /recover Hrun|done..|].
  intros e Hold. apply wp_rejected. wp_go; try done.
  all: exfalso; guard_facts; try by rw Hstart in Heqb.
  all: match goal with H : Ev.coordinator_epoch _ = _ |- _ => rw H /= Hepoch in Hold end; lia.
Qed.

Lemma recovered_epoch_is_new_witness :
  ∃ s', recover demo_saved demo_start = (Ok tt, s') ∧
    gen_raw s'.(Impl.authority).(Auth.epoch) = 2 ∧
    rejected (EngineResidency.publish_component
      (ComponentEvidence.default <| Ev.coordinator_epoch := mkGen 1 |>)) s'.
Proof.
  destruct (recovered_epoch_is_new demo_saved (persistent_image demo_ready) demo_start demo_saved_loads)
    as (s' & Hr & He & _ & Hrej); [vm_compute; reflexivity..|].
  exists s'. split_and!; [exact Hr| |apply Hrej; vm_compute; reflexivity].
  rw He. vm_compute. reflexivity.
Defined.

(** The counters restart at a constant: the first incarnation registered
    after any successful [load] is filed under the identity 1000002, and
    replaces whatever incarnation the blob restored under that identity, as a
    blob saved after an earlier recovery does. *)
Theorem restored_identity_overwritten blob w b src src_boot inc s r s' :
  (load blob;;
   permit ← EngineResidency.issue_registration_permit w b src src_boot;
   EngineResidency.register_incarnation inc permit) s = (Ok r, s') →
  r.(Inc.incarnation_id) = mkId 1000002 ∧
  s'.(Impl.incarnations) !! (mkId 1000002 : EngineIncarnationId) = Some r.
Proof.
  refine (wp_ok _ (λ r s', r.(Inc.incarnation_id) = mkId 1000002 ∧
    s'.(Impl.incarnations) !! (mkId 1000002 : EngineIncarnationId) = Some r) (λ _ _, True) _ _ _ _).
  apply wp_bind. eapply wp_mono; [| |apply load_effect]; [|done].
  intros [] t (p & _ & ->). wp_go; try done.
  all: split; [done|]; by rw /= lookup_insert_eq.
Qed.

(** The restarted coordinator takes a worker, is saved, and restarts again. *)
Definition demo_resaved : Bytes := blob_of (run_ops (demo_register 7 1 1000002) demo_restarted).
Definition demo_second_restart : Impl.t := (load demo_resaved demo_start).2.
Definition demo_reregister : Run EngineIncarnation :=
  load demo_resaved;;
  permit ← EngineResidency.issue_registration_permit (mkId 8) (mkGen 1) (mkId 1) (mkGen 1);
  EngineResidency.register_incarnation (demo_incarnation 8 1) permit.
Definition worker_filed (n : N) (s : Impl.t) : option N :=
  (λ i, id_raw i.(Inc.worker_id)) <$> s.(Impl.incarnations) !! mkId n.

Lemma restored_identity_overwritten_witness :
  worker_filed 1000002 demo_second_restart = Some 7 ∧
  ∃ r s', demo_reregister demo_start = (Ok r, s') ∧ worker_filed 1000002 s' = Some 8.
Proof.
  split; [vm_compute; reflexivity|].
  assert (match (demo_reregister demo_start).1 with
          | Ok r => id_raw r.(Inc.worker_id) =? 8 | Throw _ => false end = true) as Hr
    by (vm_compute; reflexivity).
  destruct (demo_reregister demo_start) as [[r|e] s'] eqn:Hrun; [|discriminate Hr].
  apply N.eqb_eq in Hr.
  destruct (restored_identity_overwritten _ _ _ _ _ _ _ _ _ Hrun) as [_ Hs'].
  exists r, s'. split; [reflexivity|]. rw /worker_filed Hs' /=. by f_equal.
Defined.

(** Nothing compares the identities of what is loaded: a state with one more
    incarnation, under an identity that another may have already, loads like any
    other, and that record replaces the earlier one. *)
Definition with_incarnation (i : EngineIncarnation) (p : PersistentState) : PersistentState :=
  p <| PS.incarnations ::= λ l, l ++ [i] |>.
Theorem repeated_identity_replaces p i s :
  state_wf (with_incarnation i p) →
  ∃ blob, serialize_persistent_state (with_incarnation i p) = Ok blob ∧
    (size_of blob <= kMaxSerializedBytes → ∃ s', load blob s = (Ok tt, s') ∧
       s'.(Impl.incarnations) !! i.(Inc.incarnation_id) = Some (demote i)).
Proof.
  intros Hwf. destruct (round_trips_blob _ Hwf) as (blob & Hser & Hacc). exists blob.
  split; [done|]. intros Hmax. specialize (Hacc Hmax). apply deserialize_accepted in Hacc.
  destruct Hwf as (Hver & _). exists (restore (with_incarnation i p) s). split; [by rw /load Hacc Hver|].
  by rw /restore /= fmap_app store_all_app lookup_insert_eq.
Qed.

(** The reference runtime's state, with the identity of its incarnation given to
    another worker's as well. *)
Definition demo_rival : EngineIncarnation :=
  (demo_incarnation 9 1) <| Inc.incarnation_id := mkId 2 |>.
Lemma repeated_identity_replaces_witness :
  let p := persistent_image demo_ready in
  Inc.incarnation_id <$> (with_incarnation demo_rival p).(PS.incarnations) = [mkId 2; mkId 2] ∧
  ∃ blob s', serialize_persistent_state (with_incarnation demo_rival p) = Ok blob ∧
    load blob demo_start = (Ok tt, s') ∧
    s'.(Impl.incarnations) !! demo_rival.(Inc.incarnation_id) = Some (demote demo_rival).
Proof.
  intros p. split; [vm_compute; reflexivity|].
  assert (state_wf (with_incarnation demo_rival p)) as Hwf by (apply (bool_decide_unpack _); vm_compute; exact I).
  assert (match serialize_persistent_state (with_incarnation demo_rival p) with
    | Ok blob => size_of blob <=? kMaxSerializedBytes | Throw _ => false end = true) as H by (vm_compute; reflexivity).
  clearbody p. destruct (repeated_identity_replaces p demo_rival demo_start Hwf) as (blob & Hser & Hload).
  rw Hser in H. exists blob. destruct (Hload (proj1 (N.leb_le _ _) H)) as (s' & Hl & Hs'). by exists s'.
Defined.

(** A load of an older blob takes back what happened since: the cutover that the
    blob saw in preparation is committed a second time, and the epoch that was
    advanced is the earlier one again. *)
Definition demo_replacing_saved : Bytes := blob_of demo_replacing.
Definition demo_cut : Impl.t := run_ops [CommitCutover (mkId 2); AdvanceEpoch] demo_replacing.
Definition demo_set_back : Impl.t := (load demo_replacing_saved demo_cut).2.
Example load_takes_back :
  throws (CommitCutover (mkId 2)) demo_cut = Some InvalidState ∧
  gen_raw demo_cut.(Impl.authority).(Auth.epoch) = 2 ∧
  succeeds (CommitCutover (mkId 2)) demo_set_back = true ∧
  gen_raw demo_set_back.(Impl.authority).(Auth.epoch) = 1.
Proof. vm_compute. split_and!; reflexivity. Qed.

Lemma permit_issued w b src src_boot s :
  s.(Impl.epoch_started) = true → 1 <= gen_raw b → is_fenced w b s = false →
  N.of_nat (size s.(Impl.permits)) < s.(Impl.opts).(Opts.max_registration_permits) →
  ∃ permit s', EngineResidency.issue_registration_permit w b src src_boot s = (Ok permit, s') ∧
    permit.(Permit.worker_id) = w ∧ permit.(Permit.worker_boot) = b.
Proof.
  intros Hstart Hb Hf Hmax.
  assert (wp (EngineResidency.issue_registration_permit w b src src_boot)
    (λ p _, p.(Permit.worker_id) = w ∧ p.(Permit.worker_boot) = b) (λ _ _, False) s) as Hwp.
  { wp_go; try done; exfalso; guard_facts; try congruence; try lia.
    match goal with H : Generation.is_before _ _ = true |- _ => apply N.ltb_lt in H; simpl in H end. lia. }
  rw /wp in Hwp.
  destruct (EngineResidency.issue_registration_permit w b src src_boot s) as [[q|e] s']; [|done].
  by exists q, s'.
Qed.

(** Fences do not survive a restart: they are not persisted, so after any
    successful [load] into a fresh runtime no boot is fenced, and a boot that
    was fenced before the coordinator stopped is granted a registration
    permit again. *)
Theorem fences_forgotten_by_recovery blob c opts s w b src src_boot :
  load blob (EngineResidency.create c opts) = (Ok tt, s) →
  (∀ w b, is_fenced w b s = false) ∧
  (1 <= gen_raw b → 0 < opts.(Opts.max_registration_permits) →
   ∃ permit s', EngineResidency.issue_registration_permit w b src src_boot s = (Ok permit, s') ∧
     permit.(Permit.worker_id) = w ∧ permit.(Permit.worker_boot) = b).
Proof.
  intros Hrun. destruct (wp_ok _ _ _ _ _ _ (load_effect _ _) Hrun) as (p & _ & ->).
  split; [done|]. intros Hb Hmax.
  apply permit_issued; [done| |done|exact Hmax]. exact Hb.
Qed.

Definition demo_fenced_saved : Bytes := Eval vm_compute in
  blob_of (run_ops [FenceWorker (mkId 1) (mkGen 1) "lost"] demo_ready).

Lemma fences_forgotten_by_recovery_witness :
  throws (IssueRegistrationPermit (mkId 1) (mkGen 1) (mkId 1) (mkGen 1))
    (run_ops [FenceWorker (mkId 1) (mkGen 1) "lost"] demo_ready) = Some FencedWorker ∧
  ∃ s, load demo_fenced_saved demo_start = (Ok tt, s) ∧
  ∃ permit s', EngineResidency.issue_registration_permit (mkId 1) (mkGen 1) (mkId 1) (mkGen 1) s
    = (Ok permit, s').
Proof.
  split; [vm_compute; reflexivity|].
  assert (match (load demo_fenced_saved demo_start).1 with Ok _ => true | Throw _ => false end = true)
    as Hr by (vm_compute; reflexivity).
  destruct (load demo_fenced_saved demo_start) as [[[]|e] s] eqn:Hrun; [|discriminate Hr].
  destruct (fences_forgotten_by_recovery _ demo_clock RuntimeOptions.default s (mkId 1) (mkGen 1)
    (mkId 1) (mkGen 1) Hrun) as [_ H].
  exists s. split; [reflexivity|]. destruct H as (q & s' & Hq & _); [vm_compute; discriminate|reflexivity|].
  by exists q, s'.
Defined.
