(* ===== verification/Threads.v ===== *)
(** * Coordinator state and threads

    [SessionShared] and [WorkerRouter] (session.hpp), and the programs the
    coordinator's threads run: a thread is a tree of atomic steps on the shared
    state (a runtime operation under the runtime's lock, or a critical section
    of [SessionShared::mtx] or of a router's queue) and of the events it waits
    for, so that threads interleave between any two steps. *)

From S2P Require Import Prelude Identities Enums Model Codec Frame Payload Runtime.
Local Open Scope N_scope.

(** ** Routed commands *)

Module CommandReply.
Record t := mk {
  ok : bool;
  timed_out : bool;
  detail : string;
  fields : Fields;
}.

#[global] Instance eta : Eta t := fields! mk <ok; timed_out; detail; fields>.

Definition default : t := {| ok := false; timed_out := false; detail := ""; fields := ∅ |}.
(** [rep.ok = false; rep.detail = d; rep.fields["msg"] = d;] *)
Definition failure (d : string) : t :=
  default <| detail := d |> <| fields ::= <["msg" := d]> |>.
End CommandReply.
Abbreviation CommandReply := CommandReply.t.
Module Rep := CommandReply.

(** [promise] names the shared state of the [std::promise] and its future. *)
Module WorkerCommand.
Record t := mk {
  type : MessageType.t;
  command_id : N;
  epoch : N;
  authority : N;
  params : Fields;
  promise : N;
}.

#[global] Instance eta : Eta t := fields! mk <type; command_id; epoch; authority; params; promise>.
End WorkerCommand.
Abbreviation WorkerCommand := WorkerCommand.t.
Module Cmd := WorkerCommand.

Module WorkerRouter.
Record t := mk {
  session_id : N;
  worker_id : WorkerId;
  worker_boot : WorkerBootId;
  inc : EngineIncarnationId;
  engine_id : EngineId;
  ready : bool;
  alive : bool;
  sock_open : bool;
  queue : list WorkerCommand.t;
}.

#[global] Instance eta : Eta t := fields! mk <session_id; worker_id; worker_boot; inc;
  engine_id; ready; alive; sock_open; queue>.

(** The constructor. *)
Definition make (session_id : N) (w : WorkerId) (b : WorkerBootId) (inc : EngineIncarnationId)
    (eid : EngineId) : t := {|
  session_id := session_id; worker_id := w; worker_boot := b; inc := inc; engine_id := eid;
  ready := false; alive := true; sock_open := false; queue := [];
|}.

Definition max_queue : nat := 64.
Definition pending_count (r : t) : nat := length r.(queue).
End WorkerRouter.
Abbreviation WorkerRouter := WorkerRouter.t.
Module Router := WorkerRouter.

(** ** [SessionShared]

    A [std::shared_ptr<WorkerRouter>] is an address in [routers], so that a
    session that looked a router up keeps it when the registry drops it.
    [replies] holds the value of every promise that has one; the two counters
    name fresh routers and promises. *)

Module SessionShared.
Record t := mk {
  runtime : Impl.t;
  session_owner : gmap N string;
  session_inc : gmap N EngineIncarnationId;
  session_use : gmap N ServingUseId;
  next_session : N;
  worker_router : gmap EngineIncarnationId N;
  boot_to_inc : gmap (N * N) EngineIncarnationId;
  routers : gmap N WorkerRouter.t;
  next_router : N;
  replies : gmap N CommandReply.t;
  next_promise : N;
}.

#[global] Instance eta : Eta t := fields! mk <runtime; session_owner; session_inc; session_use;
  next_session; worker_router; boot_to_inc; routers; next_router; replies; next_promise>.

Definition make (rt : Impl.t) : t := {|
  runtime := rt; session_owner := ∅; session_inc := ∅; session_use := ∅; next_session := 1;
  worker_router := ∅; boot_to_inc := ∅; routers := ∅; next_router := 0; replies := ∅;
  next_promise := 0;
|}.
End SessionShared.
Abbreviation SessionShared := SessionShared.t.
Module Shared := SessionShared.

(** ** Threads *)

Inductive Prog (A : Type) : Type :=
  | Ret (a : A)
  (** an exception propagates *)
  | Raise (e : Exn)
  (** one atomic step on the shared state *)
  | Act {B : Type} (m : SessionShared → Outcome Exn B * SessionShared) (k : Outcome Exn B → Prog A)
  (** [recv_frame] on the thread's socket; [None] when it returns false *)
  | Recv (k : option ProtocolMessage → Prog A)
  (** [send_frame] on the thread's socket, and what it returns *)
  | Send (m : ProtocolMessage) (k : bool → Prog A)
  (** [fut.wait_for] and [fut.get()]; [None] on a timeout *)
  | Await (promise : N) (k : option CommandReply → Prog A)
  (** the wait of the dispatcher on its queue; [None] once dead and empty *)
  | Dequeue (router : N) (k : option WorkerCommand → Prog A)
  (** [fopen], [fwrite] and [fclose], and whether the file opened *)
  | WriteFile (path : string) (blob : Bytes) (k : bool → Prog A).
Arguments Ret {A} a.
Arguments Raise {A} e.
Arguments Act {A B} m k.
Arguments Recv {A} k.
Arguments Send {A} m k.
Arguments Await {A} promise k.
Arguments Dequeue {A} router k.
Arguments WriteFile {A} path blob k.

#[export] Instance Prog_ret : MRet Prog := @Ret.
#[export] Instance Prog_bind : MBind Prog := λ A B f,
  fix go (p : Prog A) : Prog B :=
    match p with
    | Ret a => f a
    | Raise e => Raise e
    | Act m k => Act m (λ b, go (k b))
    | Recv k => Recv (λ m, go (k m))
    | Send m k => Send m (λ b, go (k b))
    | Await p k => Await p (λ r, go (k r))
    | Dequeue r k => Dequeue r (λ c, go (k c))
    | WriteFile path blob k => WriteFile path blob (λ b, go (k b))
    end.

(** [try { p } catch (...) { h }], for the exceptions [h] takes. *)
Fixpoint try_with {A} (p : Prog A) (h : Exn → option (Prog A)) : Prog A :=
  match p with
  | Ret a => Ret a
  | Raise e => default (Raise e) (h e)
  | Act m k => Act m (λ b, try_with (k b) h)
  | Recv k => Recv (λ m, try_with (k m) h)
  | Send m k => Send m (λ b, try_with (k b) h)
  | Await p k => Await p (λ r, try_with (k r) h)
  | Dequeue r k => Dequeue r (λ c, try_with (k c) h)
  | WriteFile path blob k => WriteFile path blob (λ b, try_with (k b) h)
  end.
(** [catch (const DomainError& e)]: [std::out_of_range] passes through. *)
Definition try_domain {A} (p : Prog A) (h : ErrorCode → string → Prog A) : Prog A :=
  try_with p (λ e, match e with DomainError code what => Some (h code what) | StdOutOfRange => None end).
(** [catch (...)] *)
Definition try_all {A} (p h : Prog A) : Prog A := try_with p (λ _, Some h).

(** A runtime operation, under the runtime's lock. *)
Definition on_runtime {A} (m : Run A) (w : SessionShared) : Outcome Exn A * SessionShared :=
  let '(o, s) := m w.(Shared.runtime) in (o, w <| Shared.runtime := s |>).
Definition rt {A} (m : Run A) : Prog A :=
  Act (on_runtime m) (λ o, match o with Ok a => Ret a | Throw e => Raise e end).
(** A critical section that does not enter the runtime. *)
Definition locked {A} (m : SessionShared → A * SessionShared) : Prog A :=
  Act (λ w, let '(a, w) := m w in (Ok a, w))
    (λ o, match o with Ok a => Ret a | Throw e => Raise e end).
(** The same accesses where the source does not hold [shared.mtx].  The step is
    atomic here, so what a data race makes undefined in the source is not among
    its outcomes. *)
Abbreviation unlocked := locked.
Definition read {A} (f : SessionShared → A) : Prog A := locked (λ w, (f w, w)).
Definition write (f : SessionShared → SessionShared) : Prog () := locked (λ w, ((), f w)).

Definition recv : Prog (option ProtocolMessage) := Recv Ret.
Definition send (m : ProtocolMessage) : Prog bool := Send m Ret.

(** A braced [std::map] of fields. *)
Definition fields_of (l : list (string * string)) : Fields := list_to_map l.
(** [ack.type = type; ack.payload = make_payload(...); sock.send_frame(ack);] *)
Definition reply (type : MessageType) (l : list (string * string)) : Prog () :=
  Send (ProtocolMessage.default <| Msg.type := type |>
          <| Msg.payload := make_payload (fields_of l) |>) (λ _, Ret ()).
