(* ===== verification/Routing.v ===== *)
(** * Command routing

    [WorkerRouter] of session.cpp: the bounded queue a controller's thread puts
    commands on, and the dispatcher that runs them one at a time on the worker's
    socket, with the serving use an EXECUTE is admitted under; then the routes a
    controller's session takes ([find_router], [route_execute], [route_drain]). *)

From S2P Require Import Prelude Identities Enums Model Codec Frame Payload Runtime Threads.
Local Open Scope N_scope.

Section routing.
Context `{Ord : HashOrder}.

(** The router behind a pointer; pointers are never dangling. *)
Definition router_at (r : N) (w : SessionShared) : WorkerRouter :=
  default (Router.make 0 id0 gen0 id0 id0) (w.(Shared.routers) !! r).
Definition set_router (r : N) (f : WorkerRouter → WorkerRouter) (w : SessionShared) : SessionShared :=
  w <| Shared.routers ::= alter f r |>.

(** [promise.set_value(rep)]; an exception for a value already set is caught. *)
Definition set_value (promise : N) (rep : CommandReply) (w : SessionShared) : SessionShared :=
  match w.(Shared.replies) !! promise with
  | Some _ => w
  | None => w <| Shared.replies ::= <[promise := rep]> |>
  end.

(** ** The queue *)

Definition adopt (r : N) (w : SessionShared) : bool * SessionShared :=
  let router := router_at r w in
  if router.(Router.sock_open) || negb router.(Router.alive) then (false, w)
  else (true, set_router r (λ x, x <| Router.sock_open := true |>) w).

(** The future it returns is the promise. *)
Definition enqueue (r : N) (type : MessageType) (command_id epoch authority : N) (params : Fields)
    (w : SessionShared) : N * SessionShared :=
  let p := w.(Shared.next_promise) in
  let w := w <| Shared.next_promise ::= N.succ |> in
  let router := router_at r w in
  if router.(Router.ready) && router.(Router.alive)
     && bool_decide (length router.(Router.queue) < Router.max_queue)%nat then
    let cmd := {| Cmd.type := type; Cmd.command_id := command_id; Cmd.epoch := epoch;
                  Cmd.authority := authority; Cmd.params := params; Cmd.promise := p |} in
    (p, set_router r (λ x, x <| Router.queue ::= λ q, q ++ [cmd] |>) w)
  else (p, set_value p (Rep.failure "router not ready or pending command queue full") w).

(** [fail]: [alive_.store(false)] and the critical section that swaps the queue
    out are one step, since what reads [alive_] in between ([enqueue]) answers
    the same before and after the swap; then the promises of the taken commands
    fail one by one, and the socket closes. *)
Definition kill (r : N) (w : SessionShared) : list WorkerCommand * SessionShared :=
  ((router_at r w).(Router.queue),
   set_router r (λ x, x <| Router.alive := false |> <| Router.queue := [] |>) w).
Fixpoint fail_all (rep : CommandReply) (q : list WorkerCommand) : Prog () :=
  match q with
  | [] => Ret ()
  | c :: q => write (set_value c.(Cmd.promise) rep);; fail_all rep q
  end.
Definition close_socket (r : N) (w : SessionShared) : SessionShared :=
  set_router r (λ x, x <| Router.sock_open := false |>) w.
Definition fail (r : N) (reason : string) : Prog () :=
  q ← locked (kill r);
  fail_all (Rep.failure ("worker failed: " +:+ reason)) q;;
  write (close_socket r).

(** ** The dispatcher *)

(** [epoch != 0 && epoch != shared.runtime.current_epoch().raw()], and of the
    authority. *)
Definition stale_epoch (epoch : N) : Prog bool :=
  if epoch =? 0 then Ret false
  else e ← rt EngineResidency.current_epoch; Ret (negb (epoch =? Generation.raw e)).
Definition stale_authority (authority : N) : Prog bool :=
  if authority =? 0 then Ret false
  else a ← rt EngineResidency.current_authority; Ret (negb (authority =? Generation.raw a)).

(** The error when the command's epoch or authority is not current. *)
Definition check_cycle (epoch authority : N) : Prog (option string) :=
  e ← stale_epoch epoch;
  if e : bool then Ret (Some ("stale epoch: " +:+ to_string epoch)) else
  a ← stale_authority authority;
  if a : bool then Ret (Some ("stale authority: " +:+ to_string authority)) else
  Ret None.

(** The token the coordinator asks with. *)
Definition use_request (inc : EngineIncarnationId) (eid : EngineId) (params : Fields)
    : ServingUseToken :=
  ServingUseToken.default
    <| Tok.incarnation_id := inc |> <| Tok.incarnation_generation := mkGen 1 |>
    <| Tok.engine_id := eid |> <| Tok.engine_generation := mkGen 1 |>
    <| Tok.profile_id := mkId 1 |>
    <| Tok.readiness_generation := mkGen (u params "readiness_gen" 1) |>
    <| Tok.activation_generation := mkGen (u params "activation_gen" 1) |>
    <| Tok.execution_id := mkId (u params "execution_id" 1) |>
    <| Tok.workload_id := mkId (u params "workload_id" 1) |>.
Definition acquire_use_for (router : WorkerRouter) (params : Fields) : Prog (string + ServingUseId) :=
  try_domain
    (got ← rt (EngineResidency.acquire_serving_use
                 (use_request router.(Router.inc) router.(Router.engine_id) params) "coordinator");
     Ret (inr got.(Tok.use_id)))
    (λ _ what, Ret (inl what)).

Definition release_use_for (router : WorkerRouter) (use_id : ServingUseId) (outcome : WorkOutcome.t)
    (detail : string) : Prog () :=
  try_all
    (rt (EngineResidency.release_serving_use
           (ServingUseToken.default <| Tok.use_id := use_id |>
              <| Tok.incarnation_id := router.(Router.inc) |>
              <| Tok.incarnation_generation := mkGen 1 |>) outcome detail))
    (Ret ()).

Definition fulfill (cmd : WorkerCommand) (rep : CommandReply) : Prog () :=
  write (set_value cmd.(Cmd.promise) rep).

(** [incarnation_is_fenced(k) || drain_state(k).admission_fenced] *)
Definition fenced_or_drained (k : EngineIncarnationId) : Prog bool :=
  f ← rt (EngineResidency.incarnation_is_fenced k);
  if f : bool then Ret true else
  st ← rt (EngineResidency.drain_state k); Ret st.(Drn.admission_fenced).

(** The worker's answer as a reply; an answer without [msg] gets the detail. *)
Definition with_msg (rep : CommandReply) : CommandReply :=
  match rep.(Rep.ok), rep.(Rep.fields) !! "msg" with
  | false, None => rep <| Rep.fields ::= <["msg" := rep.(Rep.detail)]> |>
  | _, _ => rep
  end.

Definition forward (cmd : WorkerCommand) (l : list (string * string)) : ProtocolMessage :=
  {| Msg.type := cmd.(Cmd.type); Msg.epoch := cmd.(Cmd.epoch); Msg.authority := cmd.(Cmd.authority);
     Msg.payload := make_payload (fields_of l) |}.

Definition process_execute (r : N) (router : WorkerRouter) (cmd : WorkerCommand) : Prog () :=
  shut ← fenced_or_drained router.(Router.inc);
  if shut : bool then fulfill cmd (Rep.failure "incarnation fenced/drained") else
  acquired ← acquire_use_for router cmd.(Cmd.params);
  match acquired with
  | inl aerr => fulfill cmd (Rep.failure aerr)
  | inr use_id =>
    let p := cmd.(Cmd.params) in
    sent ← send (forward cmd
      [("cmd_id", to_string cmd.(Cmd.command_id)); ("seed", get p "seed" "42");
       ("batch", get p "batch" "1"); ("seq_len", get p "seq_len" "16");
       ("hold_iters", get p "hold_iters" "0"); ("marker", get p "marker" "");
       ("hold_barrier", get p "hold_barrier" "")]);
    if negb sent then
      release_use_for router use_id WorkOutcome.FAILED "worker disconnected during execute";;
      fail r "worker disconnected during execute";;
      fulfill cmd (Rep.failure "worker disconnected during execute")
    else
    resp ← recv;
    match resp with
    | None =>
      release_use_for router use_id WorkOutcome.FAILED "worker read failed during execute";;
      fail r "worker read failed during execute";;
      fulfill cmd (Rep.failure "worker read failed during execute")
    | Some resp =>
      let comp := negb (bool_decide (resp.(Msg.type) = MessageType.ERROR)) in
      release_use_for router use_id (if comp then WorkOutcome.COMPLETED else WorkOutcome.FAILED)
        (if comp then "execute completed" else "worker reported failure");;
      let fields := parse_payload resp.(Msg.payload) in
      fulfill cmd (with_msg (CommandReply.default <| Rep.ok := comp |> <| Rep.fields := fields |>
                              <| Rep.detail := get fields "detail" "execute result" |>))
    end
  end.

(** The cleanup is acknowledged whatever the worker answered. *)
Definition process_drain (r : N) (router : WorkerRouter) (cmd : WorkerCommand) : Prog () :=
  sent ← send (forward cmd
    [("cmd_id", to_string cmd.(Cmd.command_id)); ("marker", get cmd.(Cmd.params) "marker" "")]);
  if negb sent then
    fail r "worker disconnected during drain";;
    fulfill cmd (Rep.failure "worker disconnected during drain")
  else
  resp ← recv;
  match resp with
  | None =>
    fail r "worker read failed during drain";;
    fulfill cmd (Rep.failure "worker read failed during drain")
  | Some resp =>
    aerr ← try_domain
      (rt (EngineResidency.acknowledge_backend_cleanup router.(Router.inc));; Ret "")
      (λ _ what, Ret what);
    st ← rt (EngineResidency.drain_state router.(Router.inc));
    let fields := <["drain_phase" := DrainPhase.to_string st.(Drn.phase)]>
                    (parse_payload resp.(Msg.payload)) in
    fulfill cmd (with_msg (CommandReply.default
      <| Rep.ok := negb (bool_decide (resp.(Msg.type) = MessageType.ERROR)) && String.eqb aerr "" |>
      <| Rep.fields := fields |>
      <| Rep.detail := if String.eqb aerr "" then get fields "detail" "drain complete" else aerr |>))
  end.

Definition process (r : N) (cmd : WorkerCommand) : Prog () :=
  router ← read (router_at r);
  err ← check_cycle cmd.(Cmd.epoch) cmd.(Cmd.authority);
  match err with
  | Some err => fulfill cmd (Rep.failure err)
  | None =>
    match cmd.(Cmd.type) with
    | MessageType.EXECUTE => process_execute r router cmd
    | MessageType.DRAIN => process_drain r router cmd
    | _ => fulfill cmd (Rep.failure "unsupported routed command")
    end
  end.

(** ** The controller's side *)

Definition reply_to_controller (rep : CommandReply) (cmd_id epoch authority : N) : Prog () :=
  let fields := <["cmd_id" := to_string cmd_id]> rep.(Rep.fields) in
  let fields :=
    match rep.(Rep.ok), fields !! "msg" with
    | false, None => <["msg" := rep.(Rep.detail)]> fields
    | _, _ => fields
    end in
  let fields :=
    match fields !! "detail" with
    | None => <["detail" := rep.(Rep.detail)]> fields
    | Some _ => fields
    end in
  _ ← send {| Msg.type := if rep.(Rep.ok) then MessageType.REGISTER_ACK else MessageType.ERROR;
              Msg.epoch := u32 epoch; Msg.authority := u32 authority;
              Msg.payload := make_payload fields |};
  Ret ().

(** The router, or why there is none. *)
Definition find_router (target : EngineIncarnationId) (target_boot : N) : Prog (string + N) :=
  o ← read (λ w, w.(Shared.worker_router) !! target);
  match o with
  | None => Ret (inl "no worker bound to target incarnation")
  | Some r =>
    router ← read (router_at r);
    if negb (target_boot =? 0) && negb (Generation.raw router.(Router.worker_boot) =? target_boot) then
      Ret (inl "worker boot binding mismatch")
    else if negb router.(Router.ready) then Ret (inl "worker is not command-ready")
    else Ret (inr r)
  end.

(** Enqueue, wait 60 seconds for the reply, and pass it on. *)
Definition route_command (type : MessageType) (timeout : string) (r : N) (f : Fields)
    (epoch authority : N) : Prog () :=
  let cmd_id := u f "cmd_id" 0 in
  fut ← locked (enqueue r type cmd_id epoch authority f);
  status ← Await fut Ret;
  match status with
  | None => reply_to_controller (CommandReply.default <| Rep.detail := timeout |>) cmd_id epoch authority
  | Some rep => reply_to_controller rep cmd_id epoch authority
  end.

Definition route_execute (f : Fields) (epoch authority : N) (target : EngineIncarnationId)
    (target_boot : N) : Prog () :=
  found ← find_router target target_boot;
  match found with
  | inl why => reply_to_controller (Rep.failure why) (u f "cmd_id" 0) epoch authority
  | inr r => route_command MessageType.EXECUTE "execute timed out awaiting worker" r f epoch authority
  end.

Definition route_drain (f : Fields) (epoch authority : N) (target : EngineIncarnationId)
    (target_boot : N) : Prog () :=
  found ← find_router target target_boot;
  match found with
  | inl why => reply_to_controller (Rep.failure why) (u f "cmd_id" 0) epoch authority
  | inr r =>
    refused ← try_domain
      (fenced ← rt (EngineResidency.incarnation_is_fenced target);
       (if fenced : bool then Raise (DomainError FencedWorker "fenced incarnation")
        else rt (EngineResidency.request_drain target));;
       Ret None)
      (λ _ what, Ret (Some what));
    match refused with
    | Some what => reply_to_controller (Rep.failure what) (u f "cmd_id" 0) epoch authority
    | None => route_command MessageType.DRAIN "drain timed out awaiting worker" r f epoch authority
    end
  end.
End routing.
