(* ===== verification/Sessions.v ===== *)
(** * Sessions

    [run_session] of the coordinator: one handler per message type, the
    session's loop, the dispatcher it turns into, and its cleanup. *)

From stdpp Require Import pretty.
From S2P Require Import Prelude Identities Enums Model Reference Codec Frame Payload Readiness.
From S2P Require Import Runtime Helpers Loading Transitions Recovery Threads Routing.
Local Open Scope N_scope.

Section handlers.
Context `{Ord : HashOrder}.

(** [seed_reference_engine] *)
Definition seed_reference_engine : Run ReadinessProfileId :=
  EngineResidency.define_engine reference_definition;;
  EngineResidency.define_profile reference_profile;;
  mret reference_profile.(Prof.profile_id).

(** ** Replies *)

Definition error_reply (code : ErrorCode) (msg : string) : Prog () :=
  reply MessageType.ERROR [("code", to_string (ErrorCode_to_int code)); ("msg", msg)].
(** [try { ... } catch (const DomainError& e) { ... }] around a handler. *)
Definition guarded (p : Prog ()) : Prog () := try_domain p error_reply.
Definition refuse {A} (code : ErrorCode) (msg : string) : Prog A := Raise (DomainError code msg).

(** [u(f, key, 0) != 0 ? id(u(f, key, 0)) : inc_id] *)
Definition target_of (f : Fields) (key : string) (inc_id : EngineIncarnationId) : EngineIncarnationId :=
  if u f key 0 =? 0 then inc_id else mkId (u f key 0).
(** The check most handlers start with. *)
Definition require_open (target : EngineIncarnationId) : Prog () :=
  shut ← fenced_or_drained target;
  if shut : bool then refuse FencedWorker "fenced/drained incarnation" else Ret ().

(** ** Handlers *)

Definition on_hello (msg : ProtocolMessage) : Prog () :=
  e ← rt EngineResidency.current_epoch;
  a ← rt EngineResidency.current_authority;
  Send {| Msg.type := MessageType.REGISTER_ACK; Msg.epoch := msg.(Msg.epoch);
          Msg.authority := msg.(Msg.authority);
          Msg.payload := make_payload (fields_of
            [("ok", "true"); ("epoch", to_string (Generation.raw e));
             ("authority", to_string (Generation.raw a))]) |} (λ _, Ret ()).

(** The incarnation a worker registers. *)
Definition incarnation_of (f : Fields) : EngineIncarnation :=
  EngineIncarnation.default
    <| Inc.engine_id := mkId 1 |> <| Inc.engine_generation := mkGen 1 |>
    <| Inc.config_generation := mkGen 1 |>
    <| Inc.worker_id := mkId (u f "worker_id" 1) |> <| Inc.worker_boot := mkGen (u f "worker_boot" 1) |>
    <| Inc.source_id := mkId (u f "source_id" 1) |> <| Inc.source_boot := mkGen (u f "source_boot" 1) |>
    <| Inc.process := {| pid := u32 (u f "pid" 0); start_seconds := 0; label := get f "label" "worker" |} |>
    <| Inc.backend_id := mkId 1 |> <| Inc.backend_generation := mkGen 1 |>.

(** [make_shared<WorkerRouter>] and the registration of the session. *)
Definition bind_session (sid : N) (f : Fields) (inc : EngineIncarnation) (w : SessionShared)
    : SessionShared :=
  let k := inc.(Inc.incarnation_id) in
  let wid := mkId (u f "worker_id" 1) in
  let boot := mkGen (u f "worker_boot" 1) in
  let r := w.(Shared.next_router) in
  w <| Shared.next_router ::= N.succ |>
    <| Shared.routers ::= <[r := Router.make sid wid boot k inc.(Inc.engine_id)]> |>
    <| Shared.session_inc ::= <[sid := k]> |>
    <| Shared.session_owner ::= <[sid := get f "label" "worker"]> |>
    <| Shared.worker_router ::= <[k := r]> |>
    <| Shared.boot_to_inc ::= <[(id_raw wid, gen_raw boot) := k]> |>.

(** The session goes on under the identity registered, if any. *)
Definition on_register (sid : N) (inc_id : EngineIncarnationId) (f : Fields) : Prog EngineIncarnationId :=
  try_domain
    (permit ← rt (EngineResidency.issue_registration_permit
       (mkId (u f "worker_id" 1)) (mkGen (u f "worker_boot" 1))
       (mkId (u f "source_id" 1)) (mkGen (u f "source_boot" 1)));
     registered ← rt (EngineResidency.register_incarnation (incarnation_of f) permit);
     write (bind_session sid f registered);;
     e ← rt EngineResidency.current_epoch;
     a ← rt EngineResidency.current_authority;
     reply MessageType.REGISTER_ACK
       [("ok", "true"); ("incarnation_id", to_string (Identity.raw registered.(Inc.incarnation_id)));
        ("incarnation_generation", to_string (Generation.raw registered.(Inc.incarnation_generation)));
        ("readiness_gen", to_string (Generation.raw registered.(Inc.readiness_generation)));
        ("epoch", to_string (Generation.raw e)); ("authority", to_string (Generation.raw a))];;
     Ret registered.(Inc.incarnation_id))
    (λ code what, error_reply code what;; Ret inc_id).

(** [shared.session_inc[sid]], which inserts a default identity.  PUBLISH_COMPONENT
    evaluates it without [shared.mtx], under which REGISTER and the end of a
    session write the same map: a data race in the source (its behaviour is
    undefined when two sessions meet there), and here one atomic step. *)
Definition session_inc_at (sid : N) (w : SessionShared) : EngineIncarnationId * SessionShared :=
  match w.(Shared.session_inc) !! sid with
  | Some k => (k, w)
  | None => (id0, w <| Shared.session_inc ::= <[sid := id0]> |>)
  end.

(** [(E)(int)n]: the cast keeps the low 32 bits. *)
Definition enum_cast `{Enum E} (d : E) (n : N) : E := default d (enum_of_int (u32 n)).

Definition evidence_from (f : Fields) (target : EngineIncarnationId) (epoch : CoordinatorEpoch)
    : ComponentEvidence :=
  ComponentEvidence.default
    <| Ev.incarnation_id := target |>
    <| Ev.engine_id := mkId 1 |> <| Ev.engine_generation := mkGen 1 |>
    <| Ev.category := enum_cast ComponentCategory.BACKEND (u f "category" 0) |>
    <| Ev.state := enum_cast ComponentState.UNKNOWN (u f "state" 0) |>
    <| Ev.subject := get f "subject" "" |> <| Ev.namespace_ := get f "ns" "er" |>
    <| Ev.provenance := enum_cast Provenance.UNKNOWN (u f "provenance" 0) |>
    <| Ev.detail := get f "detail" "" |>
    <| Ev.model_generation := mkGen (u f "model_gen" 1) |>
    <| Ev.kv_capacity_generation := mkGen (u f "kv_gen" 1) |>
    <| Ev.kernel_generation := mkGen (u f "kernel_gen" 1) |>
    <| Ev.graph_generation := mkGen (u f "graph_gen" 1) |>
    <| Ev.compatibility := Key.with_namespace (get f "compat" "ref/v1") |>
    <| Ev.size_bytes := u f "size_bytes" 0 |> <| Ev.elapsed_ns := u f "elapsed_ns" 0 |>
    <| Ev.coordinator_epoch := epoch |>.

Definition on_publish_component (sid : N) (f : Fields) : Prog () :=
  guarded
    (bound ← unlocked (session_inc_at sid);
     let target := target_of f "incarnation_id" bound in
     require_open target;;
     epoch ← rt EngineResidency.current_epoch;
     pub ← rt (EngineResidency.publish_component (evidence_from f target epoch));
     reply MessageType.PREPARE_RESULT
       [("ok", "true"); ("evidence_id", to_string (Identity.raw pub.(Ev.evidence_id)))]).

(** [for (i = 0; i < n; ++i) a = step_preparation(a.attempt_id);] *)
Fixpoint step_times (n : nat) (a : PreparationAttempt) : Prog PreparationAttempt :=
  match n with
  | O => Ret a
  | S n => a ← rt (EngineResidency.step_preparation a.(Att.attempt_id)); step_times n a
  end.

Definition on_prepare (inc_id : EngineIncarnationId) : Prog () :=
  guarded
    (plan ← rt (EngineResidency.create_preparation_plan inc_id (mkId 1) DesiredResidency.WARM);
     a ← rt (EngineResidency.begin_preparation plan);
     a ← step_times (length plan.(Plan.steps) + 1) a;
     finished ← rt (EngineResidency.complete_preparation a.(Att.attempt_id));
     reply MessageType.PREPARE_RESULT
       [("ok", "true"); ("preparation", PreparationState.to_string finished.(Att.state))]).

(** The labels joined by commas. *)
Definition joined (l : list string) : string :=
  foldl (λ x m, if String.eqb x "" then m else x +:+ "," +:+ m) "" l.

Definition on_query_readiness (inc_id : EngineIncarnationId) (f : Fields) : Prog () :=
  guarded
    (let target := target_of f "incarnation_id" inc_id in
     require_open target;;
     rr ← rt (EngineResidency.evaluate_readiness target (mkId 1));
     reply MessageType.PREPARE_RESULT
       [("outcome", ReadinessOutcome.to_string rr.(Res.outcome));
        ("missing", joined (rr.(Res.missing) ++ rr.(Res.incompatible)))]).

Definition on_activate (inc_id : EngineIncarnationId) (f : Fields) : Prog () :=
  guarded
    (let target := target_of f "incarnation_id" inc_id in
     require_open target;;
     let rgen := u f "readiness_gen" 0 in
     readiness ← (if negb (rgen =? 0) then Ret (mkGen rgen)
                  else rt (EngineResidency.current_readiness_generation target));
     authority ← rt EngineResidency.current_authority;
     rec ← rt (EngineResidency.activate (ActivationRequest.default
       <| ActReq.incarnation_id := target |> <| ActReq.incarnation_generation := mkGen 1 |>
       <| ActReq.engine_id := mkId 1 |> <| ActReq.engine_generation := mkGen 1 |>
       <| ActReq.profile_id := mkId 1 |> <| ActReq.profile_generation := mkGen 1 |>
       <| ActReq.readiness_generation := readiness |>
       <| ActReq.standby_generation := mkGen 1 |>
       <| ActReq.caller_authority := authority |>
       <| ActReq.slot_id := mkId (u f "slot_id" 1) |>
       <| ActReq.caller := get f "caller" "controller" |>));
     reply MessageType.REGISTER_ACK
       [("ok", "true"); ("activation_id", to_string (Identity.raw rec.(Act.activation_id)));
        ("state", ActivationState.to_string rec.(Act.state))]).

Definition on_acquire_use (sid : N) (inc_id : EngineIncarnationId) (f : Fields) : Prog () :=
  guarded
    (let target := target_of f "incarnation_id" inc_id in
     require_open target;;
     acquired ← rt (EngineResidency.acquire_serving_use (use_request target (mkId 1) f)
                      (get f "caller" "controller"));
     write (λ w, w <| Shared.session_use ::= <[sid := acquired.(Tok.use_id)]> |>);;
     reply MessageType.REGISTER_ACK
       [("ok", "true"); ("use_id", to_string (Identity.raw acquired.(Tok.use_id)))]).

Definition on_release_use (inc_id : EngineIncarnationId) (f : Fields) : Prog () :=
  guarded
    (let target := target_of f "incarnation_id" inc_id in
     require_open target;;
     rt (EngineResidency.release_serving_use
           (ServingUseToken.default <| Tok.use_id := mkId (u f "use_id" 0) |>
              <| Tok.incarnation_id := target |> <| Tok.incarnation_generation := mkGen 1 |>)
           WorkOutcome.COMPLETED (get f "detail" "released"));;
     reply MessageType.REGISTER_ACK [("ok", "true")]).

Definition on_drain (inc_id : EngineIncarnationId) (msg : ProtocolMessage) (f : Fields) : Prog () :=
  if negb (u f "target_incarnation" 0 =? 0) then
    route_drain f msg.(Msg.epoch) msg.(Msg.authority) (target_of f "target_incarnation" inc_id)
      (u f "target_worker_boot" 0)
  else
    guarded (rt (EngineResidency.request_drain inc_id);;
             reply MessageType.DRAIN_RESULT [("ok", "true")]).

Definition on_execute (inc_id : EngineIncarnationId) (msg : ProtocolMessage) (f : Fields) : Prog () :=
  if negb (u f "target_incarnation" 0 =? 0) then
    route_execute f msg.(Msg.epoch) msg.(Msg.authority) (target_of f "target_incarnation" inc_id)
      (u f "target_worker_boot" 0)
  else error_reply InvalidArgument "execute requires a target_incarnation".

Definition on_replace (f : Fields) : Prog () :=
  guarded
    (let action := get f "replacement_action" "" in
     if String.eqb action "begin" then
       epoch ← rt EngineResidency.current_epoch;
       authority ← rt EngineResidency.current_authority;
       ret ← rt (EngineResidency.begin_replacement (ReplacementPlan.default
         <| Repl.engine_id := mkId 1 |> <| Repl.engine_generation := mkGen 1 |>
         <| Repl.old_incarnation := mkId (u f "old_incarnation" 0) |>
         <| Repl.old_incarnation_generation := mkGen 1 |>
         <| Repl.candidate_incarnation := mkId (u f "candidate_incarnation" 0) |>
         <| Repl.candidate_incarnation_generation := mkGen 1 |>
         <| Repl.epoch := epoch |> <| Repl.authority := authority |>
         <| Repl.make_before_break := negb (u f "make_before_break" 1 =? 0) |>));
       reply MessageType.REGISTER_ACK
         [("ok", "true"); ("replacement_id", to_string (Identity.raw ret.(Repl.replacement_id)));
          ("phase", ReplacementPhase.to_string ret.(Repl.phase))]
     else if String.eqb action "commit" then
       ret ← rt (EngineResidency.commit_cutover (mkId (u f "replacement_id" 0)));
       reply MessageType.REGISTER_ACK
         [("ok", "true"); ("phase", ReplacementPhase.to_string ret.(Repl.phase))]
     else if String.eqb action "retire" then
       ret ← rt (EngineResidency.retire_old (mkId (u f "replacement_id" 0)));
       reply MessageType.REGISTER_ACK
         [("ok", "true"); ("phase", ReplacementPhase.to_string ret.(Repl.phase))]
     else refuse InvalidArgument "unknown replacement_action").

Definition on_fence_worker (f : Fields) : Prog () :=
  guarded
    (rt (EngineResidency.fence_worker (mkId (u f "worker_id" 1)) (mkGen (u f "worker_boot" 1))
           (get f "reason" "fenced"));;
     reply MessageType.REGISTER_ACK [("ok", "true")]).

(** Whether the file could be opened makes no difference to the reply. *)
Definition on_save (f : Fields) : Prog () :=
  guarded
    (blob ← rt serialize;
     WriteFile (get f "path" "er-state.bin") blob (λ _,
       reply MessageType.REGISTER_ACK [("ok", "true"); ("bytes", to_string (size_of blob))])).

Definition on_execution_result (inc_id : EngineIncarnationId) (f : Fields) : Prog () :=
  guarded
    (require_open (target_of f "incarnation_id" inc_id);;
     reply MessageType.REGISTER_ACK [("ok", "true")]).

Definition on_query_drain (inc_id : EngineIncarnationId) (f : Fields) : Prog () :=
  guarded
    (st ← rt (EngineResidency.drain_state (target_of f "incarnation_id" inc_id));
     total ← rt EngineResidency.active_use_count;
     reply MessageType.REGISTER_ACK
       [("ok", "true"); ("drain_phase", DrainPhase.to_string st.(Drn.phase));
        ("active_use", to_string st.(Drn.active_use));
        ("admission_fenced", if st.(Drn.admission_fenced) then "1" else "0");
        ("backend_cleanup_ack", if st.(Drn.backend_cleanup_ack) then "1" else "0");
        ("total_active_use", pretty total)]).

(** ** The loops

    What a thread does next: the head of the session's loop, or of the
    dispatcher's loop a command-ready session turns into. *)

Inductive Mode :=
  | AtSession (sid : N) (inc_id : EngineIncarnationId)
  | AtDispatcher (sid : N) (inc_id : EngineIncarnationId) (router : N)
  | Finished.

(** The end of [run_session]. *)
Definition forget_session (sid : N) (inc_id : EngineIncarnationId) (w : SessionShared) : SessionShared :=
  let w := w <| Shared.session_inc ::= delete sid |> <| Shared.session_owner ::= delete sid |>
             <| Shared.session_use ::= delete sid |> in
  match w.(Shared.worker_router) !! inc_id with
  | None => w
  | Some r =>
    let router := router_at r w in
    if router.(Router.session_id) =? sid then
      w <| Shared.boot_to_inc ::=
            delete (Identity.raw router.(Router.worker_id), Generation.raw router.(Router.worker_boot)) |>
        <| Shared.worker_router ::= delete inc_id |>
    else w
  end.
Definition end_session (sid : N) (inc_id : EngineIncarnationId) : Prog Mode :=
  write (forget_session sid inc_id);; Ret Finished.

(** The router the session's worker registered. *)
Definition session_router (sid : N) (w : SessionShared) : option N :=
  k ← w.(Shared.session_inc) !! sid; w.(Shared.worker_router) !! k.

(** After a failed [adopt] the socket is gone, so the loop's next [recv_frame]
    ends the session; a dead router's [run] returns at once. *)
Definition on_command_ready (sid : N) (inc_id : EngineIncarnationId) : Prog Mode :=
  o ← read (session_router sid);
  match o with
  | None =>
    error_reply InvalidState "no worker router for this session";; Ret (AtSession sid inc_id)
  | Some r =>
    router ← read (router_at r);
    reply MessageType.REGISTER_ACK
      [("ok", "true"); ("command_ready", "true");
       ("incarnation_id", to_string (Identity.raw router.(Router.inc)))];;
    adopted ← locked (adopt r);
    if negb adopted then end_session sid inc_id
    else
      running ← locked (λ w,
        if (router_at r w).(Router.alive) then (true, set_router r (λ x, x <| Router.ready := true |>) w)
        else (false, w));
      if running : bool then Ret (AtDispatcher sid inc_id r) else end_session sid inc_id
  end.

Definition dispatch (sid : N) (inc_id : EngineIncarnationId) (msg : ProtocolMessage) : Prog Mode :=
  let f := parse_payload msg.(Msg.payload) in
  let continue_with (p : Prog ()) : Prog Mode := p;; Ret (AtSession sid inc_id) in
  match msg.(Msg.type) with
  | MessageType.HELLO => continue_with (on_hello msg)
  | MessageType.REGISTER => k ← on_register sid inc_id f; Ret (AtSession sid k)
  | MessageType.PUBLISH_COMPONENT => continue_with (on_publish_component sid f)
  | MessageType.PREPARE => continue_with (on_prepare inc_id)
  | MessageType.QUERY_READINESS => continue_with (on_query_readiness inc_id f)
  | MessageType.ACTIVATE => continue_with (on_activate inc_id f)
  | MessageType.ACQUIRE_USE => continue_with (on_acquire_use sid inc_id f)
  | MessageType.RELEASE_USE => continue_with (on_release_use inc_id f)
  | MessageType.DRAIN => continue_with (on_drain inc_id msg f)
  | MessageType.EXECUTE => continue_with (on_execute inc_id msg f)
  | MessageType.REPLACE => continue_with (on_replace f)
  | MessageType.FENCE_WORKER => continue_with (on_fence_worker f)
  | MessageType.SAVE => continue_with (on_save f)
  | MessageType.EXECUTION_RESULT => continue_with (on_execution_result inc_id f)
  | MessageType.COMMAND_READY => on_command_ready sid inc_id
  | MessageType.QUERY_DRAIN => continue_with (on_query_drain inc_id f)
  | MessageType.SHUTDOWN =>
    reply MessageType.REGISTER_ACK [("ok", "true")];; end_session sid inc_id
  | _ => continue_with (reply MessageType.ERROR [("code", "1"); ("msg", "unhandled message")])
  end.

(** A message, behind the epoch check. *)
Definition handle (sid : N) (inc_id : EngineIncarnationId) (msg : ProtocolMessage) : Prog Mode :=
  stale ← stale_epoch msg.(Msg.epoch);
  if stale : bool then
    error_reply StaleEpoch "stale epoch traffic";; Ret (AtSession sid inc_id)
  else dispatch sid inc_id msg.

Definition session_step (sid : N) (inc_id : EngineIncarnationId) : Prog Mode :=
  om ← recv;
  match om with
  | None => end_session sid inc_id
  | Some msg => handle sid inc_id msg
  end.

(** [WorkerRouter::run], then the rest of the session. *)
Definition dispatcher_step (sid : N) (inc_id : EngineIncarnationId) (r : N) : Prog Mode :=
  alive ← read (λ w, (router_at r w).(Router.alive));
  oc ← (if alive : bool then Dequeue r Ret else Ret None);
  match oc with
  | Some cmd => process r cmd;; Ret (AtDispatcher sid inc_id r)
  | None => fail r "worker session ended";; end_session sid inc_id
  end.

Definition resume (m : Mode) : Prog Mode :=
  match m with
  | AtSession sid inc_id => session_step sid inc_id
  | AtDispatcher sid inc_id r => dispatcher_step sid inc_id r
  | Finished => Ret Finished
  end.

(** A new connection. *)
Definition start_session : Prog Mode :=
  sid ← locked (λ w, (w.(Shared.next_session), w <| Shared.next_session ::= λ n, u64 (n + 1) |>));
  Ret (AtSession sid id0).
End handlers.
