(* ===== verification/Replies.v ===== *)
(** * Replies

    How many frames a session's handlers send, whatever the other threads do
    between two of their steps: every message gets exactly one answer, and no
    handler reads from the connection while it handles one. *)

From S2P Require Import Prelude Identities Enums Model Codec Frame Payload Runtime.
From S2P Require Import Threads Routing Sessions.
Local Open Scope N_scope.

(** From any shared state at each atomic step, any result of a send, of a wait
    and of opening a file, [p] reads no frame and dequeues no command; having
    sent [n] frames before, it has sent a number of them that [Q] allows when
    it returns, and that [X] allows when it throws. *)
Fixpoint counts {A} (p : Prog A) (Q : nat → A → Prop) (X : nat → Exn → Prop) (n : nat) : Prop :=
  match p with
  | Ret a => Q n a
  | Raise e => X n e
  | Act m k => ∀ w, counts (k (m w).1) Q X n
  | Send _ k => ∀ b, counts (k b) Q X (S n)
  | Await _ k => ∀ r, counts (k r) Q X n
  | WriteFile _ _ k => ∀ b, counts (k b) Q X n
  | Recv _ | Dequeue _ _ => False
  end.

Section counts.
Context {A : Type}.
Implicit Types (Q : nat → A → Prop) (X : nat → Exn → Prop).

Lemma counts_bind {B} (p : Prog B) (f : B → Prog A) Q X n :
  counts p (λ n b, counts (f b) Q X n) X n → counts (p ≫= f) Q X n.
Proof.
  revert n. induction p as [a|e|B' m k IH|k IH|msg k IH|q k IH|r k IH|path blob k IH]; intros n;
    cbn [mbind Prog_bind counts]; try done; intros Hp x; apply IH, Hp.
Qed.
Lemma counts_mono (p : Prog A) Q Q' X X' n :
  (∀ n a, Q n a → Q' n a) → (∀ n e, X n e → X' n e) → counts p Q X n → counts p Q' X' n.
Proof.
  intros HQ HX. revert n. induction p as [a|e|B' m k IH|k IH|msg k IH|q k IH|r k IH|path blob k IH]; intros n;
    cbn [counts]; auto.
Qed.
Lemma counts_try_domain (p : Prog A) h Q X n :
  counts p Q (λ n e, match e with
    | DomainError code what => counts (h code what) Q X n
    | StdOutOfRange => X n StdOutOfRange
    end) n →
  counts (try_domain p h) Q X n.
Proof.
  rw /try_domain.
  revert n. induction p as [a|e|B' m k IH|k IH|msg k IH|q k IH|r k IH|path blob k IH]; intros n;
    cbn [try_with counts]; try done; try (intros Hp x; apply IH, Hp).
  by destruct e.
Qed.
Lemma counts_rt (m : Run A) Q X n :
  (∀ a, Q n a) → (∀ e, X n e) → counts (rt m) Q X n.
Proof. intros HQ HX w. rw /on_runtime. destruct (m _) as [[a|e] s]; [apply HQ|apply HX]. Qed.
Lemma counts_locked (m : SessionShared → A * SessionShared) Q X n :
  (∀ a, Q n a) → counts (locked m) Q X n.
Proof. intros HQ w. destruct (m w) as [a w']. apply HQ. Qed.
Lemma counts_query (f : Impl.t → A) Q X n : (∀ a, Q n a) → counts (rt (gets f)) Q X n.
Proof. intros HQ w. apply HQ. Qed.
End counts.
Lemma counts_write f (Q : nat → () → Prop) X n : Q n () → counts (write f) Q X n.
Proof. intros HQ. by apply counts_locked; intros []. Qed.

(** ** Handlers *)

(** One answer and a return, or none and the exception nobody catches. *)
Definition one {A} (n : nat) (_ : A) : Prop := n = 1%nat.
Definition lost (n : nat) (e : Exn) : Prop := n = 0%nat ∧ e = StdOutOfRange.
Definition none {A} (n : nat) (_ : A) : Prop := n = 0%nat.

(** A handler's body: an answer at the end, exceptions before it. *)
Lemma counts_guarded p : counts p one none 0 → counts (guarded p) one lost 0.
Proof.
  intros Hp. apply counts_try_domain. eapply counts_mono; [done| |exact Hp].
  intros n [code what|] ->; [by intros b|done].
Qed.
Lemma counts_continue (p : Prog ()) (m : Mode) : counts p one lost 0 → counts (p;; Ret m) one lost 0.
Proof. intros Hp. apply counts_bind. eapply counts_mono; [|done|exact Hp]. by intros n []. Qed.
Lemma counts_rt_then {A B} (m : Run A) (f : A → Prog B) :
  (∀ a, counts (f a) one none 0) → counts (rt m ≫= f) one none 0.
Proof. intros Hf. by apply counts_bind, counts_rt. Qed.
Lemma counts_require_open {B} target (f : () → Prog B) :
  (∀ a, counts (f a) one none 0) → counts (require_open target ≫= f) one none 0.
Proof.
  intros Hf. apply counts_bind, counts_bind, counts_bind, counts_rt; [|done].
  intros []; [done|]. apply counts_bind, counts_rt; [|done]. intros st.
  destruct (Drn.admission_fenced st); [done|]. apply Hf.
Qed.

Ltac counts_body :=
  repeat first
    [ progress intros
    | apply counts_require_open
    | apply counts_rt_then
    | match goal with |- counts (match ?x with _ => _ end) _ _ _ => destruct x end
    | match goal with |- counts (refuse _ _) _ _ _ => exact eq_refl end
    | match goal with |- counts (reply _ _) _ _ _ => intros ?; exact eq_refl end ].

Section handlers.
Context `{Ord : HashOrder}.

Lemma counts_publish sid f : counts (on_publish_component sid f) one lost 0.
Proof.
  apply counts_guarded, counts_bind, counts_locked. intros bound. counts_body.
Qed.
Lemma counts_step_times {A} m a (f : PreparationAttempt → Prog A) :
  (∀ a, counts (f a) one none 0) → counts (step_times m a ≫= f) one none 0.
Proof.
  intros Hf. apply counts_bind. revert a. induction m as [|m IH]; intros a; [apply Hf|].
  apply counts_bind, counts_rt; [|done]. apply IH.
Qed.
Lemma counts_prepare k : counts (on_prepare k) one lost 0.
Proof.
  apply counts_guarded. do 2 (apply counts_rt_then; intros). apply counts_step_times. counts_body.
Qed.
Lemma counts_activate k f : counts (on_activate k f) one lost 0.
Proof.
  apply counts_guarded, counts_require_open. intros _. apply counts_bind.
  destruct (negb _); [|apply counts_rt; [|done]]; intros; counts_body.
Qed.
Lemma counts_acquire sid k f : counts (on_acquire_use sid k f) one lost 0.
Proof.
  apply counts_guarded, counts_require_open. intros _. apply counts_rt_then. intros a.
  apply counts_bind, counts_write. counts_body.
Qed.
Lemma counts_save f : counts (on_save f) one lost 0.
Proof. apply counts_guarded, counts_rt_then. intros blob b. by intros b'. Qed.
Lemma counts_replace f : counts (on_replace f) one lost 0.
Proof. apply counts_guarded. rw /on_replace. counts_body. Qed.
Lemma counts_reply_to_controller rep i e a : counts (reply_to_controller rep i e a) one lost 0.
Proof. by intros b. Qed.
Lemma counts_route_command ty t r f e a : counts (route_command ty t r f e a) one lost 0.
Proof.
  apply counts_bind, counts_locked. intros fut. apply counts_bind. intros status. cbn [counts].
  destruct status; apply counts_reply_to_controller.
Qed.
Lemma counts_find_router {A} target boot (f : string + N → Prog A) Q X :
  (∀ x, counts (f x) Q X 0) → counts (find_router target boot ≫= f) Q X 0.
Proof.
  intros Hf. apply counts_bind, counts_bind, counts_locked. intros [r|]; [|apply Hf].
  apply counts_bind, counts_locked. intros router. destruct (_ && _); [apply Hf|].
  destruct (negb _); apply Hf.
Qed.
Lemma counts_execute k msg f : counts (on_execute k msg f) one lost 0.
Proof.
  rw /on_execute. destruct (negb _); [|by intros b]. apply counts_find_router. intros [why|r].
  - apply counts_reply_to_controller.
  - apply counts_route_command.
Qed.
Lemma counts_drain k msg f : counts (on_drain k msg f) one lost 0.
Proof.
  rw /on_drain. destruct (negb _); [|apply counts_guarded; counts_body].
  apply counts_find_router. intros [why|r]; [apply counts_reply_to_controller|].
  apply counts_bind, counts_try_domain.
  assert (∀ refused, counts (match refused with
    | Some what => reply_to_controller (Rep.failure what) (u f "cmd_id" 0) (Msg.epoch msg) (Msg.authority msg)
    | None => route_command MessageType.DRAIN "drain timed out awaiting worker" r f (Msg.epoch msg)
                (Msg.authority msg)
    end) one lost 0) as Hrest.
  { intros [what|]; [apply counts_reply_to_controller|apply counts_route_command]. }
  assert (∀ e, match e with
    | DomainError code what => counts (Ret (Some what)) (λ n refused, counts (match refused with
    | Some what => reply_to_controller (Rep.failure what) (u f "cmd_id" 0) (Msg.epoch msg) (Msg.authority msg)
    | None => route_command MessageType.DRAIN "drain timed out awaiting worker" r f (Msg.epoch msg)
                (Msg.authority msg)
    end) one lost n) lost 0
    | StdOutOfRange => lost 0 StdOutOfRange end) as Hexn by (intros [code what|]; [apply Hrest|done]).
  apply counts_bind, counts_rt; [|exact Hexn]. intros fenced. apply counts_bind.
  destruct fenced; [exact (Hexn (DomainError FencedWorker _))|]. apply counts_rt; [|exact Hexn]. intros []. apply Hrest.
Qed.
Lemma counts_register sid k f (g : EngineIncarnationId → Mode) :
  counts (k ← on_register sid k f; Ret (g k)) one lost 0.
Proof.
  apply counts_bind, counts_try_domain.
  assert (∀ e, match e with
    | DomainError code what => counts (error_reply code what;; Ret k) (λ n k, counts (Ret (g k)) one lost n) lost 0
    | StdOutOfRange => lost 0 StdOutOfRange end) as Hexn by (intros [code what|]; [by intros b|done]).
  apply counts_bind, counts_rt; [|exact Hexn]. intros permit.
  apply counts_bind, counts_rt; [|exact Hexn]. intros registered.
  apply counts_bind, counts_write. do 2 (apply counts_bind, counts_query; intros ?). by intros b.
Qed.
Lemma counts_command_ready sid k : counts (on_command_ready sid k) one lost 0.
Proof.
  apply counts_bind, counts_locked. intros [r|]; [|by intros b].
  apply counts_bind, counts_locked. intros router. apply counts_bind. intros b.
  apply counts_bind, counts_locked. intros adopted. destruct (negb adopted); [by intros w|].
  apply counts_bind, counts_locked. intros running. destruct running; [done|]. by intros w.
Qed.

Lemma counts_dispatch sid k msg : counts (dispatch sid k msg) one lost 0.
Proof.
  rw /dispatch. destruct (Msg.type msg);
    try (apply counts_continue);
    auto using counts_publish, counts_prepare, counts_activate, counts_acquire, counts_save,
      counts_replace, counts_execute, counts_drain, counts_register, counts_command_ready;
    try (by intros b); try (apply counts_guarded; counts_body).
Qed.

(** C35. Every message is answered exactly once: whatever a session receives,
    and whatever the other threads do to the shared state between two of its
    steps, the handler sends exactly one frame back and reads none before the
    session or the dispatcher goes on; the one exception is an uncaught
    [std::out_of_range], which ends the process with nothing sent. *)
Theorem one_answer_per_message sid k msg :
  counts (handle sid k msg) (λ n _, n = 1%nat) (λ n e, n = 0%nat ∧ e = StdOutOfRange) 0.
Proof.
  pose proof (counts_dispatch sid k msg) as Hdispatch.
  apply counts_bind. rw /stale_epoch. destruct (_ =? 0); [exact Hdispatch|].
  apply counts_bind, counts_query. intros e. cbn [counts].
  destruct (negb _); [by intros b|exact Hdispatch].
Qed.
End handlers.
