(* ===== verification/System.v ===== *)
(** * The coordinator as a system

    Interleaved execution of the coordinator's threads, what every atomic step
    of every handler may do to the shared state, and the runtime as seen
    through it. *)

From S2P Require Import Prelude Identities Enums Model Reference Codec Frame Payload Readiness.
From S2P Require Import Economics Standby Runtime Transitions Scenario Helpers Tables Incarnations.
From S2P Require Import Persistence Loading Recovery Threads Routing Sessions.
Local Open Scope N_scope.

(** ** Interleaving *)

(** One step of a thread: whatever the network, the timers and the file
    system answer. *)
Inductive prog_step {A} : SessionShared → Prog A → SessionShared → Prog A → Prop :=
  | step_act {B} (m : SessionShared → Outcome Exn B * SessionShared) k w o w' :
    m w = (o, w') → prog_step w (Act m k) w' (k o)
  | step_recv k w om : prog_step w (Recv k) w (k om)
  | step_send msg k w b : prog_step w (Send msg k) w (k b)
  | step_timeout p k w : prog_step w (Await p k) w (k None)
  | step_reply p k w rep :
    w.(Shared.replies) !! p = Some rep → prog_step w (Await p k) w (k (Some rep))
  | step_dequeue r k w cmd q :
    (router_at r w).(Router.queue) = cmd :: q →
    prog_step w (Dequeue r k) (set_router r (λ x, x <| Router.queue := q |>) w) (k (Some cmd))
  | step_dead r k w :
    (router_at r w).(Router.queue) = [] → (router_at r w).(Router.alive) = false →
    prog_step w (Dequeue r k) w (k None)
  | step_write path blob k w b : prog_step w (WriteFile path blob k) w (k b).

Module Coordinator.
Record t := mk {
  shared : SessionShared.t;
  threads : gmap N (Prog Mode);
}.
End Coordinator.
Abbreviation Coordinator := Coordinator.t.

Inductive sys_step : Coordinator → Coordinator → Prop :=
  (** a thread takes its next step *)
  | sys_thread t p p' w w' ts :
    ts !! t = Some p → prog_step w p w' p' →
    sys_step (Coordinator.mk w ts) (Coordinator.mk w' (<[t := p']> ts))
  (** a thread is back at the head of its loop *)
  | sys_loop (Ord : HashOrder) t m w ts :
    ts !! t = Some (Ret m) →
    sys_step (Coordinator.mk w ts) (Coordinator.mk w (<[t := resume m]> ts))
  (** a connection is accepted *)
  | sys_accept t w ts :
    ts !! t = None →
    sys_step (Coordinator.mk w ts) (Coordinator.mk w (<[t := start_session]> ts)).

(** The start of [run_coordinator]: the reference engine is seeded, a state
    file that can be read is recovered, and no one is connected. *)
Definition boot_runtime (c : Clock) (state : option Bytes) : Impl.t :=
  let s := (seed_reference_engine (EngineResidency.create c RuntimeOptions.default)).2 in
  match state with
  | None => s
  | Some blob => (recover blob s).2
  end.
Definition booted (c : Clock) (state : option Bytes) : Coordinator :=
  Coordinator.mk (SessionShared.make (boot_runtime c state)) ∅.

(** The index a start leaves: two definitions seed the engine; a state file is
    loaded, and the epoch advanced. *)
Definition boot_index (state : option Bytes) : N :=
  match state with None => 2 | Some _ => load_base + 1 end.
(** Reached, from a start with that state file or without one, after as many
    steps as the index grew. *)
Inductive sys_reachable (state : option Bytes) : N → Coordinator → Prop :=
  | sys_booted c : sys_reachable state (boot_index state) (booted c state)
  | sys_more n σ σ' :
    sys_reachable state n σ → n + 2 < 2 ^ 64 → sys_step σ σ' → sys_reachable state (n + 1) σ'.
Arguments sys_booted {state} c.
Arguments sys_more {state} n σ σ'.

(** ** What the steps of a program do

    [acts R p]: every atomic step of [p], whatever happened before it, relates
    the shared state before and after by [R]. *)

Fixpoint acts {A} (R : SessionShared → SessionShared → Prop) (p : Prog A) : Prop :=
  match p with
  | Ret _ | Raise _ => True
  | Act m k => (∀ w, R w (m w).2) ∧ ∀ b, acts R (k b)
  | Recv k => ∀ m, acts R (k m)
  | Send _ k => ∀ b, acts R (k b)
  | Await _ k => ∀ r, acts R (k r)
  | Dequeue _ k => ∀ c, acts R (k c)
  | WriteFile _ _ k => ∀ b, acts R (k b)
  end.

Section acts.
Context (R : SessionShared → SessionShared → Prop).

Lemma acts_bind {A B} (p : Prog A) (f : A → Prog B) :
  acts R p → (∀ a, acts R (f a)) → acts R (p ≫= f).
Proof. induction p; simpl; naive_solver. Qed.
Lemma acts_try_with {A} (p : Prog A) h :
  acts R p → (∀ e q, h e = Some q → acts R q) → acts R (try_with p h).
Proof.
  intros Hp Hh. induction p; simpl in *; try naive_solver.
  destruct (h e) eqn:He; simpl; [by eapply Hh|done].
Qed.
Lemma acts_try_domain {A} (p : Prog A) h :
  acts R p → (∀ code what, acts R (h code what)) → acts R (try_domain p h).
Proof. intros Hp Hh. apply acts_try_with; [done|]. by intros [] q [= <-]. Qed.
Lemma acts_try_all {A} (p h : Prog A) : acts R p → acts R h → acts R (try_all p h).
Proof. intros Hp Hh. apply acts_try_with; [done|]. by intros e q [= <-]. Qed.
Lemma acts_rt {A} (m : Run A) :
  (∀ w, R w (w <| Shared.runtime := (m w.(Shared.runtime)).2 |>)) → acts R (rt m).
Proof.
  intros Hm. split; [|by intros []]. intros w. specialize (Hm w). rw /on_runtime.
  by destruct (m _).
Qed.
Lemma acts_locked {A} (m : SessionShared → A * SessionShared) :
  (∀ w, R w (m w).2) → acts R (locked m).
Proof. intros Hm. split; [|by intros []]. intros w. specialize (Hm w). by destruct (m w). Qed.
Lemma acts_write f : (∀ w, R w (f w)) → acts R (write f).
Proof. intros Hf. by apply acts_locked. Qed.
End acts.

(** A relation between shared states that the steps may use: the critical
    sections of every handler; the one of [on_command_ready] that turns a router
    ready; a dispatcher taking a command; and the death of a router. *)
Class Routine (R : SessionShared → SessionShared → Prop) := {
  adm_refl w : R w w;
  adm_op (Ord : HashOrder) o w : R w (w <| Shared.runtime := (run_op o w.(Shared.runtime)).2 |>);
  adm_enqueue r type id e a f w : R w (enqueue r type id e a f w).2;
  adm_set_value p rep w : R w (set_value p rep w);
  adm_close r w : R w (close_socket r w);
  adm_adopt r w : R w (adopt r w).2;
  adm_bind sid f inc w : R w (bind_session sid f inc w);
  adm_forget sid k w : R w (forget_session sid k w);
  adm_inc_at sid w : R w (session_inc_at sid w).2;
  adm_use sid u w : R w (w <| Shared.session_use ::= <[sid := u]> |>);
  adm_next_session w : R w (w <| Shared.next_session ::= λ n, u64 (n + 1) |>);
}.
Class Readies (R : SessionShared → SessionShared → Prop) :=
  adm_ready r w : R w (set_router r (λ x, x <| Router.ready := true |>) w).
Class Dequeues (R : SessionShared → SessionShared → Prop) :=
  adm_dequeue r cmd q w : (router_at r w).(Router.queue) = cmd :: q →
    R w (set_router r (λ x, x <| Router.queue := q |>) w).
Class Kills (R : SessionShared → SessionShared → Prop) :=
  adm_kill r w : R w (kill r w).2.
Class Admissible (R : SessionShared → SessionShared → Prop) := {
  #[global] adm_routine :: Routine R;
  #[global] adm_readies :: Readies R;
  #[global] adm_dequeues :: Dequeues R;
  #[global] adm_kills :: Kills R;
}.

Section handlers.
Context `{HashOrder} (R : SessionShared → SessionShared → Prop) `{!Routine R}.

(** A runtime operation, by its name in [Op]. *)
Lemma acts_op {A} (m : Run A) (o : Op) : run_op o = discard m → acts R (rt m).
Proof.
  intros Ho. apply acts_rt. intros w. pose proof (adm_op _ o w) as H1.
  rw Ho /discard /mbind /M_bind in H1. by destruct (m _) as [[]].
Qed.
Lemma acts_op_unit (m : Run ()) (o : Op) : run_op o = m → acts R (rt m).
Proof. intros Ho. apply acts_rt. intros w. pose proof (adm_op _ o w) as H1. by rw Ho in H1. Qed.
(** A query. *)
Lemma acts_query {A} (m : Run A) : (∀ s, (m s).2 = s) → acts R (rt m).
Proof.
  intros Hm. apply acts_rt. intros w. rw Hm. destruct w. apply adm_refl.
Qed.
Lemma acts_read {A} (f : SessionShared → A) : acts R (read f).
Proof. apply acts_locked. intros w. apply adm_refl. Qed.

Lemma acts_current_readiness k : acts R (rt (EngineResidency.current_readiness_generation k)).
Proof.
  apply acts_query. intros s.
  rw /EngineResidency.current_readiness_generation /find_inc /mbind /M_bind /=. by destruct (_ !! _).
Qed.

Ltac act_op o := first [eapply (acts_op _ o); reflexivity|eapply (acts_op_unit _ o); reflexivity].
Ltac acts_op_go :=
  match goal with
  | |- acts _ (rt (EngineResidency.issue_registration_permit ?w ?b ?s ?sb)) =>
    act_op (IssueRegistrationPermit w b s sb)
  | |- acts _ (rt (EngineResidency.register_incarnation ?i ?p)) => act_op (RegisterIncarnation i p)
  | |- acts _ (rt (EngineResidency.publish_component ?e)) => act_op (PublishComponent e)
  | |- acts _ (rt (EngineResidency.evaluate_readiness ?i ?p)) => act_op (EvaluateReadiness i p)
  | |- acts _ (rt (EngineResidency.create_preparation_plan ?i ?p ?t)) =>
    act_op (CreatePreparationPlan i p t)
  | |- acts _ (rt (EngineResidency.begin_preparation ?p)) => act_op (BeginPreparation p)
  | |- acts _ (rt (EngineResidency.step_preparation ?a)) => act_op (StepPreparation a)
  | |- acts _ (rt (EngineResidency.complete_preparation ?a)) => act_op (CompletePreparation a)
  | |- acts _ (rt (EngineResidency.activate ?q)) => act_op (Activate q)
  | |- acts _ (rt (EngineResidency.acquire_serving_use ?t ?c)) => act_op (AcquireServingUse t c)
  | |- acts _ (rt (EngineResidency.release_serving_use ?t ?o ?d)) => act_op (ReleaseServingUse t o d)
  | |- acts _ (rt (EngineResidency.request_drain ?i)) => act_op (RequestDrain i)
  | |- acts _ (rt (EngineResidency.acknowledge_backend_cleanup ?i)) => act_op (AcknowledgeBackendCleanup i)
  | |- acts _ (rt (EngineResidency.begin_replacement ?p)) => act_op (BeginReplacement p)
  | |- acts _ (rt (EngineResidency.commit_cutover ?r)) => act_op (CommitCutover r)
  | |- acts _ (rt (EngineResidency.retire_old ?r)) => act_op (RetireOld r)
  | |- acts _ (rt (EngineResidency.fence_worker ?w ?b ?r)) => act_op (FenceWorker w b r)
  end.
Ltac acts_step :=
  match goal with
  | |- acts _ (Ret _) => exact I
  | |- acts _ (Raise _) => exact I
  | |- acts _ (refuse _ _) => exact I
  | |- acts _ (reply _ _) => intros ?; exact I
  | |- acts _ (error_reply _ _) => intros ?; exact I
  | |- acts _ (Send _ _) => intros ?
  | |- acts _ (send _) => intros ?
  | |- acts _ recv => intros ?
  | |- acts _ (Await _ _) => intros ?
  | |- acts _ (Dequeue _ _) => intros ?
  | |- acts _ (WriteFile _ _ _) => intros ?
  | |- acts _ (read _) => by apply acts_read
  | |- acts _ (mbind _ _) => apply acts_bind; [|intros ?; cbv beta]
  | |- acts _ (try_domain _ _) => apply acts_try_domain; [|intros ? ?; cbv beta]
  | |- acts _ (try_all _ _) => apply acts_try_all
  | |- acts _ (rt _) => first [acts_op_go|apply acts_query; by intros ?|apply acts_current_readiness]
  | |- acts _ (match ?x with _ => _ end) => destruct x
  end.
Ltac acts_go := repeat acts_step.

Lemma acts_stale_epoch e : acts R (stale_epoch e).
Proof. rw /stale_epoch. acts_go. Qed.
Lemma acts_stale_authority a : acts R (stale_authority a).
Proof. rw /stale_authority. acts_go. Qed.
Lemma acts_check_cycle e a : acts R (check_cycle e a).
Proof.
  rw /check_cycle /stale_epoch /stale_authority. acts_go.
Qed.
Lemma acts_fenced_or_drained k : acts R (fenced_or_drained k).
Proof. rw /fenced_or_drained. acts_go. Qed.

#[local] Hint Resolve acts_stale_epoch acts_stale_authority acts_check_cycle
  acts_fenced_or_drained : core.
Ltac acts_auto := repeat first [acts_step|by auto].

Lemma acts_fulfill cmd rep : acts R (fulfill cmd rep).
Proof. apply acts_write. intros w. apply adm_set_value. Qed.
#[local] Hint Resolve acts_fulfill : core.
Lemma acts_fail_all rep q : acts R (fail_all rep q).
Proof.
  induction q as [|c q IH]; [done|]. apply acts_bind; [|done]. apply acts_write. intros w. apply adm_set_value.
Qed.
Lemma acts_close r : acts R (write (close_socket r)).
Proof. apply acts_write. intros w. apply adm_close. Qed.
Lemma acts_fail `{!Kills R} r reason : acts R (fail r reason).
Proof.
  apply acts_bind; [apply acts_locked, adm_kill|intros q]. apply acts_bind; [apply acts_fail_all|intros _].
  apply acts_close.
Qed.
#[local] Hint Resolve acts_fail : core.
Lemma acts_acquire_use_for router p : acts R (acquire_use_for router p).
Proof. rw /acquire_use_for. acts_auto. Qed.
Lemma acts_release_use_for router k o d : acts R (release_use_for router k o d).
Proof. rw /release_use_for. acts_auto. Qed.
#[local] Hint Resolve acts_acquire_use_for acts_release_use_for : core.

Lemma acts_process `{!Kills R} r cmd : acts R (process r cmd).
Proof.
  rw /process /process_execute /process_drain. acts_auto.
Qed.
Lemma acts_route_command ty msg r f e a : acts R (route_command ty msg r f e a).
Proof.
  rw /route_command /reply_to_controller. cbv zeta.
  apply acts_bind; [apply acts_locked; intros w; apply adm_enqueue|intros p]. acts_auto.
Qed.
Lemma acts_find_router target boot : acts R (find_router target boot).
Proof. rw /find_router. acts_auto. Qed.
#[local] Hint Resolve acts_process acts_route_command acts_find_router : core.
Lemma acts_route_execute f e a target boot : acts R (route_execute f e a target boot).
Proof. rw /route_execute /reply_to_controller. acts_auto. Qed.
Lemma acts_route_drain f e a target boot : acts R (route_drain f e a target boot).
Proof. rw /route_drain /reply_to_controller. acts_auto. Qed.
Lemma acts_require_open k : acts R (require_open k).
Proof. rw /require_open. acts_auto. Qed.
Lemma acts_end_session sid k : acts R (end_session sid k).
Proof.
  rw /end_session. apply acts_bind; [apply acts_write; intros w; apply adm_forget|done].
Qed.
Lemma acts_step_times n a : acts R (step_times n a).
Proof. revert a. induction n as [|n IH]; intros a; cbn [step_times]; acts_auto. Qed.
#[local] Hint Resolve acts_route_execute acts_route_drain acts_require_open acts_end_session
  acts_step_times : core.

Lemma acts_on_register sid k f : acts R (on_register sid k f).
Proof.
  rw /on_register. acts_auto. apply acts_write. intros w. apply adm_bind.
Qed.
Lemma acts_on_publish sid f : acts R (on_publish_component sid f).
Proof.
  rw /on_publish_component /guarded. cbv zeta. acts_auto.
  apply acts_locked. intros w. apply adm_inc_at.
Qed.
Lemma acts_on_acquire sid k f : acts R (on_acquire_use sid k f).
Proof.
  rw /on_acquire_use /guarded. cbv zeta. acts_auto. apply acts_write. intros w. apply adm_use.
Qed.
Lemma acts_on_save f : acts R (on_save f).
Proof.
  rw /on_save /guarded. acts_auto. apply acts_query. intros s.
  rw /serialize /mbind /M_bind /=. by destruct (serialize_persistent_state _).
Qed.
Lemma acts_on_command_ready `{!Readies R} sid k : acts R (on_command_ready sid k).
Proof.
  rw /on_command_ready. acts_auto.
  - apply acts_locked. intros w. apply adm_adopt.
  - apply acts_locked. intros w. destruct (Router.alive _); [apply adm_ready|apply adm_refl].
Qed.
#[local] Hint Resolve acts_on_register acts_on_publish acts_on_acquire acts_on_save : core.

Lemma acts_dispatch sid k msg :
  (msg.(Msg.type) = MessageType.COMMAND_READY → acts R (on_command_ready sid k)) → acts R (dispatch sid k msg).
Proof.
  intros Hready. rw /dispatch. cbv zeta. destruct (Msg.type msg) eqn:Hty; try (by apply Hready); clear Hready Hty.
  all: rw /on_hello /on_prepare /on_query_readiness /on_activate /on_release_use /on_drain
    /on_execute /on_replace /on_fence_worker /on_execution_result /on_query_drain /guarded.
  all: cbv zeta; acts_auto.
Qed.
Lemma acts_session sid k :
  (acts R (on_command_ready sid k)) → acts R (session_step sid k).
Proof.
  intros Hready. rw /session_step /handle. apply acts_bind; [by intros ?|]. intros [msg|]; [|acts_auto].
  apply acts_bind; [acts_auto|]. intros []; [acts_auto|]. by apply acts_dispatch.
Qed.
Lemma acts_dispatcher `{!Kills R} sid k r : acts R (dispatcher_step sid k r).
Proof. rw /dispatcher_step. acts_auto. Qed.
Lemma acts_resume `{!Readies R, !Kills R} m : acts R (resume m).
Proof.
  destruct m as [sid k|sid k r|]; [|apply acts_dispatcher|done].
  apply acts_session, acts_on_command_ready.
Qed.
Lemma acts_start_session : acts R start_session.
Proof.
  rw /start_session. acts_auto. apply acts_locked. intros w. apply adm_next_session.
Qed.
End handlers.

(** ** Every step of the system *)

Section lifting.
Context (R : SessionShared → SessionShared → Prop) `{!Admissible R}.

Lemma prog_step_acts {A} w (p : Prog A) w' p' :
  prog_step w p w' p' → acts R p → R w w' ∧ acts R p'.
Proof.
  intros Hstep. destruct Hstep; simpl; try (intros Hp; split; [apply adm_refl|by apply Hp]).
  - intros [Hm Hk]. specialize (Hm w). rw H in Hm. by split.
  - intros Hp. split; [by eapply adm_dequeue|by apply Hp].
Qed.

(** All threads keep within [R], now and later. *)
Definition disciplined (σ : Coordinator) : Prop := map_Forall (λ _, acts R) σ.(Coordinator.threads).

Lemma sys_step_acts σ σ' :
  disciplined σ → sys_step σ σ' →
  R σ.(Coordinator.shared) σ'.(Coordinator.shared) ∧ disciplined σ'.
Proof.
  intros Hd. destruct 1 as [t p p' w w' ts Ht Hstep|Ord t m w ts Ht|t w ts Ht]; simpl in *.
  - apply Hd in Ht as Hp. destruct (prog_step_acts _ _ _ _ Hstep Hp) as [HR Hp'].
    split; [done|]. by apply map_Forall_insert_2.
  - split; [apply adm_refl|]. apply map_Forall_insert_2; [apply acts_resume; apply _|done].
  - split; [apply adm_refl|]. apply map_Forall_insert_2; [apply acts_start_session; apply _|done].
Qed.
Lemma sys_reachable_disciplined state n σ : sys_reachable state n σ → disciplined σ.
Proof.
  induction 1 as [c|n σ σ' _ IH _ Hstep]; [apply map_Forall_empty|].
  by apply (sys_step_acts σ σ').
Qed.
Lemma sys_step_within state n σ σ' :
  sys_reachable state n σ → sys_step σ σ' → R σ.(Coordinator.shared) σ'.(Coordinator.shared).
Proof. intros Hr Hs. by apply sys_step_acts; [eapply sys_reachable_disciplined|]. Qed.
End lifting.

(** *** The runtime takes at most one operation a step *)

Definition runtime_step (w w' : SessionShared) : Prop :=
  w'.(Shared.runtime) = w.(Shared.runtime) ∨ step w.(Shared.runtime) w'.(Shared.runtime).

Lemma set_value_runtime p rep w : (set_value p rep w).(Shared.runtime) = w.(Shared.runtime).
Proof. rw /set_value. by case_match. Qed.

#[export] Instance runtime_step_admissible : Admissible runtime_step.
Proof.
  split; [split| | |]; intros; try by left.
  - right. by eexists _, o.
  - left. rw /enqueue. case_match; [done|]. by rw /= set_value_runtime.
  - left. apply set_value_runtime.
  - left. rw /adopt. by case_match.
  - left. rw /forget_session. cbv zeta. by repeat case_match.
  - left. rw /session_inc_at. by case_match.
Qed.

Lemma seeded_reachable {L} c :
  ∃ m, m <= 2 ∧ reachable_under L created m (seed_reference_engine (EngineResidency.create c RuntimeOptions.default)).2.
Proof.
  set (s := EngineResidency.create c RuntimeOptions.default).
  assert (reachable_under L created 0 s) as H0.
  { apply reachable_init. split; [done|]. by exists c, RuntimeOptions.default. }
  assert (reachable_under L created 1 (run_op (DefineEngine reference_definition) s).2) as H1.
  { apply (reachable_step _ 0 s); [done|done|]. by exists map_to_list_order, (DefineEngine reference_definition). }
  revert H1. rw /seed_reference_engine /= /discard /mbind /M_bind.
  destruct (EngineResidency.define_engine reference_definition s) as [[d|e] s1]; simpl; intros H1; [|by exists 1].
  assert (reachable_under L created 2 (run_op (DefineProfile reference_profile) s1).2) as H2.
  { apply (reachable_step _ 1 s1); [done|done|]. by exists map_to_list_order, (DefineProfile reference_profile). }
  revert H2. rw /= /discard /mbind /M_bind.
  destruct (EngineResidency.define_profile reference_profile s1) as [[p|e] s2]; by exists 2.
Qed.

(** Recovery takes it through a load and an epoch advance, or leaves it. *)
Lemma recovered_reachable m blob s :
  m <= 2 → reachable created m s → ∃ m', m' <= load_base + 1 ∧ reachable created m' (recover blob s).2.
Proof.
  intros Hm Hr. assert (reachable created m s → ∃ m', m' <= load_base + 1 ∧ reachable created m' s) as Hstay.
  { intros _. exists m. rw /load_base. split; [lia|done]. }
  pose proof (load_effect blob s) as Hload. rw /wp in Hload.
  assert (((load blob;; discard EngineResidency.advance_epoch) s).2 = (recover blob s).2) as <-.
  { rw /recover. by destruct ((load blob;; _) s) as [[a|[]] s']. }
  rw {1}/mbind {1}/M_bind. destruct (load blob s) as [[[]|e] s'] eqn:Hl; [|destruct Hload as [-> _]; by apply Hstay].
  destruct Hload as (p & Hp & Hs'). exists (load_base + 1). split; [done|].
  apply (reachable_step _ load_base s'); [|done|by exists map_to_list_order, AdvanceEpoch].
  apply (reachable_load _ m s); [done|rw /load_base; lia|]. by exists blob, p.
Qed.
Lemma booted_reachable c state :
  ∃ m, m <= boot_index state ∧ reachable created m (boot_runtime c state).
Proof.
  destruct (seeded_reachable (L := any) c) as (m & Hm & Hr). destruct state as [blob|]; [|by exists m].
  by apply (recovered_reachable m).
Qed.

Lemma runtime_step_reachable m n w w' :
  m <= n → n + 2 < 2 ^ 64 → reachable created m w.(Shared.runtime) → runtime_step w w' →
  ∃ m', m' <= n + 1 ∧ reachable created m' w'.(Shared.runtime).
Proof.
  intros Hm Hn Hr [-> |Hop].
  - exists m. split; [lia|done].
  - exists (m + 1). split; [lia|]. eapply reachable_step; [done|lia|done].
Qed.

(** C3. The coordinator refines the runtime: started without a state file or with
    any, however its sessions and dispatchers interleave, whatever arrives on
    their sockets, and whichever timers expire, the runtime they share is in a
    state that its own operations reach from a freshly constructed one, the load
    of the state file among them and at most one operation per step after the
    start, so every invariant of the histories that load holds of it at all
    times. *)
Theorem coordinator_refines_runtime state n σ :
  sys_reachable state n σ → ∃ m, m <= n ∧ reachable created m σ.(Coordinator.shared).(Shared.runtime).
Proof.
  induction 1 as [c|n σ σ' Hr (m & Hm & IH) Hn Hstep]; [apply booted_reachable|].
  by eapply (runtime_step_reachable m n), (sys_step_within runtime_step state n σ σ' Hr Hstep).
Qed.

(** *** The routers *)

Record router_kept (x x' : WorkerRouter) : Prop := {
  kept_session : x'.(Router.session_id) = x.(Router.session_id);
  kept_worker : x'.(Router.worker_id) = x.(Router.worker_id) ∧ x'.(Router.worker_boot) = x.(Router.worker_boot);
  kept_engine : x'.(Router.inc) = x.(Router.inc) ∧ x'.(Router.engine_id) = x.(Router.engine_id);
  kept_dead : x.(Router.alive) = false → x'.(Router.alive) = false;
  kept_queue :
    x'.(Router.queue) = x.(Router.queue) ∨
    (∃ cmd, x.(Router.ready) = true ∧ x.(Router.alive) = true ∧
       x'.(Router.queue) = x.(Router.queue) ++ [cmd]) ∨
    (∃ cmd, x.(Router.queue) = cmd :: x'.(Router.queue)) ∨
    (x'.(Router.queue) = [] ∧ x'.(Router.alive) = false);
}.

(** The registry names existing routers by the incarnation they serve, and no
    queue exceeds its bound. *)
Record registry_sound (w : SessionShared) : Prop := {
  rs_fresh r x : w.(Shared.routers) !! r = Some x → r < w.(Shared.next_router);
  rs_bound r x : w.(Shared.routers) !! r = Some x → (length x.(Router.queue) <= Router.max_queue)%nat;
  rs_registry k r : w.(Shared.worker_router) !! k = Some r →
    ∃ x, w.(Shared.routers) !! r = Some x ∧ x.(Router.inc) = k;
}.
Definition routers_kept (w w' : SessionShared) : Prop :=
  ∀ r x, w.(Shared.routers) !! r = Some x →
    ∃ x', w'.(Shared.routers) !! r = Some x' ∧ router_kept x x'.
Definition router_step (w w' : SessionShared) : Prop :=
  registry_sound w → registry_sound w' ∧ routers_kept w w'.

Lemma router_kept_refl x : router_kept x x.
Proof. split; auto. Qed.
Lemma routers_kept_refl w : routers_kept w w.
Proof. intros r x Hx. exists x. split; [done|apply router_kept_refl]. Qed.

(** A step that leaves the routers and the registry alone. *)
Lemma router_step_elsewhere w w' :
  w'.(Shared.routers) = w.(Shared.routers) → w'.(Shared.next_router) = w.(Shared.next_router) →
  w'.(Shared.worker_router) = w.(Shared.worker_router) → router_step w w'.
Proof.
  intros H1 H2 H3 [Hf Hb Hr]. split; [split; rw ?H1 ?H2 ?H3; auto|].
  intros r x Hx. exists x. rw H1. split; [done|apply router_kept_refl].
Qed.
Lemma router_step_compose w w' w'' :
  w''.(Shared.routers) = w'.(Shared.routers) → w''.(Shared.next_router) = w'.(Shared.next_router) →
  w''.(Shared.worker_router) = w'.(Shared.worker_router) → router_step w w' → router_step w w''.
Proof.
  intros H1 H2 H3 Hw Hs. destruct (Hw Hs) as [[Hf Hb Hr] Hk].
  split; [split; rw ?H1 ?H2 ?H3; auto|]. intros r x Hx. rw H1. by apply Hk.
Qed.

(** A change of one router. *)
Lemma router_step_set r f w :
  (∀ x, w.(Shared.routers) !! r = Some x → router_kept x (f x) ∧
    (length (f x).(Router.queue) <= Router.max_queue ∨ length (f x).(Router.queue) <= length x.(Router.queue))%nat) →
  router_step w (set_router r f w).
Proof.
  intros Hf [Hfresh Hb Hr].
  assert (routers_kept w (set_router r f w)) as Hk.
  { intros r' x Hx. rw /set_router /=. destruct (decide (r' = r)) as [->|Hne].
    - exists (f x). rw lookup_alter_eq Hx. split; [done|by apply Hf].
    - exists x. rw lookup_alter_ne //. split; [done|apply router_kept_refl]. }
  split; [|done]. split; simpl.
  - intros r' x Hx%lookup_alter_Some. naive_solver.
  - intros r' x [(-> & y & Hy & ->)|[_ Hx]]%lookup_alter_Some; [|by eapply Hb].
    destruct (Hf y Hy) as [_ [?|?]]; [done|]. specialize (Hb _ _ Hy). lia.
  - intros k r' Hkr. destruct (Hr _ _ Hkr) as (x & Hx & Hinc).
    destruct (Hk _ _ Hx) as (x' & Hx' & [_ _ [Hi _] _ _]). exists x'. split; [done|congruence].
Qed.

Lemma set_value_routers p rep w :
  (set_value p rep w).(Shared.routers) = w.(Shared.routers) ∧
  (set_value p rep w).(Shared.next_router) = w.(Shared.next_router) ∧
  (set_value p rep w).(Shared.worker_router) = w.(Shared.worker_router).
Proof. rw /set_value. by case_match. Qed.
Lemma router_at_lookup r w x : w.(Shared.routers) !! r = Some x → router_at r w = x.
Proof. intros Hx. by rw /router_at Hx. Qed.

#[export] Instance router_step_admissible : Admissible router_step.
Proof.
  split; [split| | |]; intros; try (by apply router_step_elsewhere).
  - rw /enqueue. set (w1 := w <| Shared.next_promise ::= N.succ |>).
    destruct (_ && _) eqn:Hroom; simpl.
    + apply (router_step_compose w (set_router r (λ x, x <| Router.queue ::= λ q, q ++
        [{| Cmd.type := type; Cmd.command_id := id; Cmd.epoch := e; Cmd.authority := a;
            Cmd.params := f; Cmd.promise := w.(Shared.next_promise) |}] |>) w)); [done..|].
      apply router_step_set. intros x Hx.
      assert (router_at r w1 = x) as Hat by (by apply router_at_lookup). rw Hat in Hroom.
      apply andb_true_iff in Hroom as [[Hready Halive]%andb_true_iff Hlen%bool_decide_eq_true].
      split; [split; simpl; auto; right; left; by eexists|]. left. rw /= length_app /=. lia.
    + destruct (set_value_routers (Shared.next_promise w)
        (Rep.failure "router not ready or pending command queue full") w1) as (H1 & H2 & H3).
      by apply router_step_elsewhere.
  - destruct (set_value_routers p rep w) as (H1 & H2 & H3). by apply router_step_elsewhere.
  - apply router_step_set. intros x Hx. split; [split; simpl; auto|by right].
  - rw /adopt. case_match; simpl; [by apply router_step_elsewhere|].
    apply router_step_set. intros x Hx. split; [split; simpl; auto|by right].
  - intros [Hfresh Hb Hr]. rw /bind_session /=.
    assert (∀ r x, w.(Shared.routers) !! r = Some x → r ≠ w.(Shared.next_router)) as Hne.
    { intros r x Hx%Hfresh. lia. }
    split; [split; simpl|].
    + intros r x [[Hr' _]|[_ Hx%Hfresh]]%lookup_insert_Some; lia.
    + intros r x [[_ Hx]|[_ Hx]]%lookup_insert_Some; [rw -Hx /=; lia|by eapply Hb].
    + intros k r [[Hk Hr']|[_ Hkr]]%lookup_insert_Some.
      * eexists. rw -Hr' lookup_insert_eq. split; [done|exact Hk].
      * destruct (Hr _ _ Hkr) as (x & Hx & Hi). exists x. rw lookup_insert_ne //.
        intros Heq. by apply (Hne r x Hx).
    + intros r x Hx. exists x. simpl. rw lookup_insert_ne; [|intros Heq; by apply (Hne r x Hx)].
      split; [done|apply router_kept_refl].
  - rw /forget_session. cbv zeta. case_match; [|by apply router_step_elsewhere].
    case_match; [|by apply router_step_elsewhere]. intros [Hfresh Hb Hr]. split; [split; simpl; auto|].
    + intros k' r' [_ Hkr]%lookup_delete_Some. by apply Hr.
    + intros r' x Hx. exists x. split; [exact Hx|apply router_kept_refl].
  - rw /session_inc_at. case_match; by apply router_step_elsewhere.
  - intros ??. apply router_step_set. intros x Hx. split; [split; simpl; auto|by right].
  - intros r cmd q w H. apply router_step_set. intros x Hx. rw (router_at_lookup _ _ _ Hx) in H.
    split; [split; simpl; auto; right; right; left; by eexists|]. right. rw H /=. lia.
  - intros r w. apply router_step_set. intros x Hx. split; [split; simpl; auto|right; simpl; lia].
Qed.

Lemma reachable_registry_sound state n σ :
  sys_reachable state n σ → registry_sound σ.(Coordinator.shared).
Proof.
  induction 1 as [c|n σ σ' Hr IH _ Hstep]; [by split|].
  by apply (sys_step_within router_step state n σ σ' Hr Hstep).
Qed.

(** C33. Commands are taken in the order they were accepted: in any step of a
    coordinator started without a state file or with any, a router keeps its
    identity, a dead one stays dead, and its queue either stays as it is, gets
    one command at the end while the router is command-ready and alive, loses the
    command at its head, or is emptied as the router dies.  The registry is sound throughout: every incarnation it
    names maps to an existing router bound to that very incarnation, and no
    router ever has more than 64 commands pending. *)
Theorem commands_queued_in_order state n σ σ' :
  sys_reachable state n σ → sys_step σ σ' →
  routers_kept σ.(Coordinator.shared) σ'.(Coordinator.shared) ∧
  registry_sound σ.(Coordinator.shared) ∧ registry_sound σ'.(Coordinator.shared).
Proof.
  intros Hr Hstep. pose proof (reachable_registry_sound state n σ Hr) as Hs.
  by destruct (sys_step_within router_step state n σ σ' Hr Hstep Hs).
Qed.
