(* ===== verification/Commands.v ===== *)
(** * Commands

    One thread run alone, against what its peer sends and the links that fail:
    what the coordinator does with stale, misdirected, routed and draining
    commands. *)

From S2P Require Import Prelude Identities Enums Model Reference Codec Frame Payload Readiness.
From S2P Require Import Economics Standby Runtime Loading Transitions Scenario Helpers Tables Incarnations Authority ServingUse.
From S2P Require Import Persistence Recovery Threads Routing Sessions System.
Local Open Scope N_scope.

(** ** A thread alone

    [inbox] is what [recv_frame] returns, and then false; [links] is what
    [send_frame] returns, and then true; [sent] is every frame handed to it. *)

Module Env.
Record t := mk {
  shared : SessionShared.t;
  inbox : list ProtocolMessage.t;
  links : list bool;
  sent : list ProtocolMessage.t;
}.
#[global] Instance eta : Eta t := fields! mk <shared; inbox; links; sent>.
End Env.
Abbreviation Env := Env.t.

Definition take_inbox (env : Env) : option ProtocolMessage * Env :=
  (head env.(Env.inbox), env <| Env.inbox ::= tail |>).
Definition take_link (env : Env) : bool * Env :=
  (default true (head env.(Env.links)), env <| Env.links ::= tail |>).

(** A future without a value times out, and an empty queue ends the wait. *)
Fixpoint alone {A} (p : Prog A) (env : Env) : Outcome Exn A * Env :=
  match p with
  | Ret a => (Ok a, env)
  | Raise e => (Throw e, env)
  | Act m k =>
    let '(o, w) := m env.(Env.shared) in alone (k o) (env <| Env.shared := w |>)
  | Recv k => let '(om, env) := take_inbox env in alone (k om) env
  | Send msg k =>
    let '(b, env) := take_link (env <| Env.sent ::= λ l, l ++ [msg] |>) in alone (k b) env
  | Await p k => alone (k (env.(Env.shared).(Shared.replies) !! p)) env
  | Dequeue r k =>
    match (router_at r env.(Env.shared)).(Router.queue) with
    | [] => alone (k None) env
    | cmd :: q =>
      alone (k (Some cmd)) (env <| Env.shared ::= set_router r (λ x, x <| Router.queue := q |>) |>)
    end
  | WriteFile path blob k => alone (k true) env
  end.

(** What holds when [p], run alone, returns; an uncaught exception would end
    the process. *)
Definition ends {A} (p : Prog A) (Q : A → Env → Prop) (X : Exn → Env → Prop) (env : Env) : Prop :=
  match alone p env with
  | (Ok a, env') => Q a env'
  | (Throw e, env') => X e env'
  end.

Section ends.
Context {A : Type}.
Implicit Types (Q : A → Env → Prop) (X : Exn → Env → Prop).

Lemma alone_bind {B} (p : Prog B) (f : B → Prog A) env :
  alone (p ≫= f) env =
    match alone p env with
    | (Ok a, env') => alone (f a) env'
    | (Throw e, env') => (Throw e, env')
    end.
Proof.
  revert env. induction p as [a|e|B' m k IH|k IH|msg k IH|q k IH|r k IH|path blob k IH]; intros env;
    try done; cbn [mbind Prog_bind alone].
  - destruct (m _) as [o w]. apply IH.
  - apply IH.
  - apply IH.
  - apply IH.
  - destruct (Router.queue _); apply IH.
  - apply IH.
Qed.
Lemma ends_bind {B} (p : Prog B) (f : B → Prog A) Q X env :
  ends p (λ b, ends (f b) Q X) X env → ends (p ≫= f) Q X env.
Proof. rw /ends alone_bind. by destruct (alone p env) as [[]]. Qed.
Lemma ends_ret (a : A) Q X env : Q a env → ends (Ret a) Q X env.
Proof. done. Qed.
Lemma ends_raise e Q X env : X e env → ends (Raise e) Q X env.
Proof. done. Qed.
Lemma ends_mono (p : Prog A) Q Q' X X' env :
  (∀ a e, Q a e → Q' a e) → (∀ x e, X x e → X' x e) → ends p Q X env → ends p Q' X' env.
Proof. rw /ends. destruct (alone p env) as [[]]; auto. Qed.
Lemma ends_try_with (p : Prog A) h Q X env :
  ends p Q (λ e env', match h e with Some q => ends q Q X env' | None => X e env' end) env →
  ends (try_with p h) Q X env.
Proof.
  revert env. induction p as [a|e|B' m k IH|k IH|msg k IH|q k IH|r k IH|path blob k IH]; intros env;
    rw /ends; cbn [try_with alone]; try done.
  - rw /ends. by destruct (h e).
  - destruct (m _) as [o w]. apply IH.
  - apply IH.
  - apply IH.
  - apply IH.
  - destruct (Router.queue _); apply IH.
  - apply IH.
Qed.
Lemma ends_try_domain (p : Prog A) h Q X env :
  ends p Q (λ e env', match e with
    | DomainError code what => ends (h code what) Q X env'
    | StdOutOfRange => X StdOutOfRange env'
    end) env →
  ends (try_domain p h) Q X env.
Proof. intros Hp. apply ends_try_with. eapply ends_mono; [done| |exact Hp]. by intros []. Qed.
Lemma ends_try_all (p h : Prog A) Q X env :
  ends p Q (λ _ env', ends h Q X env') env → ends (try_all p h) Q X env.
Proof. intros Hp. by apply ends_try_with. Qed.
Lemma ends_rt (m : Run A) Q X env :
  wp m (λ a s, Q a (env <| Env.shared ::= λ w, w <| Shared.runtime := s |> |>))
       (λ e s, X e (env <| Env.shared ::= λ w, w <| Shared.runtime := s |> |>))
    env.(Env.shared).(Shared.runtime) →
  ends (rt m) Q X env.
Proof. rw /wp /ends /rt /= /on_runtime. by destruct (m _) as [[]]. Qed.
Lemma ends_locked (m : SessionShared → A * SessionShared) Q X env :
  Q (m env.(Env.shared)).1 (env <| Env.shared := (m env.(Env.shared)).2 |>) →
  ends (locked m) Q X env.
Proof. rw /ends /locked /=. by destruct (m _). Qed.
Lemma ends_read (f : SessionShared → A) Q X env : Q (f env.(Env.shared)) env → ends (read f) Q X env.
Proof. intros HQ. apply ends_locked. by destruct env. Qed.
End ends.
Lemma ends_write f (Q : () → Env → Prop) X env :
  Q () (env <| Env.shared ::= f |>) → ends (write f) Q X env.
Proof. intros HQ. by apply ends_locked. Qed.
Lemma ends_send msg (Q : bool → Env → Prop) X env :
  (∀ b env', env'.(Env.shared) = env.(Env.shared) → env'.(Env.sent) = env.(Env.sent) ++ [msg] →
     env'.(Env.inbox) = env.(Env.inbox) → Q b env') →
  ends (send msg) Q X env.
Proof. intros HQ. by apply HQ. Qed.
Lemma ends_reply ty l (Q : () → Env → Prop) X env :
  (∀ env', env'.(Env.shared) = env.(Env.shared) →
     env'.(Env.sent) = env.(Env.sent) ++ [ProtocolMessage.default <| Msg.type := ty |>
       <| Msg.payload := make_payload (fields_of l) |>] → Q () env') →
  ends (reply ty l) Q X env.
Proof. intros HQ. by apply HQ. Qed.
Lemma ends_recv (Q : option ProtocolMessage → Env → Prop) X env :
  Q (head env.(Env.inbox)) (env <| Env.inbox ::= tail |>) → ends recv Q X env.
Proof. done. Qed.

Lemma ends_send_ok msg (Q : bool → Env → Prop) X env :
  env.(Env.links) = [] →
  (∀ env', env'.(Env.shared) = env.(Env.shared) → env'.(Env.inbox) = env.(Env.inbox) →
     env'.(Env.sent) = env.(Env.sent) ++ [msg] → Q true env') →
  ends (send msg) Q X env.
Proof.
  intros Hl HQ. rw /ends /send /= /take_link /= Hl /=. by apply HQ.
Qed.

Lemma ends_await p (Q : option CommandReply → Env → Prop) X env :
  (∀ rep, Q rep env) → ends (Await p Ret) Q X env.
Proof. intros HQ. apply HQ. Qed.

(** A query leaves everything as it is. *)
Lemma ends_query {A} (f : Impl.t → A) (Q : A → Env → Prop) X env :
  Q (f env.(Env.shared).(Shared.runtime)) env → ends (rt (gets f)) Q X env.
Proof. intros HQ. apply ends_rt, wp_gets. by destruct env as [[]]. Qed.

(** ** Checks *)

Definition epoch_is_stale (e : N) (s : Impl.t) : bool :=
  negb (e =? 0) && negb (e =? gen_raw s.(Impl.authority).(Auth.epoch)).
Definition authority_is_stale (a : N) (s : Impl.t) : bool :=
  negb (a =? 0) && negb (a =? gen_raw s.(Impl.authority).(Auth.authority)).

Lemma ends_stale_epoch e (Q : bool → Env → Prop) X env :
  Q (epoch_is_stale e env.(Env.shared).(Shared.runtime)) env → ends (stale_epoch e) Q X env.
Proof.
  rw /epoch_is_stale /stale_epoch. destruct (e =? 0); [done|]. intros HQ.
  apply ends_bind, ends_query. exact HQ.
Qed.
Lemma ends_stale_authority a (Q : bool → Env → Prop) X env :
  Q (authority_is_stale a env.(Env.shared).(Shared.runtime)) env → ends (stale_authority a) Q X env.
Proof.
  rw /authority_is_stale /stale_authority. destruct (a =? 0); [done|]. intros HQ.
  apply ends_bind, ends_query. exact HQ.
Qed.
Lemma ends_check_cycle e a (Q : option string → Env → Prop) X env :
  (∀ err, epoch_is_stale e env.(Env.shared).(Shared.runtime)
    || authority_is_stale a env.(Env.shared).(Shared.runtime) 
    = match err with Some _ => true | None => false end → Q err env) →
  ends (check_cycle e a) Q X env.
Proof.
  intros HQ. rw /check_cycle. apply ends_bind, ends_stale_epoch.
  destruct (epoch_is_stale _ _); [by apply HQ|]. apply ends_bind, ends_stale_authority.
  destruct (authority_is_stale _ _); by apply HQ.
Qed.

(** What [incarnation_is_fenced(k) || drain_state(k).admission_fenced] says. *)
Definition fenced_now (k : EngineIncarnationId) (s : Impl.t) : bool :=
  match (EngineResidency.incarnation_is_fenced k s).1 with
  | Ok b => b
  | Throw _ => true
  end.
Definition is_shut (k : EngineIncarnationId) (s : Impl.t) : bool :=
  fenced_now k s || EngineResidency.admission_fenced k s.

Lemma ends_is_fenced k (Q : bool → Env → Prop) X env :
  Q (fenced_now k env.(Env.shared).(Shared.runtime)) env →
  ends (rt (EngineResidency.incarnation_is_fenced k)) Q X env.
Proof. intros HQ. apply ends_rt. rw /wp /=. by destruct env as [[]]. Qed.
Lemma ends_fenced_or_drained k (Q : bool → Env → Prop) X env :
  Q (is_shut k env.(Env.shared).(Shared.runtime)) env → ends (fenced_or_drained k) Q X env.
Proof.
  rw /is_shut. intros HQ. rw /fenced_or_drained. apply ends_bind, ends_is_fenced.
  destruct (fenced_now _ _); [exact HQ|]. apply ends_bind, ends_query. revert HQ.
  rw /EngineResidency.admission_fenced. by destruct (_ !! k).
Qed.

(** The reply of a handler that refuses with [code]. *)
Definition refused_with (code : ErrorCode) (msg : string) : ProtocolMessage :=
  ProtocolMessage.default <| Msg.type := MessageType.ERROR |>
    <| Msg.payload := make_payload (fields_of
         [("code", to_string (ErrorCode_to_int code)); ("msg", msg)]) |>.

(** ** Properties *)

(** Stale traffic changes nothing: a message that names an epoch other than
    the current one, whatever its type and fields, leaves the whole shared
    state as it is, is answered with a StaleEpoch error and nothing else, and
    the session goes on. *)
Theorem stale_traffic_changes_nothing `{HashOrder} sid k msg env :
  msg.(Msg.epoch) ≠ 0 →
  msg.(Msg.epoch) ≠ gen_raw env.(Env.shared).(Shared.runtime).(Impl.authority).(Auth.epoch) →
  ends (handle sid k msg)
    (λ m env', m = AtSession sid k ∧ env'.(Env.shared) = env.(Env.shared) ∧
       env'.(Env.sent) = env.(Env.sent) ++ [refused_with StaleEpoch "stale epoch traffic"])
    (λ _ _, False) env.
Proof.
  intros H0 Hne. apply ends_bind, ends_stale_epoch. rw /epoch_is_stale.
  rw (proj2 (N.eqb_neq _ _) H0) (proj2 (N.eqb_neq _ _) Hne). cbn [negb andb].
  apply ends_bind, ends_reply. intros env' Hw Hs. by apply ends_ret.
Qed.

(** The messages whose handlers ask first whether the incarnation they are
    about is fenced or draining. *)
Definition asks_if_open (t : MessageType) : bool :=
  match t with
  | MessageType.QUERY_READINESS | MessageType.ACTIVATE | MessageType.ACQUIRE_USE
  | MessageType.RELEASE_USE | MessageType.EXECUTION_RESULT => true
  | _ => false
  end.

Lemma ends_guarded_shut `{HashOrder} target p sid k env :
  is_shut target env.(Env.shared).(Shared.runtime) = true →
  ends (guarded (require_open target;; p);; Ret (AtSession sid k))
    (λ m env', m = AtSession sid k ∧ env'.(Env.shared) = env.(Env.shared) ∧
       env'.(Env.sent) = env.(Env.sent) ++ [refused_with FencedWorker "fenced/drained incarnation"])
    (λ _ _, False) env.
Proof.
  intros Hshut. apply ends_bind, ends_try_domain, ends_bind, ends_bind, ends_fenced_or_drained.
  rw Hshut. apply ends_raise, ends_reply. intros env' Hw Hs. by apply ends_ret.
Qed.

(** C34. Nothing is asked of a fenced or draining incarnation over a session: when
    a session handles a readiness query, an activation, an acquisition, a
    release or an execution result about it, with no other thread in between,
    it answers with a single error, StaleEpoch if the message's epoch is stale
    and FencedWorker otherwise, and changes nothing.  So a use acquired over a
    session before its incarnation began to drain can no longer be released over
    a session. *)
Theorem draining_incarnation_refuses_all `{HashOrder} sid k msg env :
  asks_if_open msg.(Msg.type) = true →
  is_shut (target_of (parse_payload msg.(Msg.payload)) "incarnation_id" k)
    env.(Env.shared).(Shared.runtime) = true →
  ends (handle sid k msg)
    (λ m env', m = AtSession sid k ∧ env'.(Env.shared) = env.(Env.shared) ∧
       env'.(Env.sent) = env.(Env.sent) ++
         [if epoch_is_stale msg.(Msg.epoch) env.(Env.shared).(Shared.runtime)
          then refused_with StaleEpoch "stale epoch traffic"
          else refused_with FencedWorker "fenced/drained incarnation"])
    (λ _ _, False) env.
Proof.
  intros Hasks Hshut. apply ends_bind, ends_stale_epoch. destruct (epoch_is_stale _ _).
  { apply ends_bind, ends_reply. intros env' Hw Hs. by apply ends_ret. }
  rw /dispatch. by destruct (Msg.type msg); try discriminate Hasks; apply ends_guarded_shut.
Qed.

(** *** EXECUTE *)

(** A use just acquired can be released, and the books are as before. *)
Lemma acquire_then_release n s wanted caller tok s1 token outcome detail :
  reachable created n s → n + 2 < 2 ^ 64 →
  EngineResidency.acquire_serving_use wanted caller s = (Ok tok, s1) →
  token.(Tok.use_id) = tok.(Tok.use_id) → token.(Tok.incarnation_id) = wanted.(Tok.incarnation_id) →
  ∃ s2, EngineResidency.release_serving_use token outcome detail s1 = (Ok (), s2) ∧
    s2.(Impl.active_use_count) = s.(Impl.active_use_count) ∧
    (∀ id use, s.(Impl.active_uses) !! id = Some use → s2.(Impl.active_uses) !! id = Some use) ∧
    use_closed tok.(Tok.use_id) s2.
Proof.
  intros Hr Hn Hacq Htok Hinc.
  destruct (reachable_keyed_uses _ n s Hr) as [Hf Hu].
  destruct (wp_ok _ _ _ _ _ _ (acquire_effect wanted caller s) Hacq) as (inc & Hadm & Had).
  pose proof (admitted_invariant n s wanted inc tok s1 _ Hn Hf Hu Hadm Had) as [Ha1 Hd1].
  destruct Hadm as [Hk _ _ _ _ _ Hroom]. pose proof (keyed_lookup s _ _ Hf Hk) as Hid.
  destruct Hu as [(Hc & Hids & Hcount & Hb & Ho) _]. rw /opts_wf in Ho.
  destruct Had as [Htok' (use & Huses & _ & Hrel & Huinc & _) Hcnt _ _ _].
  assert (s.(Impl.active_uses) !! tok.(Tok.use_id) = None) as Hfresh.
  { apply eq_None_not_Some. intros [v Hv]. apply Hids in Hv. revert Hv. rw Htok' /=.
    rw !u64_small; lia. }
  assert (s1.(Impl.active_uses) !! token.(Tok.use_id) = Some use) as Hlook
    by (by rw Htok Huses lookup_insert_eq).
  pose proof (release_effect token outcome detail s1 (λ u, counted_positive (n + 1) s1 _ u Ha1)) as Hrelease.
  rw /wp in Hrelease.
  destruct (EngineResidency.release_serving_use token outcome detail s1) as [[[]|e] s2].
  - exists s2. split; [done|].
    destruct Hrelease as [(u0 & v & _ & _ & _ & Hclosed & _ & Huses2) [_ Hcnt2] _ _].
    split; [rw Hcnt2 Hcnt u64_small; lia|].
    split; [|exists v; by rw Huses2 Htok lookup_insert_eq]. intros id u1 Hid1. assert (id ≠ tok.(Tok.use_id)) as Hne by congruence.
    by rw Huses2 Htok Huses !lookup_insert_ne.
  - destruct Hrelease as (_ & code & msg & _ & Href). revert Href.
    rw /release_refused Hlook Hrel. intros [Hne _]. congruence.
Qed.

Definition answered (cmd : WorkerCommand) (w : SessionShared) : Prop :=
  is_Some (w.(Shared.replies) !! cmd.(Cmd.promise)).

Lemma set_value_answers cmd rep w : answered cmd (set_value cmd.(Cmd.promise) rep w).
Proof.
  rw /answered /set_value. destruct (Shared.replies w !! Cmd.promise cmd) eqn:Hl.
  - rw Hl. by eexists.
  - rw /= lookup_insert_eq. by eexists.
Qed.
Lemma ends_fulfill cmd rep (Q : () → Env → Prop) X env :
  (∀ env', env'.(Env.shared).(Shared.runtime) = env.(Env.shared).(Shared.runtime) →
     answered cmd env'.(Env.shared) →
     env'.(Env.shared) = set_value cmd.(Cmd.promise) rep env.(Env.shared) →
     env'.(Env.sent) = env.(Env.sent) → Q () env') →
  ends (fulfill cmd rep) Q X env.
Proof.
  intros HQ. apply ends_write. apply HQ; [apply set_value_runtime|apply set_value_answers|done..].
Qed.
Lemma ends_fail_all rep q (Q : () → Env → Prop) X env :
  (∀ env', env'.(Env.shared).(Shared.runtime) = env.(Env.shared).(Shared.runtime) → Q () env') →
  ends (fail_all rep q) Q X env.
Proof.
  revert env. induction q as [|c q IH]; intros env HQ; [by apply HQ|].
  apply ends_bind, ends_write, IH. intros env' Hw. apply HQ. rw Hw. apply set_value_runtime.
Qed.
Lemma ends_fail r reason (Q : () → Env → Prop) X env :
  (∀ env', env'.(Env.shared).(Shared.runtime) = env.(Env.shared).(Shared.runtime) → Q () env') →
  ends (fail r reason) Q X env.
Proof.
  intros HQ. apply ends_bind, ends_locked. apply ends_bind, ends_fail_all. intros env' Hw.
  by apply ends_write, HQ.
Qed.

(** What an EXECUTE leaves of the runtime's books. *)
Definition books_kept (s s' : Impl.t) : Prop :=
  s'.(Impl.active_use_count) = s.(Impl.active_use_count) ∧
  ∀ id use, s.(Impl.active_uses) !! id = Some use → s'.(Impl.active_uses) !! id = Some use.

(** A routed EXECUTE never leaks a use: from any state the runtime can be
    in, whatever the command's fields, whether it is refused, the link to the
    worker breaks while sending or while waiting, or the worker answers with a
    result or an error, the dispatcher ends normally with the command answered,
    as many uses active as before, and every earlier use as it was. *)
Theorem routed_execute_balanced `{HashOrder} n r cmd env :
  reachable created n env.(Env.shared).(Shared.runtime) → n + 2 < 2 ^ 64 →
  cmd.(Cmd.type) = MessageType.EXECUTE →
  ends (process r cmd)
    (λ _ env', books_kept env.(Env.shared).(Shared.runtime) env'.(Env.shared).(Shared.runtime) ∧
       answered cmd env'.(Env.shared))
    (λ _ _, False) env.
Proof.
  intros Hr Hn Htype. set (s := env.(Env.shared).(Shared.runtime)) in *.
  assert (books_kept s s) as Hsame by done.
  apply ends_bind, ends_read. set (router := router_at _ _). clearbody router.
  apply ends_bind, ends_check_cycle. intros err _. destruct err as [err|].
  { apply ends_fulfill. intros env' Hw Ha _ _. by rw Hw. }
  rw Htype. apply ends_bind, ends_fenced_or_drained. destruct (is_shut _ _).
  { apply ends_fulfill. intros env' Hw Ha _ _. by rw Hw. }
  apply ends_bind, ends_try_domain, ends_bind, ends_rt. fold s.
  set (wanted := use_request _ _ _).
  pose proof (acquire_effect wanted "coordinator" s) as Hacq. rw /wp in Hacq |- *.
  destruct (EngineResidency.acquire_serving_use wanted "coordinator" s) as [[tok|e] s1] eqn:Hrun.
  2: { destruct Hacq as (_ & [c ->] & He). destruct e as [code what|]; [|done].
    apply ends_ret, ends_fulfill. intros env' Hw Ha _ _. by rw Hw. }
  clear Hacq. apply ends_ret, ends_bind, ends_send.
  intros sent env1 Hw1 _ _. simpl in Hw1.
  assert (∀ outcome detail (k : Prog ()) (Q : () → Env → Prop) X env2,
    env2.(Env.shared) = env1.(Env.shared) →
    (∀ env', books_kept s env'.(Env.shared).(Shared.runtime) → ends k Q X env') →
    ends (release_use_for router tok.(Tok.use_id) outcome detail;; k) Q X env2) as Hrelease.
  { intros outcome detail k Q X env2 Hw2 Hk. apply ends_bind, ends_try_all, ends_rt.
    rw Hw2 Hw1 /=. destruct (acquire_then_release n s wanted "coordinator" tok s1
      (ServingUseToken.default <| Tok.use_id := tok.(Tok.use_id) |>
         <| Tok.incarnation_id := router.(Router.inc) |>
         <| Tok.incarnation_generation := mkGen 1 |>) outcome detail Hr Hn Hrun)
      as (s2 & Hs2 & Hcount & Hkept & _); [done..|].
    rw /wp Hs2. by apply Hk. }
  destruct sent; cbn [negb].
  - apply ends_bind, ends_recv. destruct (head _) as [resp|]; apply Hrelease; try done.
    + intros env3 Hb. apply ends_fulfill. intros env' Hw Ha _ _. by rw Hw.
    + intros env3 Hb. apply ends_bind, ends_fail. intros env4 Hw4. apply ends_fulfill.
      intros env' Hw Ha _ _. by rw Hw Hw4.
  - apply Hrelease; [done|]. intros env3 Hb. apply ends_bind, ends_fail. intros env4 Hw4.
    apply ends_fulfill. intros env' Hw Ha _ _. by rw Hw Hw4.
Qed.

(** *** DRAIN *)

(** A drain is completed on the worker's answer, whatever it is: when the
    worker answers a routed DRAIN at all, even with an error, the dispatcher
    acknowledges the backend cleanup, so an incarnation whose admission is
    fenced and whose uses are all released becomes DRAINED; only the reply to
    the controller tells the error apart. *)
Theorem drain_acknowledged_whatever_the_answer r cmd env resp d :
  let s := env.(Env.shared).(Shared.runtime) in
  let k := (router_at r env.(Env.shared)).(Router.inc) in
  cmd.(Cmd.type) = MessageType.DRAIN →
  epoch_is_stale cmd.(Cmd.epoch) s = false → authority_is_stale cmd.(Cmd.authority) s = false →
  env.(Env.links) = [] → head env.(Env.inbox) = Some resp →
  env.(Env.shared).(Shared.replies) !! cmd.(Cmd.promise) = None →
  s.(Impl.drains) !! k = Some d → d.(Drn.admission_fenced) = true → remaining k s = 0 →
  ends (process r cmd)
    (λ _ env', ∃ d' rep,
       env'.(Env.shared).(Shared.runtime).(Impl.drains) !! k = Some d' ∧
       d'.(Drn.phase) = DrainPhase.DRAINED ∧ d'.(Drn.backend_cleanup_ack) = true ∧
       env'.(Env.shared).(Shared.replies) !! cmd.(Cmd.promise) = Some rep ∧
       rep.(Rep.ok) = negb (bool_decide (resp.(Msg.type) = MessageType.ERROR)))
    (λ _ _, False) env.
Proof.
  intros s k Htype He Ha Hlinks Hinbox Hreply Hd Hfenced Hrem.
  apply ends_bind, ends_read. apply ends_bind, ends_check_cycle. intros err. fold s.
  rw He Ha /=. destruct err as [err|]; [done|]. intros _. rw Htype /process_drain.
  apply ends_bind, ends_send_ok; [done|]. intros env1 Hw1 Hi1 _. cbn [negb].
  apply ends_bind, ends_recv. rw Hi1 Hinbox. apply ends_bind, ends_try_domain, ends_bind, ends_rt.
  change (Env.shared (env1 <| Env.inbox ::= tail |>)) with (Env.shared env1). rw Hw1 -/s -/k.
  pose proof (acknowledge_effect k s) as Hack. rw /wp in Hack |- *.
  destruct (EngineResidency.acknowledge_backend_cleanup k s) as [[[]|e] s1];
    [|destruct Hack as [_ Hnone]; congruence].
  destruct Hack as (d0 & Hd0 & ->). assert (d0 = d) as -> by congruence.
  apply ends_ret, ends_bind, ends_query. cbn [String.eqb].
  apply ends_fulfill. intros env' Hw _ Hset _. exists (acknowledged k s d).
  assert (env'.(Env.shared).(Shared.runtime).(Impl.drains) !! k = Some (acknowledged k s d)) as Hk.
  { by rw Hw /= lookup_insert_eq. }
  eexists. split; [exact Hk|]. split; [by rw /acknowledged /= Hfenced Hrem|].
  split; [by rw /acknowledged /= Hfenced Hrem|].
  split; [by rw Hset /set_value /= Hw1 Hreply /= lookup_insert_eq|].
  rw /with_msg /= andb_true_r. by destruct (bool_decide _), (_ !! "msg"%string).
Qed.

(** *** Routes *)

(** The router a controller's command for [target] goes to. *)
Definition routable (target : EngineIncarnationId) (boot r : N) (w : SessionShared) : Prop :=
  w.(Shared.worker_router) !! target = Some r ∧
  (boot = 0 ∨ gen_raw (router_at r w).(Router.worker_boot) = boot) ∧
  (router_at r w).(Router.ready) = true.

Lemma ends_find_router target boot (Q : string + N → Env → Prop) X env :
  (∀ why, (∀ r, ¬ routable target boot r env.(Env.shared)) → Q (inl why) env) →
  (∀ r, routable target boot r env.(Env.shared) → Q (inr r) env) →
  ends (find_router target boot) Q X env.
Proof.
  intros Hno Hyes. rw /routable in Hno Hyes |- *. apply ends_bind, ends_read.
  destruct (Shared.worker_router (Env.shared env) !! target) as [r|] eqn:Hr;
    [|apply Hno; intros r [? _]; congruence].
  apply ends_bind, ends_read.
  destruct (N.eqb_spec boot 0) as [->|Hboot]; cbn [negb andb].
  - destruct (Router.ready _) eqn:Hready; cbn [negb]; [apply Hyes; auto|].
    apply Hno. intros r' [[= <-] [_ ?]]. congruence.
  - destruct (N.eqb_spec (Generation.raw (Router.worker_boot (router_at r (Env.shared env)))) boot) as [Hb|Hb];
      cbn [negb].
    + destruct (Router.ready _) eqn:Hready; cbn [negb]; [apply Hyes; auto|].
      apply Hno. intros r' [[= <-] [_ ?]]. congruence.
    + apply Hno. intros r' [[= <-] [[?|?] _]]; [done|]. by apply Hb.
Qed.

Lemma ends_reply_to_controller rep id e a (Q : () → Env → Prop) X env :
  (∀ ack env', env'.(Env.shared) = env.(Env.shared) → env'.(Env.sent) = env.(Env.sent) ++ [ack] →
     ack.(Msg.type) = (if rep.(Rep.ok) then MessageType.REGISTER_ACK else MessageType.ERROR) →
     Q () env') →
  ends (reply_to_controller rep id e a) Q X env.
Proof.
  intros HQ. apply ends_bind, ends_send. intros b env' Hw Hs _. apply ends_ret.
  by eapply HQ.
Qed.

(** Commands reach only the worker they name: a controller's EXECUTE or
    DRAIN for an incarnation no worker is bound to, for another boot of its
    worker, or for a worker that is not command-ready changes nothing and is
    answered with an error; any other EXECUTE does nothing but join the queue
    of the router bound to its target. *)
Theorem commands_reach_their_worker `{HashOrder} f e a target boot env :
  ends (route_execute f e a target boot)
    (λ _ env',
       (∀ r, ¬ routable target boot r env.(Env.shared)) ∧ env'.(Env.shared) = env.(Env.shared) ∧
         (∃ ack, env'.(Env.sent) = env.(Env.sent) ++ [ack] ∧ ack.(Msg.type) = MessageType.ERROR) ∨
       ∃ r, routable target boot r env.(Env.shared) ∧
         env'.(Env.shared) = (enqueue r MessageType.EXECUTE (u f "cmd_id" 0) e a f env.(Env.shared)).2)
    (λ _ _, False) env ∧
  ((∀ r, ¬ routable target boot r env.(Env.shared)) →
   ends (route_drain f e a target boot)
     (λ _ env', env'.(Env.shared) = env.(Env.shared) ∧
        ∃ ack, env'.(Env.sent) = env.(Env.sent) ++ [ack] ∧ ack.(Msg.type) = MessageType.ERROR)
     (λ _ _, False) env).
Proof.
  split.
  - apply ends_bind, ends_find_router.
    + intros why Hno. apply ends_reply_to_controller. intros ack env' Hw Hs Ht. left. naive_solver.
    + intros r Hr. apply ends_bind, ends_locked.
      destruct (enqueue r MessageType.EXECUTE (u f "cmd_id" 0) e a f (Env.shared env)) as [p w'] eqn:Hq.
      apply ends_bind, ends_await. intros [rep|];
        eapply ends_reply_to_controller; intros ack env' Hw Hs Ht; right; exists r; (split; [exact Hr|by rw Hw Hq]).
  - intros Hno. apply ends_bind, ends_find_router; [|intros r Hr; by destruct (Hno r)].
    intros why _. apply ends_reply_to_controller. intros ack env' Hw Hs Ht. naive_solver.
Qed.

(** *** REGISTER *)

(** Registration binds the session: from any state that operations and loads of
    states with low identities reach, a
    REGISTER either is answered with an error and leaves the routing registry
    and the session tables alone, the session keeping its incarnation; or it
    files a new incarnation of the worker and boot the message names, and binds
    the session, the boot and a fresh router, not yet accepting commands, to
    that incarnation. *)
Theorem register_binds_session `{HashOrder} n sid k f env :
  reachable_under low_identities created n env.(Env.shared).(Shared.runtime) → n + 3 < 2 ^ 64 →
  ends (on_register sid k f)
    (λ k' env',
       (k' = k ∧ ∃ s, env'.(Env.shared) = env.(Env.shared) <| Shared.runtime := s |>) ∨
       (env.(Env.shared).(Shared.runtime).(Impl.incarnations) !! k' = None ∧
        (∃ i, env'.(Env.shared).(Shared.runtime).(Impl.incarnations) !! k' = Some i ∧
          i.(Inc.worker_id) = mkId (u f "worker_id" 1) ∧ i.(Inc.worker_boot) = mkGen (u f "worker_boot" 1)) ∧
        env'.(Env.shared).(Shared.session_inc) !! sid = Some k' ∧
        env'.(Env.shared).(Shared.boot_to_inc) !! (u f "worker_id" 1, u f "worker_boot" 1) = Some k' ∧
        ∃ r, env'.(Env.shared).(Shared.worker_router) !! k' = Some r ∧
          env'.(Env.shared).(Shared.routers) !! r =
            Some (Router.make sid (mkId (u f "worker_id" 1)) (mkGen (u f "worker_boot" 1)) k' (mkId 1))))
    (λ _ _, False) env.
Proof.
  intros Hr Hn. set (s := env.(Env.shared).(Shared.runtime)) in *.
  apply ends_try_domain, ends_bind, ends_rt. fold s.
  set (w := mkId (t := WorkerIdTag) (u f "worker_id" 1)). set (b := mkGen (t := WorkerBootIdTag) (u f "worker_boot" 1)).
  set (src := mkId (t := SourceIdTag) (u f "source_id" 1)). set (sb := mkGen (t := SourceBootIdTag) (u f "source_boot" 1)).
  assert (wp (EngineResidency.issue_registration_permit w b src sb)
    (λ _ s1, s1.(Impl.incarnations) = s.(Impl.incarnations)) (λ e _, e ≠ StdOutOfRange) s) as Hissue
    by (wp_go; done).
  assert (reachable_under low_identities created (n + 1) (run_op (IssueRegistrationPermit w b src sb) s).2) as Hr1.
  { eapply reachable_step; [done|lia|]. by eexists _, _. }
  revert Hr1. cbn [run_op]. rw /discard /wp in Hissue |- *.
  rw {1}/mbind /M_bind. destruct (EngineResidency.issue_registration_permit w b src sb s) as [[permit|err] s1].
  2: { intros _. destruct err as [code what|]; [|done]. apply ends_bind, ends_reply.
    intros env' Hw _. apply ends_ret. left. split; [done|]. eexists. exact Hw. }
  cbn [snd]. intros Hr1. apply ends_bind, ends_rt.
  match goal with |- wp _ _ _ ?s2 => change s2 with s1 end.
  assert (wp (EngineResidency.register_incarnation (incarnation_of f) permit)
    (λ _ _, True) (λ e _, e ≠ StdOutOfRange) s1) as Hexn by (wp_go; done).
  destruct (reachable_authority _ _ _ Hr1) as [Hstart _].
  pose proof (register_ok (n + 1) (incarnation_of f) permit s1 (low_filed _ _ Hr1)
    ltac:(lia) Hstart) as Hreg.
  rw /wp in Hexn Hreg |- *.
  destruct (EngineResidency.register_incarnation (incarnation_of f) permit s1) as [[i|err] s2].
  2: { destruct err as [code what|]; [|done]. apply ends_bind, ends_reply.
    intros env' Hw _. apply ends_ret. left. split; [done|]. rw Hw. by eexists. }
  destruct Hreg as [_ [Hfresh Hstored (Hwid & Hboot & Heng) _ _ _ _]].
  apply ends_bind, ends_write, ends_bind, ends_query, ends_bind, ends_query, ends_bind, ends_reply.
  intros env' Hw _. apply ends_ret. right. rw Hw.
  rw Hissue in Hfresh. split; [exact Hfresh|].
  split; [exists i; split_and!; [by rw /= Hstored lookup_insert_eq|done..]|].
  rw /bind_session /= !lookup_insert_eq. split; [done|]. split; [done|].
  eexists. split; [reflexivity|]. by rw lookup_insert_eq Heng.
Qed.
