(* ===== verification/Schedules.v ===== *)
(** * Schedules

    The coordinator's transition system made executable: a schedule drives
    named threads with given answers, every schedule is a run of the system,
    and a worker and a controller acted out on it are the input of the
    witnesses about the coordinator. *)

From S2P Require Import Prelude Identities Enums Model Reference Codec Frame Payload Readiness.
From S2P Require Import Economics Standby Runtime Loading Transitions Scenario Helpers Tables Incarnations ServingUse.
From S2P Require Import Persistence Recovery Threads Routing Sessions System Commands.
Local Open Scope N_scope.

(** ** Execution *)

(** What the outside answers to a step: a message (or the end of the stream),
    the result of a send or of opening a file, or the timer; [Go] sends
    successfully and takes the reply. *)
Inductive Answer :=
  | Message (om : option ProtocolMessage)
  | Result (b : bool)
  | Elapsed
  | Go.

Definition exec_prog {A} (a : Answer) (w : SessionShared) (p : Prog A) : option (SessionShared * Prog A) :=
  match p with
  | Ret _ | Raise _ => None
  | Act m k => let '(o, w') := m w in Some (w', k o)
  | Recv k => match a with Message om => Some (w, k om) | _ => None end
  | Send _ k => match a with Result b => Some (w, k b) | Go => Some (w, k true) | _ => None end
  | WriteFile _ _ k => match a with Result b => Some (w, k b) | Go => Some (w, k true) | _ => None end
  | Await p k =>
    match a with
    | Elapsed => Some (w, k None)
    | Go => match w.(Shared.replies) !! p with Some rep => Some (w, k (Some rep)) | None => None end
    | _ => None
    end
  | Dequeue r k =>
    let router := router_at r w in
    match router.(Router.queue) with
    | cmd :: q => Some (set_router r (λ x, x <| Router.queue := q |>) w, k (Some cmd))
    | [] => if router.(Router.alive) then None else Some (w, k None)
    end
  end.

Lemma exec_prog_sound {A} a w (p : Prog A) w' p' :
  exec_prog a w p = Some (w', p') → prog_step w p w' p'.
Proof.
  destruct p as [| |B m k|k|msg k|pr k|r k|path blob k]; cbn [exec_prog]; try done.
  - destruct (m w) as [o w1] eqn:Hm. intros [= <- <-]. by constructor.
  - destruct a; [|done..]. intros [= <- <-]. constructor.
  - destruct a; try done; intros [= <- <-]; constructor.
  - destruct a; try done; [intros [= <- <-]; constructor|].
    destruct (_ !! pr) eqn:Hrep; [|done]. intros [= <- <-]. by constructor.
  - destruct (Router.queue _) as [|cmd q] eqn:Hq; [|intros [= <- <-]; by constructor].
    destruct (Router.alive _) eqn:Ha; [done|]. intros [= <- <-]. by constructor.
  - destruct a; try done; intros [= <- <-]; constructor.
Qed.

(** The next step of a thread, which is the next round when it is at the head
    of its loop. *)
Definition exec_thread (t : N) (a : Answer) (σ : Coordinator) : option Coordinator :=
  match σ.(Coordinator.threads) !! t with
  | None => None
  | Some (Ret m) => Some (Coordinator.mk σ.(Coordinator.shared) (<[t := resume m]> σ.(Coordinator.threads)))
  | Some p =>
    match exec_prog a σ.(Coordinator.shared) p with
    | Some (w, p) => Some (Coordinator.mk w (<[t := p]> σ.(Coordinator.threads)))
    | None => None
    end
  end.
Definition connect (t : N) (σ : Coordinator) : Coordinator :=
  match σ.(Coordinator.threads) !! t with
  | Some _ => σ
  | None => Coordinator.mk σ.(Coordinator.shared) (<[t := start_session]> σ.(Coordinator.threads))
  end.

Lemma exec_thread_sound t a σ σ' : exec_thread t a σ = Some σ' → sys_step σ σ'.
Proof.
  destruct σ as [w ts]. rw /exec_thread /=. destruct (ts !! t) as [p|] eqn:Ht; [|done].
  assert (match exec_prog a w p with
    | Some (w, p) => Some (Coordinator.mk w (<[t := p]> ts)) | None => None end = Some σ' →
    sys_step (Coordinator.mk w ts) σ') as Hexec.
  { destruct (exec_prog a w p) as [[w' p']|] eqn:He; [|done]. intros [= <-].
    eapply sys_thread; [done|by eapply exec_prog_sound]. }
  destruct p; try exact Hexec. intros [= <-]. by eapply sys_loop.
Qed.

(** Let a thread run until it waits for the outside. *)
Fixpoint settle (fuel : nat) (t : N) (σ : Coordinator) : Coordinator :=
  match fuel with
  | O => σ
  | S fuel =>
    match exec_thread t Go σ with
    | Some σ' => settle fuel t σ'
    | None => σ
    end
  end.
(** One message to a thread that waits for one, and what it does about it. *)
Definition deliver (fuel : nat) (t : N) (msg : ProtocolMessage) (σ : Coordinator) : Coordinator :=
  match exec_thread t (Message (Some msg)) σ with
  | Some σ' => settle fuel t σ'
  | None => σ
  end.
Definition join (fuel : nat) (t : N) (σ : Coordinator) : Coordinator := settle fuel t (connect t σ).

(** *** Every schedule is a run *)

Definition run_within (n : N) (σ : Coordinator) : Prop := ∃ m, m <= n ∧ sys_reachable None m σ.

Lemma settle_reachable fuel : ∀ t n σ,
  run_within n σ → n + N.of_nat fuel + 2 < 2 ^ 64 → run_within (n + N.of_nat fuel) (settle fuel t σ).
Proof.
  induction fuel as [|fuel IH]; intros t n σ (m & Hm & Hr) Hn; [exists m; split; [lia|done]|].
  cbn [settle]. destruct (exec_thread t Go σ) as [σ'|] eqn:He; [|exists m; split; [lia|done]].
  replace (n + N.of_nat (S fuel)) with ((n + 1) + N.of_nat fuel) by lia. apply IH; [|lia].
  exists (m + 1). split; [lia|]. eapply sys_more; [done|lia|]. by eapply exec_thread_sound.
Qed.
Lemma deliver_reachable fuel t msg n σ :
  run_within n σ → n + N.of_nat (S fuel) + 2 < 2 ^ 64 →
  run_within (n + N.of_nat (S fuel)) (deliver fuel t msg σ).
Proof.
  intros (m & Hm & Hr) Hn. rw /deliver.
  destruct (exec_thread t _ σ) as [σ'|] eqn:He; [|exists m; split; [lia|done]].
  replace (n + N.of_nat (S fuel)) with ((n + 1) + N.of_nat fuel) by lia. apply settle_reachable; [|lia].
  exists (m + 1). split; [lia|]. eapply sys_more; [done|lia|]. by eapply exec_thread_sound.
Qed.
Lemma join_reachable fuel t n σ :
  run_within n σ → n + N.of_nat (S fuel) + 2 < 2 ^ 64 →
  run_within (n + N.of_nat (S fuel)) (join fuel t σ).
Proof.
  intros (m & Hm & Hr) Hn. rw /join /connect.
  replace (n + N.of_nat (S fuel)) with ((n + 1) + N.of_nat fuel) by lia.
  apply settle_reachable; [|lia]. destruct (Coordinator.threads σ !! t) eqn:Ht; [exists m; split; [lia|done]|].
  exists (m + 1). split; [lia|]. eapply sys_more; [done|lia|]. destruct σ. by constructor.
Qed.

(** What a thread does leaves the other threads where they are. *)
Lemma exec_thread_elsewhere t t' a σ σ' :
  t ≠ t' → exec_thread t' a σ = Some σ' → σ'.(Coordinator.threads) !! t = σ.(Coordinator.threads) !! t.
Proof.
  intros Hne. rw /exec_thread. destruct (_ !! t') as [p|]; [|done].
  assert (match exec_prog a σ.(Coordinator.shared) p with
    | Some (w, p) => Some (Coordinator.mk w (<[t' := p]> σ.(Coordinator.threads))) | None => None end = Some σ' →
    σ'.(Coordinator.threads) !! t = σ.(Coordinator.threads) !! t) as Hexec.
  { destruct (exec_prog a _ p) as [[w' p']|]; [|done]. intros [= <-]. cbn. by rw lookup_insert_ne. }
  destruct p; try exact Hexec. intros [= <-]. cbn. by rw lookup_insert_ne.
Qed.
Lemma settle_keeps fuel t t' σ :
  t ≠ t' → (settle fuel t' σ).(Coordinator.threads) !! t = σ.(Coordinator.threads) !! t.
Proof.
  intros Hne. revert σ. induction fuel as [|fuel IH]; intros σ; [done|]. cbn [settle].
  destruct (exec_thread t' Go σ) as [σ'|] eqn:He; [|done]. rw IH. by eapply exec_thread_elsewhere.
Qed.
Lemma deliver_keeps fuel t t' msg σ :
  t ≠ t' → (deliver fuel t' msg σ).(Coordinator.threads) !! t = σ.(Coordinator.threads) !! t.
Proof.
  intros Hne. rw /deliver. destruct (exec_thread t' _ σ) as [σ'|] eqn:He; [|done].
  rw settle_keeps; [by eapply exec_thread_elsewhere|done].
Qed.
Lemma join_keeps fuel t t' σ :
  t ≠ t' → (join fuel t' σ).(Coordinator.threads) !! t = σ.(Coordinator.threads) !! t.
Proof.
  intros Hne. rw /join settle_keeps; [|done]. rw /connect. destruct (Coordinator.threads σ !! t'); [done|].
  cbn. by rw lookup_insert_ne.
Qed.

(** ** A worker and a controller *)

Definition request (ty : MessageType) (l : list (string * string)) : ProtocolMessage :=
  ProtocolMessage.default <| Msg.type := ty |> <| Msg.payload := make_payload (fields_of l) |>.

Definition demo_boot : Coordinator := booted demo_clock None.
(** Worker 1 registers and turns command-ready. *)
Definition demo_registered : Coordinator :=
  deliver 30 0 (request MessageType.REGISTER [("worker_id", "1"); ("worker_boot", "1")]) (join 30 0 demo_boot).
Definition demo_command_ready : Coordinator :=
  deliver 30 0 (request MessageType.COMMAND_READY []) demo_registered.
(** A controller asks for an execution on it. *)
Definition demo_routed : Coordinator :=
  deliver 30 1 (request MessageType.EXECUTE [("target_incarnation", "2"); ("cmd_id", "9")])
    (join 30 1 demo_command_ready).

Lemma demo_routed_reachable : run_within 157 demo_routed.
Proof.
  apply (deliver_reachable 30 1 _ 126); [|vm_compute; reflexivity].
  apply (join_reachable 30 1 95); [|vm_compute; reflexivity].
  apply (deliver_reachable 30 0 _ 64); [|vm_compute; reflexivity].
  apply (deliver_reachable 30 0 _ 33); [|vm_compute; reflexivity].
  apply (join_reachable 30 0 2); [|vm_compute; reflexivity].
  exists 2. split; [lia|]. exact (@sys_booted None demo_clock).
Qed.

Definition queue_of (r : N) (σ : Coordinator) : list N :=
  Cmd.command_id <$> (router_at r σ.(Coordinator.shared)).(Router.queue).
Example demo_routed_queue : queue_of 0 demo_routed = [9].
Proof. vm_compute. reflexivity. Qed.

(** The worker's dispatcher takes the command. *)
Definition demo_taken : Coordinator := default demo_routed (exec_thread 0 Go demo_routed).
Example demo_taken_queue : queue_of 0 demo_taken = [].
Proof. vm_compute. reflexivity. Qed.
Lemma demo_taken_step : sys_step demo_routed demo_taken.
Proof.
  apply (exec_thread_sound 0 Go). rw /demo_taken.
  assert (match exec_thread 0 Go demo_routed with Some _ => true | None => false end = true) as H
    by (vm_compute; reflexivity).
  by destruct (exec_thread 0 Go demo_routed).
Qed.

Lemma coordinator_refines_runtime_witness :
  ∃ m, m <= 157 ∧ reachable created m demo_routed.(Coordinator.shared).(Shared.runtime).
Proof.
  destruct demo_routed_reachable as (n & Hn & Hr).
  destruct (coordinator_refines_runtime None n demo_routed Hr) as (m & Hm & Hreach).
  exists m. split; [lia|exact Hreach].
Defined.
Lemma commands_queued_in_order_witness :
  queue_of 0 demo_routed = [9] ∧ queue_of 0 demo_taken = [] ∧
  routers_kept demo_routed.(Coordinator.shared) demo_taken.(Coordinator.shared).
Proof.
  split; [vm_compute; reflexivity|]. split; [vm_compute; reflexivity|].
  destruct demo_routed_reachable as (n & Hn & Hr).
  exact (proj1 (commands_queued_in_order None n demo_routed demo_taken Hr demo_taken_step)).
Defined.

(** ** Threads alone *)

(** A session and worker 1's router on the runtime [s], with what the peer
    sends. *)
Definition demo_env (s : Impl.t) (inbox : list ProtocolMessage) : Env := {|
  Env.shared := (SessionShared.make s)
    <| Shared.routers := {[ 0 := Router.make 1 (mkId 1) (mkGen 1) (mkId 2) (mkId 1) ]} |>;
  Env.inbox := inbox; Env.links := []; Env.sent := [];
|}.
Definition demo_command (ty : MessageType) : WorkerCommand :=
  {| Cmd.type := ty; Cmd.command_id := 9; Cmd.epoch := 1; Cmd.authority := 1; Cmd.params := ∅;
     Cmd.promise := 0 |}.
Definition frames_sent {A} (p : Prog A) (env : Env) : nat := length (alone p env).2.(Env.sent).

Lemma ends_run {A} (p : Prog A) Q env :
  ends p Q (λ _ _, False) env → ∃ a env', alone p env = (Ok a, env') ∧ Q a env'.
Proof. rw /ends. destruct (alone p env) as [[a|e] env']; [|done]. by exists a, env'. Qed.

Lemma stale_traffic_changes_nothing_witness :
  let env := demo_env demo_ready [] in
  let msg := (request MessageType.FENCE_WORKER [("worker_id", "1")]) <| Msg.epoch := 7 |> in
  ∃ m env', alone (handle 1 id0 msg) env = (Ok m, env') ∧ env'.(Env.shared) = env.(Env.shared) ∧
    length env'.(Env.sent) = 1%nat.
Proof.
  intros env msg.
  destruct (ends_run _ _ _ (stale_traffic_changes_nothing 1 id0 msg env ltac:(discriminate) ltac:(vm_compute; discriminate)))
    as (m & env' & Hrun & _ & Hw & Hs).
  exists m, env'. split; [exact Hrun|]. split; [exact Hw|]. rw Hs. reflexivity.
Defined.

(** Two uses were acquired before the drain; the message would release one. *)
Lemma draining_incarnation_refuses_all_witness :
  let env := demo_env demo_in_use [] in
  let msg := request MessageType.RELEASE_USE [("incarnation_id", "2"); ("use_id", "2")] in
  remaining (mkId 2) demo_in_use = 2 ∧
  ∃ m env', alone (handle 1 id0 msg) env = (Ok m, env') ∧ env'.(Env.shared) = env.(Env.shared).
Proof.
  intros env msg. split; [vm_compute; reflexivity|].
  destruct (ends_run _ _ _ (draining_incarnation_refuses_all 1 id0 msg env
    ltac:(reflexivity) ltac:(vm_compute; reflexivity)))
    as (m & env' & Hrun & _ & Hw & _).
  exists m, env'. split; [exact Hrun|exact Hw].
Defined.

Lemma routed_execute_balanced_witness :
  let env := demo_env demo_ready [request MessageType.ERROR [("msg", "device lost")]] in
  frames_sent (process 0 (demo_command MessageType.EXECUTE)) env = 1%nat ∧
  ∃ a env', alone (process 0 (demo_command MessageType.EXECUTE)) env = (Ok a, env') ∧
    books_kept demo_ready env'.(Env.shared).(Shared.runtime).
Proof.
  intros env. split; [vm_compute; reflexivity|].
  destruct (ends_run _ _ _ (routed_execute_balanced 12 0 (demo_command MessageType.EXECUTE) env
    demo_ready_reachable ltac:(vm_compute; reflexivity) eq_refl)) as (a & env' & Hrun & Hb & _).
  exists a, env'. split; [exact Hrun|exact Hb].
Defined.

Definition demo_draining : Impl.t := run_ops [RequestDrain (mkId 2)] demo_ready.
Definition demo_drain : DrainState := drains_at (mkId 2) demo_draining.

Lemma drain_acknowledged_whatever_the_answer_witness :
  let env := demo_env demo_draining [request MessageType.ERROR [("msg", "cleanup failed")]] in
  demo_drain.(Drn.phase) = DrainPhase.BACKEND_CLEANUP_PENDING ∧
  ∃ a env' d', alone (process 0 (demo_command MessageType.DRAIN)) env = (Ok a, env') ∧
    env'.(Env.shared).(Shared.runtime).(Impl.drains) !! mkId 2 = Some d' ∧
    d'.(Drn.phase) = DrainPhase.DRAINED.
Proof.
  intros env. split; [vm_compute; reflexivity|].
  assert (demo_draining.(Impl.drains) !! mkId 2 = Some demo_drain) as Hd by (vm_compute; reflexivity).
  assert (demo_drain.(Drn.admission_fenced) = true) as Hf by (vm_compute; reflexivity).
  destruct (ends_run _ _ _ (drain_acknowledged_whatever_the_answer 0 (demo_command MessageType.DRAIN) env
    (request MessageType.ERROR [("msg", "cleanup failed")]) demo_drain
    eq_refl ltac:(vm_compute; reflexivity) ltac:(vm_compute; reflexivity) eq_refl eq_refl eq_refl
    Hd Hf ltac:(vm_compute; reflexivity)))
    as (a & env' & Hrun & d' & rep & Hk & Hph & _).
  exists a, env', d'. split; [exact Hrun|]. split; [exact Hk|exact Hph].
Defined.

Lemma register_binds_session_witness :
  let env := demo_env demo_ready [] in
  let f := fields_of [("worker_id", "5"); ("worker_boot", "1")] in
  ∃ k env', alone (on_register 1 id0 f) env = (Ok k, env') ∧ k ≠ id0 ∧
    env'.(Env.shared).(Shared.session_inc) !! 1 = Some k.
Proof.
  intros env f.
  destruct (ends_run _ _ _ (register_binds_session 12 1 id0 f env demo_ready_reachable
    ltac:(vm_compute; reflexivity))) as (k & env' & Hrun & Hcase).
  assert (match (alone (on_register 1 id0 f) env).1 with
    | Ok k => id_raw k =? 3 | Throw _ => false end = true) as Hk by (vm_compute; reflexivity).
  rw Hrun in Hk. apply N.eqb_eq in Hk. assert (k ≠ id0) as Hne by (intros ->; discriminate Hk).
  exists k, env'. split; [exact Hrun|]. split; [exact Hne|].
  destruct Hcase as [[Heq _]|(_ & _ & Hs & _)]; [destruct (Hne Heq)|exact Hs].
Defined.
