(* ===== verification/Suites.v ===== *)
(** * The repository's tests

    The test programs under [src/tests/] that drive the runtime, translated
    statement by statement and run on the model: every check they make holds
    of it, so the definitions agree with the code on what its authors test. *)

From S2P Require Import Prelude Identities Enums Model Reference Codec Frame Payload Readiness.
From S2P Require Import Economics Standby Runtime Loading Transitions Persistence Recovery.
From Stdlib Require Import Ascii.
Local Open Scope N_scope.

(** ** Test programs *)

(** A runtime under test, and the messages of the checks that failed
    ([er_test::g_failures] counts them). *)
Module Suite.
Record t := mk {
  runtime : Impl.t;
  failures : list string;
}.
#[global] Instance eta : Eta t := fields! mk <runtime; failures>.
End Suite.
Abbreviation Suite := (M Suite.t Exn).

Definition on {A} (m : Run A) : Suite A := λ t,
  let '(o, s) := m t.(Suite.runtime) in (o, t <| Suite.runtime := s |>).
(** [CHECK], [CHECK_EQ] *)
Definition check (cond : bool) (msg : string) : Suite () :=
  if cond then mret () else modify (λ t, t <| Suite.failures ::= λ l, l ++ [msg] |>).
Definition expect_throws {A} (fn : Suite A) (msg : string) : Suite () := λ t,
  match fn t with
  | (Throw (DomainError _ _), t') => (Ok (), t')
  | (_, t') => check false msg t'
  end.
(** [try { fn } catch (...) {}] *)
Definition swallow {A} (fn : Suite A) : Suite () := λ t, (Ok (), (fn t).2).
(** A block with a runtime of its own. *)
Definition with_runtime {A} (s : Impl.t) (block : Suite A) : Suite A := λ t,
  let '(o, t') := block (t <| Suite.runtime := s |>) in (o, t' <| Suite.runtime := t.(Suite.runtime) |>).
(** What a test program reports: the failed checks, or nothing when an
    exception ended it. *)
Definition report {A} (main : Suite A) (s : Impl.t) : option (list string) :=
  match main (Suite.mk s []) with
  | (Ok _, t) => Some t.(Suite.failures)
  | (Throw _, _) => None
  end.

Section suites.
Context `{Ord : HashOrder} (clock : Clock).

Definition make_runtime : Impl.t := EngineResidency.create clock RuntimeOptions.default.

(** ** testutil.hpp *)

Definition test_requirement (category : ComponentCategory.t) (min_state : ComponentState.t)
    (subject : string) : ProfileRequirement :=
  ProfileRequirement.default
    <| Req.category := category |> <| Req.kind := RequirementKind.REQUIRED |>
    <| Req.min_state := min_state |> <| Req.subject := subject |>.
Definition test_key : CompatibilityKey := Key.with_namespace "ref/v1".
(** The definition is the reference engine's, field by field. *)
Definition seed_engine : Suite ReadinessProfileId :=
  let def := reference_definition in
  on (EngineResidency.define_engine def);;
  let prof := ReadinessProfile.default
    <| Prof.profile_id := mkId 1 |> <| Prof.profile_generation := mkGen 1 |>
    <| Prof.engine_id := def.(Def.engine_id) |> <| Prof.engine_generation := def.(Def.engine_generation) |>
    <| Prof.name := "reference-bs1" |> <| Prof.max_batch := 1 |> <| Prof.max_seq_len := 4096 |>
    <| Prof.dtype := "fp32" |> <| Prof.layout := "row-major" |>
    <| Prof.workspace_bytes := 2 ^ 16 |> <| Prof.model_bytes := 2 ^ 20 |>
    <| Prof.kv_capacity_entries := 1024 |> <| Prof.graph_required := true |>
    <| Prof.graph_optional_fallback := false |> <| Prof.warmup_required := true |>
    <| Prof.compatibility := test_key |>
    <| Prof.requirements :=
      [test_requirement ComponentCategory.BACKEND ComponentState.VERIFIED "";
       test_requirement ComponentCategory.DEVICE_CONTEXT ComponentState.BOUND "";
       (test_requirement ComponentCategory.MODEL ComponentState.VERIFIED "reference-model")
         <| Req.generation_family := GenerationFamily.MODEL |> <| Req.compatibility := test_key |>;
       (test_requirement ComponentCategory.KV_CAPACITY ComponentState.BOUND "kv-main")
         <| Req.generation_family := GenerationFamily.KV_CAPACITY |>;
       (test_requirement ComponentCategory.KERNEL ComponentState.VERIFIED "er-reference-kernel")
         <| Req.generation_family := GenerationFamily.KERNEL |> <| Req.compatibility := test_key |>;
       (test_requirement ComponentCategory.GRAPH ComponentState.VERIFIED "er-reference-graph")
         <| Req.generation_family := GenerationFamily.GRAPH |>;
       test_requirement ComponentCategory.WARMUP ComponentState.VERIFIED "warmup"] |> in
  on (EngineResidency.define_profile prof);;
  mret prof.(Prof.profile_id).

Definition register_worker (worker_id boot : N) : Suite EngineIncarnationId :=
  permit ← on (EngineResidency.issue_registration_permit (mkId worker_id) (mkGen boot) (mkId 1) (mkGen boot));
  let inc := EngineIncarnation.default
    <| Inc.engine_id := mkId 1 |> <| Inc.engine_generation := mkGen 1 |>
    <| Inc.config_generation := mkGen 1 |>
    <| Inc.worker_id := mkId worker_id |> <| Inc.worker_boot := mkGen boot |>
    <| Inc.source_id := mkId 1 |> <| Inc.source_boot := mkGen boot |>
    <| Inc.process ::= λ p, p <| pid := u32 (1000 + worker_id) |> <| label := "worker" |> |>
    <| Inc.backend_id := mkId 1 |> <| Inc.backend_generation := mkGen 1 |> in
  reg ← on (EngineResidency.register_incarnation inc permit);
  mret reg.(Inc.incarnation_id).

(** The evidence the tests build by hand: measured and verified, in the
    current epoch. *)
Definition evidence_for (inc : EngineIncarnationId) (category : ComponentCategory.t) (subject : string)
    (epoch : CoordinatorEpoch) : ComponentEvidence :=
  ComponentEvidence.default
    <| Ev.incarnation_id := inc |> <| Ev.engine_id := mkId 1 |> <| Ev.engine_generation := mkGen 1 |>
    <| Ev.category := category |> <| Ev.state := ComponentState.VERIFIED |> <| Ev.subject := subject |>
    <| Ev.provenance := Provenance.MEASURED |> <| Ev.coordinator_epoch := epoch |>.
Definition publish (ev : CoordinatorEpoch → ComponentEvidence) : Suite () :=
  e ← on EngineResidency.current_epoch; on (EngineResidency.publish_component (ev e));; mret ().

Definition publish_reference_evidence (inc : EngineIncarnationId) (epoch : CoordinatorEpoch) (warmup : bool)
    : Suite () :=
  let pub cat st subj detail :=
    on (EngineResidency.publish_component ((evidence_for inc cat subj epoch)
      <| Ev.state := st |> <| Ev.namespace_ := "er" |> <| Ev.detail := detail |>
      <| Ev.model_generation := mkGen 1 |> <| Ev.kv_capacity_generation := mkGen 1 |>
      <| Ev.kernel_generation := mkGen 1 |> <| Ev.graph_generation := mkGen 1 |>
      <| Ev.compatibility := test_key |>));; mret () in
  pub ComponentCategory.BACKEND ComponentState.VERIFIED "backend-reference" "verified";;
  pub ComponentCategory.DEVICE_CONTEXT ComponentState.BOUND "device-context-0" "bound";;
  pub ComponentCategory.MODEL ComponentState.VERIFIED "reference-model" "verified";;
  pub ComponentCategory.KV_CAPACITY ComponentState.BOUND "kv-main" "provisioned";;
  pub ComponentCategory.KERNEL ComponentState.VERIFIED "er-reference-kernel" "verified";;
  pub ComponentCategory.GRAPH ComponentState.VERIFIED "er-reference-graph" "replayed";;
  (if warmup then pub ComponentCategory.WARMUP ComponentState.VERIFIED "warmup" "verified" else mret ()).
Definition publish_all (inc : EngineIncarnationId) : Suite () :=
  e ← on EngineResidency.current_epoch; publish_reference_evidence inc e true.

(** The loop over [rt.incarnations()] for the one of that identity. *)
Definition get_inc (id : EngineIncarnationId) : Suite EngineIncarnation :=
  l ← on EngineResidency.incarnations;
  mret (default EngineIncarnation.default (snd <$> list_find (λ i, i.(Inc.incarnation_id) = id) l)).

Definition outcome_is (o : ReadinessOutcome.t) (r : ReadinessResult) : bool :=
  bool_decide (r.(Res.outcome) = o).
(** [CHECK_EQ] of [rt.evaluate_readiness(inc, prof).outcome]. *)
Definition check_readiness (inc : EngineIncarnationId) (prof : ReadinessProfileId)
    (o : ReadinessOutcome.t) (msg : string) : Suite () :=
  r ← on (EngineResidency.evaluate_readiness inc prof); check (outcome_is o r) msg.
Definition test_token (inc : EngineIncarnationId) (prof : ReadinessProfileId) (g : ReadinessGeneration)
    (a : ActivationGeneration) (n : N) : ServingUseToken :=
  ServingUseToken.default
    <| Tok.incarnation_id := inc |> <| Tok.engine_id := mkId 1 |> <| Tok.engine_generation := mkGen 1 |>
    <| Tok.profile_id := prof |> <| Tok.readiness_generation := g |> <| Tok.activation_generation := a |>
    <| Tok.execution_id := mkId n |> <| Tok.workload_id := mkId n |>.
Definition acquire (tok : ServingUseToken) (caller : string) : Suite ServingUseToken :=
  on (EngineResidency.acquire_serving_use tok caller).
Definition release (tok : ServingUseToken) (detail : string) : Suite () :=
  on (EngineResidency.release_serving_use tok WorkOutcome.COMPLETED detail).
Definition check_uses (n : Z) (msg : string) : Suite () :=
  k ← on EngineResidency.active_use_count; check (bool_decide (k = n)) msg.

(** ** test_core.cpp *)

Definition core_readiness (inc_a : EngineIncarnationId) (prof_id : ReadinessProfileId) : Suite () :=
  check_readiness inc_a prof_id ReadinessOutcome.BLOCKED "cold engine blocks";;
  swallow (publish (evidence_for inc_a ComponentCategory.BACKEND "backend-reference"));;
  check_readiness inc_a prof_id ReadinessOutcome.BLOCKED "partial evidence blocks required profile";;
  e ← on EngineResidency.current_epoch;
  publish_reference_evidence inc_a e false;;
  check_readiness inc_a prof_id ReadinessOutcome.BLOCKED "unwarmed blocks";;
  publish (evidence_for inc_a ComponentCategory.WARMUP "warmup");;
  r ← on (EngineResidency.evaluate_readiness inc_a prof_id);
  check (outcome_is ReadinessOutcome.READY r) "warmup produces readiness";;
  check r.(Res.coherent_snapshot) "coherent snapshot".

Definition core_model_generation (inc_a : EngineIncarnationId) (prof_id : ReadinessProfileId) : Suite () :=
  let model g e := (evidence_for inc_a ComponentCategory.MODEL "reference-model" e)
    <| Ev.model_generation := mkGen g |> <| Ev.kernel_generation := mkGen 1 |>
    <| Ev.graph_generation := mkGen 1 |> <| Ev.compatibility := test_key |>
    <| Ev.kv_capacity_generation := mkGen 1 |> in
  publish (model 2);;
  check_readiness inc_a prof_id ReadinessOutcome.BLOCKED "model generation invalidation blocks";;
  publish (model 1).

Definition core_serving (inc_a : EngineIncarnationId) (inc_a_info : EngineIncarnation)
    (prof_id : ReadinessProfileId) : Suite () :=
  authority ← on EngineResidency.current_authority;
  rec ← on (EngineResidency.activate (ActivationRequest.default
    <| ActReq.incarnation_id := inc_a |> <| ActReq.incarnation_generation := mkGen 1 |>
    <| ActReq.engine_id := mkId 1 |> <| ActReq.engine_generation := mkGen 1 |> <| ActReq.profile_id := prof_id |>
    <| ActReq.readiness_generation := inc_a_info.(Inc.readiness_generation) |>
    <| ActReq.caller_authority := authority |>));
  check (bool_decide (rec.(Act.state) = ActivationState.ACTIVE)) "activation succeeds";;
  let wanted := test_token inc_a prof_id inc_a_info.(Inc.readiness_generation)
    rec.(Act.activation_generation) 1 in
  tok ← acquire wanted "test";
  check_uses 1 "one active use";;
  check (Tok.is_valid tok) "use token valid";;
  expect_throws (acquire (wanted <| Tok.readiness_generation := mkGen 999 |>) "test")
    "stale readiness acquisition rejected";;
  release tok "done";;
  check_uses 0 "use released";;
  expect_throws (release tok "again") "duplicate release rejected".

Definition core_drain (inc_a : EngineIncarnationId) (inc_a_info : EngineIncarnation)
    (prof_id : ReadinessProfileId) : Suite () :=
  let wanted := test_token inc_a prof_id inc_a_info.(Inc.readiness_generation) (mkGen 1) 2 in
  held ← acquire wanted "test";
  on (EngineResidency.request_drain inc_a);;
  expect_throws (acquire wanted "test") "no acquisition after drain";;
  release held "done";;
  on (EngineResidency.acknowledge_backend_cleanup inc_a);;
  ds ← on (EngineResidency.drain_state inc_a);
  check (bool_decide (ds.(Drn.phase) = DrainPhase.DRAINED)) "drain completes".

(** [blob[i] ^= 0xFF] *)
Definition flip (i : nat) (blob : Bytes) : Bytes :=
  alter (λ a, ascii_of_N (N.lxor (N_of_ascii a) 255)) i blob.
Definition core_persistence : Suite () :=
  blob ← on serialize;
  epoch ← on EngineResidency.current_epoch;
  with_runtime make_runtime (
    on (load blob);;
    epoch2 ← on EngineResidency.current_epoch;
    check (bool_decide (gen_raw epoch2 = gen_raw epoch)) "epoch persisted";;
    incs ← on EngineResidency.incarnations;
    check (1 <=? length incs)%nat "incarnations persisted";;
    expect_throws (on (load (flip 10 blob))) "corrupt persistence rejected").

Definition core_fencing : Suite () :=
  on (EngineResidency.fence_worker (mkId 1) (mkGen 1) "restarted");;
  expect_throws (on (EngineResidency.issue_registration_permit (mkId 1) (mkGen 1) (mkId 1) (mkGen 1)))
    "fenced boot cannot obtain permit".

Definition core_standby : Suite () :=
  inc_b ← register_worker 2 2;
  publish_all inc_b;;
  acc ← on (EngineResidency.reconcile_standby (StandbyPoolPolicy.default
    <| Pool.pool_id := mkId 1 |> <| Pool.engine_id := mkId 1 |> <| Pool.target_standby := 1 |>
    <| Pool.require_current_incarnation := false |>));
  check (1 <=? acc.(Acc.eligible)) "warm standby eligible (no double-count)".

Definition slot_request (id : EngineIncarnationId) (i : EngineIncarnation) (prof : ReadinessProfileId) (authority : AuthorityGeneration)
    : ActivationRequest :=
  ActivationRequest.default
    <| ActReq.incarnation_id := id |> <| ActReq.incarnation_generation := mkGen 1 |>
    <| ActReq.engine_id := mkId 1 |> <| ActReq.engine_generation := mkGen 1 |>
    <| ActReq.profile_id := prof |> <| ActReq.slot_id := mkId 1 |>
    <| ActReq.readiness_generation := i.(Inc.readiness_generation) |> <| ActReq.caller_authority := authority |>.
Definition core_slots : Suite () :=
  with_runtime make_runtime (
    p3 ← seed_engine;
    x ← register_worker 1 1;
    publish_all x;;
    xi ← get_inc x;
    authority ← on EngineResidency.current_authority;
    rec ← on (EngineResidency.activate (slot_request x xi p3 authority));
    check (bool_decide (rec.(Act.state) = ActivationState.ACTIVE)) "first slot activation succeeds";;
    y ← register_worker 2 2;
    publish_all y;;
    yi ← get_inc y;
    authority ← on EngineResidency.current_authority;
    expect_throws (on (EngineResidency.activate (slot_request y yi p3 authority)))
      "exclusive slot conflict rejected").

Definition core_exhaustion : Suite () := λ t,
  match (Generation.next (mkGen (2 ^ 64 - 1) : EngineGeneration) : Run EngineGeneration) t.(Suite.runtime) with
  | (Throw (DomainError code _), _) =>
    check (bool_decide (code = GenerationExhausted)) "generation exhaustion throws" t
  | (Throw StdOutOfRange, _) => (Throw StdOutOfRange, t)
  | (Ok _, _) => check false "no throw gen exhaustion" t
  end.

Definition core_restart : Suite () :=
  with_runtime make_runtime (
    p5 ← seed_engine;
    inc ← register_worker 1 1;
    publish_all inc;;
    check_readiness inc p5 ReadinessOutcome.READY "pre-restart ready";;
    e2 ← on EngineResidency.advance_epoch;
    check (1 <? gen_raw e2) "epoch advanced";;
    check_readiness inc p5 ReadinessOutcome.REVALIDATION_REQUIRED
      "post-restart readiness revalidation-required";;
    on (EngineResidency.mark_running inc);;
    publish_all inc;;
    on (EngineResidency.revalidate inc);;
    check_readiness inc p5 ReadinessOutcome.READY
      "survivor revalidation restores readiness under current authority").

Definition core_replacement : Suite () :=
  with_runtime make_runtime (
    seed_engine;;
    oldi ← register_worker 1 1;
    publish_all oldi;;
    on (EngineResidency.mark_running oldi);;
    cand ← register_worker 2 2;
    publish_all cand;;
    on (EngineResidency.mark_running cand);;
    epoch ← on EngineResidency.current_epoch;
    authority ← on EngineResidency.current_authority;
    started ← on (EngineResidency.begin_replacement (ReplacementPlan.default
      <| Repl.engine_id := mkId 1 |> <| Repl.engine_generation := mkGen 1 |>
      <| Repl.old_incarnation := oldi |> <| Repl.old_incarnation_generation := mkGen 1 |>
      <| Repl.candidate_incarnation := cand |> <| Repl.candidate_incarnation_generation := mkGen 1 |>
      <| Repl.epoch := epoch |> <| Repl.authority := authority |> <| Repl.overlap_bytes := 2 ^ 20 |>));
    check (bool_decide (started.(Repl.phase) = ReplacementPhase.PREPARING)) "replacement preparing";;
    cut ← on (EngineResidency.commit_cutover started.(Repl.replacement_id));
    check (bool_decide (cut.(Repl.phase) = ReplacementPhase.CUTOVER)) "authorized cutover committed";;
    incs ← on EngineResidency.incarnations;
    check (existsb (λ i, bool_decide (i.(Inc.incarnation_id) = oldi) && negb i.(Inc.is_current)) incs)
      "old incarnation fenced at cutover";;
    retired ← on (EngineResidency.retire_old started.(Repl.replacement_id));
    check (bool_decide (retired.(Repl.phase) = ReplacementPhase.COMPLETE)) "old retired; replacement complete").

Definition core_stale_graph : Suite () :=
  with_runtime make_runtime (
    p7 ← seed_engine;
    inc ← register_worker 1 1;
    publish_all inc;;
    publish (λ e, (evidence_for inc ComponentCategory.GRAPH "er-reference-graph" e)
      <| Ev.graph_generation := mkGen 999 |>);;
    check_readiness inc p7 ReadinessOutcome.BLOCKED "stale graph generation blocks graph-required profile").

Definition core_recovered_graph : Suite () :=
  with_runtime make_runtime (
    p8 ← seed_engine;
    inc8 ← register_worker 1 1;
    publish_all inc8;;
    check_readiness inc8 p8 ReadinessOutcome.READY "pre-recovery graph-required ready";;
    blob8 ← on serialize;
    with_runtime make_runtime (
      on (load blob8);;
      on EngineResidency.advance_epoch;;
      inc9 ← register_worker 3 9;
      publish_all inc9;;
      check_readiness inc9 p8 ReadinessOutcome.READY
        "recovered graph-required readiness resolves (graph generation preserved)")).

Definition test_core : Suite () :=
  prof_id ← seed_engine;
  inc_a ← register_worker 1 1;
  inc_a_info ← get_inc inc_a;
  core_readiness inc_a prof_id;;
  core_model_generation inc_a prof_id;;
  core_serving inc_a inc_a_info prof_id;;
  core_drain inc_a inc_a_info prof_id;;
  core_persistence;;
  core_fencing;;
  core_standby;;
  core_slots;;
  core_exhaustion;;
  core_restart;;
  core_replacement;;
  core_stale_graph;;
  core_recovered_graph.

(** ** test_property.cpp *)

(** One turn of the loop: acquire, look, release, look; [break] on a failure. *)
Fixpoint property_loop (n i : nat) (inc : EngineIncarnationId) (ii : EngineIncarnation)
    (prof_id : ReadinessProfileId) : Suite nat :=
  match n with
  | O => mret i
  | S n =>
    a ← acquire (test_token inc prof_id ii.(Inc.readiness_generation) (mkGen 1) (N.of_nat i)) "prop";
    k ← on EngineResidency.active_use_count;
    if (k <? 1)%Z then check false "property: use tracked";; mret (S i) else
    release a "done";;
    k ← on EngineResidency.active_use_count;
    if negb (k =? 0)%Z then check false "property: no underflow/leak";; mret (S i) else
    property_loop n (S i) inc ii prof_id
  end.
Definition property_uses (loops : nat) : Suite () :=
  prof_id ← seed_engine;
  inc ← register_worker 1 1;
  publish_all inc;;
  check_readiness inc prof_id ReadinessOutcome.READY "property: READY invariant";;
  ii ← get_inc inc;
  acquired ← property_loop loops 0 inc ii prof_id;
  check (acquired =? loops)%nat "property: acquire loop completed".
Definition property_config : Suite () :=
  with_runtime make_runtime (
    seed_engine;;
    register_worker 1 1;;
    expect_throws (on (EngineResidency.update_engine_config (mkId 1) (mkGen 0) "regress"))
      "property: config generation regression rejected").
Definition property_standby : Suite () :=
  with_runtime make_runtime (
    seed_engine;;
    a ← register_worker 1 1;
    publish_all a;;
    b ← register_worker 2 2;
    publish_all b;;
    acc ← on (EngineResidency.reconcile_standby (StandbyPoolPolicy.default
      <| Pool.engine_id := mkId 1 |> <| Pool.target_standby := 4 |>));
    check (acc.(Acc.eligible) <=? 2) "property: standby no double-count").
Definition test_property : Suite () := property_uses 1000;; property_config;; property_standby.

(** ** test_adversarial.cpp *)

Definition adversarial_warmup (inc : EngineIncarnationId) (prof_id : ReadinessProfileId) : Suite () :=
  e ← on EngineResidency.current_epoch;
  publish_reference_evidence inc e false;;
  r ← on (EngineResidency.evaluate_readiness inc prof_id);
  check (negb (outcome_is ReadinessOutcome.READY r)) "READY without warmup";;
  publish (evidence_for inc ComponentCategory.WARMUP "warmup").

Definition adversarial_release (inc : EngineIncarnationId) (prof_id : ReadinessProfileId) : Suite () :=
  inc_b ← register_worker 2 2;
  publish_all inc_b;;
  ii ← get_inc inc;
  a ← acquire (test_token inc prof_id ii.(Inc.readiness_generation) (mkGen 1) 5) "adv";
  expect_throws (release (a <| Tok.incarnation_id := inc_b |>) "wrong") "old-incarnation release accepted";;
  release a "ok".

Definition adversarial_cancelled : Suite () :=
  p ← seed_engine;
  inc2 ← register_worker 1 1;
  publish_all inc2;;
  plan ← on (EngineResidency.create_preparation_plan inc2 p DesiredResidency.WARM);
  a2 ← on (EngineResidency.begin_preparation plan);
  on (EngineResidency.cancel_preparation a2.(Att.attempt_id) "adversarial cancel");;
  expect_throws (on (EngineResidency.complete_preparation a2.(Att.attempt_id)))
    "cancelled attempt published READY".

Definition adversarial_blobs : Suite () :=
  incp ← register_worker 2 2;
  publish_all incp;;
  blob ← on serialize;
  expect_throws (on (load (flip 0 blob))) "bad magic accepted";;
  expect_throws (on (load (alter (λ a, ascii_of_N ((N_of_ascii a + 1) mod 256)) 4%nat blob)))
    "bad version accepted";;
  expect_throws (on (load (blob ++ String.list_ascii_of_string "extra"))) "trailing garbage accepted".

(** The second block of the frame tests checks nothing. *)
Definition adversarial_frames : Suite () :=
  let frame := encode_frame (ProtocolMessage.default <| Msg.type := MessageType.HELLO |>
                               <| Msg.payload := String.list_ascii_of_string "x" |>) [] in
  check (match decode_frame (flip 0 frame) with Malformed err => negb (String.eqb err "") | _ => false end)
    "bad magic frame accepted".

Definition adversarial_standby : Suite () :=
  acc ← on (EngineResidency.reconcile_standby (StandbyPoolPolicy.default
    <| Pool.engine_id := mkId 1 |> <| Pool.target_standby := 8 |>));
  check (acc.(Acc.eligible) <=? 2) "standby overcount".

Definition test_adversarial : Suite () :=
  prof_id ← seed_engine;
  inc ← register_worker 1 1;
  adversarial_warmup inc prof_id;;
  adversarial_release inc prof_id;;
  with_runtime make_runtime (
    adversarial_cancelled;; adversarial_blobs;; adversarial_frames;; adversarial_standby).
End suites.

Definition test_clock : Clock := Clock.mk (λ n, 1000 + 50 * N.of_nat n) 0.
Definition run_test {A} (main : Suite A) : option (list string) := report main (make_runtime test_clock).

(** ** The reports *)

Theorem core_tests_pass : run_test (test_core test_clock) = Some [].
Proof. vm_compute. reflexivity. Qed.
Theorem property_tests_pass : run_test (test_property test_clock) = Some [].
Proof. vm_compute. reflexivity. Qed.
Theorem adversarial_tests_pass : run_test (test_adversarial test_clock) = Some [].
Proof. vm_compute. reflexivity. Qed.
