(* ===== verification/Concurrency.v ===== *)
(** * Threads on one runtime

    [src/tests/test_concurrency.cpp]: threads that publish evidence, evaluate
    readiness and acquire and release serving uses on one runtime, interleaved
    operation by operation.  No interleaving makes any of them see an error. *)

From S2P Require Import Prelude Identities Enums Model Reference Codec Frame Payload Readiness.
From S2P Require Import Economics Standby Runtime Loading Transitions Scenario Tables Incarnations Authority ServingUse.
From S2P Require Import Threads System Suites Publication.
Local Open Scope N_scope.

(** A thread with the steps it has left and the use it holds. *)
Module Racer.
Record t := mk {
  prog : Prog N;
  left : nat;
  held : option ServingUseId;
}.
End Racer.
Abbreviation Racer := Racer.t.

Definition steps_left : list Racer → nat := foldr (λ r n, r.(Racer.left) + n)%nat 0%nat.
Lemma steps_left_insert l t x y :
  l !! t = Some x → (steps_left (<[t := y]> l) + x.(Racer.left) = steps_left l + y.(Racer.left))%nat.
Proof.
  revert t. induction l as [|z l IH]; intros [|t] Hl; cbn in *; try done.
  - injection Hl as ->. lia.
  - change (Racer.left z + steps_left (<[t := y]> l) + Racer.left x = Racer.left z + steps_left l + Racer.left y)%nat.
    specialize (IH t Hl). lia.
Qed.

Section race.
Context `{Ord : HashOrder}.
Context (inc : EngineIncarnationId) (prof_id : ReadinessProfileId).
Context (engine : EngineDefinition) (profile : ReadinessProfile) (g : ReadinessGeneration) (e : CoordinatorEpoch).

(** The incarnation is current and runs, and is not fenced or awaiting authority. *)
Record in_service (i : EngineIncarnation) : Prop := {
  is_named : i.(Inc.incarnation_id) = inc;
  is_now : i.(Inc.is_current) = true;
  is_running : i.(Inc.state).(St.lifecycle) = ProcessLifecycle.RUNNING;
  is_registered : i.(Inc.state).(St.registration) ≠ RegistrationState.FENCED;
  is_healthy : i.(Inc.state).(St.health) ≠ HealthState.FENCED;
  is_settled : EngineResidency.awaits_authority i = false;
  is_generation : i.(Inc.readiness_generation) = g;
  is_engine : i.(Inc.engine_id) = profile.(Prof.engine_id);
}.
(** What serving uses never change. *)
Definition standing (ev : gmap EngineIncarnationId (list ComponentEvidence)) (s : Impl.t) : Prop :=
  (∃ i, s.(Impl.incarnations) !! inc = Some i ∧ in_service i ∧
     is_fenced i.(Inc.worker_id) i.(Inc.worker_boot) s = false) ∧
  (s.(Impl.profiles) !! prof_id = Some profile ∧
   s.(Impl.engines) !! profile.(Prof.engine_id) = Some engine) ∧
  (s.(Impl.authority).(Auth.epoch) = e ∧ s.(Impl.epoch_started) = true) ∧
  s.(Impl.opts) = RuntimeOptions.default ∧ s.(Impl.evidence) = ev.
Definition uses_here (s : Impl.t) : Prop :=
  map_Forall (λ _ u, u.(Use.released) = false → u.(Use.incarnation_id) = inc) s.(Impl.active_uses).
Record serviceable (s : Impl.t) : Prop := {
  sv_standing : standing s.(Impl.evidence) s;
  sv_drain : EngineResidency.admission_fenced inc s = false;
  sv_evidence req : req ∈ profile.(Prof.requirements) → provided engine (evidence_of inc s) req;
  sv_uses : uses_here s;
}.

Lemma in_service_touched i t : in_service i → in_service (i <| Inc.last_activity_ns := t |>).
Proof. intros []. by split. Qed.

Lemma pushed_serviceable ev t s s' :
  (∀ req, req ∈ profile.(Prof.requirements) → backs engine req ev) →
  pushed inc ev t s s' → serviceable s → serviceable s'.
Proof.
  intros Hb [Hi Hev [Huses _] [Hp Hen] [Hf Hdr] [Ha Hst] Hopts]
    [((i & Hin & Hs & Hfen) & Hdefs & Hep & Ho & _) Hd Hprov Hu].
  split; [|by rw /EngineResidency.admission_fenced Hdr| |by rw /uses_here Huses].
  - rw /standing Hp Hen Ha Hst Hopts. split_and!; [|apply Hdefs..|apply Hep|apply Hep|done|done].
    exists (i <| Inc.last_activity_ns := t |>). rw Hi lookup_alter_eq Hin.
    split; [done|]. split; [by apply in_service_touched|]. by rw /is_fenced Hf.
  - intros req Hreq. rw /evidence_of Hev lookup_insert_eq. apply provided_snoc; auto.
Qed.

Lemma publish_serviceable ev s :
  serviceable s → ev.(Ev.incarnation_id) = inc → ev.(Ev.coordinator_epoch) = e →
  (∀ req, req ∈ profile.(Prof.requirements) → backs engine req ev) →
  N.of_nat (evidence_sum s.(Impl.evidence)) < 200000 →
  wp (EngineResidency.publish_component ev)
    (λ _ s', serviceable s' ∧
       (s'.(Impl.active_uses) = s.(Impl.active_uses) ∧ s'.(Impl.active_use_count) = s.(Impl.active_use_count)) ∧
       evidence_sum s'.(Impl.evidence) = S (evidence_sum s.(Impl.evidence)))
    (λ _ _, False) s.
Proof.
  intros Hs Hinc Hepoch Hb Hroom. pose proof Hs as [((i & Hi & [_ _ Hr Hreg Hh _ _ _] & Hf) & _ & [Hep Hst] & Ho & _) _ _ _].
  assert (may_publish inc s i) as Hmay by (split; rw ?Ho ?Hr //).
  eapply wp_mono; [| |apply (publish_effect inc ev s i Hmay Hinc); congruence]; [|done].
  intros _ s' (id & t & Hpu). split.
  - eapply pushed_serviceable; [|exact Hpu|done]. intros req Hreq. by apply backs_stamped, Hb.
  - split; [apply Hpu|]. rw (pu_evidence _ _ _ _ _ Hpu). apply evidence_sum_push.
Qed.

Lemma standing_touched ev k t s :
  standing ev s → standing ev (s <| Impl.incarnations ::= alter (λ i, i <| Inc.last_activity_ns := t |>) k |>).
Proof.
  intros [(i & Hi & Hs & Hf) Hrest]. split; [|done]. destruct (decide (k = inc)) as [->|Hne].
  - exists (i <| Inc.last_activity_ns := t |>). cbn. rw lookup_alter_eq Hi.
    split; [done|]. split; [by apply in_service_touched|done].
  - exists i. cbn. by rw lookup_alter_ne.
Qed.
Ltac standing_write := idtac;
  match goal with
  | |- preserves _ (set_inc _ _) => apply preserves_modify; intros ? ?; by apply standing_touched
  end.
Lemma standing_acquire ev wanted caller : preserves (standing ev) (EngineResidency.acquire_serving_use wanted caller).
Proof. preserve_with standing_write. Qed.
Lemma standing_release ev token outcome detail :
  preserves (standing ev) (EngineResidency.release_serving_use token outcome detail).
Proof. preserve_with standing_write. Qed.
(** An incarnation in service admits a use. *)
Lemma serviceable_admits wanted s :
  serviceable s → s.(Impl.active_use_count) < 1000000 →
  wanted.(Tok.incarnation_id) = inc → wanted.(Tok.profile_id) = prof_id →
  wanted.(Tok.readiness_generation) = g → ∃ i, admits wanted (time s) i s.
Proof.
  intros [((i & Hi & [Hn Hc Hr _ _ _ Hg Hen] & _) & [Hp He] & _ & Ho & _) Hd Hprov _] Hroom H1 H2 H3.
  exists i. split; rw ?H1 ?H2 ?H3 ?Ho //. exists profile, engine. rw Hen. split_and!; [done..|].
  rw /serving_outcome provided_ready //. by rw Hn.
Qed.
Lemma acquire_serviceable n wanted caller s :
  reachable created n s → n + 2 < 2 ^ 64 → serviceable s → s.(Impl.active_use_count) < 1000000 →
  wanted.(Tok.incarnation_id) = inc → wanted.(Tok.profile_id) = prof_id →
  wanted.(Tok.readiness_generation) = g →
  wp (EngineResidency.acquire_serving_use wanted caller)
    (λ tok s', serviceable s' ∧ s'.(Impl.evidence) = s.(Impl.evidence) ∧
       s'.(Impl.active_use_count) = s.(Impl.active_use_count) + 1 ∧
       tok.(Tok.incarnation_id) = inc ∧ s.(Impl.active_uses) !! tok.(Tok.use_id) = None ∧
       ∃ u, s'.(Impl.active_uses) = <[tok.(Tok.use_id) := u]> s.(Impl.active_uses) ∧ u.(Use.released) = false)
    (λ _ _, False) s.
Proof.
  intros Hr Hn Hs Hroom H1 H2 H3. destruct (reachable_keyed_uses _ n s Hr) as [Hfiled [(Hc & Hids & _) _]].
  pose proof (serviceable_admits wanted s Hs Hroom H1 H2 H3) as [i Hadm].
  pose proof (standing_acquire s.(Impl.evidence) wanted caller s (sv_standing s Hs)) as Hst.
  pose proof (acquire_effect wanted caller s) as Hacq. rw /wp in Hst Hacq |- *.
  destruct (EngineResidency.acquire_serving_use wanted caller s) as [[tok|ex] s']; [|by destruct Hacq as [Hno _]; destruct (Hno i)].
  destruct Hacq as (i' & [Hi' _ _ _ _ _ _] & [Htok (u & Hu & _ & Hrel & Hui & _) Hcnt _ [Hdr _] _]).
  destruct Hs as [_ Hd Hprov Huses]. assert (s'.(Impl.evidence) = s.(Impl.evidence)) as Hev by apply Hst.
  rw (keyed_lookup s _ _ Hfiled Hi') H1 in Hui. split_and!.
  - split.
    + by rw Hev.
    + by rw /EngineResidency.admission_fenced Hdr.
    + by rw /evidence_of Hev.
    + rw /uses_here Hu. by apply map_Forall_insert_2.
  - done.
  - rw Hcnt u64_small //. lia.
  - by rw Htok.
  - rw Htok /= !u64_small; [|lia..]. apply eq_None_not_Some. intros [v Hv]. apply Hids in Hv. cbn in Hv. lia.
  - by exists u.
Qed.
Lemma release_serviceable n token outcome detail u s :
  reachable created n s → serviceable s → token.(Tok.incarnation_id) = inc →
  s.(Impl.active_uses) !! token.(Tok.use_id) = Some u → u.(Use.released) = false →
  wp (EngineResidency.release_serving_use token outcome detail)
    (λ _ s', serviceable s' ∧ s'.(Impl.evidence) = s.(Impl.evidence) ∧
       s'.(Impl.active_use_count) <= s.(Impl.active_use_count) ∧
       ∃ v, s'.(Impl.active_uses) = <[token.(Tok.use_id) := v]> s.(Impl.active_uses) ∧ v.(Use.released) = true)
    (λ _ _, False) s.
Proof.
  intros Hr Hs H1 Hu Hrel. destruct (reachable_keyed_uses _ n s Hr) as [_ [Ha _]].
  pose proof (standing_release s.(Impl.evidence) token outcome detail s (sv_standing s Hs)) as Hst.
  pose proof (release_effect token outcome detail s (λ v, counted_positive n s _ v Ha)) as Heff.
  rw /wp in Hst Heff |- *. destruct (EngineResidency.release_serving_use token outcome detail s) as [[[]|ex] s'].
  - destruct Heff as [(u' & v & _ & _ & _ & Hv & _ & Hs') [_ Hcnt] Hdr _].
    destruct Hs as [_ Hd Hprov Huses]. assert (s'.(Impl.evidence) = s.(Impl.evidence)) as Hev by apply Hst.
    assert (EngineResidency.admission_fenced inc s' = false) as Hd'.
    { revert Hd. rw /EngineResidency.admission_fenced Hdr H1 /settled.
      destruct (Impl.drains s !! inc) as [d|] eqn:Hl; [|by rw Hl]. intros Hf. by rw Hf /= Hl. }
    split_and!; [|done|lia|by exists v]. split.
    + by rw Hev.
    + done.
    + by rw /evidence_of Hev.
    + rw /uses_here Hs'. apply map_Forall_insert_2; [congruence|done].
  - destruct Heff as (_ & code & msg & _ & Href). revert Href. rw /release_refused Hu Hrel.
    intros [Hne _]. destruct Hs as [_ _ _ Huses]. by rw (Huses _ _ Hu Hrel) in Hne.
Qed.
Lemma evaluate_serviceable s :
  serviceable s →
  wp (EngineResidency.evaluate_readiness inc prof_id)
    (λ r s', r.(Res.coherent_snapshot) = true ∧ same_but_clock s s') (λ _ _, False) s.
Proof.
  intros [((i & Hi & [Hn Hc Hr _ _ Hset Hg Hen] & _) & [Hp He] & _ & Ho & _) Hd Hprov _].
  rw /EngineResidency.evaluate_readiness. do 4 (wp_step; cbv beta); [|congruence].
  assert (a = i) as -> by congruence. do 4 (wp_step; cbv beta); [|congruence].
  assert (a = profile) as -> by congruence. do 2 (wp_step; cbv beta).
  { apply negb_true_iff, Identity_eqb_neq in H1. congruence. }
  do 4 (wp_step; cbv beta); [|congruence]. rw Hset. wp_step; cbv beta.
  split; [apply evaluate_coherent|]. by eexists.
Qed.
Lemma serviceable_clock s s' : same_but_clock s s' → serviceable s → serviceable s'.
Proof. intros [c ->] [H1 H2 H3 H4]. by split. Qed.

(** ** Threads that hold serving uses *)

Definition open_uses (s : Impl.t) : gset ServingUseId := dom (outstanding s).

Lemma elem_of_open u s :
  u ∈ open_uses s ↔ ∃ v, s.(Impl.active_uses) !! u = Some v ∧ v.(Use.released) = false.
Proof.
  rw /open_uses elem_of_dom. split; intros [v Hv]; exists v; [by apply map_lookup_filter_Some in Hv|].
  by apply map_lookup_filter_Some.
Qed.

(** In service, with no more evidence and uses than operations. *)
Record roomy (n : N) (s : Impl.t) : Prop := {
  rm_service : serviceable s;
  rm_evidence : N.of_nat (evidence_sum s.(Impl.evidence)) <= n;
  rm_count : s.(Impl.active_use_count) <= n;
}.
(** After at most [n] operations since the construction. *)
Definition racing (n : N) (s : Impl.t) : Prop := roomy n s ∧ ∃ m, m <= n ∧ reachable created m s.
(** A step gives up the use [held], if any, for the use [held'], if any: another
    one is new. *)
Definition hands (held held' : option ServingUseId) (s s' : Impl.t) : Prop :=
  open_uses s' = (open_uses s ∖ option_to_set held) ∪ option_to_set held' ∧
  ∀ u, held' = Some u → held = Some u ∨ u ∉ open_uses s.
Definition holds (held : option ServingUseId) (s : Impl.t) : Prop := ∀ u, held = Some u → u ∈ open_uses s.

(** The bound on the evidence a runtime keeps, and so on the operations. *)
Definition limit : N := 200000.

(** What a thread does with [k] steps left and the use [held] in hand: it throws
    nothing, keeps the runtime in service, and opens and closes no use but its
    own. *)
Fixpoint sound {A} (Q : A → nat → option ServingUseId → Prop) (p : Prog A) (k : nat)
    (held : option ServingUseId) : Prop :=
  match p with
  | Ret a => Q a k held
  | Act m c => ∃ k', k = S k' ∧ ∀ n w,
      racing n w.(Shared.runtime) → n < limit → holds held w.(Shared.runtime) →
      ∃ held', racing (n + 1) (m w).2.(Shared.runtime) ∧
        hands held held' w.(Shared.runtime) (m w).2.(Shared.runtime) ∧ sound Q (c (m w).1) k' held'
  | _ => False
  end.

Lemma sound_mono {A} (Q Q' : A → nat → option ServingUseId → Prop) p k held :
  (∀ a k held, Q a k held → Q' a k held) → sound Q p k held → sound Q' p k held.
Proof.
  intros HQ. revert k held. induction p as [| |B m c IH| | | | |]; cbn [sound]; auto.
  intros k held (k' & -> & Hm). exists k'. split; [done|]. intros n w Hw Hn Hh.
  destruct (Hm n w Hw Hn Hh) as (held' & H1 & H2 & H3). exists held'. auto.
Qed.
Lemma sound_bind {A B} (Q : B → nat → option ServingUseId → Prop) (p : Prog A) f k held :
  sound (λ a k held, sound Q (f a) k held) p k held → sound Q (p ≫= f) k held.
Proof.
  revert k held. induction p as [| |C m c IH| | | | |]; cbn [mbind Prog_bind sound]; auto; try done.
  intros k held (k' & -> & Hm). exists k'. split; [done|]. intros n w Hw Hn Hh.
  destruct (Hm n w Hw Hn Hh) as (held' & H1 & H2 & H3). exists held'. auto.
Qed.
Lemma sound_try {A} (Q : A → nat → option ServingUseId → Prop) (p : Prog A) h k held :
  sound Q p k held → sound Q (try_with p h) k held.
Proof.
  revert k held. induction p as [| |C m c IH| | | | |]; cbn [try_with sound]; auto; try done.
  intros k held (k' & -> & Hm). exists k'. split; [done|]. intros n w Hw Hn Hh.
  destruct (Hm n w Hw Hn Hh) as (held' & H1 & H2 & H3). exists held'. auto.
Qed.
Lemma sound_rt {A} (m : Run A) (Q : A → nat → option ServingUseId → Prop) k held :
  acts runtime_step (rt m) →
  (∀ n s, racing n s → n < limit → holds held s →
     wp m (λ a s', roomy (n + 1) s' ∧ ∃ held', hands held held' s s' ∧ Q a k held') (λ _ _, False) s) →
  sound Q (rt m) (S k) held.
Proof.
  intros [Ha _] Hm. exists k. split; [done|]. intros n w Hw Hn Hh. specialize (Hm n _ Hw Hn Hh). specialize (Ha w).
  rw /wp in Hm. revert Ha. rw /on_runtime. destruct (m _) as [[a|ex] s']; [|done]. intros Ha.
  destruct Hm as (Hr & held' & Hhands & HQ). exists held'. split; [|done]. split; [done|].
  destruct Hw as [_ (m' & Hm' & Hreach)]. rw /limit in Hn.
  eapply (runtime_step_reachable m' n); [done| |done|exact Ha]. lia.
Qed.

(** *** Steps *)

Lemma roomy_same n s s' :
  serviceable s' → s'.(Impl.evidence) = s.(Impl.evidence) → s'.(Impl.active_use_count) <= s.(Impl.active_use_count) →
  roomy n s → roomy (n + 1) s'.
Proof. intros Hs He Hc [_ H1 H2]. split; [done|rw He; lia|lia]. Qed.
Lemma hands_same held s s' : s'.(Impl.active_uses) = s.(Impl.active_uses) → holds held s → hands held held s s'.
Proof.
  intros Hs Hh. split; [|auto]. assert (open_uses s' = open_uses s) as -> by by rw /open_uses /outstanding Hs.
  rw /holds in Hh. destruct held as [u|]; cbn; [specialize (Hh u eq_refl)|]; set_unfold; intros x.
  - split; [|naive_solver]. intros Hx. destruct (decide (x = u)); naive_solver.
  - naive_solver.
Qed.
Lemma hands_open s s' k u :
  s.(Impl.active_uses) !! k = None → s'.(Impl.active_uses) = <[k := u]> s.(Impl.active_uses) →
  u.(Use.released) = false → hands None (Some k) s s'.
Proof.
  intros Hk Hs Hu. split.
  - apply set_eq. intros x. rw elem_of_open Hs. cbn. set_unfold. rw elem_of_open.
    destruct (decide (x = k)) as [->|Hne].
    + rw lookup_insert_eq. naive_solver.
    + rw lookup_insert_ne //. naive_solver.
  - intros _ [= <-]. right. rw elem_of_open Hk. naive_solver.
Qed.
Lemma hands_close s s' k v :
  s'.(Impl.active_uses) = <[k := v]> s.(Impl.active_uses) → v.(Use.released) = true → hands (Some k) None s s'.
Proof.
  intros Hs Hv. split; [|done].
  apply set_eq. intros x. rw elem_of_open Hs. cbn. set_unfold. rw elem_of_open.
  destruct (decide (x = k)) as [->|Hne].
  - rw lookup_insert_eq. naive_solver congruence.
  - rw lookup_insert_ne //. naive_solver.
Qed.

(** ** The threads of the test *)

Definition race_evidence (epoch : CoordinatorEpoch) : ComponentEvidence :=
  (evidence_for inc ComponentCategory.KERNEL "er-reference-kernel" epoch)
    <| Ev.model_generation := mkGen 1 |> <| Ev.kv_capacity_generation := mkGen 1 |>
    <| Ev.kernel_generation := mkGen 1 |> <| Ev.graph_generation := mkGen 1 |>
    <| Ev.compatibility := test_key |>.
(** One iteration of each kind of thread, and how often it increments [errors]. *)
Definition publish_once : Prog N :=
  try_all
    (epoch ← rt EngineResidency.current_epoch;
     rt (EngineResidency.publish_component (race_evidence epoch));;
     Ret 0)
    (Ret 1).
Definition evaluate_once : Prog N :=
  try_all
    (r ← rt (EngineResidency.evaluate_readiness inc prof_id);
     Ret (if outcome_is ReadinessOutcome.READY r && negb r.(Res.coherent_snapshot) then 1 else 0))
    (Ret 1).
Definition serve_once : Prog N :=
  try_all
    (l ← rt EngineResidency.incarnations;
     let ii := foldl (λ ii x, if Identity.eqb x.(Inc.incarnation_id) inc then x else ii)
                 EngineIncarnation.default l in
     try_domain
       (tok ← rt (EngineResidency.acquire_serving_use
                    (test_token inc prof_id ii.(Inc.readiness_generation) (mkGen 1) 7) "conc");
        rt (EngineResidency.release_serving_use tok WorkOutcome.COMPLETED "done");;
        Ret 0)
       (λ _ _, Ret 1))
    (Ret 1).
Definition race_iteration (t : nat) : Prog N :=
  match (t mod 3)%nat with
  | 0%nat => publish_once
  | 1%nat => evaluate_once
  | _ => serve_once
  end.
Fixpoint race_thread (t iters : nat) : Prog N :=
  match iters with
  | O => Ret 0
  | S iters =>
    errors ← race_iteration t;
    rest ← race_thread t iters;
    Ret (errors + rest)
  end.

(** One of the threads takes its next step. *)
Inductive race_step : SessionShared * list (Prog N) → SessionShared * list (Prog N) → Prop :=
  | race_moves t p p' w w' ts :
    ts !! t = Some p → prog_step w p w' p' → race_step (w, ts) (w', <[t := p']> ts).

(** *** Each iteration is sound *)

Context (Hkernel : ∀ req, req ∈ profile.(Prof.requirements) → backs engine req (race_evidence e)).

Definition clean (k : nat) (errors : N) (k' : nat) (held : option ServingUseId) : Prop :=
  errors = 0 ∧ k' = k ∧ held = None.

Lemma sound_query {A} (f : Impl.t → A) (Q : A → nat → option ServingUseId → Prop) k held :
  (∀ n s, racing n s → Q (f s) k held) → sound Q (rt (gets f)) (S k) held.
Proof.
  intros HQ. apply sound_rt; [by apply acts_query; [apply _|]|]. intros n s Hr Hn Hh. cbn.
  split; [|exists held; split; [by apply hands_same|by eapply HQ]].
  destruct Hr as [Hr _]. apply (roomy_same n s); [apply Hr|done|lia|done].
Qed.
Lemma publish_sound k : sound (clean k) publish_once (S (S k)) None.
Proof.
  apply sound_try, sound_bind, sound_query. intros n s [[[(_ & _ & [-> _] & _) _ _ _] _ _] _].
  apply sound_bind, sound_rt; [by eapply (acts_op _ _ (PublishComponent _))|]. clear n s.
  intros n s [[Hs He Hc] _] Hn Hh.
  eapply wp_mono; [| |apply (publish_serviceable _ s Hs); [done|done|exact Hkernel|rw /limit in Hn; lia]]; [|done].
  intros ev s' (Hs' & [Hu Hcnt] & Hsum). split; [split; [done|lia|lia]|].
  exists None. split; [by apply hands_same|done].
Qed.
Lemma evaluate_sound k : sound (clean k) evaluate_once (S k) None.
Proof.
  apply sound_try, sound_bind, sound_rt; [by eapply (acts_op _ _ (EvaluateReadiness _ _))|].
  intros n s [Hr _] Hn Hh. eapply wp_mono; [| |apply (evaluate_serviceable s), Hr]; [|done].
  intros r s' [Hco Hsame]. destruct (Hsame) as [c ->]. split.
  - apply (roomy_same n s); [by eapply serviceable_clock, Hr|done|done|done].
  - exists None. split; [by apply hands_same|]. rw Hco andb_false_r. done.
Qed.
(** The loop over the incarnations ends with the one of the identity. *)
Lemma last_match i (l : list EngineIncarnation) acc :
  (∀ x, x ∈ l → x.(Inc.incarnation_id) = inc → x = i) → acc = i ∨ i ∈ l → i.(Inc.incarnation_id) = inc →
  foldl (λ ii x, if Identity.eqb x.(Inc.incarnation_id) inc then x else ii) acc l = i.
Proof.
  intros Hl Hacc Hi. revert acc Hacc. induction l as [|x l IH]; intros acc Hacc; cbn [foldl].
  - destruct Hacc as [?|Hin]; [done|]. by apply not_elem_of_nil in Hin.
  - apply IH; [by intros y Hy; apply Hl; right|]. destruct (Identity.eqb _ _) eqn:Hx.
    + left. apply Hl; [by left|]. by apply Identity_eqb_eq.
    + destruct Hacc as [?|[->|?]%elem_of_cons]; auto. apply Identity_eqb_neq in Hx. congruence.
Qed.
Lemma found_generation s :
  keyed s → serviceable s →
  (foldl (λ ii x, if Identity.eqb x.(Inc.incarnation_id) inc then x else ii) EngineIncarnation.default
     (snd <$> iteration s.(Impl.incarnations))).(Inc.readiness_generation) = g.
Proof.
  intros Hf [((i & Hi & [Hn _ _ _ _ _ Hg _] & _) & _) _ _ _]. rw (last_match i) //.
  - intros x ([k y] & -> & Hin)%list_elem_of_fmap Hx. cbn in *. apply elem_of_iteration in Hin.
    pose proof (keyed_lookup s _ _ Hf Hin) as Hk. congruence.
  - right. apply list_elem_of_fmap. exists (inc, i). split; [done|]. by apply elem_of_iteration.
Qed.

Lemma serve_sound k : sound (clean k) serve_once (S (S (S k))) None.
Proof.
  apply sound_try, sound_bind, sound_query. intros n s [[Hs _ _] (m & _ & Hreach)]. cbv zeta.
  rw (found_generation s) //; [|by eapply reachable_keyed].
  apply sound_try, sound_bind, sound_rt; [by eapply (acts_op _ _ (AcquireServingUse _ _))|]. clear n s m Hs Hreach.
  intros n s [[Hs He Hc] (m & Hm & Hreach)] Hn Hh. rw /limit in Hn.
  eapply wp_mono; [| |apply (acquire_serviceable m _ _ s Hreach); [lia|done|lia|done..]]; [|done].
  intros tok s' (Hs' & Hev & Hcnt & Htok & Hfresh & u & Hu & Hrel).
  split; [split; [done|rw Hev; lia|lia]|]. exists (Some tok.(Tok.use_id)).
  split; [by eapply hands_open|]. clear dependent n s s' m u.
  apply sound_bind, sound_rt; [by eapply (acts_op_unit _ _ (ReleaseServingUse _ _ _))|].
  intros n s [[Hs He Hc] (m & Hm & Hreach)] Hn Hh.
  specialize (Hh _ eq_refl). apply elem_of_open in Hh as (u & Hu & Hrel).
  eapply wp_mono; [| |apply (release_serviceable m tok _ _ u s Hreach Hs Htok Hu Hrel)]; [|done].
  intros _ s' (Hs' & Hev & Hcnt & v & Hv & Hvr). split; [by apply (roomy_same n s)|].
  exists None. split; [by eapply hands_close|done].
Qed.

(** *** The whole thread *)

Definition iteration_steps (t : nat) : nat :=
  match (t mod 3)%nat with 0%nat => 2 | 1%nat => 1 | _ => 3 end.
Lemma iteration_sound t k : sound (clean k) (race_iteration t) (iteration_steps t + k) None.
Proof.
  rw /race_iteration /iteration_steps.
  destruct (t mod 3)%nat as [|[|]]; [apply publish_sound|apply evaluate_sound|apply serve_sound].
Qed.
Lemma thread_sound t iters k : sound (clean k) (race_thread t iters) (iters * iteration_steps t + k) None.
Proof.
  revert k. induction iters as [|iters IH]; intros k; cbn [race_thread Nat.mul]; [done|].
  apply sound_bind. rw -Nat.add_assoc. eapply sound_mono; [|apply iteration_sound].
  intros errors k' held (-> & -> & ->). apply sound_bind. eapply sound_mono; [|apply IH].
  by intros rest k' held (-> & -> & ->).
Qed.
(** *** All of them *)

Context (bound : N) (Hbound : bound <= limit).

(** Every open use is in the hand of exactly one thread, and the steps the
    threads have left keep within the bound. *)
Record raced (n : N) (s : Impl.t) (l : list Racer) : Prop := {
  ra_racing : racing n s;
  ra_room : n + N.of_nat (steps_left l) <= bound;
  ra_sound : Forall (λ r, sound (clean 0) r.(Racer.prog) r.(Racer.left) r.(Racer.held)) l;
  ra_holds t r : l !! t = Some r → holds r.(Racer.held) s;
  ra_held u : u ∈ open_uses s → ∃ t r, l !! t = Some r ∧ r.(Racer.held) = Some u;
  ra_once t t' r r' u : l !! t = Some r → l !! t' = Some r' →
    r.(Racer.held) = Some u → r'.(Racer.held) = Some u → t = t';
}.

Lemma hands_elem held held' s s' u :
  hands held held' s s' → u ∈ open_uses s' ↔ (u ∈ open_uses s ∧ held ≠ Some u) ∨ held' = Some u.
Proof. intros [-> _]. destruct held, held'; cbn; set_solver. Qed.

Lemma raced_moves n s s' l t x p' k' held' :
  raced n s l → l !! t = Some x → x.(Racer.left) = S k' →
  racing (n + 1) s' → hands x.(Racer.held) held' s s' → sound (clean 0) p' k' held' →
  raced (n + 1) s' (<[t := Racer.mk p' k' held']> l).
Proof.
  intros [_ Hroom Hsound Hholds Hheld Honce] Hx Hk Hr Hhands Hp.
  pose proof (steps_left_insert l t x (Racer.mk p' k' held') Hx) as Hsteps. cbn in Hsteps.
  assert (∀ t' r, <[t := Racer.mk p' k' held']> l !! t' = Some r →
    (t' = t ∧ r = Racer.mk p' k' held') ∨ (t' ≠ t ∧ l !! t' = Some r)) as Hlook.
  { intros t' r. rw list_lookup_insert_Some. naive_solver. }
  assert (∀ t' r u, t' ≠ t → l !! t' = Some r → r.(Racer.held) = Some u → u ∈ open_uses s ∧ x.(Racer.held) ≠ Some u)
    as Hother.
  { intros t' r u Hne Hr' Hu. split; [by eapply Hholds|]. intros Hxu. by destruct Hne; eapply Honce. }
  split; [done|lia|by apply Forall_insert| | |].
  - intros t' r [[-> ->]|[Hne Hr']]%Hlook u Hu; apply (hands_elem _ _ _ _ _ Hhands); [by right|left].
    by eapply Hother.
  - intros u Hu. apply (hands_elem _ _ _ _ _ Hhands) in Hu as [[Hu Hnot]|Hu].
    + destruct (Hheld u Hu) as (t' & r & Hr' & Hru). exists t', r. split; [|done].
      rw list_lookup_insert_ne //. intros ->. congruence.
    + exists t, (Racer.mk p' k' held'). split; [|done]. apply list_lookup_insert_eq. by eapply lookup_lt_Some.
  - destruct Hhands as [_ Hfresh].
    intros t1 t2 r1 r2 u [[-> ->]|[Hne1 Hr1]]%Hlook [[-> ->]|[Hne2 Hr2]]%Hlook H1 H2; [done| | |by eapply Honce].
    + destruct (Hother t2 r2 u Hne2 Hr2 H2) as [Ho Hxu]. by destruct (Hfresh u H1).
    + destruct (Hother t1 r1 u Hne1 Hr1 H1) as [Ho Hxu]. by destruct (Hfresh u H2).
Qed.

(** The threads of a sound race, after [n] operations. *)
Definition in_race (n : N) (c : SessionShared * list (Prog N)) : Prop :=
  ∃ l, raced n c.1.(Shared.runtime) l ∧ c.2 = Racer.prog <$> l.
Lemma race_step_in_race n c c' : in_race n c → race_step c c' → in_race (n + 1) c'.
Proof.
  intros (l & Hl & Hts) Hstep. destruct Hstep as [t p p' w w' ts Ht Hstep]. cbn in *. subst ts.
  apply list_lookup_fmap_Some in Ht as (x & -> & Hx). pose proof Hl as [Hr Hroom Hsound Hholds _ _].
  pose proof (Forall_lookup_1 _ _ _ _ Hsound Hx) as Hp. cbn in Hp. pose proof (Hholds _ _ Hx) as Hh.
  pose proof (steps_left_insert l t x (Racer.mk (Racer.prog x) 0 None) Hx) as Hsteps. cbn in Hsteps.
  destruct x as [prog k held]. cbn in *. destruct Hstep; cbn [sound] in Hp; try done.
  destruct Hp as (k' & -> & Hm). destruct (Hm n w Hr) as (held' & Hr' & Hhands & Hk'); [lia|done|].
  rw H in Hr' Hhands Hk'. exists (<[t := Racer.mk (k0 o) k' held']> l).
  split; [by eapply raced_moves|]. by rw list_fmap_insert.
Qed.
Lemma nsteps_in_race k n c c' : in_race n c → nsteps race_step k c c' → in_race (n + N.of_nat k) c'.
Proof.
  intros Hc Hsteps. revert n Hc. induction Hsteps as [c|k c c1 c2 Hstep _ IH]; intros n Hc.
  - by rw N.add_0_r.
  - specialize (IH (n + 1) (race_step_in_race _ _ _ Hc Hstep)).
    by replace (n + N.of_nat (S k)) with (n + 1 + N.of_nat k) by lia.
Qed.

(** No thread is stuck, or ends with an error. *)
Lemma in_race_thread n c t p :
  in_race n c → c.2 !! t = Some p → p = Ret 0 ∨ ∃ w' p', prog_step c.1 p w' p'.
Proof.
  intros (l & Hl & Hts) Ht. destruct Hl as [_ _ Hsound _ _ _]. rw Hts in Ht.
  apply list_lookup_fmap_Some in Ht as (x & -> & Hx).
  pose proof (Forall_lookup_1 _ _ _ _ Hsound Hx) as Hp. destruct x as [prog k held]; cbn in *.
  destruct prog as [a| |B m f| | | | |]; cbn in Hp; try done.
  - left. by destruct Hp as [-> _].
  - right. exists (m c.1).2, (f (m c.1).1). apply step_act. by destruct (m c.1).
Qed.
Lemma in_race_over n c :
  in_race n c → Forall (λ p, p = Ret 0) c.2 → c.1.(Shared.runtime).(Impl.active_use_count) = 0.
Proof.
  intros (l & Hl & Hts) Hend. destruct Hl as [Hrace _ Hsound _ Hheld _]. destruct Hrace as [_ (m & _ & Hr)].
  destruct (reachable_use_invariant _ m _ Hr) as [(_ & _ & -> & _) _].
  assert (outstanding c.1.(Shared.runtime) = ∅) as ->; [|by rw map_size_empty].
  apply map_empty. intros u. apply eq_None_not_Some. intros Hu.
  destruct (Hheld u) as (t & x & Hx & Hux); [by apply elem_of_dom|].
  pose proof (Forall_lookup_1 _ _ _ _ Hsound Hx) as Hp. rw Hts in Hend.
  pose proof (Forall_lookup_1 _ _ t (Racer.prog x) Hend) as Hret. cbn in Hret, Hp.
  rw Hret in Hp; [|by rw list_lookup_fmap Hx]. destruct Hp as (_ & _ & Hnone). congruence.
Qed.
End race.

(** ** The test *)

Section test.
Context `{Ord : HashOrder} (clock : Clock).

Definition concurrency_setup : Suite (ReadinessProfileId * EngineIncarnationId) :=
  prof_id ← seed_engine;
  inc ← register_worker 1 1;
  publish_all inc;;
  mret (prof_id, inc).
(** The runtime, and the threads before their first step; the spinning on the
    start barrier lets them begin in any order, which every interleaving allows. *)
Definition test_concurrency (threads iters : nat) : SessionShared * list (Prog N) :=
  let '(o, t) := concurrency_setup (Suite.mk (make_runtime clock) []) in
  (SessionShared.make t.(Suite.runtime),
   match o with
   | Ok (prof_id, inc) => (λ t, race_thread inc prof_id t iters) <$> seq 0 threads
   | Throw _ => []
   end).

(** *** The setup *)

Definition race_runtime : Impl.t := (concurrency_setup (Suite.mk (make_runtime clock) [])).2.(Suite.runtime).
Lemma test_concurrency_unfold threads iters :
  test_concurrency threads iters
  = (SessionShared.make race_runtime, (λ t, race_thread (mkId 2) (mkId 1) t iters) <$> seq 0 threads).
Proof.
  assert ((concurrency_setup (Suite.mk (make_runtime clock) [])).1 = Ok (mkId 1, mkId 2)) as Ho
    by (vm_compute; reflexivity).
  rw /test_concurrency /race_runtime. destruct (concurrency_setup _) as [o t]. cbn in Ho. by rw Ho.
Qed.

(** A setup of at most [k] operations. *)
Definition stays {A} (k : N) (m : Suite A) : Prop := ∀ t n,
  n + k + 2 < 2 ^ 64 → (∃ n', n' <= n ∧ reachable created n' t.(Suite.runtime)) →
  ∃ n', n' <= n + k ∧ reachable created n' (m t).2.(Suite.runtime).
Lemma stays_bind {A B} k k' (m : Suite A) (f : A → Suite B) :
  stays k m → (∀ a, stays k' (f a)) → stays (k + k') (m ≫= f).
Proof.
  intros Hm Hf t n Hn Ht. specialize (Hm t n). cbn. rw /mbind /M_bind.
  destruct (m t) as [[a|ex] t']; cbn in *.
  - rw N.add_assoc. apply Hf; [lia|]. apply Hm; [lia|done].
  - destruct Hm as (n' & Hn' & Hr); [lia|done|]. exists n'. split; [lia|done].
Qed.
Lemma stays_ret {A} (a : A) : stays 0 (mret a).
Proof. intros t n _ (n' & Hn' & Hr). exists n'. split; [lia|done]. Qed.
Lemma stays_query {A} (f : Impl.t → A) : stays 0 (on (gets f)).
Proof. intros t n _ (n' & Hn' & Hr). exists n'. split; [lia|exact Hr]. Qed.
Lemma stays_on {A} (m : Run A) : acts runtime_step (rt m) → stays 1 (on m).
Proof.
  intros [Ha _] t n Hn (n' & Hn' & Hr). specialize (Ha (SessionShared.make t.(Suite.runtime))).
  revert Ha. rw /on /on_runtime. cbn. destruct (m _) as [o s]. cbn. intros Ha.
  exact (runtime_step_reachable n' n (SessionShared.make t.(Suite.runtime)) _ Hn' ltac:(lia) Hr Ha).
Qed.
Lemma stays_publish ev : stays 1 (on (EngineResidency.publish_component ev);; mret ()).
Proof.
  change 1 with (1 + 0). apply stays_bind; [|intros _; apply stays_ret].
  apply stays_on. by eapply (acts_op _ _ (PublishComponent _)).
Qed.

Lemma setup_stays : stays 11 concurrency_setup.
Proof.
  change 11 with (2 + (2 + ((0 + 7) + 0))).
  apply stays_bind; [|intros prof_id; apply stays_bind; [|intros inc; apply stays_bind; [|intros _; apply stays_ret]]].
  - change 2 with (1 + (1 + 0)).
    apply stays_bind; [apply stays_on; by eapply (acts_op _ _ (DefineEngine _))|intros _].
    apply stays_bind; [apply stays_on; by eapply (acts_op _ _ (DefineProfile _))|intros _; apply stays_ret].
  - change 2 with (1 + (1 + 0)).
    apply stays_bind; [apply stays_on; by eapply (acts_op _ _ (IssueRegistrationPermit _ _ _ _))|intros permit].
    apply stays_bind; [apply stays_on; by eapply (acts_op _ _ (RegisterIncarnation _ _))|intros reg; apply stays_ret].
  - apply stays_bind; [apply stays_query|intros epoch]. rw /publish_reference_evidence.
    change 7 with (1 + (1 + (1 + (1 + (1 + (1 + 1)))))).
    do 6 (apply stays_bind; [apply stays_publish|intros _]). apply stays_publish.
Qed.
Lemma race_runtime_reachable : ∃ n, n <= 11 ∧ reachable created n race_runtime.
Proof.
  apply (setup_stays _ 0); [done|]. exists 0. split; [done|]. apply reachable_init. split; [done|].
  by exists clock, RuntimeOptions.default.
Qed.

Definition race_engine : EngineDefinition := default EngineDefinition.default (race_runtime.(Impl.engines) !! mkId 1).
Definition race_profile : ReadinessProfile := default ReadinessProfile.default (race_runtime.(Impl.profiles) !! mkId 1).
Lemma race_runtime_unused : race_runtime.(Impl.active_uses) = ∅.
Proof. vm_compute. reflexivity. Qed.
Lemma race_runtime_serviceable :
  serviceable (mkId 2) (mkId 1) race_engine race_profile (mkGen 1) (mkGen 1) race_runtime.
Proof.
  split.
  - split_and!; [|vm_compute; reflexivity..]. eexists. split; [vm_compute; reflexivity|].
    split; [split; vm_compute; done|vm_compute; reflexivity].
  - vm_compute. reflexivity.
  - intros req Hreq. apply provided_b_provided.
    apply (forallb_elem_of (provided_b race_engine (evidence_of (mkId 2) race_runtime)) (Prof.requirements race_profile)); [|done].
    vm_compute. reflexivity.
  - rw /uses_here race_runtime_unused. apply map_Forall_empty.
Qed.
Lemma race_kernel_backs req :
  req ∈ race_profile.(Prof.requirements) → backs race_engine req (race_evidence (mkId 2) (mkGen 1)).
Proof.
  intros Hreq. apply backs_b_backs.
  apply (forallb_elem_of (λ req, backs_b race_engine req (race_evidence (mkId 2) (mkGen 1)))
    race_profile.(Prof.requirements)); [|done].
  vm_compute. reflexivity.
Qed.
Lemma race_runtime_racing :
  racing (mkId 2) (mkId 1) race_engine race_profile (mkGen 1) (mkGen 1) 11 race_runtime.
Proof.
  split; [|apply race_runtime_reachable]. split; [apply race_runtime_serviceable| |].
  - assert (evidence_sum race_runtime.(Impl.evidence) = 7%nat) as -> by (vm_compute; reflexivity). done.
  - assert (race_runtime.(Impl.active_use_count) = 0) as -> by (vm_compute; reflexivity). done.
Qed.

Definition test_racer (iters t : nat) : Racer :=
  Racer.mk (race_thread (mkId 2) (mkId 1) t iters) (iters * iteration_steps t) None.
Lemma test_steps threads iters : (steps_left (test_racer iters <$> seq 0 threads) <= 3 * threads * iters)%nat.
Proof.
  assert (∀ k, (steps_left (test_racer iters <$> seq k threads) <= 3 * threads * iters)%nat) as H; [|apply H].
  induction threads as [|threads IH]; intros k; [done|]. specialize (IH (S k)).
  change (steps_left (test_racer iters <$> seq k (S threads)))
    with (iters * iteration_steps k + steps_left (test_racer iters <$> seq (S k) threads))%nat.
  assert (iteration_steps k <= 3)%nat as Hk.
  { rw /iteration_steps. destruct (k mod 3)%nat as [|[|]]; lia. }
  nia.
Qed.
Lemma test_in_race threads iters :
  in_race (mkId 2) (mkId 1) race_engine race_profile (mkGen 1) (mkGen 1)
    (11 + 3 * N.of_nat threads * N.of_nat iters) 11 (test_concurrency threads iters).
Proof.
  rw test_concurrency_unfold. exists (test_racer iters <$> seq 0 threads).
  split; [|by rw -list_fmap_compose]. pose proof (test_steps threads iters) as Hsteps.
  assert (∀ t r, (test_racer iters <$> seq 0 threads) !! t = Some r → r.(Racer.held) = None) as Hnone.
  { by intros t r (k & -> & _)%list_lookup_fmap_Some. }
  split.
  - apply race_runtime_racing.
  - lia.
  - apply Forall_fmap, Forall_true. intros t. cbn.
    pose proof (thread_sound (mkId 2) (mkId 1) race_engine race_profile (mkGen 1) (mkGen 1)
      race_kernel_backs t iters 0) as Ht.
    by rw Nat.add_0_r in Ht.
  - intros t r Hr u. rw (Hnone t r Hr). done.
  - intros u. rw elem_of_open. cbn. rw race_runtime_unused. intros (v & Hv & _). by rw lookup_empty in Hv.
  - intros t t' r r' u Hr _ Hu. rw (Hnone t r Hr) in Hu. done.
Qed.
End test.

(** C7. The concurrency test passes under every interleaving: as many threads
    and iterations as the bound on evidence admits (the 8 threads of 2000
    iterations of test_concurrency.cpp among them) publish evidence, evaluate
    readiness, and acquire and release serving uses of one incarnation, their
    operations interleaved in any way.  At every moment each thread has either
    ended without having seen an error or can take its next step; at most three
    steps an iteration are ever taken; and when all threads have ended, no use
    is active. *)
Theorem concurrency_test_passes `{Ord : HashOrder} clock threads iters k w ts :
  11 + 3 * N.of_nat threads * N.of_nat iters <= 200000 →
  nsteps race_step k (test_concurrency clock threads iters) (w, ts) →
  (∀ t p, ts !! t = Some p → p = Ret 0 ∨ ∃ w' p', prog_step w p w' p') ∧
  N.of_nat k <= 3 * N.of_nat threads * N.of_nat iters ∧
  (Forall (λ p, p = Ret 0) ts → w.(Shared.runtime).(Impl.active_use_count) = 0).
Proof.
  intros Hbound Hsteps.
  epose proof (nsteps_in_race _ _ _ _ _ _ (race_kernel_backs clock) _ Hbound _ _ _ _
    (test_in_race clock threads iters) Hsteps) as Hrace.
  split_and!.
  - intros t p Ht. by eapply (in_race_thread _ _ _ _ _ _ _ _ (w, ts)).
  - destruct Hrace as (l & [_ Hroom _ _ _ _] & _). lia.
  - by eapply (in_race_over _ _ _ _ _ _ _ _ (w, ts)).
Qed.

(** *** One interleaving, run *)

(** The thread named next takes its step; every step of these threads is an
    operation. *)
Fixpoint race_run (schedule : list nat) (c : SessionShared * list (Prog N)) : option (SessionShared * list (Prog N)) :=
  match schedule with
  | [] => Some c
  | t :: schedule =>
    match c.2 !! t with
    | Some (Act m k) => let '(o, w) := m c.1 in race_run schedule (w, <[t := k o]> c.2)
    | _ => None
    end
  end.
Lemma race_run_steps schedule c c' : race_run schedule c = Some c' → nsteps race_step (length schedule) c c'.
Proof.
  revert c. induction schedule as [|t schedule IH]; intros [w ts]; cbn; [intros [= ->]; constructor|].
  destruct (ts !! t) as [[]|] eqn:Ht; try done. destruct (m w) as [o w'] eqn:Hm. intros Hrun.
  econstructor; [|by apply IH]. eapply race_moves; [done|]. by apply step_act.
Qed.

(** Three threads, one iteration each: the third holds its use while the others
    publish and evaluate. *)
Definition demo_race : SessionShared * list (Prog N) := test_concurrency demo_clock 3 1.
Definition demo_schedule : list nat := [2; 0; 2; 0; 1]%nat.

Lemma concurrency_test_passes_witness :
  (λ c, c.1.(Shared.runtime).(Impl.active_use_count)) <$> race_run demo_schedule demo_race = Some 1 ∧
  ∃ w ts, race_run (demo_schedule ++ [2%nat]) demo_race = Some (w, ts) ∧
    Forall (λ p, p = Ret 0) ts ∧ w.(Shared.runtime).(Impl.active_use_count) = 0.
Proof.
  split; [vm_compute; reflexivity|].
  assert (snd <$> race_run (demo_schedule ++ [2%nat]) demo_race = Some [Ret 0; Ret 0; Ret 0]) as Hts
    by (vm_compute; reflexivity).
  destruct (race_run (demo_schedule ++ [2%nat]) demo_race) as [[w ts]|] eqn:Hrun; [|discriminate Hts].
  injection Hts as Hts. exists w, ts. split; [reflexivity|].
  assert (Forall (λ p, p = Ret 0) ts) as Hend by (rw Hts; repeat constructor).
  split; [exact Hend|].
  exact (proj2 (proj2 (concurrency_test_passes demo_clock 3 1 6 w ts ltac:(vm_compute; discriminate)
    (race_run_steps _ _ _ Hrun))) Hend).
Defined.
