(* ===== verification/Examples.v ===== *)
(** * Example programs

    The clients of the library under [src/examples/], [src/consumer/] and
    [src/benchmarks/], and the test of the CUDA backend: what each of them
    prints when it runs on the model, that the benchmark's loop keeps within the
    runtime's bound on evidence, and that the two programs that drive the CUDA
    backend write past the workspace they prepare. *)

From S2P Require Import Prelude Identities Enums Model Reference Codec Payload Readiness.
From S2P Require Import Economics Standby Runtime Transitions ServingUse Publication.
From stdpp Require Import pretty.
From S2P Require Import Backend Cuda Frame Threads System Suites.
Local Open Scope N_scope.

(** ** Programs that print *)

Module Console.
Record t := mk {
  runtime : Impl.t;
  out : list string;
}.
#[global] Instance eta : Eta t := fields! mk <runtime; out>.
End Console.
Abbreviation Console := (M Console.t Exn).

Definition call {A} (m : Run A) : Console A := λ c,
  let '(o, s) := m c.(Console.runtime) in (o, c <| Console.runtime := s |>).
(** [std::printf] of a line. *)
Definition printf (line : string) : Console () := modify (λ c, c <| Console.out ::= λ l, l ++ [line] |>).
(** [try { block } catch (const DomainError& e) { handler }] *)
Definition catch_domain {A} (block : Console A) (handler : string → Console A) : Console A := λ c,
  match block c with
  | (Throw (DomainError _ what), c') => handler what c'
  | r => r
  end.
(** What [main] printed, or nothing when an exception ended it. *)
Definition printed (main : Console ()) (clock : Clock) : option (list string) :=
  match main (Console.mk (EngineResidency.create clock RuntimeOptions.default) []) with
  | (Ok _, c) => Some c.(Console.out)
  | (Throw _, _) => None
  end.

Section programs.
Context `{Ord : HashOrder}.

(** ** examples *)

Definition example_definition : EngineDefinition :=
  EngineDefinition.default
    <| Def.engine_id := mkId 1 |> <| Def.engine_generation := mkGen 1 |>
    <| Def.config_generation := mkGen 1 |> <| Def.name := "example-engine" |>
    <| Def.model_id := mkId 1 |> <| Def.model_generation := mkGen 1 |>
    <| Def.model_bytes := 2 ^ 20 |> <| Def.workspace_bytes := 2 ^ 16 |>
    <| Def.kv_capacity_entries := 1024 |> <| Def.kernel_key := "k" |>
    <| Def.kernel_generation := mkGen 1 |> <| Def.graph_required := true |>
    <| Def.graph_generation := mkGen 1 |> <| Def.compatibility := Key.with_namespace "ref/v1" |>.

Definition example_readiness : Console () :=
  let def := example_definition in
  call (EngineResidency.define_engine def);;
  let prof := ReadinessProfile.default
    <| Prof.profile_id := mkId 1 |> <| Prof.profile_generation := mkGen 1 |>
    <| Prof.engine_id := def.(Def.engine_id) |> <| Prof.name := "example-profile" |>
    <| Prof.graph_required := true |> <| Prof.warmup_required := true |>
    <| Prof.compatibility := def.(Def.compatibility) |>
    <| Prof.requirements :=
      [ProfileRequirement.default <| Req.category := ComponentCategory.MODEL |>
         <| Req.min_state := ComponentState.VERIFIED |> <| Req.subject := "m" |>] |> in
  call (EngineResidency.define_profile prof);;
  printf "example: profile defined".

Definition example_cold_to_warm : Console () :=
  let def := example_definition <| Def.role := ServingRole.GENERAL_INFERENCE |> in
  call (EngineResidency.define_engine def);;
  permit ← call (EngineResidency.issue_registration_permit (mkId 1) (mkGen 1) (mkId 1) (mkGen 1));
  let inc := EngineIncarnation.default
    <| Inc.engine_id := def.(Def.engine_id) |> <| Inc.engine_generation := def.(Def.engine_generation) |>
    <| Inc.config_generation := def.(Def.config_generation) |>
    <| Inc.worker_id := mkId 1 |> <| Inc.worker_boot := mkGen 1 |> in
  reg ← call (EngineResidency.register_incarnation inc permit);
  printf ("example: cold engine registered incarnation=" +:+ to_string (Identity.raw reg.(Inc.incarnation_id))).

Definition example_serving_use : Console () :=
  let def := EngineDefinition.default <| Def.engine_id := mkId 1 |> in
  call (EngineResidency.define_engine def);;
  permit ← call (EngineResidency.issue_registration_permit (mkId 1) (mkGen 1) (mkId 1) (mkGen 1));
  let inc := EngineIncarnation.default <| Inc.engine_id := def.(Def.engine_id) |>
    <| Inc.worker_id := mkId 1 |> <| Inc.worker_boot := mkGen 1 |> in
  reg ← call (EngineResidency.register_incarnation inc permit);
  call (EngineResidency.mark_running reg.(Inc.incarnation_id));;
  catch_domain
    (let tok := ServingUseToken.default
       <| Tok.incarnation_id := reg.(Inc.incarnation_id) |>
       <| Tok.incarnation_generation := reg.(Inc.incarnation_generation) |>
       <| Tok.engine_id := def.(Def.engine_id) |> <| Tok.engine_generation := def.(Def.engine_generation) |>
       <| Tok.readiness_generation := reg.(Inc.readiness_generation) |> in
     call (EngineResidency.acquire_serving_use tok "example");;
     printf "example: serving use acquired (unexpected)")
    (λ what, printf ("example: serving use correctly fenced: " +:+ what)).

Definition example_recovery_cost : Console () :=
  let c := CostComponent.default <| Cost.name := "warmup" |> <| Cost.estimated_ns := 3000000 |>
    <| Cost.provenance := Provenance.ESTIMATED |> <| Cost.unit := "ns" |> in
  cost ← call (EngineResidency.aggregate_recovery_cost [c] RecoveryAction.WARM_COLD "SEQUENTIAL");
  printf ("example: recovery cost total=" +:+ to_string cost.(RCost.total_ns) +:+
          " ns provenance=" +:+ Provenance.to_string cost.(RCost.provenance)).

(** ** consumer/main.cpp *)

Definition client_definition : EngineDefinition :=
  EngineDefinition.default
    <| Def.engine_id := mkId 1 |> <| Def.engine_generation := mkGen 1 |>
    <| Def.config_generation := mkGen 1 |> <| Def.model_id := mkId 1 |>
    <| Def.model_generation := mkGen 1 |> <| Def.graph_required := true |>
    <| Def.compatibility := Key.with_namespace "ref/v1" |>.
(** A client's incarnation of that engine, which does not name a generation;
    both clients begin so. *)
Definition client_registers : Run EngineIncarnation :=
  let def := client_definition in
  EngineResidency.define_engine def;;
  permit ← EngineResidency.issue_registration_permit (mkId 1) (mkGen 1) (mkId 1) (mkGen 1);
  let inc := EngineIncarnation.default <| Inc.engine_id := def.(Def.engine_id) |>
    <| Inc.worker_id := mkId 1 |> <| Inc.worker_boot := mkGen 1 |> in
  EngineResidency.register_incarnation inc permit.

Definition consumer_main : Console () :=
  reg ← call client_registers;
  printf ("consumer: registered incarnation=" +:+ to_string (Identity.raw reg.(Inc.incarnation_id)));;
  call (EngineResidency.invalidate_incarnation_components reg.(Inc.incarnation_id) "consumer invalidation");;
  n ← call EngineResidency.active_use_count;
  printf ("consumer: invalidate applied, active uses=" +:+ pretty n).

(** ** benchmark_core.cpp

    [n] is the number of publications, 20000 in the code; the line it prints
    last, which tells the rate it measured, is left out. *)

Definition bench_publish (inc : EngineIncarnationId) : Run () :=
  epoch ← EngineResidency.current_epoch;
  EngineResidency.publish_component (evidence_for inc ComponentCategory.BACKEND "b" epoch);;
  mret ().
Fixpoint bench_loop (n : nat) (inc : EngineIncarnationId) : Run () :=
  match n with
  | O => mret ()
  | S n => bench_publish inc;; bench_loop n inc
  end.
Definition bench_setup : Run EngineIncarnationId :=
  reg ← client_registers;
  EngineResidency.mark_running reg.(Inc.incarnation_id);;
  mret reg.(Inc.incarnation_id).
Definition benchmark_core (n : nat) : Run () :=
  inc ← bench_setup; bench_loop n inc.
End programs.

(** ** example_cuda.cpp *)

(** A member function of the backend. *)
Definition member {S A} (f : S → A * S) : M S Exn A := λ s, let '(a, s) := f s in (Ok a, s).
(** The lines it prints. *)
Definition example_cuda {S} `{ReferenceBackend S} : M S Exn (list string) :=
  d ← Backend.discover 0;
  member (Backend.prepare (2 ^ 20) (2 ^ 16) 1024);;
  member (Backend.bind_kernel "er-reference-kernel");;
  member (Backend.instantiate_graph true);;
  warm ← member (Backend.warmup 1 16);
  modify Backend.release;;
  mret
    ["example cuda: " +:+ d.(Disc.device_name) +:+ " cc=" +:+ d.(Disc.compute_capability);
     "example cuda: warmup ok=" +:+ (if warm.(Out.ok) then "1" else "0") +:+ " detail=" +:+ warm.(Out.detail)]%string.

(** ** test_cuda.cpp

    Its checks and what it returns; its other lines of output are left out. *)

(** The backend under test, and the messages of the checks that failed. *)
Module CudaTest.
Record t := mk {
  be : CudaReferenceBackend;
  failures : list string;
}.
#[global] Instance eta : Eta t := fields! mk <be; failures>.
End CudaTest.
Abbreviation CudaTest := (M CudaTest.t Exn).

Section cuda_test.
Context `{CudaDriver}.

(** [be->f(...)] *)
Definition ask {A} (f : CudaReferenceBackend → A * CudaReferenceBackend) : CudaTest A := λ t,
  let '(a, b) := f t.(CudaTest.be) in (Ok a, t <| CudaTest.be := b |>).
(** [if (!ok) er_test::CheckFail(msg, 1);] *)
Definition check_that (ok : bool) (msg : string) : CudaTest () :=
  if ok then mret () else modify (λ t, t <| CudaTest.failures ::= λ l, l ++ [msg] |>).
Definition return_code : CudaTest N := gets (λ t, if t.(CudaTest.failures) is [] then 0 else 1).
(** What the CPU makes of an input. *)
Definition cpu_result (i : ComputeInput) : ComputeResult :=
  ComputeResult.default <| Out.ok := true |> <| Out.output := cpu_reference_compute i |>
    <| Out.seed := i.(In.seed) |>.
Definition test_input : ComputeInput :=
  ComputeInput.default <| In.batch := 1 |> <| In.seq_len := 64 |> <| In.seed := 1234 |>
    <| In.input := (λ i, f32_of_Z (Z.of_nat (i * 7) mod 13)) <$> seq 0 64 |>.
(** [(long long)(total - free)] *)
Definition used_memory (info : N * N) : Z :=
  let '(free, total) := info in
  let used := u64 (total + (2 ^ 64 - free)) in
  (if (used <? 2 ^ 63)%N then Z.of_N used else Z.of_N used - 2 ^ 64)%Z.

(** From [prepare] on; [cudaMemGetInfo] answers [before] and [after]. *)
Definition cuda_checks (before after : N * N) : CudaTest N :=
  bound ← ask (Backend.bind_kernel "er-reference-kernel");
  check_that bound "cuda: bind kernel failed";;
  graph ← ask (Backend.instantiate_graph true);
  check_that graph "cuda: graph instantiate failed";;
  warm ← ask (Backend.warmup 1 16);
  let wref_in := ComputeInput.default <| In.batch := 1 |> <| In.seq_len := 16 |> <| In.seed := 42 |>
    <| In.input := replicate 16 (f32_of_Z 0) |> in
  check_that (Backend.verify_parity warm (cpu_result wref_in)) "cuda: warmup parity";;
  out ← ask (Backend.execute test_input);
  check_that (Backend.verify_parity out (cpu_result test_input)) "cuda: execute parity";;
  ask (λ b, ((), Backend.release b));;
  check_that (used_memory after - used_memory before <=? 8 * 1024 * 1024)%Z
    "cuda: device memory not restored within tolerance";;
  return_code.
Definition after_discovery (disc : BackendDiscovery) (before after : N * N) : CudaTest N :=
  check_that disc.(Disc.cuda) "cuda: not a CUDA backend";;
  prepared ← ask (Backend.prepare (2 ^ 20) (2 ^ 16) 1024);
  if prepared : bool then cuda_checks before after
  else check_that false "cuda: prepare failed";; return_code.
Definition test_cuda (before after : N * N) : CudaTest N := λ t,
  match Backend.discover 0 t.(CudaTest.be) with
  | (Throw (DomainError _ _), b) => (Ok 1, t <| CudaTest.be := b |>)
  | (Throw e, b) => (Throw e, t <| CudaTest.be := b |>)
  | (Ok disc, b) => after_discovery disc before after (t <| CudaTest.be := b |>)
  end.
End cuda_test.

(** ** What they print *)

Theorem examples_print clock :
  printed example_readiness clock = Some ["example: profile defined"] ∧
  printed example_cold_to_warm clock = Some ["example: cold engine registered incarnation=2"] ∧
  printed example_serving_use clock = Some ["example: serving use correctly fenced: unknown profile"] ∧
  printed example_recovery_cost clock = Some ["example: recovery cost total=3000000 ns provenance=ESTIMATED"] ∧
  printed consumer_main clock
  = Some ["consumer: registered incarnation=2"; "consumer: invalidate applied, active uses=0"].
Proof. split_and!; vm_compute; reflexivity. Qed.

(** *** The benchmark *)

Section benchmark.
Context `{Ord : HashOrder}.

Lemma bench_publish_effect inc s i :
  may_publish inc s i →
  wp (bench_publish inc) (λ _ s', ∃ ev t, pushed inc ev t s s') (λ _ _, False) s.
Proof.
  intros Hmay. rw /bench_publish /EngineResidency.current_epoch. wp_step. cbv beta. wp_step. apply wp_bind.
  eapply wp_mono; [| |apply (publish_effect inc _ s i Hmay)]; [|done|done|done].
  cbv beta. intros _ s' (id & t & Hpushed). wp_step. by do 2 eexists.
Qed.
(** While there is room, the loop runs to its end and appends a record each
    time round. *)
Lemma bench_loop_runs n inc s :
  (n ≠ 0%nat → ∃ i, may_publish inc s i) →
  N.of_nat (evidence_sum s.(Impl.evidence) + n) <= s.(Impl.opts).(Opts.max_component_evidence) →
  wp (bench_loop n inc)
    (λ _ s', length (evidence_of inc s') = (length (evidence_of inc s) + n)%nat) (λ _ _, False) s.
Proof.
  revert s. induction n as [|n IH]; intros s Hmay Hroom; [rw /wp /=; lia|].
  destruct (Hmay ltac:(done)) as [i Hi]. cbn [bench_loop]. apply wp_bind.
  eapply wp_mono; [| |exact (bench_publish_effect inc s i Hi)]; [|done].
  intros _ s' (ev & t & Hpu).
  assert (length (evidence_of inc s') = S (length (evidence_of inc s))) as Hlen.
  { by rw {1}/evidence_of (pu_evidence _ _ _ _ _ Hpu) lookup_insert_eq /= length_app Nat.add_1_r. }
  assert (evidence_sum s'.(Impl.evidence) = S (evidence_sum s.(Impl.evidence))) as Hsum
    by rw (pu_evidence _ _ _ _ _ Hpu) evidence_sum_push //.
  eapply wp_mono; [| |apply IH]; [cbv beta; intros; lia|done| |].
  - intros Hn. eexists. apply (pushed_may_publish _ _ _ _ _ _ Hpu Hi). lia.
  - rw (pu_opts _ _ _ _ _ Hpu) Hsum. lia.
Qed.

(** What the loop starts from. *)
Definition bench_runtime (clock : Clock) : Impl.t :=
  (bench_setup (EngineResidency.create clock RuntimeOptions.default)).2.
Lemma bench_setup_ok clock :
  (bench_setup (EngineResidency.create clock RuntimeOptions.default)).1 = Ok (mkId 2).
Proof. vm_compute. reflexivity. Qed.
Lemma bench_runtime_empty clock :
  (bench_runtime clock).(Impl.evidence) = ∅ ∧
  (bench_runtime clock).(Impl.opts) = RuntimeOptions.default ∧
  (bench_runtime clock).(Impl.epoch_started) = true ∧ (bench_runtime clock).(Impl.fenced) = ∅.
Proof. split_and!; vm_compute; reflexivity. Qed.
Lemma bench_runtime_incarnation clock :
  (λ i, (i.(Inc.state).(St.lifecycle), i.(Inc.state).(St.registration), i.(Inc.state).(St.health)))
    <$> (bench_runtime clock).(Impl.incarnations) !! mkId 2
  = Some (ProcessLifecycle.RUNNING, RegistrationState.REGISTERED, HealthState.HEALTHY).
Proof. vm_compute. reflexivity. Qed.
Lemma bench_may_publish clock : ∃ i, may_publish (mkId 2) (bench_runtime clock) i.
Proof.
  destruct (bench_runtime_empty clock) as (He & Ho & Hst & Hf).
  destruct (proj1 (fmap_Some _ _ _) (bench_runtime_incarnation clock)) as (i & Hi & Heq).
  injection Heq as Hl Hr Hh. exists i. split; [exact Hi|congruence..| |exact Hst|by rw Ho He].
  by rw /is_fenced Hf lookup_empty.
Qed.

(** The benchmark runs to its end and leaves a record for each publication, as
    many of them as the default options have room for. *)
Theorem benchmark_completes n clock :
  N.of_nat n <= 200000 →
  wp (benchmark_core n) (λ _ s', ∃ inc, length (evidence_of inc s') = n) (λ _ _, False)
    (EngineResidency.create clock RuntimeOptions.default).
Proof.
  intros Hn. destruct (bench_runtime_empty clock) as (He & Ho & _).
  pose proof (bench_setup_ok clock) as Hok. pose proof (bench_may_publish clock) as Hmay.
  rw /benchmark_core. apply wp_bind. rw {1}/wp. rw /bench_runtime in He Ho Hmay.
  destruct (bench_setup _) as [o s]. cbn [fst snd] in *. subst o.
  eapply wp_mono; [| |apply (bench_loop_runs n (mkId 2) s); [done|by rw He Ho]]; [|done].
  cbv beta. intros a s' Hs'. exists (mkId 2). rw Hs' /evidence_of He lookup_empty. done.
Qed.
End benchmark.

(** *** The CUDA example *)

Section cuda_example.
Context `{CudaDriver}.

Lemma discover_device count :
  device_count = Some count → (0 < count)%Z →
  ∃ d, d.(Disc.cuda) = true ∧ ∀ b : CudaReferenceBackend, Backend.discover 0 b = (Ok d, b).
Proof.
  cbn [Backend.discover Cuda.backend]. rw /Cuda.discover. destruct device_count as [c|]; [|done].
  intros [= ->] Hpos. cbv iota.
  assert ((count <=? 0)%Z = false) as -> by lia.
  assert ((Z.to_N count <=? 0)%N = false) as -> by (apply N.leb_gt; lia).
  eexists. split; [|intros b; reflexivity]. done.
Qed.

(** An engine with the buffers of the example, whose next driver calls succeed. *)
Record sized (b : CudaReferenceBackend) : Prop := {
  sized_prepared : b.(Cuda.prepared) = true;
  sized_answers : b.(Cuda.answers) = [];
  sized_workspace : b.(Cuda.d_workspace) = Some (Cuda.fresh (2 ^ 16));
}.
Lemma prepare_sized : sized (Backend.prepare (2 ^ 20) (2 ^ 16) 1024 (Cuda.make [])).2.
Proof. done. Qed.
Lemma bind_kernel_sized key b : sized b → sized (Backend.bind_kernel key b).2.
Proof. by intros [??]. Qed.
Lemma instantiate_graph_sized b : sized b → sized (Backend.instantiate_graph true b).2.
Proof.
  intros [Hp Ha Hw]. destruct b. cbn in Hp, Ha, Hw. subst. done.
Qed.
Lemma warmup_overruns b :
  sized b → (Backend.warmup 1 16 (Backend.instantiate_graph true b).2).2.(Cuda.fault) = true.
Proof.
  intros Hb. cbn [Backend.warmup Cuda.backend]. destruct (instantiate_graph_sized b Hb) as [Hp Ha Hw].
  assert (Cuda.active (Cuda.launch_of 16 (Backend.instantiate_graph true b).2) = Cuda.staging_floats) as Hl.
  { destruct Hb as [Hp' Ha' _], b. cbn in Hp', Ha'. subst. apply active_own. }
  assert (length (Cuda.warmup_input 1 16).(In.input) = 16%nat) as Hn by apply length_replicate.
  pose proof staging_floats_N as Hst.
  apply run_faults; [lia|exact Hp|exact Ha|]. rw Hn Hl Hw. intros [_ Hle].
  cbn [default] in Hle. rw length_fresh in Hle. change (2 ^ 16 / 4) with 16384 in Hle. lia.
Qed.
Lemma release_fault b : (Cuda.release_alloc b).(Cuda.fault) = b.(Cuda.fault).
Proof. done. Qed.
Lemma wp_member {S A} (f : S → A * S) (Q : A → S → Prop) (X : Exn → S → Prop) s :
  Q (f s).1 (f s).2 → wp (member f) Q X s.
Proof. rw /wp /member. by destruct (f s). Qed.

(** With a device and a driver that succeeds, the example reports its warm-up,
    which has written past the workspace it prepared. *)
Theorem example_cuda_overruns count :
  device_count = Some count → (0 < count)%Z →
  wp example_cuda (λ lines b, length lines = 2%nat ∧ b.(Cuda.fault) = true) (λ _ _, False) (Cuda.make []).
Proof.
  intros Hc Hpos. destruct (discover_device count Hc Hpos) as (d & _ & Hd).
  rw /example_cuda. apply wp_bind. rw {1}/wp Hd.
  do 4 (apply wp_bind, wp_member). apply wp_bind, wp_modify, wp_ret.
  split; [done|]. rw release_fault. apply warmup_overruns, bind_kernel_sized, prepare_sized.
Qed.
(** What a run did past a buffer is not undone by the next. *)
Lemma then_faulty {E A B} (m : M CudaReferenceBackend E A) (k : A → M CudaReferenceBackend E B) :
  preserves (λ b, b.(Cuda.fault) = true) m → (∀ a, preserves (λ b, b.(Cuda.fault) = true) (k a)) →
  preserves (λ b, b.(Cuda.fault) = true) (m ≫= k).
Proof.
  intros Hm Hk b Hb. apply wp_bind. eapply wp_mono; [| |exact (Hm b Hb)]; [|done].
  intros a b' Hb'. by apply Hk.
Qed.
Lemma call_or_faulty {E} (e : E) : preserves (λ b, b.(Cuda.fault) = true) (Cuda.call_or e).
Proof. intros b Hb. rw /wp /Cuda.call_or /Cuda.call /mbind /M_bind /=. by destruct (default true _). Qed.
Lemma modify_faulty {E} f :
  (∀ b, b.(Cuda.fault) = true → (f b).(Cuda.fault) = true) →
  preserves (λ b, b.(Cuda.fault) = true) (modify f : M CudaReferenceBackend E ()).
Proof. intros Hf b Hb. by apply wp_modify, Hf. Qed.
Ltac faulty :=
  repeat first
    [ progress cbv zeta | apply call_or_faulty | apply then_faulty; [|intros ?]
    | apply modify_faulty; intros ? Hb; cbn; rw ?Hb ?orb_true_r; done
    | intros ? ?; first [apply wp_gets|apply wp_ret|apply wp_throw_if; intros _]; done ].
Lemma run_stays_faulty i b : b.(Cuda.fault) = true → (Cuda.run i b).2.(Cuda.fault) = true.
Proof.
  assert (preserves (λ b, b.(Cuda.fault) = true) (Cuda.upload i)) as Hup by (rw /Cuda.upload; faulty).
  assert (preserves (λ b, b.(Cuda.fault) = true) (Cuda.compute (length i.(In.input)))) as Hco
    by (rw /Cuda.compute; faulty).
  assert (preserves (λ b, b.(Cuda.fault) = true) (Cuda.download (length i.(In.input)))) as Hdo
    by (rw /Cuda.download; faulty).
  intros Hf. rw /Cuda.run.
  match goal with |- context [?m b] =>
    assert (preserves (λ b, b.(Cuda.fault) = true) m) as Hm; [|specialize (Hm b Hf)]
  end.
  - repeat first [exact Hup|exact Hco|exact Hdo|progress faulty].
  - revert Hm. rw {1}/wp. match goal with |- context [?m b] => by destruct (m b) as [[r|e] b'] end.
Qed.
Lemma wp_ask {A} (f : CudaReferenceBackend → A * CudaReferenceBackend) Q X t :
  Q (f t.(CudaTest.be)).1 (t <| CudaTest.be := (f t.(CudaTest.be)).2 |>) → wp (ask f) Q X t.
Proof. rw /wp /ask. by destruct (f t.(CudaTest.be)). Qed.
Lemma wp_check_that ok msg (Q : () → CudaTest.t → Prop) X t :
  (∀ l, Q () (t <| CudaTest.failures := l |>)) → wp (check_that ok msg) Q X t.
Proof. intros HQ. rw /wp /check_that. destruct ok; [|apply HQ]. destruct t. apply HQ. Qed.
Lemma checks_overrun before after t :
  sized t.(CudaTest.be) →
  wp (cuda_checks before after) (λ _ t', t'.(CudaTest.be).(Cuda.fault) = true) (λ _ _, False) t.
Proof.
  intros Hb. rw /cuda_checks.
  repeat first [apply wp_bind|apply wp_ask|apply wp_check_that; intros ?|apply wp_gets].
  cbn [CudaTest.be over]. rw release_fault. apply run_stays_faulty, warmup_overruns, bind_kernel_sized, Hb.
Qed.
(** The test of the backend overruns in the same way. *)
Theorem test_cuda_overruns before after count :
  device_count = Some count → (0 < count)%Z →
  wp (test_cuda before after) (λ _ t, t.(CudaTest.be).(Cuda.fault) = true) (λ _ _, False)
    (CudaTest.mk (Cuda.make []) []).
Proof.
  intros Hc Hpos. destruct (discover_device count Hc Hpos) as (d & Hcuda & Hd).
  rw {1}/wp /test_cuda. cbn [CudaTest.be]. rw Hd.
  enough (wp (after_discovery d before after) (λ _ t, t.(CudaTest.be).(Cuda.fault) = true) (λ _ _, False)
            (CudaTest.mk (Cuda.make []) [])) as Hwp by exact Hwp.
  rw /after_discovery. apply wp_bind, wp_check_that. intros l. apply wp_bind, wp_ask.
  apply checks_overrun, prepare_sized.
Qed.
(** Without a device the exception of [discover] ends it. *)
Lemma example_cuda_without_device :
  device_count = None →
  example_cuda (Cuda.make []) = (Throw (DomainError BackendMissing "no CUDA device"), Cuda.make []).
Proof. intros Hc. rw /example_cuda. cbn [Backend.discover Cuda.backend]. by rw /Cuda.discover Hc. Qed.
End cuda_example.
