(* ===== verification/Acceptance.v ===== *)
(** * The integration test

    [src/tests/test_integration.cpp] against the coordinator's session: one
    connection that registers, publishes, serves and is fenced, each request
    handled by [session_step] as it arrives. *)

From S2P Require Import Prelude Identities Enums Model Reference Codec Frame Payload Readiness.
From S2P Require Import Economics Standby Runtime Loading Transitions Scenario Helpers Persistence Recovery.
From S2P Require Import Threads Routing Sessions System Commands Schedules Suites.
Local Open Scope N_scope.

(** The coordinator's shared state and where the session of the connection is. *)
Module Wire.
Record t := mk {
  shared : SessionShared.t;
  mode : Mode;
}.
#[global] Instance eta : Eta t := fields! mk <shared; mode>.
End Wire.
Abbreviation Wire := (M Wire.t Exn).

Section integration.
Context `{Ord : HashOrder}.

(** [send_msg] then [recv_msg]: the session handles the message alone, and the
    frame it sends back is the answer. *)
Definition exchange (ty : MessageType) (epoch authority : N) (l : list (string * string))
    : Wire ProtocolMessage := λ t,
  let msg := {| Msg.type := ty; Msg.epoch := u32 epoch; Msg.authority := u32 authority;
                Msg.payload := make_payload (fields_of l) |} in
  match alone (resume t.(Wire.mode))
          {| Env.shared := t.(Wire.shared); Env.inbox := [msg]; Env.links := []; Env.sent := [] |} with
  | (Ok m, env) =>
    (match env.(Env.sent) with
     | reply :: _ => Ok reply
     | [] => Throw (DomainError InvalidState "no answer")
     end, Wire.mk env.(Env.shared) m)
  | (Throw e, env) => (Throw e, t <| Wire.shared := env.(Env.shared) |>)
  end.
(** [if (!cond) { ...; return 1; }] *)
Definition require (cond : bool) (msg : string) : Wire () :=
  throw_if (negb cond) (DomainError InvalidState msg).
Definition is_error (m : ProtocolMessage) : bool := bool_decide (m.(Msg.type) = MessageType.ERROR).
Definition answer (m : ProtocolMessage) : Fields := parse_payload m.(Msg.payload).

Definition register_as (boot pid label : string) : Wire ProtocolMessage :=
  exchange MessageType.REGISTER 0 0
    [("worker_id", "1"); ("worker_boot", boot); ("source_id", "1"); ("source_boot", boot);
     ("pid", pid); ("label", label)].

Definition test_integration : Wire () :=
  exchange MessageType.HELLO 0 0 [("label", "integration")];;
  mr ← register_as "1" "100" "A";
  require (negb (is_error mr)) "FAIL: register A rejected";;
  let incA := u (answer mr) "incarnation_id" 0 in
  let pub (cat : ComponentCategory.t) (st : ComponentState.t) (subj detail : string) extra :=
    exchange MessageType.PUBLISH_COMPONENT 0 0
      (extra ++ [("category", to_string (enum_to_int cat)); ("state", to_string (enum_to_int st));
        ("subject", subj); ("detail", detail); ("incarnation_id", to_string incA)]) in
  pub ComponentCategory.BACKEND ComponentState.VERIFIED "backend-reference" "b" [];;
  pub ComponentCategory.DEVICE_CONTEXT ComponentState.BOUND "device-context-0" "d" [];;
  pub ComponentCategory.MODEL ComponentState.VERIFIED "reference-model" "m"
    [("model_gen", "1"); ("compat", "ref/v1")];;
  pub ComponentCategory.KV_CAPACITY ComponentState.BOUND "kv-main" "k" [("kv_gen", "1")];;
  pub ComponentCategory.KERNEL ComponentState.VERIFIED "er-reference-kernel" "kr"
    [("kernel_gen", "1"); ("compat", "ref/v1")];;
  pub ComponentCategory.GRAPH ComponentState.VERIFIED "er-reference-graph" "g" [("graph_gen", "1")];;
  pub ComponentCategory.WARMUP ComponentState.VERIFIED "warmup" "w" [];;
  mr ← exchange MessageType.QUERY_READINESS 0 0 [];
  require (String.eqb (get (answer mr) "outcome" "UNKNOWN") "READY") "FAIL: expected READY";;
  mr ← exchange MessageType.ACQUIRE_USE 0 0
    [("readiness_gen", "1"); ("execution_id", "1"); ("workload_id", "1"); ("caller", "integration")];
  let use_id := u (answer mr) "use_id" 0 in
  require (negb (use_id =? 0)) "FAIL: acquire use failed";;
  exchange MessageType.RELEASE_USE 0 0 [("use_id", to_string use_id)];;
  mr ← register_as "1" "100" "A";
  require (is_error mr) "FAIL: duplicate register accepted";;
  exchange MessageType.FENCE_WORKER 0 0
    [("worker_id", "1"); ("worker_boot", "1"); ("reason", "worker died")];;
  mr ← register_as "1" "100" "A";
  require (is_error mr) "FAIL: fenced re-register accepted";;
  mr ← register_as "2" "300" "A-prime";
  require (negb (is_error mr)) "FAIL: replacement register rejected".
End integration.

Definition connected : Wire.t := Wire.mk (SessionShared.make (boot_runtime test_clock None)) (AtSession 1 id0).
Theorem integration_test_passes : (test_integration connected).1 = Ok ().
Proof. vm_compute. reflexivity. Qed.
