(* ===== verification/Exceptions.v ===== *)
(** * Exceptions

    [impl_->engines.at] throws [std::out_of_range], which no handler catches:
    the invariant that keeps it from happening, which exceptions every operation
    of the runtime may raise, and what that means for the coordinator's threads. *)

From S2P Require Import Prelude Identities Enums Model Reference Codec Frame Payload Readiness.
From S2P Require Import Economics Standby Runtime Loading Transitions Scenario Helpers Tables Incarnations.
From S2P Require Import Persistence Recovery Threads Routing Sessions System Commands Schedules.
Local Open Scope N_scope.

(** ** Every incarnation's engine is defined *)

Definition engines_known (s : Impl.t) : Prop :=
  map_Forall (λ _ i, is_Some (s.(Impl.engines) !! i.(Inc.engine_id))) s.(Impl.incarnations).

Lemma known_engines s s' :
  engines_known s → s'.(Impl.incarnations) = s.(Impl.incarnations) →
  (∀ k, is_Some (s.(Impl.engines) !! k) → is_Some (s'.(Impl.engines) !! k)) → engines_known s'.
Proof. intros Hs Hi He k i Hk. rw Hi in Hk. by eapply He, Hs. Qed.
Lemma known_define k d :
  preserves engines_known (modify (λ s, s <| Impl.engines ::= <[k := d]> |>) : Run ()).
Proof.
  apply preserves_modify. intros s Hs. eapply known_engines; [done..|]. intros k' H. cbn.
  rw lookup_insert. case_decide; [done|exact H].
Qed.
Lemma known_alter_engine k f :
  preserves engines_known (modify (λ s, s <| Impl.engines ::= alter f k |>) : Run ()).
Proof.
  apply preserves_modify. intros s Hs. eapply known_engines; [done..|]. intros k' [x Hx]. cbn.
  rw lookup_alter Hx. case_decide; subst; rw ?Hx; by eexists.
Qed.
Lemma known_set_inc id f :
  (∀ i, (f i).(Inc.engine_id) = i.(Inc.engine_id)) → preserves engines_known (set_inc id f).
Proof.
  intros Hf. apply preserves_modify. intros s Hs k i; simpl.
  intros [(<- & j & Hj & ->)|[Hne Hk]]%lookup_alter_Some; [rw Hf; by eapply Hs|by eapply Hs].
Qed.
Lemma known_fmap f :
  (∀ i, (f i).(Inc.engine_id) = i.(Inc.engine_id)) →
  preserves engines_known (modify (λ s, s <| Impl.incarnations ::= fmap f |>) : Run ()).
Proof.
  intros Hf. apply preserves_modify. intros s Hs k i; simpl.
  intros (j & <- & Hj)%lookup_fmap_Some. rw Hf. by eapply Hs.
Qed.
Lemma fence_incarnation_engine w b i :
  (EngineResidency.fence_incarnation w b i).(Inc.engine_id) = i.(Inc.engine_id).
Proof. rw /EngineResidency.fence_incarnation. by destruct (_ && _). Qed.
Lemma require_revalidation_engine i :
  (EngineResidency.require_revalidation i).(Inc.engine_id) = i.(Inc.engine_id).
Proof. rw /EngineResidency.require_revalidation. by destruct (bool_decide _). Qed.

Lemma known_insert s s' k i :
  engines_known s → s'.(Impl.engines) = s.(Impl.engines) →
  is_Some (s.(Impl.engines) !! i.(Inc.engine_id)) →
  s'.(Impl.incarnations) = <[k := i]> s.(Impl.incarnations) → engines_known s'.
Proof. intros Hs He Hi Hincs. rw /engines_known Hincs He. by apply map_Forall_insert_2. Qed.

Ltac known_write := idtac;
  match goal with
  | |- preserves engines_known (set_inc _ _) => apply known_set_inc; done
  | |- preserves engines_known (modify _) =>
    first [apply known_define|apply known_alter_engine
          |apply known_fmap; first [apply fence_incarnation_engine|apply require_revalidation_engine]]
  end.

Lemma run_op_known `{HashOrder} o : preserves engines_known (run_op o).
Proof.
  destruct o; cbn [run_op]; try (preserve_with known_write; fail).
  intros s Hs. wp_go; try exact Hs.
  all: eapply (known_insert s); [exact Hs| | |reflexivity]; [reflexivity|eexists; eassumption].
Qed.
Lemma created_known n s : created n s → engines_known s.
Proof. intros [-> (c & o & _ & ->)]. by intros k i Hk. Qed.

(** Every incarnation of a saved state names an engine of it. *)
Definition references_closed (p : PersistentState) : Prop :=
  ∀ i, i ∈ p.(PS.incarnations) → ∃ d, d ∈ p.(PS.engines) ∧ d.(Def.engine_id) = i.(Inc.engine_id).
Definition closed_files : Policy := λ p _, references_closed p.

Lemma restore_known p s : references_closed p → engines_known (restore p s).
Proof.
  intros Hp k i [Hi _]%store_all_elem. apply list_elem_of_fmap in Hi as (j & -> & Hj).
  destruct (Hp j Hj) as (d & Hd & He). cbn. rw -He. by apply store_all_some.
Qed.
Lemma reachable_known n s : reachable_under closed_files created n s → engines_known s.
Proof.
  intros Hr. refine (reachable_invariant closed_files created (λ _, engines_known) _ _ _ n s Hr).
  - apply created_known.
  - intros Ord o. apply preserves_advances; [done|]. intros _. apply run_op_known.
  - intros p n' s' _ Hp _. by apply restore_known.
Qed.

(** ** What the operations throw *)

(** [m] throws nothing but domain errors from [s]. *)
Definition domain_only {A} (m : Run A) (s : Impl.t) : Prop :=
  wp m (λ _ _, True) (λ e _, e ≠ StdOutOfRange) s.

Lemma domain_for_each {A} (f : A → Run ()) l s :
  (∀ x s, domain_only (f x) s) → domain_only (for_each f l) s.
Proof.
  intros Hf. revert s. induction l as [|x l IH]; intros s; [done|]. apply wp_bind.
  eapply wp_mono; [| |apply Hf]; [|done]. intros [] s' _. apply IH.
Qed.
Lemma domain_best policy ir profs best s :
  is_Some (s.(Impl.engines) !! ir.(Inc.engine_id)) →
  wp (EngineResidency.best_readiness policy ir profs best)
    (λ _ s', s'.(Impl.engines) = s.(Impl.engines)) (λ e _, e ≠ StdOutOfRange) s.
Proof.
  intros He. revert best s He. induction profs as [|[? p] profs IH]; intros best s He; [done|].
  cbn [EngineResidency.best_readiness]. destruct (negb _); [by apply IH|].
  apply wp_bind, wp_engines_at; [intros d Hd|intros Hn; by destruct He; simplify_eq].
  apply wp_bind, wp_readiness_now. intros t c _.
  assert (∀ b s', s'.(Impl.engines) = s.(Impl.engines) →
    wp (EngineResidency.best_readiness policy ir profs b)
      (λ _ s', s'.(Impl.engines) = s.(Impl.engines)) (λ e _, e ≠ StdOutOfRange) s') as H.
  { intros b s' Hs'. rw -Hs'. apply IH. by rw Hs'. }
  destruct (Res.outcome _); first [exact eq_refl|by apply H].
Qed.
Lemma domain_sweep `{HashOrder} policy incs w s :
  (∀ k ir, (k, ir) ∈ incs → is_Some (s.(Impl.engines) !! ir.(Inc.engine_id))) →
  domain_only (EngineResidency.sweep policy incs w) s.
Proof.
  revert w s. induction incs as [|[k ir] incs IH]; intros w s He; [done|].
  assert (∀ w s', s'.(Impl.engines) = s.(Impl.engines) →
    domain_only (EngineResidency.sweep policy incs w) s') as Hrest.
  { intros w' s' Hs'. apply IH. intros k' ir' Hin. rw Hs'. apply (He k'). by right. }
  cbn [EngineResidency.sweep]. destruct (negb _); [by apply Hrest|].
  destruct (EngineResidency.is_lost ir); [by apply Hrest|]. destruct (bool_decide _); [by apply Hrest|].
  apply wp_bind, wp_gets, wp_bind. eapply wp_mono; [| |apply domain_best]; [|done|apply (He k); by left].
  intros best s' Hs'. by apply Hrest.
Qed.
Lemma domain_invalidate `{HashOrder} e x s : domain_only (EngineResidency.invalidate_for_engine e x) s.
Proof. rw /domain_only. by wp_go. Qed.

(** The engine of a known incarnation is missing. *)
Ltac refute_known :=
  match goal with
  | Hs : engines_known ?s, Hi : Impl.incarnations ?s !! _ = Some ?i,
    He : Impl.engines ?s !! Inc.engine_id ?i = None |- _ =>
    exfalso; destruct (Hs _ _ Hi) as [? ?]; congruence
  end.

Lemma run_op_domain `{HashOrder} o s : engines_known s → domain_only (run_op o) s.
Proof.
  intros Hs. destruct o; cbn [run_op]; rw /domain_only; try (wp_go; done).
  - wp_go; try done. eapply wp_mono; [| |apply domain_for_each]; [done|done|]. intros x s'. apply domain_invalidate.
  - wp_go; first [done|refute_known].
  - rw /discard /EngineResidency.reconcile_standby. apply wp_bind, wp_bind, wp_gets, wp_bind.
    eapply wp_mono; [| |apply domain_sweep]; [intros w s' _; by wp_go|done|].
    intros k ir Hin%elem_of_iteration. by eapply Hs.
  - wp_go; first [done|refute_known].
Qed.

(** A writer throws nothing but domain errors. *)
Definition writes_domain (w : Writer) : Prop := ∀ buf, wp w (λ _ _, True) (λ e _, e ≠ StdOutOfRange) buf.

Lemma writes_domain_bind (w w' : Writer) : writes_domain w → writes_domain w' → writes_domain (w;; w').
Proof. intros Hw Hw' buf. apply wp_bind. eapply wp_mono; [| |apply Hw]; [|done]. intros [] ? _. apply Hw'. Qed.
Lemma writes_domain_str s : writes_domain (w_str s).
Proof. intros buf. apply wp_bind, wp_throw_if; [done|]. by intros _. Qed.
Lemma writes_domain_vec {A} (w : A → Writer) l : (∀ x, writes_domain (w x)) → writes_domain (w_vec w l).
Proof.
  intros Hw. apply writes_domain_bind; [by intros buf|].
  induction l as [|x l IH]; [by intros buf|]. by apply writes_domain_bind.
Qed.
Ltac writes_domain_go :=
  repeat match goal with
    | |- writes_domain (mbind _ _) => apply writes_domain_bind
    | |- writes_domain (w_str _) => apply writes_domain_str
    | |- writes_domain (w_vec _ _) => apply writes_domain_vec; intros ?
    | |- writes_domain (w_enum _) => by intros ?
    | |- writes_domain (w_id _) => by intros ?
    | |- writes_domain (w_gen _) => by intros ?
    | |- writes_domain (w_bool _) => by intros ?
    | |- writes_domain (w_u32 _) => by intros ?
    | |- writes_domain (w_u64 _) => by intros ?
    | |- writes_domain (?w _) => unfold w
    end.
Lemma writes_domain_body st : writes_domain (w_body st).
Proof. rw /w_body. writes_domain_go. Qed.
Lemma serialize_domain `{HashOrder} s : domain_only serialize s.
Proof.
  rw /domain_only /serialize. apply wp_bind, wp_gets. rw /serialize_persistent_state.
  pose proof (writes_domain_body (persistent_image s) []) as Hb. rw /wp in Hb.
  by destruct (w_body _ _) as [[] ?].
Qed.

(** ** What the threads throw *)

(** [raises P p]: whatever the other threads do between two steps of [p], as
    long as every incarnation's engine is defined, [p] throws only what [P]
    allows. *)
Fixpoint raises {A} (P : Exn → Prop) (p : Prog A) : Prop :=
  match p with
  | Ret _ => True
  | Raise e => P e
  | Act m k => ∀ w, engines_known w.(Shared.runtime) → raises P (k (m w).1)
  | Recv k => ∀ m, raises P (k m)
  | Send _ k => ∀ b, raises P (k b)
  | Await _ k => ∀ r, raises P (k r)
  | Dequeue _ k => ∀ c, raises P (k c)
  | WriteFile _ _ k => ∀ b, raises P (k b)
  end.
Definition domain (e : Exn) : Prop := e ≠ StdOutOfRange.
Definition nothing (e : Exn) : Prop := False.

Section raises.
Implicit Type P : Exn → Prop.

Lemma raises_bind {A B} P (p : Prog A) (f : A → Prog B) :
  raises P p → (∀ a, raises P (f a)) → raises P (p ≫= f).
Proof. intros Hp Hf. induction p; cbn [mbind Prog_bind raises] in *; auto. Qed.
Lemma raises_mono {A} P P' (p : Prog A) : (∀ e, P e → P' e) → raises P p → raises P' p.
Proof. intros HP. induction p; cbn [raises] in *; auto. Qed.
Lemma raises_quiet {A} (p : Prog A) : raises nothing p → raises domain p.
Proof. by apply raises_mono. Qed.
Lemma raises_try_domain {A} P (p : Prog A) h :
  raises domain p → (∀ code what, raises P (h code what)) → raises P (try_domain p h).
Proof. rw /try_domain. intros Hp Hh. induction p; cbn [try_with raises] in *; auto. destruct e; [apply Hh|done]. Qed.
Lemma raises_try_all {A} P (p h : Prog A) : raises P h → raises P (try_all p h).
Proof. rw /try_all. intros Hh. induction p; cbn [try_with raises] in *; auto. Qed.
Lemma raises_locked {A} P (m : SessionShared → A * SessionShared) : raises P (locked m).
Proof. intros w _. by destruct (m w). Qed.
Lemma raises_rt {A} P (m : Run A) :
  (∀ s, engines_known s → wp m (λ _ _, True) (λ e _, P e) s) → raises P (rt m).
Proof.
  intros Hm w Hw. specialize (Hm _ Hw). rw /wp in Hm. rw /on_runtime. by destruct (m _) as [[] ?].
Qed.
Lemma raises_op `{HashOrder} {A} (m : Run A) (o : Op) : run_op o = discard m → raises domain (rt m).
Proof.
  intros Ho. apply raises_rt. intros s Hs. pose proof (run_op_domain o s Hs) as Hd.
  rw Ho /domain_only /discard /wp /mbind /M_bind in Hd. rw /wp. by destruct (m s) as [[] ?].
Qed.
Lemma raises_op_unit `{HashOrder} (m : Run ()) (o : Op) : run_op o = m → raises domain (rt m).
Proof. intros Ho. apply raises_rt. intros s Hs. rw -Ho. by apply run_op_domain. Qed.
Lemma raises_query {A} P (f : Impl.t → A) : raises P (rt (gets f)).
Proof. by apply raises_rt. Qed.
Lemma raises_fenced P k : raises P (rt (EngineResidency.incarnation_is_fenced k)).
Proof. by apply raises_rt. Qed.
Lemma raises_fail_all P rep q : raises P (fail_all rep q).
Proof. induction q as [|c q IH]; [exact I|]. apply raises_bind; [apply raises_locked|by intros _]. Qed.
Lemma raises_current_readiness k : raises domain (rt (EngineResidency.current_readiness_generation k)).
Proof. apply raises_rt. intros s _. rw /EngineResidency.current_readiness_generation. by wp_go. Qed.
End raises.

Section handlers.
Context `{Ord : HashOrder}.

Ltac raise_op o := first [eapply (raises_op _ o); reflexivity|eapply (raises_op_unit _ o); reflexivity].
Ltac raises_op_go :=
  match goal with
  | |- raises _ (rt (EngineResidency.issue_registration_permit ?w ?b ?s ?sb)) =>
    raise_op (IssueRegistrationPermit w b s sb)
  | |- raises _ (rt (EngineResidency.register_incarnation ?i ?p)) => raise_op (RegisterIncarnation i p)
  | |- raises _ (rt (EngineResidency.publish_component ?e)) => raise_op (PublishComponent e)
  | |- raises _ (rt (EngineResidency.evaluate_readiness ?i ?p)) => raise_op (EvaluateReadiness i p)
  | |- raises _ (rt (EngineResidency.create_preparation_plan ?i ?p ?t)) => raise_op (CreatePreparationPlan i p t)
  | |- raises _ (rt (EngineResidency.begin_preparation ?p)) => raise_op (BeginPreparation p)
  | |- raises _ (rt (EngineResidency.step_preparation ?a)) => raise_op (StepPreparation a)
  | |- raises _ (rt (EngineResidency.complete_preparation ?a)) => raise_op (CompletePreparation a)
  | |- raises _ (rt (EngineResidency.activate ?q)) => raise_op (Activate q)
  | |- raises _ (rt (EngineResidency.acquire_serving_use ?t ?c)) => raise_op (AcquireServingUse t c)
  | |- raises _ (rt (EngineResidency.release_serving_use ?t ?o ?d)) => raise_op (ReleaseServingUse t o d)
  | |- raises _ (rt (EngineResidency.request_drain ?i)) => raise_op (RequestDrain i)
  | |- raises _ (rt (EngineResidency.acknowledge_backend_cleanup ?i)) => raise_op (AcknowledgeBackendCleanup i)
  | |- raises _ (rt (EngineResidency.begin_replacement ?p)) => raise_op (BeginReplacement p)
  | |- raises _ (rt (EngineResidency.commit_cutover ?r)) => raise_op (CommitCutover r)
  | |- raises _ (rt (EngineResidency.retire_old ?r)) => raise_op (RetireOld r)
  | |- raises _ (rt (EngineResidency.fence_worker ?w ?b ?r)) => raise_op (FenceWorker w b r)
  | |- raises _ (rt (EngineResidency.current_readiness_generation _)) => apply raises_current_readiness
  | |- raises _ (rt (EngineResidency.incarnation_is_fenced _)) => apply raises_fenced
  | |- raises _ (rt serialize) => apply raises_rt; intros ? _; apply serialize_domain
  | |- raises _ (rt _) => apply raises_query
  end.
Ltac raises_step :=
  match goal with
  | |- raises _ (Ret _) => exact I
  | |- raises domain (Raise _) => discriminate
  | |- raises domain (refuse _ _) => discriminate
  | |- raises _ (reply _ _) => intros ?; exact I
  | |- raises _ (error_reply _ _) => intros ?; exact I
  | |- raises _ (Send _ _) => intros ?
  | |- raises _ (send _) => intros ?
  | |- raises _ recv => intros ?
  | |- raises _ (Recv _) => intros ?
  | |- raises _ (Await _ _) => intros ?
  | |- raises _ (Dequeue _ _) => intros ?
  | |- raises _ (WriteFile _ _ _) => intros ?
  | |- raises _ (locked _) => apply raises_locked
  | |- raises _ (read _) => apply raises_locked
  | |- raises _ (fail_all _ _) => apply raises_fail_all
  | |- raises _ (write _) => apply raises_locked
  | |- raises _ (mbind _ _) => apply raises_bind; [|intros ?; cbv beta]
  | |- raises _ (guarded _) => apply raises_try_domain; [|intros ? ?]
  | |- raises _ (try_domain _ _) => apply raises_try_domain; [|intros ? ?; cbv beta]
  | |- raises _ (try_all _ _) => apply raises_try_all
  | |- raises _ (rt _) => raises_op_go
  | |- raises _ (match ?x with _ => _ end) => destruct x
  | |- raises _ (?f _ _ _ _ _ _) => progress unfold f
  | |- raises _ (?f _ _ _ _ _) => progress unfold f
  | |- raises _ (?f _ _ _ _) => progress unfold f
  | |- raises _ (?f _ _ _) => progress unfold f
  | |- raises _ (?f _ _) => progress unfold f
  | |- raises _ (?f _) => progress unfold f
  end.
Ltac raises_go := repeat (raises_step; cbv beta zeta).

Lemma raises_step_times n a : raises domain (step_times n a).
Proof. revert a. induction n as [|n IH]; intros a; cbn [step_times]; [exact I|]. raises_step; [raises_go|apply IH]. Qed.
Lemma raises_check_cycle P e a : raises P (check_cycle e a).
Proof. raises_go. Qed.
Lemma raises_fenced_or_drained P k : raises P (fenced_or_drained k).
Proof. raises_go. Qed.
Lemma raises_fail P r reason : raises P (fail r reason).
Proof. raises_go. Qed.
Lemma raises_process r cmd : raises nothing (process r cmd).
Proof. raises_go. Qed.
Lemma raises_acquire_use_for router f : raises nothing (acquire_use_for router f).
Proof. raises_go. Qed.
Lemma raises_release_use_for router k o detail : raises nothing (release_use_for router k o detail).
Proof. raises_go. Qed.
Lemma raises_cleanup k :
  raises nothing (try_domain (rt (EngineResidency.acknowledge_backend_cleanup k);; Ret "") (λ _ what, Ret what)).
Proof. raises_go. Qed.
Lemma raises_route_execute P f e a target boot : raises P (route_execute f e a target boot).
Proof. raises_go. Qed.
Lemma raises_route_drain P f e a target boot : raises P (route_drain f e a target boot).
Proof. raises_go. Qed.
Lemma raises_register sid k f : raises nothing (on_register sid k f).
Proof. raises_go. Qed.
Lemma raises_prepare k : raises nothing (on_prepare k).
Proof. apply raises_try_domain; [|by intros ???]. repeat first [apply raises_step_times|raises_step]. Qed.
Lemma raises_command_ready sid k : raises nothing (on_command_ready sid k).
Proof. raises_go. Qed.

Ltac raises_handlers :=
  match goal with
  | |- raises _ (on_prepare _) => apply raises_prepare
  | |- raises _ (on_register _ _ _) => apply raises_register
  | |- raises _ (on_command_ready _ _) => apply raises_command_ready
  | |- raises _ (route_execute _ _ _ _ _) => apply raises_route_execute
  | |- raises _ (route_drain _ _ _ _ _) => apply raises_route_drain
  end.
Lemma raises_dispatch sid k msg : raises nothing (dispatch sid k msg).
Proof.
  rw /dispatch. cbv zeta. destruct (Msg.type msg).
  all: repeat first [raises_handlers|raises_step; cbv beta zeta].
Qed.
Lemma raises_resume m : raises nothing (resume m).
Proof.
  destruct m as [sid k|sid k r|]; [| |done]; cbn [resume].
  - rw /session_step /handle. apply raises_bind; [done|]. intros [msg|]; [|raises_go].
    apply raises_bind; [raises_go|]. intros []; [raises_go|apply raises_dispatch].
  - rw /dispatcher_step. apply raises_bind; [raises_go|]. intros alive.
    apply raises_bind; [raises_go|]. intros [cmd|]; [|raises_go].
    apply raises_bind; [apply raises_process|done].
Qed.
Lemma raises_start_session : raises nothing start_session.
Proof. rw /start_session. raises_go. Qed.
End handlers.

(** ** The system *)

Lemma prog_step_raises {A} w (p : Prog A) w' p' :
  engines_known w.(Shared.runtime) → raises nothing p → prog_step w p w' p' → raises nothing p'.
Proof.
  intros Hw Hp Hstep. destruct Hstep; cbn [raises] in Hp; auto. specialize (Hp _ Hw). by rw H in Hp.
Qed.
(** No thread throws, now or in what it has left to do. *)
Definition all_quiet (σ : Coordinator) : Prop :=
  engines_known σ.(Coordinator.shared).(Shared.runtime) ∧
  disciplined runtime_step σ ∧ map_Forall (λ _, raises nothing) σ.(Coordinator.threads).

Lemma sys_step_quiet σ σ' : all_quiet σ → sys_step σ σ' → all_quiet σ'.
Proof.
  intros (Hk & Hd & Hq) Hstep. destruct (sys_step_acts runtime_step σ σ' Hd Hstep) as [Hr Hd'].
  split; [|split; [exact Hd'|]].
  - destruct Hr as [-> |Hop]; [done|]. by eapply (preserved_step engines_known); [intros; apply run_op_known|..].
  - destruct Hstep as [t p p' w w' ts Ht Hstep|Ord t m w ts Ht|t w ts Ht]; cbn in *.
    + apply map_Forall_insert_2; [|done]. eapply prog_step_raises; [exact Hk|by eapply Hq|done].
    + apply map_Forall_insert_2; [apply raises_resume|done].
    + apply map_Forall_insert_2; [apply raises_start_session|done].
Qed.

(** *** Recovery and references *)

Lemma recover_known blob s :
  (∀ p, deserialize_persistent_state blob = Ok p → references_closed p) →
  engines_known s → engines_known (recover blob s).2.
Proof.
  intros Hp Hs.
  assert (wp (load blob;; discard EngineResidency.advance_epoch) (λ _, engines_known) (λ _, engines_known) s) as H.
  { apply wp_bind. rw /load. destruct (deserialize_persistent_state blob) as [p|err]; [|exact Hs].
    apply wp_bind, wp_throw_if; [intros _; exact Hs|intros _]. apply wp_modify.
    apply (run_op_known AdvanceEpoch), restore_known. by apply Hp. }
  rw /wp in H. rw /recover. by destruct ((load blob;; _) s) as [[a|[]] s'].
Qed.
Lemma boot_known c state :
  (∀ blob p, state = Some blob → deserialize_persistent_state blob = Ok p → references_closed p) →
  engines_known (boot_runtime c state).
Proof.
  intros Hp. destruct (seeded_reachable (L := closed_files) c) as (m & _ & Hm). apply reachable_known in Hm.
  destruct state as [blob|]; [|exact Hm]. apply recover_known; [|exact Hm]. intros p. by apply Hp.
Qed.
(** What a runtime saves is closed. *)
Lemma saved_references_closed `{HashOrder} n s :
  reachable_under closed_files created n s → references_closed (persistent_image s).
Proof.
  intros Hr i. cbn. intros ([k j] & -> & Hi%elem_of_iteration)%list_elem_of_fmap.
  destruct (reachable_known n s Hr k j Hi) as [d Hd]. exists d. split.
  - apply list_elem_of_fmap. exists (Inc.engine_id j, d). split; [done|]. by apply elem_of_iteration.
  - by destruct (reachable_keyed _ _ _ Hr) as [Hkey _]; apply (Hkey _ _ Hd).
Qed.

(** C5. No exception escapes: in a coordinator started without a state file, or
    with one whose incarnations name engines of the file (as every saved file
    does), however its threads interleave, whatever arrives on their sockets
    and whichever timers expire, no session and no dispatcher is ever left with
    an uncaught exception, neither a domain error nor the [std::out_of_range]
    of [engines.at], which would end the process: every incarnation's engine
    stays defined, and every other throw is caught where it is answered. *)
Theorem no_exception_escapes c state σ t e :
  (∀ blob p, state = Some blob → deserialize_persistent_state blob = Ok p → references_closed p) →
  rtc sys_step (booted c state) σ → σ.(Coordinator.threads) !! t ≠ Some (Raise e).
Proof.
  intros Hp Hsteps Ht. assert (all_quiet (booted c state)) as Hq.
  { split; [by apply boot_known|]. split; apply map_Forall_empty. }
  assert (all_quiet σ) as (_ & _ & Hquiet).
  { clear Ht. induction Hsteps as [|σ σ1 σ2 Hs _ IH]; [done|]. apply IH. by eapply sys_step_quiet. }
  exact (Hquiet t _ Ht).
Qed.

(** *** Two restarts *)

Lemma settle_steps fuel t σ : rtc sys_step σ (settle fuel t σ).
Proof.
  revert σ. induction fuel as [|fuel IH]; intros σ; [done|]. cbn [settle].
  destruct (exec_thread t Go σ) as [σ'|] eqn:He; [|done].
  eapply rtc_l; [by eapply exec_thread_sound|apply IH].
Qed.
Lemma join_steps fuel t σ : rtc sys_step σ (join fuel t σ).
Proof.
  rw /join /connect. destruct (Coordinator.threads σ !! t) eqn:Ht; [apply settle_steps|].
  eapply rtc_l; [|apply settle_steps]. destruct σ. by constructor.
Qed.
Lemma deliver_steps fuel t msg σ : rtc sys_step σ (deliver fuel t msg σ).
Proof.
  rw /deliver. destruct (exec_thread t _ σ) as [σ'|] eqn:He; [|done].
  eapply rtc_l; [by eapply exec_thread_sound|apply settle_steps].
Qed.

(** A controller asks a coordinator restarted from a state file to activate
    the file's incarnation. *)
Definition restart_and_activate (blob : Bytes) : Coordinator :=
  deliver 40 0 (request MessageType.ACTIVATE [("incarnation_id", "2")])
    (join 30 0 (booted demo_clock (Some blob))).
Lemma restart_steps blob : rtc sys_step (booted demo_clock (Some blob)) (restart_and_activate blob).
Proof. etrans; [apply join_steps|apply deliver_steps]. Qed.

Lemma loaded_only {E A} (o : Outcome E A) (x y : A) : o = Ok x → o = Ok y → x = y.
Proof. intros ->. by intros [= ->]. Qed.
Lemma demo_saved_closed blob p :
  Some demo_saved = Some blob → deserialize_persistent_state blob = Ok p → references_closed p.
Proof.
  intros Hb Hp. apply (inj Some) in Hb. subst blob. rw (loaded_only _ _ _ Hp demo_saved_loads).
  apply (saved_references_closed 12), demo_ready_reachable.
Qed.
Lemma no_exception_escapes_witness :
  (restart_and_activate demo_saved).(Coordinator.threads) !! 0 ≠ Some (Raise StdOutOfRange).
Proof.
  apply (no_exception_escapes demo_clock (Some demo_saved)); [exact demo_saved_closed|apply restart_steps].
Defined.

(** The same state with nothing but the profile and the incarnation: a
    well-formed file the codec writes and [load] accepts, checking no reference. *)
Definition orphaned : PersistentState :=
  let p := persistent_image demo_ready in
  PS.mk p.(PS.version) p.(PS.coordinator_epoch) p.(PS.authority_generation) p.(PS.registration_counter)
    [] p.(PS.profiles) p.(PS.incarnations) [] [] [].
Definition orphaned_blob : Bytes := Eval vm_compute in
  match serialize_persistent_state orphaned with Ok blob => blob | Throw _ => [] end.

(** One request then ends the coordinator: [std::out_of_range] leaves the
    session's thread. *)
Definition engine_named (σ : Coordinator) (k : N) : option N :=
  (λ i, id_raw i.(Inc.engine_id)) <$> σ.(Coordinator.shared).(Shared.runtime).(Impl.incarnations) !! mkId k.
Lemma unknown_engine_ends_the_coordinator :
  let σ := restart_and_activate orphaned_blob in
  (match σ.(Coordinator.threads) !! 0 with Some (Raise StdOutOfRange) => true | _ => false end,
   engine_named σ 2, size σ.(Coordinator.shared).(Shared.runtime).(Impl.engines)) = (true, Some 1, 0%nat).
Proof. vm_compute. reflexivity. Qed.
