(* ===== verification/Promises.v ===== *)
(** * Promises

    Every command a controller routes is answered: a promise that [enqueue]
    made is resolved, or its command waits in the queue of a router that a
    dispatcher attends, or a thread holds it and resolves it on every path. *)

From S2P Require Import Prelude Identities Enums Model Reference Codec Frame Payload Readiness.
From S2P Require Import Economics Standby Runtime Loading Transitions Scenario Helpers Tables Incarnations.
From S2P Require Import Persistence Recovery Threads Routing Sessions Replies System Commands Schedules.
From S2P Require Import Exceptions.
Local Open Scope N_scope.

(** ** What a thread does on every path

    [tends I Done Q p]: whatever the other threads do between two steps of [p],
    as long as [I] holds of the shared state, and whatever the outside answers,
    [p] throws nothing, and a step of it makes [Done] true before it returns,
    or it returns a value that [Q] allows. *)
Fixpoint tends {A} (I Done : SessionShared → Prop) (Q : A → Prop) (p : Prog A) : Prop :=
  match p with
  | Ret a => Q a
  | Raise _ => False
  | Act m k => ∀ w, I w → Done (m w).2 ∨ tends I Done Q (k (m w).1)
  | Recv k => ∀ m, tends I Done Q (k m)
  | Send _ k => ∀ b, tends I Done Q (k b)
  | Await _ k => ∀ r, tends I Done Q (k r)
  | Dequeue _ k => ∀ c, tends I Done Q (k c)
  | WriteFile _ _ k => ∀ b, tends I Done Q (k b)
  end.

Section tends.
Context (I Done : SessionShared → Prop).

Lemma tends_mono {A} (Q Q' : A → Prop) p : (∀ a, Q a → Q' a) → tends I Done Q p → tends I Done Q' p.
Proof.
  intros HQ. induction p; cbn [tends]; auto. intros Hp w Hw. destruct (Hp w Hw); auto.
Qed.
Lemma tends_bind {A B} (Q : B → Prop) (p : Prog A) (f : A → Prog B) :
  tends I Done (λ a, tends I Done Q (f a)) p → tends I Done Q (p ≫= f).
Proof.
  induction p; cbn [mbind Prog_bind tends]; auto. intros Hp w Hw. destruct (Hp w Hw); auto.
Qed.
(** A part that throws nothing, and the rest. *)
Lemma tends_after {A B} (Q : B → Prop) (p : Prog A) (f : A → Prog B) :
  (∀ w, I w → engines_known w.(Shared.runtime)) →
  raises nothing p → (∀ a, tends I Done Q (f a)) → tends I Done Q (p ≫= f).
Proof.
  intros HI Hp Hf. apply tends_bind. induction p; cbn [tends raises] in *; auto.
Qed.
(** A part that is certain to be done, whatever follows. *)
Lemma tends_first {A B} (Q : B → Prop) (p : Prog A) (f : A → Prog B) :
  tends I Done (λ _, False) p → tends I Done Q (p ≫= f).
Proof. intros Hp. apply tends_bind. by eapply tends_mono; [|exact Hp]. Qed.
Lemma tends_try {A} (Q : A → Prop) p h : tends I Done Q p → tends I Done Q (try_with p h).
Proof. induction p; cbn [try_with tends]; auto; [done|]. intros Hp w Hw. destruct (Hp w Hw); auto. Qed.
Lemma tends_locked {A} (m : SessionShared → A * SessionShared) :
  (∀ w, Done (m w).2) → tends I Done (λ _, False) (locked m).
Proof. intros Hm w _. left. specialize (Hm w). by destruct (m w). Qed.
Lemma tends_write f : (∀ w, Done (f w)) → tends I Done (λ _, False) (write f).
Proof. intros Hf. by apply tends_locked. Qed.

(** One step of such a thread. *)
Lemma tends_step {A} (Q : A → Prop) w p w' p' :
  I w → prog_step w p w' p' → tends I Done Q p → Done w' ∨ tends I Done Q p'.
Proof.
  intros Hw Hstep. destruct Hstep; cbn [tends]; auto. intros Hp. specialize (Hp _ Hw). by rw H in Hp.
Qed.
End tends.

(** Every incarnation's engine is defined. *)
Definition known (w : SessionShared) : Prop := engines_known w.(Shared.runtime).

(** ** Promises and routers *)

Definition resolved (p : N) (w : SessionShared) : Prop := is_Some (w.(Shared.replies) !! p).
(** The command of promise [p] waits for router [r]. *)
Definition queued (p r : N) (w : SessionShared) : Prop :=
  ∃ x cmd, w.(Shared.routers) !! r = Some x ∧ cmd ∈ x.(Router.queue) ∧ cmd.(Cmd.promise) = p.
(** A router that [enqueue] may accept commands for, and one it no longer does. *)
Definition live (r : N) (w : SessionShared) : Prop :=
  ∃ x, w.(Shared.routers) !! r = Some x ∧ x.(Router.ready) = true ∧ x.(Router.alive) = true.
Definition dead (r : N) (w : SessionShared) : Prop :=
  ∀ x, w.(Shared.routers) !! r = Some x → x.(Router.alive) = false.
(** What is queued is queued for a live router. *)
Definition queues_live (w : SessionShared) : Prop :=
  ∀ r x, w.(Shared.routers) !! r = Some x → x.(Router.queue) ≠ [] →
    x.(Router.ready) = true ∧ x.(Router.alive) = true.

(** The rest of a thread that answers promise [p] on every path. *)
Definition answers {A} (p : N) (prog : Prog A) : Prop := tends known (resolved p) (λ _, False) prog.
(** A thread that, on every path, closes router [r] or is back at the
    dispatcher's loop, which takes the next command of its queue. *)
Definition attends (r : N) (prog : Prog Mode) : Prop :=
  tends known (dead r) (λ m, ∃ sid k, m = AtDispatcher sid k r) prog.

Lemma dead_not_live r w : dead r w → ¬ live r w.
Proof. intros Hd (x & Hx & _ & Ha). apply Hd in Hx. congruence. Qed.
Lemma queued_live p r w : queues_live w → queued p r w → live r w.
Proof.
  intros Hq (x & cmd & Hx & Hin & _). exists x. split; [done|]. apply (Hq r x Hx). by destruct x.(Router.queue); [set_solver|].
Qed.

Lemma set_router_Some r f w r' x :
  (set_router r f w).(Shared.routers) !! r' = Some x →
  (r = r' ∧ ∃ y, w.(Shared.routers) !! r' = Some y ∧ x = f y) ∨ (r ≠ r' ∧ w.(Shared.routers) !! r' = Some x).
Proof. by rw /set_router /= lookup_alter_Some. Qed.
Lemma set_router_eq r f w x :
  w.(Shared.routers) !! r = Some x → (set_router r f w).(Shared.routers) !! r = Some (f x).
Proof. intros Hx. cbn. by rw lookup_alter_eq Hx. Qed.
Lemma set_router_ne r f w r' :
  r' ≠ r → (set_router r f w).(Shared.routers) !! r' = w.(Shared.routers) !! r'.
Proof. intros Hne. cbn. by rw lookup_alter_ne. Qed.

(** *** [set_value] and [kill] *)

Lemma set_value_resolved p q rep w : resolved p w ∨ p = q → resolved p (set_value q rep w).
Proof.
  rw /set_value /resolved. destruct (_ !! q) as [y|] eqn:Hq; cbn.
  - intros [?| ->]; [done|]. rw Hq. by eexists.
  - rw lookup_insert. case_decide; [by eexists|]. intros [?|?]; [done|congruence].
Qed.
Lemma set_value_promise p rep w : (set_value p rep w).(Shared.next_promise) = w.(Shared.next_promise).
Proof. rw /set_value. by case_match. Qed.
Lemma kill_dead r w : dead r (kill r w).2.
Proof. intros x. by intros [(_ & y & _ & ->)|[? _]]%set_router_Some. Qed.

(** ** What a step does to the commands *)

(** No promise is dropped: answers stay, what is queued stays queued, is
    answered or is in the hand of the thread ([held]), a new promise is queued or
    answered. *)
Record commands_kept (held : N → Prop) (w w' : SessionShared) : Prop := {
  ck_live : queues_live w';
  ck_resolved p : resolved p w → resolved p w';
  ck_queued p r : queued p r w → queued p r w' ∨ resolved p w' ∨ held p;
  ck_new p : w.(Shared.next_promise) <= p < w'.(Shared.next_promise) → resolved p w' ∨ ∃ r, queued p r w';
}.
Definition moves (held : N → Prop) (w w' : SessionShared) : Prop :=
  registry_sound w → queues_live w → commands_kept held w w'.
Definition command_step : SessionShared → SessionShared → Prop := moves (λ _, False).

Lemma moves_mono (held held' : N → Prop) w w' :
  (∀ p, held p → held' p) → moves held w w' → moves held' w w'.
Proof.
  intros Hheld Hm Hs Hq. destruct (Hm Hs Hq) as [H1 H2 H3 H4]. split; auto.
  intros p r Hp. destruct (H3 p r Hp) as [?|[?|?]]; auto.
Qed.

Lemma command_step_elsewhere w w' :
  w'.(Shared.routers) = w.(Shared.routers) → w'.(Shared.replies) = w.(Shared.replies) →
  w'.(Shared.next_promise) = w.(Shared.next_promise) → command_step w w'.
Proof.
  intros H1 H2 H3 _ Hq. split; rw /queues_live /resolved /queued ?H1 ?H2 ?H3; auto. lia.
Qed.
(** A change of one router that leaves its queue alone. *)
Lemma command_step_set r f w :
  (∀ x, (f x).(Router.queue) = x.(Router.queue) ∧ (f x).(Router.alive) = x.(Router.alive) ∧
    (x.(Router.ready) = true → (f x).(Router.ready) = true)) →
  command_step w (set_router r f w).
Proof.
  intros Hf _ Hq. split; cbn; auto; [|intros p r' (x & cmd & Hx & Hcmd)|lia].
  - intros r' x [(-> & y & Hy & ->)|[_ Hx]]%set_router_Some; [|by apply (Hq r')].
    destruct (Hf y) as (-> & -> & Hready). intros Hne. destruct (Hq _ _ Hy Hne). auto.
  - left. rw /queued /=. destruct (decide (r' = r)) as [->|Hne].
    + exists (f x), cmd. rw lookup_alter_eq Hx. by destruct (Hf x) as (-> & _).
    + exists x, cmd. by rw lookup_alter_ne.
Qed.

Lemma enqueue_kept r type id e a f w : command_step w (enqueue r type id e a f w).2.
Proof.
  intros _ Hq. rw /enqueue. set (w1 := w <| Shared.next_promise ::= N.succ |>).
  destruct (_ && _) eqn:Hroom; cbn [snd].
  - apply andb_true_iff in Hroom as [[Hready Halive]%andb_true_iff _].
    rw /router_at in Hready Halive. destruct (Shared.routers w1 !! r) as [x|] eqn:Hx; [|done].
    cbn in Hx, Hready, Halive. split; cbn -[set_router]; auto.
    + intros r' x' [(-> & y & Hy & ->)|[_ Hx']]%set_router_Some; [|by apply (Hq r')].
      intros _. cbn. cbn in Hy. rw Hx in Hy. by injection Hy as <-.
    + intros p r' (y & cmd & Hy & Hin & Hp). left. rw /queued. cbn. destruct (decide (r' = r)) as [->|Hne].
      * eexists _, cmd. rw lookup_alter_eq Hy. split; [done|]. split; [|done]. cbn. set_solver.
      * exists y, cmd. by rw lookup_alter_ne.
    + intros p Hp. right. exists r. rw /queued. cbn. eexists _, _. rw lookup_alter_eq Hx. split; [done|].
      split; [cbn; apply elem_of_app; right; by apply list_elem_of_singleton|]. cbn in Hp |- *. lia.
  - set (rep := Rep.failure _). destruct (set_value_routers (Shared.next_promise w) rep w1) as (Hr & _ & _).
    split.
    + rw /queues_live Hr. exact Hq.
    + intros p Hp. apply set_value_resolved. by left.
    + intros p r' Hp. left. by rw /queued Hr.
    + intros p. rw set_value_promise. cbn. intros Hp. left. apply set_value_resolved. right. lia.
Qed.
Lemma set_value_kept p rep w : command_step w (set_value p rep w).
Proof.
  intros _ Hq. destruct (set_value_routers p rep w) as (Hr & _ & _). split.
  - by rw /queues_live Hr.
  - intros q Hp. apply set_value_resolved. by left.
  - intros q r' Hp. left. by rw /queued Hr.
  - rw set_value_promise. lia.
Qed.
(** The promises of a router that dies are in the hand of who killed it. *)
Lemma kill_moves r w :
  moves (λ p, ∃ cmd, cmd ∈ (kill r w).1 ∧ cmd.(Cmd.promise) = p) w (kill r w).2.
Proof.
  intros _ Hq. split; cbn; [|done| |lia].
  - intros r' x [(-> & y & _ & ->)|[_ Hx]]%set_router_Some; [done|by apply (Hq r')].
  - intros p r' (x & cmd & Hx & Hin & Hp). destruct (decide (r' = r)) as [->|Hne].
    + right; right. exists cmd. by rw (router_at_lookup r w x).
    + left. exists x, cmd. cbn. by rw lookup_alter_ne.
Qed.
Lemma bind_kept sid f inc w : command_step w (bind_session sid f inc w).
Proof.
  intros Hs Hq. split; cbn; auto; [|intros p r' (x & cmd & Hx & Hcmd)|lia].
  - intros r x. cbn. intros [[_ <-]|[_ Hx]]%lookup_insert_Some; [done|by apply (Hq r)].
  - left. exists x, cmd. cbn. rw lookup_insert_ne; [done|]. apply (rs_fresh w Hs) in Hx. lia.
Qed.

#[export] Instance command_step_routine : Routine command_step.
Proof.
  split; intros; try (by apply command_step_elsewhere).
  - apply enqueue_kept.
  - apply set_value_kept.
  - by apply command_step_set.
  - rw /adopt. case_match; [by apply command_step_elsewhere|]. by apply command_step_set.
  - apply bind_kept.
  - rw /forget_session. cbv zeta. by repeat case_match; apply command_step_elsewhere.
  - rw /session_inc_at. by case_match; apply command_step_elsewhere.
Qed.
#[export] Instance command_step_readies : Readies command_step.
Proof. intros r w. by apply command_step_set. Qed.

(** Taking a command. *)
Lemma dequeue_kept r cmd q w :
  (router_at r w).(Router.queue) = cmd :: q →
  let w' := set_router r (λ x, x <| Router.queue := q |>) w in
  queues_live w →
  queues_live w' ∧ (∀ p, resolved p w → resolved p w') ∧
  (∀ p r', queued p r' w → queued p r' w' ∨ p = cmd.(Cmd.promise)).
Proof.
  intros Hcmd w' Hq. rw /router_at in Hcmd. destruct (Shared.routers w !! r) as [x|] eqn:Hx; [|done].
  cbn in Hcmd. split_and!.
  - intros r' x' [(<- & y & Hy & ->)|[_ Hx']]%set_router_Some; [|by apply (Hq r')]. cbn. intros _.
    rw Hx in Hy. injection Hy as <-. apply (Hq r x Hx). by rw Hcmd.
  - done.
  - intros p r' (y & c & Hy & Hin & Hp). destruct (decide (r' = r)) as [->|Hne].
    + rw Hx in Hy. injection Hy as <-. rw Hcmd in Hin. apply elem_of_cons in Hin as [-> |Hin]; [by right|].
      left. eexists _, c. cbn. rw lookup_alter_eq Hx. done.
    + left. exists y, c. cbn. by rw lookup_alter_ne.
Qed.

(** *** No router turns live *)

Definition none_livened (w w' : SessionShared) : Prop := ∀ r, live r w' → live r w.

Lemma none_livened_same w w' : w'.(Shared.routers) = w.(Shared.routers) → none_livened w w'.
Proof. intros Hr r. by rw /live Hr. Qed.
Lemma none_livened_set r f w :
  (∀ x, ((f x).(Router.ready) = true → x.(Router.ready) = true) ∧
    ((f x).(Router.alive) = true → x.(Router.alive) = true)) →
  none_livened w (set_router r f w).
Proof.
  intros Hf r' (x & [(-> & y & Hy & ->)|[_ Hx]]%set_router_Some & Hready & Halive); [|by exists x].
  exists y. destruct (Hf y). auto.
Qed.
#[export] Instance none_livened_routine : Routine none_livened.
Proof.
  split; intros; try (by apply none_livened_same).
  - rw /enqueue. case_match; cbn [snd].
    + intros r'. change (live r' w) with (live r' (w <| Shared.next_promise ::= N.succ |>)).
      by apply none_livened_set.
    + apply none_livened_same. by rw (proj1 (set_value_routers _ _ _)).
  - apply none_livened_same, set_value_routers.
  - by apply none_livened_set.
  - rw /adopt. case_match; [by apply none_livened_same|]. by apply none_livened_set.
  - intros r'. rw /live /=. intros (x & [[_ <-]|[_ Hx]]%lookup_insert_Some & Hready & Ha); [done|by exists x].
  - apply none_livened_same. rw /forget_session. cbv zeta. by repeat case_match.
  - apply none_livened_same. rw /session_inc_at. by case_match.
Qed.
#[export] Instance none_livened_dequeues : Dequeues none_livened.
Proof. intros r cmd q w _. by apply none_livened_set. Qed.
#[export] Instance none_livened_kills : Kills none_livened.
Proof. intros r w. by apply none_livened_set. Qed.

(** ** What the threads do *)

(** Every command a thread takes, it answers. *)
Fixpoint upholds {A} (p : Prog A) : Prop :=
  match p with
  | Ret _ | Raise _ => True
  | Act m k => ∀ w, moves (λ q, answers q (k (m w).1)) w (m w).2 ∧ upholds (k (m w).1)
  | Recv k => ∀ m, upholds (k m)
  | Send _ k => ∀ b, upholds (k b)
  | Await _ k => ∀ r, upholds (k r)
  | Dequeue _ k => ∀ c, upholds (k c) ∧
    match c with Some cmd => answers cmd.(Cmd.promise) (k c) | None => True end
  | WriteFile _ _ k => ∀ b, upholds (k b)
  end.
(** A thread that turns a router live attends it from then on. *)
Fixpoint readies (p : Prog Mode) : Prop :=
  match p with
  | Ret _ | Raise _ => True
  | Act m k => ∀ w, (∀ r, live r (m w).2 → live r w ∨ attends r (k (m w).1)) ∧ readies (k (m w).1)
  | Recv k => ∀ m, readies (k m)
  | Send _ k => ∀ b, readies (k b)
  | Await _ k => ∀ r, readies (k r)
  | Dequeue _ k => ∀ c, readies (k c)
  | WriteFile _ _ k => ∀ b, readies (k b)
  end.

(** A thread that takes no command. *)
Lemma upholds_counts {A} (p : Prog A) Q X n : acts command_step p → counts p Q X n → upholds p.
Proof.
  revert n. induction p as [| |B m k IH| | | | |]; cbn [acts counts upholds]; intros n'; try naive_solver.
  intros [Hm Hk] Hc w. split; [|by eapply IH]. by eapply moves_mono; [|apply Hm].
Qed.
Lemma upholds_bind {A B} (p : Prog A) (f : A → Prog B) : upholds p → (∀ a, upholds (f a)) → upholds (p ≫= f).
Proof.
  intros Hp Hf. induction p as [| |C m k IH| | | |r k IH|]; cbn [mbind Prog_bind upholds] in *; auto.
  - intros w. destruct (Hp w) as [Hm Hk]. split; [|by apply IH].
    eapply moves_mono; [|exact Hm]. intros q. apply tends_first.
  - intros c. destruct (Hp c) as [Hk Hc]. split; [by apply IH|]. destruct c; [|done]. by apply tends_first.
Qed.
Lemma upholds_try_with {A} (p : Prog A) h :
  upholds p → (∀ e q, h e = Some q → upholds q) → upholds (try_with p h).
Proof.
  intros Hp Hh. induction p as [|e|C m k IH| | | | |]; cbn [try_with upholds] in *; auto.
  - destruct (h e) eqn:He; [by eapply Hh|done].
  - intros w. destruct (Hp w) as [Hm Hk]. split; [|by apply IH].
    eapply moves_mono; [|exact Hm]. intros q. apply tends_try.
  - intros c. destruct (Hp c) as [Hk Hc]. split; [auto|]. destruct c; [|done]. by apply tends_try.
Qed.
Lemma upholds_locked {A} (m : SessionShared → A * SessionShared) :
  (∀ w, command_step w (m w).2) → upholds (locked m).
Proof.
  intros Hm w. specialize (Hm w). cbn. destruct (m w). split; [|done]. by eapply moves_mono; [|exact Hm].
Qed.
Lemma upholds_rt {A} (m : Run A) : acts command_step (rt m) → upholds (rt m).
Proof.
  intros [Hm _] w. specialize (Hm w). split; [by eapply moves_mono; [|exact Hm]|].
  by destruct (on_runtime m w).1.
Qed.
Lemma readies_acts p : acts none_livened p → readies p.
Proof.
  induction p as [| |B m k IH| | | | |]; cbn [acts readies]; auto. intros [Hm Hk] w. split; [|by apply IH].
  intros r Hr. left. by apply Hm.
Qed.
Lemma readies_after {A} (p : Prog A) f : acts none_livened p → (∀ a, readies (f a)) → readies (p ≫= f).
Proof.
  intros Hp Hf. induction p as [| |B m k IH| | | | |]; cbn [mbind Prog_bind acts readies] in *; auto.
  destruct Hp as [Hm Hk]. intros w. split; [|by apply IH]. intros r Hr. left. by apply Hm.
Qed.
Lemma readies_locked {A} (m : SessionShared → A * SessionShared) f :
  (∀ w r, live r (m w).2 → live r w ∨ attends r (f (m w).1)) → (∀ a, readies (f a)) → readies (locked m ≫= f).
Proof.
  intros Hm Hf w. cbn. specialize (Hm w). destruct (m w) as [a w']. split; [exact Hm|apply Hf].
Qed.

Section threads.
Context `{Ord : HashOrder}.

(** A command is answered whatever happens to it. *)
Lemma fulfill_answers cmd rep : answers cmd.(Cmd.promise) (fulfill cmd rep).
Proof. apply tends_write. intros w. apply set_value_resolved. by right. Qed.

Ltac answer :=
  repeat first
    [ apply fulfill_answers
    | match goal with |- tends _ _ _ (match ?x with _ => _ end) => destruct x end
    | apply tends_after;
      [ by intros ? | first [apply raises_check_cycle|apply raises_fenced_or_drained|apply raises_acquire_use_for
              |apply raises_fail
              |apply raises_release_use_for|apply raises_cleanup|apply raises_query|apply raises_locked
              |by intros ?]
      | intros ?; cbv beta zeta ] ].
Lemma process_answers r cmd : answers cmd.(Cmd.promise) (process r cmd).
Proof. rw /process /process_execute /process_drain. answer. Qed.

Lemma dispatcher_attends sid k r : attends r (dispatcher_step sid k r).
Proof.
  rw /attends /dispatcher_step. apply tends_after; [by intros ?|apply raises_locked|intros alive].
  apply tends_after; [by intros ?|destruct alive; [by intros ?|exact I]|]. intros [cmd|].
  - apply tends_after; [by intros ?|apply raises_process|]. intros _. by eexists _, _.
  - apply tends_first, tends_first, tends_locked, kill_dead.
Qed.

(** A router's commands fail one after the other. *)
Lemma fail_all_answers cmd rep q : cmd ∈ q → answers cmd.(Cmd.promise) (fail_all rep q).
Proof.
  induction q as [|c q IH]; [by intros ?%not_elem_of_nil|]. intros [->|Hin]%elem_of_cons.
  - apply tends_first, tends_write. intros w. apply set_value_resolved. by right.
  - apply tends_after; [by intros ?|apply raises_locked|]. intros _. by apply IH.
Qed.
Lemma fail_upholds r reason : upholds (fail r reason).
Proof.
  intros w. cbn. split.
  - eapply moves_mono; [|apply kill_moves]. intros p (cmd & Hin & <-). by apply tends_first, fail_all_answers.
  - apply upholds_bind; [|intros _; apply upholds_locked; intros w'; by apply command_step_set].
    induction (Router.queue (router_at r w)) as [|c q IH]; [exact I|]. apply upholds_bind; [|by intros _].
    apply upholds_locked. intros w'. apply set_value_kept.
Qed.

Ltac upholds_rt_go :=
  apply upholds_rt;
  first [ apply acts_query; [apply _|by intros ?]
        | eapply (acts_op _ _ (AcquireServingUse _ _)); reflexivity
        | eapply (acts_op_unit _ _ (ReleaseServingUse _ _ _)); reflexivity
        | eapply (acts_op_unit _ _ (AcknowledgeBackendCleanup _)); reflexivity ].
Ltac upholds_go :=
  repeat match goal with
    | |- upholds (Ret _) => exact I
    | |- upholds (mbind _ _) => apply upholds_bind; [|intros ?; cbv beta zeta]
    | |- upholds (rt _) => upholds_rt_go
    | |- upholds (read _) => apply upholds_locked; intros ?; by apply command_step_elsewhere
    | |- upholds (write (set_value _ _)) => apply upholds_locked; intros ?; apply set_value_kept
    | |- upholds (fail _ _) => apply fail_upholds
    | |- upholds (try_domain _ _) => apply upholds_try_with; [|by intros [] ? [= <-]]
    | |- upholds (try_all _ _) => apply upholds_try_with; [|by intros ?? [= <-]]
    | |- upholds (send _) => intros ?; exact I
    | |- upholds recv => intros ?; exact I
    | |- upholds (match ?x with _ => _ end) => destruct x
    | |- upholds (?f _ _ _ _) => progress unfold f
    | |- upholds (?f _ _ _) => progress unfold f
    | |- upholds (?f _ _) => progress unfold f
    | |- upholds (?f _) => progress unfold f
    end.
Lemma process_upholds r cmd : upholds (process r cmd).
Proof. upholds_go. Qed.
Lemma end_session_upholds sid k : upholds (end_session sid k).
Proof. apply upholds_bind; [|done]. apply upholds_locked, adm_forget. Qed.
Lemma dispatcher_upholds sid k r : upholds (dispatcher_step sid k r).
Proof.
  rw /dispatcher_step. apply upholds_bind; [upholds_go|]. intros alive.
  assert (∀ o : option WorkerCommand, upholds (match o with
    | Some cmd => process r cmd;; Ret (AtDispatcher sid k r)
    | None => fail r "worker session ended";; end_session sid k
    end)) as Hrest.
  { intros [cmd|]; (apply upholds_bind; [|intros _]).
    - apply process_upholds. - exact I. - apply fail_upholds. - apply end_session_upholds. }
  destruct alive; [|exact (Hrest None)]. intros c. split; [exact (Hrest c)|]. destruct c as [cmd|]; [|done].
  exact (tends_first _ _ _ _ _ (process_answers r cmd)).
Qed.

Lemma command_ready_readies sid k : readies (on_command_ready sid k).
Proof.
  rw /on_command_ready. apply readies_after; [apply acts_read; apply _|]. intros [r|]; [|by intros b].
  apply readies_after; [apply acts_read; apply _|]. intros router b. cbn [Prog_bind].
  apply readies_after; [apply acts_locked; intros w; apply adm_adopt|]. intros adopted.
  destruct (negb adopted); [apply readies_acts, acts_end_session; apply _|].
  apply readies_locked; [|intros []; [done|apply readies_acts, acts_end_session; apply _]].
  intros w r'. destruct (Router.alive _) eqn:Ha; [|by left]. cbn [fst snd]. intros (x & Hx & Hready).
  destruct (decide (r' = r)) as [->|Hne]; [right; by eexists _, _|].
  left. exists x. by rw set_router_ne in Hx.
Qed.
Lemma dispatch_readies sid k msg : readies (dispatch sid k msg).
Proof.
  destruct (decide (msg.(Msg.type) = MessageType.COMMAND_READY)) as [Hty|Hty].
  - rw /dispatch Hty. apply command_ready_readies.
  - apply readies_acts, acts_dispatch; [apply _|done].
Qed.
Lemma resume_readies m : readies (resume m).
Proof.
  destruct m as [sid k|sid k r|]; [|apply readies_acts, acts_dispatcher; apply _|done].
  cbn [resume]. rw /session_step. apply readies_after; [by intros ?|].
  intros [msg|]; [|apply readies_acts, acts_end_session; apply _].
  rw /handle. apply readies_after; [apply acts_stale_epoch; apply _|].
  intros []; [by intros b|apply dispatch_readies].
Qed.
Lemma dispatch_upholds sid k msg : upholds (dispatch sid k msg).
Proof.
  eapply upholds_counts, counts_dispatch. apply acts_dispatch; [apply _|intros _]. apply acts_on_command_ready; apply _.
Qed.
Lemma resume_upholds m : upholds (resume m).
Proof.
  destruct m as [sid k|sid k r|]; [|apply dispatcher_upholds|done].
  cbn [resume]. rw /session_step. apply upholds_bind; [by intros ?|].
  intros [msg|]; [|apply end_session_upholds]. rw /handle. apply upholds_bind; [upholds_go|].
  intros []; [by intros b|]. apply dispatch_upholds.
Qed.
End threads.

(** ** The system *)

(** One step of a thread, on the commands. *)
Lemma prog_step_commands w (p : Prog Mode) w' p' :
  prog_step w p w' p' → upholds p → readies p →
  registry_sound w → queues_live w →
  (upholds p' ∧ readies p') ∧ queues_live w' ∧
  (∀ q, resolved q w → resolved q w') ∧
  (∀ q r, queued q r w → queued q r w' ∨ resolved q w' ∨ answers q p') ∧
  (∀ q, w.(Shared.next_promise) <= q < w'.(Shared.next_promise) → resolved q w' ∨ ∃ r, queued q r w') ∧
  (∀ r, live r w' → live r w ∨ attends r p').
Proof.
  intros Hstep Ht Hr Hs Hq. destruct Hstep; cbn [upholds readies] in Ht, Hr.
  2-5,7-8: split_and!; auto; try (by apply Ht); lia.
  - specialize (Ht w). specialize (Hr w). rw H in Ht Hr. destruct Ht as [Hm Hk], Hr as [Hl Hr].
    destruct (Hm Hs Hq) as [H1 H2 H3 H4]. by split_and!.
  - destruct (Ht (Some cmd)) as [Ht1 Ht2]. destruct (dequeue_kept r cmd q w H Hq) as (H1 & H2 & H3).
    split_and!; auto; [|cbn; lia|].
    + intros p r' Hp. destruct (H3 p r' Hp) as [? | ->]; auto.
    + intros r' Hl. left. by eapply (adm_dequeue (R := none_livened)).
Qed.

(** Every promise has its answer, its place in a queue or its thread, and
    every live router its dispatcher. *)
Record attended (σ : Coordinator) : Prop := {
  at_quiet : all_quiet σ;
  at_disciplined : disciplined router_step σ;
  at_sound : registry_sound σ.(Coordinator.shared);
  at_queues : queues_live σ.(Coordinator.shared);
  at_threads : map_Forall (λ _ p, upholds p ∧ readies p) σ.(Coordinator.threads);
  at_promises p : p < σ.(Coordinator.shared).(Shared.next_promise) →
    resolved p σ.(Coordinator.shared) ∨ (∃ r, queued p r σ.(Coordinator.shared)) ∨
    ∃ t prog, σ.(Coordinator.threads) !! t = Some prog ∧ answers p prog;
  at_routers r : live r σ.(Coordinator.shared) →
    ∃ t prog, σ.(Coordinator.threads) !! t = Some prog ∧ attends r prog;
}.


(** A thread's step: a property that some thread has is done, or a thread has it still. *)
Lemma thread_moves (P : Prog Mode → Prop) (D : Prop) (ts : gmap N (Prog Mode)) t p p' :
  ts !! t = Some p → (P p → D ∨ P p') →
  (∃ t' prog, ts !! t' = Some prog ∧ P prog) → D ∨ ∃ t' prog, <[t := p']> ts !! t' = Some prog ∧ P prog.
Proof.
  intros Ht HP (t' & prog & Hp & Hprog). destruct (decide (t' = t)) as [->|Hne].
  - destruct HP as [?|HP]; [congruence|by left|]. right. exists t, p'. by rw lookup_insert_eq.
  - right. exists t', prog. by rw lookup_insert_ne.
Qed.
Lemma thread_has (P : Prog Mode → Prop) (ts : gmap N (Prog Mode)) t p :
  P p → ∃ t' prog, <[t := p]> ts !! t' = Some prog ∧ P prog.
Proof. intros Hp. exists t, p. by rw lookup_insert_eq. Qed.

Lemma thread_step_attended w ts t p w' p' :
  attended (Coordinator.mk w ts) → ts !! t = Some p → prog_step w p w' p' →
  attended (Coordinator.mk w' (<[t := p']> ts)).
Proof.
  intros [Hquiet Hd Hs Hq Ht Hp Hr] Htp Hstep. cbn in *.
  assert (sys_step (Coordinator.mk w ts) (Coordinator.mk w' (<[t := p']> ts))) as Hsys
    by by eapply sys_thread.
  destruct (sys_step_acts router_step _ _ Hd Hsys) as [Hs' Hd'].
  destruct (Ht _ _ Htp) as [H1 H2].
  destruct (prog_step_commands w p w' p' Hstep H1 H2 Hs Hq) as (Htidy & Hq' & Hres & Hqueued & Hnew & Hlive).
  assert (known w) as Hk by apply Hquiet.
  split; cbn.
  - by eapply sys_step_quiet.
  - exact Hd'.
  - by apply Hs'.
  - exact Hq'.
  - by apply map_Forall_insert_2.
  - intros q Hlt. destruct (decide (q < w.(Shared.next_promise))) as [Hold|Hold].
    + destruct (Hp q Hold) as [?|[[r Hqr]|Hthread]].
      * left. by apply Hres.
      * destruct (Hqueued q r Hqr) as [?|[?|Ha]]; [by right; left; exists r|by left|].
        right; right. by apply thread_has.
      * destruct (thread_moves (answers q) (resolved q w') ts t p p' Htp) as [?|?]; auto.
        by eapply tends_step.
    + destruct (Hnew q) as [?|?]; [lia|by left|by right; left].
  - intros r Hl. destruct (Hlive r Hl) as [Hold|Ha]; [|by apply thread_has].
    destruct (thread_moves (attends r) (dead r w') ts t p p' Htp) as [Hdead|?]; [by eapply tends_step|by apply Hr| |done].
    by apply dead_not_live in Hdead.
Qed.
(** Nothing happens but that a thread goes to its next round, or starts. *)
Lemma thread_set_attended w ts t p :
  attended (Coordinator.mk w ts) → sys_step (Coordinator.mk w ts) (Coordinator.mk w (<[t := p]> ts)) →
  upholds p ∧ readies p →
  (∀ p0, ts !! t = Some p0 → (∀ q, ¬ answers q p0) ∧ ∀ r, attends r p0 → attends r p) →
  attended (Coordinator.mk w (<[t := p]> ts)).
Proof.
  intros [Hquiet Hd Hs Hq Ht Hp Hr] Hsys Htidy H0. cbn in *.
  assert (∀ P : Prog Mode → Prop, (∀ p0, ts !! t = Some p0 → P p0 → P p) →
    (∃ t' prog, ts !! t' = Some prog ∧ P prog) → ∃ t' prog, <[t := p]> ts !! t' = Some prog ∧ P prog) as Hset.
  { intros P HP (t' & prog & Hprog & Hpr). destruct (decide (t' = t)) as [->|Hne].
    - exists t, p. rw lookup_insert_eq. split; [done|]. by eapply HP.
    - exists t', prog. by rw lookup_insert_ne. }
  split; cbn; try done.
  - by eapply sys_step_quiet.
  - by apply (sys_step_acts router_step _ _ Hd Hsys).
  - by apply map_Forall_insert_2.
  - intros q Hlt. destruct (Hp q Hlt) as [?|[?|Hthread]]; auto. right; right. apply Hset; [|done].
    intros p0 Hp0 Ha. by destruct (H0 p0 Hp0) as [Hno _]; apply Hno in Ha.
  - intros r Hl. apply Hset; [|by apply Hr]. intros p0 Hp0. by apply H0.
Qed.
Lemma sys_step_attended σ σ' : attended σ → sys_step σ σ' → attended σ'.
Proof.
  intros Ha Hstep. destruct Hstep as [t p p' w w' ts Ht Hstep|Ord t m w ts Ht|t w ts Ht].
  - by eapply thread_step_attended.
  - apply thread_set_attended; [done|by eapply sys_loop| |].
    + split; [apply resume_upholds|apply resume_readies].
    + intros p0. rw Ht. intros [= <-]. split; [by intros q []|].
      intros r (sid & k & ->). apply dispatcher_attends.
  - apply thread_set_attended; [done|by eapply sys_accept| |by rw Ht].
    split; [|apply readies_acts, acts_start_session; apply _].
    apply upholds_bind; [|done]. apply upholds_locked, adm_next_session.
Qed.
Lemma booted_attended c state :
  (∀ blob p, state = Some blob → deserialize_persistent_state blob = Ok p → references_closed p) →
  attended (booted c state).
Proof.
  intros Hp. split; try (by apply map_Forall_empty).
  - split; [by apply boot_known|]. split; apply map_Forall_empty.
  - by split.
  - cbn. lia.
  - by intros r (x & ? & _).
Qed.
Lemma rtc_attended σ σ' : attended σ → rtc sys_step σ σ' → attended σ'.
Proof. intros Ha Hsteps. induction Hsteps as [|σ σ1 σ2 Hs _ IH]; [done|]. apply IH. by eapply sys_step_attended. Qed.

(** C6. No command is lost: in a coordinator started without a state file, or
    with one whose incarnations name engines of the file, whatever its threads
    interleave to, however sockets break and timers expire, every promise that
    [enqueue] handed out has its answer already, or its command waits in the
    queue of a router that is ready and alive and has a thread that closes it or
    comes back to take the next command, or a thread has the command in hand and
    sets the promise on every path it can take.  Once every thread has ended,
    every promise has its answer. *)
Theorem no_command_lost c state σ p :
  (∀ blob s, state = Some blob → deserialize_persistent_state blob = Ok s → references_closed s) →
  rtc sys_step (booted c state) σ → p < σ.(Coordinator.shared).(Shared.next_promise) →
  (resolved p σ.(Coordinator.shared) ∨
   (∃ r t prog, queued p r σ.(Coordinator.shared) ∧ live r σ.(Coordinator.shared) ∧
     σ.(Coordinator.threads) !! t = Some prog ∧ attends r prog) ∨
   (∃ t prog, σ.(Coordinator.threads) !! t = Some prog ∧ answers p prog)) ∧
  (map_Forall (λ _ prog, prog = Ret Finished) σ.(Coordinator.threads) → resolved p σ.(Coordinator.shared)).
Proof.
  intros Hclosed Hsteps Hlt.
  destruct (rtc_attended _ _ (booted_attended c state Hclosed) Hsteps) as [_ _ _ Hq _ Hp Hr].
  specialize (Hp p Hlt). split.
  - destruct Hp as [?|[[r Hqr]|?]]; auto. right; left. apply (queued_live p r) in Hq as Hl; [|done].
    destruct (Hr r Hl) as (t & prog & Ht & Ha). by exists r, t, prog.
  - intros Hend. destruct Hp as [?|[[r Hqr]|(t & prog & Ht & Ha)]]; [done| |].
    + apply (queued_live p r) in Hq as Hl; [|done]. destruct (Hr r Hl) as (t & prog & Ht & Ha).
      rw (Hend t prog Ht) in Ha. by destruct Ha as (? & ? & ?).
    + by rw (Hend t prog Ht) in Ha.
Qed.

(** A round of a thread is finite, so what it does on every path it does. *)
Definition follows {A} (p' p : Prog A) : Prop := ∃ w w', prog_step w p w' p'.
Definition next {A} (p' p : Prog A) : Prop :=
  match p with
  | Ret _ | Raise _ => False
  | Act m k => ∃ o, p' = k o
  | Recv k => ∃ m, p' = k m
  | Send _ k => ∃ b, p' = k b
  | Await _ k => ∃ r, p' = k r
  | Dequeue _ k => ∃ c, p' = k c
  | WriteFile _ _ k => ∃ b, p' = k b
  end.
Theorem rounds_end {A} (p : Prog A) : Acc follows p.
Proof.
  assert (∀ p' p : Prog A, follows p' p → next p' p) as Hnext.
  { intros p' p1 (w & w' & Hstep). destruct Hstep; cbn; by eexists. }
  induction p as [a|e|B m k IH|k IH|msg k IH|q k IH|r k IH|path blob k IH]; constructor; intros p' Hp%Hnext.
  1,2: destruct Hp.
  all: destruct Hp as [x ->]; apply IH.
Qed.

(** *** One command, waiting and taken *)

Lemma demo_routed_steps : rtc sys_step (booted demo_clock None) demo_routed.
Proof.
  rw /demo_routed /demo_command_ready /demo_registered.
  etrans; [|apply deliver_steps]. etrans; [|apply join_steps]. do 2 (etrans; [|apply deliver_steps]).
  apply join_steps.
Qed.
Lemma no_command_lost_witness :
  queue_of 0 demo_routed = [9] ∧ queue_of 0 demo_taken = [] ∧
  ∀ σ, σ = demo_routed ∨ σ = demo_taken →
    resolved 0 σ.(Coordinator.shared) ∨
    (∃ r t prog, queued 0 r σ.(Coordinator.shared) ∧ live r σ.(Coordinator.shared) ∧
      σ.(Coordinator.threads) !! t = Some prog ∧ attends r prog) ∨
    (∃ t prog, σ.(Coordinator.threads) !! t = Some prog ∧ answers 0 prog).
Proof.
  split; [vm_compute; reflexivity|]. split; [vm_compute; reflexivity|].
  intros σ [-> | ->]; apply (no_command_lost demo_clock None).
  1,4: by intros ??.
  - apply demo_routed_steps.
  - vm_compute. reflexivity.
  - eapply rtc_r; [apply demo_routed_steps|apply demo_taken_step].
  - vm_compute. reflexivity.
Defined.
