(* ===== verification/RoutedUses.v ===== *)
(** * Routed uses

    The serving use a dispatcher opens for a routed EXECUTE, while everything
    else of the coordinator goes on: whatever happens between the admission and
    the worker's answer, the dispatcher closes the use it opened. *)

From S2P Require Import Prelude Identities Enums Model Reference Codec Frame Payload Readiness.
From S2P Require Import Economics Standby Runtime Loading Transitions Scenario Helpers Tables Incarnations Authority ServingUse.
From S2P Require Import Persistence Recovery Threads Routing Sessions System Commands Schedules.
From S2P Require Import Exceptions Promises.
Local Open Scope N_scope.

(** ** Uses over time *)

Definition uses (w : SessionShared) : gmap ServingUseId ActiveUse := w.(Shared.runtime).(Impl.active_uses).
(** The use [u] was admitted on the incarnation [k]. *)
Definition placed (u : ServingUseId) (k : EngineIncarnationId) (s : Impl.t) : Prop :=
  ∃ au, s.(Impl.active_uses) !! u = Some au ∧ au.(Use.incarnation_id) = k.

Lemma run_op_placed `{HashOrder} o u k n s :
  n + 2 < 2 ^ 64 → keyed s ∧ use_invariant n s → placed u k s →
  wp (run_op o) (λ _, placed u k) (λ _, placed u k) s.
Proof.
  intros Hn [Hf [Ha Hd]]. destruct o; cbn [run_op]; try
    (match goal with
     | |- _ → wp ?m _ _ _ => cut (preserves (placed u k) m); [by auto|]
     end; preserve; fail).
  - intros (au & Hu & Hk). apply wp_bind. eapply wp_mono; [| |apply acquire_effect].
    + intros tok s' (inc & _ & [-> (v & Hv & _) _ _ _ _]). exists au. split; [|done].
      rw Hv lookup_insert_ne //=. intros <-. destruct Ha as (Hc & Hids & _).
      rw !u64_small in Hu; [|lia..]. apply Hids in Hu. simpl in Hu. lia.
    + intros e s' (_ & [c ->] & _). by exists au.
  - intros (au & Hu & Hk). eapply wp_mono; [| |apply release_effect].
    + intros [] s' [(u' & v & Hu' & _ & Hi & _ & Hv & Hs') _ _ _].
      destruct (decide (u = token.(Tok.use_id))) as [->|Hne].
      * exists v. rw Hs' lookup_insert_eq. split; [done|]. simplify_eq. by rw Hv Hi.
      * exists au. by rw Hs' lookup_insert_ne.
    + intros e s' [-> _]. by exists au.
    + intros u'. by eapply counted_positive.
Qed.

(** The runtime is in a state its operations reach. *)
Definition steady_within (n : N) (w : SessionShared) : Prop :=
  ∃ m, m <= n ∧ reachable created m w.(Shared.runtime).
Definition steady (w : SessionShared) : Prop := ∃ n, n + 2 < 2 ^ 64 ∧ steady_within n w.

Lemma sys_reachable_steady state n σ : sys_reachable state n σ → steady_within n σ.(Coordinator.shared).
Proof.
  induction 1 as [c|n σ σ' Hr (m & Hm & IH) Hn Hstep]; [apply booted_reachable|].
  by eapply (runtime_step_reachable m n), (sys_step_within runtime_step state n σ σ' Hr Hstep).
Qed.
(** What every operation preserves stays in a step of the system. *)
Lemma runtime_step_keeps (P : Impl.t → Prop) n w w' :
  (∀ (Ord : HashOrder) o m s, m + 2 < 2 ^ 64 → keyed s ∧ use_invariant m s → P s →
    wp (run_op o) (λ _, P) (λ _, P) s) →
  n + 2 < 2 ^ 64 → steady_within n w → runtime_step w w' → P w.(Shared.runtime) → P w'.(Shared.runtime).
Proof.
  intros HP Hn (m & Hm & Hr) [-> |(Ord & o & Ho)]; [done|]. intros Hp.
  specialize (HP Ord o m _ ltac:(lia) (reachable_keyed_uses _ _ _ Hr) Hp). rw /wp in HP. rw -Ho.
  by destruct (run_op o _) as [[]].
Qed.

(** ** What the dispatcher does *)

Definition closed (u : ServingUseId) (w : SessionShared) : Prop := use_closed u w.(Shared.runtime).
Definition holds (u : ServingUseId) (k : EngineIncarnationId) (w : SessionShared) : Prop :=
  steady w ∧ placed u k w.(Shared.runtime).
(** A program that closes the use [u] of the incarnation [k] on every path. *)
Definition closes {A} (u : ServingUseId) (k : EngineIncarnationId) (p : Prog A) : Prop :=
  tends (holds u k) (closed u) (λ _, False) p.

(** Every use a step of [p] opens, [p] closes. *)
Fixpoint leases {A} (p : Prog A) : Prop :=
  match p with
  | Ret _ | Raise _ => True
  | Act m k => ∀ w, steady w →
      (∀ u au, uses w !! u = None → uses (m w).2 !! u = Some au →
        closes u au.(Use.incarnation_id) (k (m w).1)) ∧ leases (k (m w).1)
  | Recv k => ∀ m, leases (k m)
  | Send _ k => ∀ b, leases (k b)
  | Await _ k => ∀ r, leases (k r)
  | Dequeue _ k => ∀ c, leases (k c)
  | WriteFile _ _ k => ∀ b, leases (k b)
  end.

Lemma leases_bind {A B} (p : Prog A) (f : A → Prog B) :
  leases p → (∀ a, leases (f a)) → leases (p ≫= f).
Proof.
  intros Hp Hf. induction p as [| |C m k IH| | | | |]; cbn [mbind Prog_bind leases] in *; auto.
  intros w Hw. destruct (Hp w Hw) as [Hm Hk]. split; [|by apply IH].
  intros u au Hu Hau. by apply (tends_first _ _ _ (k (m w).1)), Hm.
Qed.
Lemma leases_try_with {A} (p : Prog A) h :
  leases p → (∀ e q, h e = Some q → leases q) → leases (try_with p h).
Proof.
  intros Hp Hh. induction p as [|e|C m k IH| | | | |]; cbn [try_with leases] in *; auto.
  - destruct (h e) eqn:He; [by eapply Hh|done].
  - intros w Hw. destruct (Hp w Hw) as [Hm Hk]. split; [|by apply IH].
    intros u au Hu Hau. by apply tends_try, Hm.
Qed.
(** A step that opens no use. *)
Lemma leases_rt {A} (m : Run A) :
  (∀ u s, s.(Impl.active_uses) !! u = None → (m s).2.(Impl.active_uses) !! u = None) → leases (rt m).
Proof.
  intros Hm w Hw. split; [|by destruct (on_runtime m w).1]. intros u au Hu Hau.
  specialize (Hm u _ Hu). rw /uses /on_runtime in Hau. destruct (m _) as [o s]. cbn in Hau, Hm. congruence.
Qed.
Lemma leases_locked {A} (m : SessionShared → A * SessionShared) :
  (∀ w, (m w).2.(Shared.runtime) = w.(Shared.runtime)) → leases (locked m).
Proof.
  intros Hm w Hw. cbn. specialize (Hm w). destruct (m w) as [a w']. cbn in *. split; [|done].
  rw /uses Hm. congruence.
Qed.

(** A release of a placed use closes it, whether it is the first or not. *)
Lemma release_closes n u k token outcome detail s :
  reachable created n s → placed u k s → token.(Tok.use_id) = u → token.(Tok.incarnation_id) = k →
  use_closed u (EngineResidency.release_serving_use token outcome detail s).2.
Proof.
  intros Hr (au & Hau & Hk) Hu Hi. destruct (reachable_keyed_uses _ n s Hr) as [_ [Ha _]].
  pose proof (release_effect token outcome detail s (λ v, counted_positive n s _ v Ha)) as Hrel.
  rw /wp in Hrel. destruct (EngineResidency.release_serving_use token outcome detail s) as [[[]|e] s'].
  - destruct Hrel as [(v & v' & _ & _ & _ & Hclosed & _ & Hs') _ _ _]. exists v'.
    by rw Hs' Hu lookup_insert_eq.
  - destruct Hrel as (-> & code & msg & _ & Href). exists au. split; [done|].
    revert Href. rw /release_refused Hu Hau. destruct (Use.released au); [done|]. intros [Hne _]. congruence.
Qed.
Lemma release_opens_nothing token outcome detail u s :
  s.(Impl.active_uses) !! u = None →
  (EngineResidency.release_serving_use token outcome detail s).2.(Impl.active_uses) !! u = None.
Proof.
  assert (preserves (λ s, s.(Impl.active_uses) !! u = None) (EngineResidency.release_serving_use token outcome detail))
    as Hp.
  { preserve_with ltac:(idtac; match goal with
      |- preserves _ (modify _) => apply preserves_modify; intros ? Hs; cbn; rw lookup_alter_None; exact Hs end). }
  apply (preserves_run _ _ _ Hp).
Qed.

Section dispatcher.
Context `{Ord : HashOrder}.

Lemma leases_write f : (∀ w, (f w).(Shared.runtime) = w.(Shared.runtime)) → leases (write f).
Proof. intros Hf. by apply leases_locked. Qed.
Lemma leases_fulfill cmd rep : leases (fulfill cmd rep).
Proof. apply leases_write. intros w. apply set_value_runtime. Qed.
Lemma leases_fail_all rep q : leases (fail_all rep q).
Proof.
  induction q as [|c q IH]; [exact I|]. apply leases_bind; [|by intros _].
  apply leases_write. intros w. apply set_value_runtime.
Qed.
Lemma leases_fail r reason : leases (fail r reason).
Proof.
  apply leases_bind; [by apply leases_locked|intros q]. apply leases_bind; [apply leases_fail_all|intros _].
  by apply leases_write.
Qed.
Lemma leases_query {A} (f : Impl.t → A) : leases (rt (gets f)).
Proof. by apply leases_rt. Qed.
Lemma leases_fenced k : leases (rt (EngineResidency.incarnation_is_fenced k)).
Proof. apply leases_rt. intros u s Hu. exact Hu. Qed.
Lemma leases_release token outcome detail : leases (rt (EngineResidency.release_serving_use token outcome detail)).
Proof. apply leases_rt. intros u s. apply release_opens_nothing. Qed.
Lemma leases_acknowledge k : leases (rt (EngineResidency.acknowledge_backend_cleanup k)).
Proof.
  apply leases_rt. intros u s.
  assert (preserves (λ s, s.(Impl.active_uses) !! u = None) (EngineResidency.acknowledge_backend_cleanup k))
    as Hp by preserve.
  apply (preserves_run _ _ _ Hp).
Qed.

(** The use is closed, whatever happened to it before. *)
Lemma release_use_for_closes router u outcome detail :
  closes u router.(Router.inc) (release_use_for router u outcome detail).
Proof.
  apply tends_try. intros w [(n & _ & m & _ & Hr) Hp]. left. rw /closed /on_runtime.
  pose proof (release_closes m u router.(Router.inc) (ServingUseToken.default <| Tok.use_id := u |>
    <| Tok.incarnation_id := router.(Router.inc) |> <| Tok.incarnation_generation := mkGen 1 |>)
    outcome detail _ Hr Hp eq_refl eq_refl) as Hc.
  by destruct (EngineResidency.release_serving_use _ _ _ _) as [o s].
Qed.
(** An admission opens the use that the rest closes. *)
Lemma leases_acquire {B} router params (f : string + ServingUseId → Prog B) :
  (∀ x, leases (f x)) → (∀ u, closes u router.(Router.inc) (f (inr u))) →
  leases (acquire_use_for router params ≫= f).
Proof.
  intros Hf Hclose w (n & Hn & m & Hm & Hr). cbn [rt].
  set (wanted := use_request router.(Router.inc) router.(Router.engine_id) params).
  pose proof (acquire_effect wanted "coordinator" w.(Shared.runtime)) as Hacq. rw /wp in Hacq.
  rw /uses /on_runtime. fold wanted.
  destruct (EngineResidency.acquire_serving_use wanted "coordinator" _) as [[tok|e] s']; cbn.
  - split; [|apply Hf]. destruct Hacq as (inc & [Hi _ _ _ _ _ _] & [_ (v & Huses & _ & _ & Hk & _) _ _ _ _]).
    intros u au Hu Hau. rw Huses in Hau. apply lookup_insert_Some in Hau as [[<- <-]|[_ Hau]]; [|congruence].
    destruct (reachable_keyed_uses _ m _ Hr) as [Hkeyed _].
    rw Hk (keyed_lookup _ _ _ Hkeyed Hi). apply Hclose.
  - destruct Hacq as (_ & [c ->] & He). split; [intros u au Hu Hau; cbn in Hau; congruence|].
    destruct e as [code what|]; [apply Hf|done].
Qed.

Ltac leases_go :=
  repeat first
    [ apply leases_fulfill | apply leases_fail | apply leases_fenced | apply leases_release
    | apply leases_acknowledge | apply leases_query
    | match goal with
      | |- leases (Ret _) => exact I
      | |- leases (read _) => apply leases_locked; by intros ?
      | |- leases (send _) => intros ?; exact I
      | |- leases recv => intros ?; exact I
      | |- leases (mbind _ _) => apply leases_bind; [|intros ?; cbv beta zeta]
      | |- leases (try_domain _ _) => apply leases_try_with; [|by intros [] ? [= <-]]
      | |- leases (try_all _ _) => apply leases_try_with; [|by intros ?? [= <-]]
      | |- leases (match ?x with _ => _ end) => destruct x
      end ].
Lemma leases_check_cycle e a : leases (check_cycle e a).
Proof. rw /check_cycle /stale_epoch /stale_authority. leases_go. Qed.
Lemma leases_shut k : leases (fenced_or_drained k).
Proof. rw /fenced_or_drained. leases_go. Qed.
Lemma leases_release_use_for router u outcome detail : leases (release_use_for router u outcome detail).
Proof. rw /release_use_for. leases_go. Qed.

Lemma tends_send {B} I Done (Q : B → Prop) msg f :
  (∀ b, tends I Done Q (f b)) → tends I Done Q (send msg ≫= f).
Proof. intros H b. exact (H b). Qed.
Lemma tends_recv {B} I Done (Q : B → Prop) f :
  (∀ m, tends I Done Q (f m)) → tends I Done Q (recv ≫= f).
Proof. intros H m. exact (H m). Qed.
Lemma leases_execute r router cmd : leases (process_execute r router cmd).
Proof.
  apply leases_bind; [apply leases_shut|]. intros shut. destruct shut; [apply leases_fulfill|].
  apply leases_acquire.
  - intros [aerr|u]; cbv zeta; repeat first [apply leases_release_use_for|progress leases_go].
  - intros u. apply tends_send. intros sent. destruct (negb sent); [by apply tends_first, release_use_for_closes|].
    apply tends_recv. intros [resp|]; apply tends_first, release_use_for_closes.
Qed.
Lemma leases_process r cmd : leases (process r cmd).
Proof.
  apply leases_bind; [leases_go|intros router]. apply leases_bind; [apply leases_check_cycle|].
  intros [err|]; [leases_go|]. destruct (Cmd.type cmd); try apply leases_fulfill.
  - rw /process_drain. leases_go.
  - apply leases_execute.
Qed.
Lemma leases_dispatcher sid k r : leases (dispatcher_step sid k r).
Proof.
  rw /dispatcher_step. apply leases_bind; [leases_go|]. intros alive.
  apply leases_bind; [destruct alive; [by intros ?|exact I]|]. intros [cmd|].
  - apply leases_bind; [apply leases_process|done].
  - apply leases_bind; [apply leases_fail|]. intros _. rw /end_session.
    apply leases_bind; [|done]. apply leases_write. intros w. rw /forget_session. cbv zeta.
    by repeat case_match.
Qed.
End dispatcher.

(** ** Under every interleaving *)

(** A step of a round, in whatever state the other threads left. *)
Definition round_step {A} (p p' : Prog A) : Prop := ∃ w w', steady w ∧ prog_step w p w' p'.

Lemma leases_step {A} w (p : Prog A) w' p' :
  steady w → prog_step w p w' p' → leases p →
  leases p' ∧ ∀ u au, uses w !! u = None → uses w' !! u = Some au → closes u au.(Use.incarnation_id) p'.
Proof.
  intros Hw Hstep. destruct Hstep; cbn [leases]; intros Hp.
  - specialize (Hp w Hw). rw H in Hp. by destruct Hp.
  - split; [auto|congruence].
  - split; [auto|congruence].
  - split; [auto|congruence].
  - split; [auto|congruence].
  - split; [auto|]. rw /uses. cbn. congruence.
  - split; [auto|congruence].
  - split; [auto|congruence].
Qed.
Lemma leases_round {A} (p p' : Prog A) : rtc round_step p p' → leases p → leases p'.
Proof.
  induction 1 as [|p p1 p' (w & w' & Hw & Hs) _ IH]; [done|]. intros Hp. by apply IH, (leases_step w p w').
Qed.

(** The use is closed, or thread [t] closes it on every path. *)
Definition in_hand (t : N) (u : ServingUseId) (k : EngineIncarnationId) (σ : Coordinator) : Prop :=
  placed u k σ.(Coordinator.shared).(Shared.runtime) ∧
  (closed u σ.(Coordinator.shared) ∨ ∃ q, σ.(Coordinator.threads) !! t = Some q ∧ closes u k q).

Lemma sys_step_in_hand state n t u k σ σ' :
  sys_reachable state n σ → n + 2 < 2 ^ 64 → sys_step σ σ' → in_hand t u k σ → in_hand t u k σ'.
Proof.
  intros Hr Hn Hstep [Hp Hc]. pose proof (sys_reachable_steady state n σ Hr) as Hs.
  pose proof (sys_step_within runtime_step state n σ σ' Hr Hstep) as Hrun. split.
  { eapply (runtime_step_keeps (placed u k)); [|done..]. intros Ord o m s. apply run_op_placed. }
  destruct Hc as [Hc|(q & Hq & Hc)].
  { left. eapply (runtime_step_keeps (use_closed u)); [|done..]. intros Ord o m s. apply run_op_use_closed. }
  assert (holds u k σ.(Coordinator.shared)) as Hh by (split; [by exists n|done]).
  destruct Hstep as [t' p p' w w' ts Ht Hstep|Ord t' md w ts Ht|t' w ts Ht]; cbn in *.
  - destruct (decide (t' = t)) as [->|Hne]; [|by right; exists q; rw lookup_insert_ne].
    assert (q = p) as -> by congruence.
    destruct (tends_step _ _ _ w p w' p' Hh Hstep Hc) as [?|?]; [by left|].
    right. exists p'. by rw lookup_insert_eq.
  - right. exists q. rw lookup_insert_ne; [done|]. intros ->. rw Ht in Hq. by injection Hq as <-.
  - right. exists q. rw lookup_insert_ne; [done|]. intros ->. by rw Ht in Hq.
Qed.
Lemma run_in_hand state t u k m : ∀ n σ σ',
  sys_reachable state n σ → n + N.of_nat m + 2 < 2 ^ 64 → nsteps sys_step m σ σ' →
  in_hand t u k σ → in_hand t u k σ'.
Proof.
  induction m as [|m IH]; intros n σ σ' Hr Hn Hrun Hh; inversion Hrun as [|? ? σ1 ? Hstep Hrest]; subst; [done|].
  apply (IH (n + 1) σ1); [eapply sys_more; [done|lia|done]|lia|done|].
  eapply (sys_step_in_hand state n); [done|lia|done|done].
Qed.

(** C32. No routed use leaks: in every execution of the coordinator, started
    without a state file or with any, when a step of a dispatcher's round opens a
    serving use, then from that moment on,
    whatever the other threads do (drains, fences, cutovers, epoch advances and
    releases of the same use among them), and however the worker's link breaks,
    the use is closed already or that very thread closes it on every path it
    can take; so once the thread is back at its loop, or ended, the use is
    closed. *)
Theorem routed_uses_never_leak `{HashOrder} state n w ts t sid k r p w' p' u au m σ :
  sys_reachable state n (Coordinator.mk w ts) → ts !! t = Some p →
  rtc round_step (dispatcher_step sid k r) p → prog_step w p w' p' →
  uses w !! u = None → uses w' !! u = Some au →
  nsteps sys_step m (Coordinator.mk w' (<[t := p']> ts)) σ → n + 1 + N.of_nat m + 2 < 2 ^ 64 →
  (closed u σ.(Coordinator.shared) ∨
   ∃ q, σ.(Coordinator.threads) !! t = Some q ∧ closes u au.(Use.incarnation_id) q) ∧
  (∀ mode, σ.(Coordinator.threads) !! t = Some (Ret mode) → closed u σ.(Coordinator.shared)).
Proof.
  intros Hr Ht Hround Hstep Hu Hau Hrun Hn.
  assert (steady w) as Hw by (exists n; split; [lia|exact (sys_reachable_steady state n _ Hr)]).
  destruct (leases_step w p w' p' Hw Hstep (leases_round _ _ Hround (leases_dispatcher sid k r))) as [_ Hopen].
  assert (in_hand t u au.(Use.incarnation_id) σ) as [_ Hc].
  { eapply (run_in_hand state t u _ m (n + 1)); [|lia|exact Hrun|].
    - eapply sys_more; [exact Hr|lia|by eapply sys_thread].
    - split; [by exists au|]. right. exists p'. cbn. rw lookup_insert_eq. split; [done|]. by apply Hopen. }
  split; [exact Hc|]. intros mode Hmode. destruct Hc as [?|(q & Hq & Hc)]; [done|]. rw Hmode in Hq. by injection Hq as <-.
Qed.

(** *** A use opened, and the worker's link lost *)

(** Thread [t] goes on to the end of its round, or until it waits. *)
Fixpoint go_on (fuel : nat) (t : N) (σ : Coordinator) : Coordinator :=
  match fuel with
  | O => σ
  | S fuel =>
    match σ.(Coordinator.threads) !! t with
    | Some (Ret _) | None => σ
    | Some _ => match exec_thread t Go σ with Some σ' => go_on fuel t σ' | None => σ end
    end
  end.
Lemma Coordinator_eta σ : Coordinator.mk σ.(Coordinator.shared) σ.(Coordinator.threads) = σ.
Proof. by destruct σ. Qed.
Lemma exec_thread_round t a σ σ' p :
  σ.(Coordinator.threads) !! t = Some p → (∀ m, p ≠ Ret m) → exec_thread t a σ = Some σ' →
  ∃ p', σ'.(Coordinator.threads) !! t = Some p' ∧
    prog_step σ.(Coordinator.shared) p σ'.(Coordinator.shared) p' ∧
    σ' = Coordinator.mk σ'.(Coordinator.shared) (<[t := p']> σ.(Coordinator.threads)).
Proof.
  intros Hp Hret. rw /exec_thread Hp.
  assert (match exec_prog a σ.(Coordinator.shared) p with
    | Some (w, p) => Some (Coordinator.mk w (<[t := p]> σ.(Coordinator.threads))) | None => None end = Some σ' →
    ∃ p', σ'.(Coordinator.threads) !! t = Some p' ∧
      prog_step σ.(Coordinator.shared) p σ'.(Coordinator.shared) p' ∧
      σ' = Coordinator.mk σ'.(Coordinator.shared) (<[t := p']> σ.(Coordinator.threads))) as Hexec.
  { destruct (exec_prog a _ p) as [[w' p']|] eqn:He; [|done]. intros [= <-]. exists p'. cbn.
    rw lookup_insert_eq. split_and!; [done| |done]. by eapply exec_prog_sound. }
  destruct p; try exact Hexec. by destruct (Hret a0).
Qed.
Lemma go_on_round fuel t : ∀ n σ p,
  sys_reachable None n σ → n + N.of_nat fuel + 2 < 2 ^ 64 → σ.(Coordinator.threads) !! t = Some p →
  ∃ m p', m <= n + N.of_nat fuel ∧ sys_reachable None m (go_on fuel t σ) ∧
    (go_on fuel t σ).(Coordinator.threads) !! t = Some p' ∧ rtc round_step p p'.
Proof.
  induction fuel as [|fuel IH]; intros n σ p Hr Hn Hp; cbn [go_on].
  { exists n, p. split_and!; [lia|done..]. }
  assert (∃ m p', m <= n + N.of_nat (S fuel) ∧ sys_reachable None m σ ∧
    σ.(Coordinator.threads) !! t = Some p' ∧ rtc round_step p p') as Hstay.
  { exists n, p. split_and!; [lia|done..]. }
  rw Hp. destruct (exec_thread t Go σ) as [σ'|] eqn:He; [|by destruct p].
  assert ((∀ m, p ≠ Ret m) → ∃ m p', m <= n + N.of_nat (S fuel) ∧ sys_reachable None m (go_on fuel t σ') ∧
    (go_on fuel t σ').(Coordinator.threads) !! t = Some p' ∧ rtc round_step p p') as Hgo.
  { intros Hret. destruct (exec_thread_round t Go σ σ' p Hp Hret He) as (p1 & Hp1 & Hstep & _).
    destruct (IH (n + 1) σ' p1) as (m & p' & Hm & Hr' & Hp' & Hrest); [|lia|done|].
    - eapply sys_more; [done|lia|by eapply exec_thread_sound].
    - exists m, p'. split_and!; [lia|done..|]. eapply rtc_l; [|exact Hrest].
      exists σ.(Coordinator.shared), σ'.(Coordinator.shared). split; [|done].
      exists n. split; [lia|by eapply sys_reachable_steady]. }
  destruct p; first [exact Hstay|by apply Hgo].
Qed.

(** Worker 1 registers and publishes; its session has turned into a dispatcher
    at the head of its loop when the controller's EXECUTE is queued. *)
Definition evidence_message (cat : ComponentCategory.t) (st : ComponentState.t) (subject : string)
    (extra : list (string * string)) : ProtocolMessage :=
  request MessageType.PUBLISH_COMPONENT
    (extra ++ [("category", to_string (enum_to_int cat)); ("state", to_string (enum_to_int st));
               ("subject", subject); ("incarnation_id", "2")]).
Definition evidence_messages : list ProtocolMessage :=
  [evidence_message ComponentCategory.BACKEND ComponentState.VERIFIED "backend-reference" [];
   evidence_message ComponentCategory.DEVICE_CONTEXT ComponentState.BOUND "device-context-0" [];
   evidence_message ComponentCategory.MODEL ComponentState.VERIFIED "reference-model"
     [("model_gen", "1"); ("compat", "ref/v1")];
   evidence_message ComponentCategory.KV_CAPACITY ComponentState.BOUND "kv-main" [("kv_gen", "1")];
   evidence_message ComponentCategory.KERNEL ComponentState.VERIFIED "er-reference-kernel"
     [("kernel_gen", "1"); ("compat", "ref/v1")];
   evidence_message ComponentCategory.GRAPH ComponentState.VERIFIED "er-reference-graph" [("graph_gen", "1")];
   evidence_message ComponentCategory.WARMUP ComponentState.VERIFIED "warmup" []].
Definition demo_turned : Coordinator :=
  deliver 5 0 (request MessageType.COMMAND_READY [])
    (foldl (λ σ m, deliver 30 0 m σ) demo_registered evidence_messages).
Definition demo_round : Coordinator := default demo_turned (exec_thread 0 Go demo_turned).
Definition demo_waiting : Coordinator :=
  deliver 30 1 (request MessageType.EXECUTE [("target_incarnation", "2"); ("cmd_id", "9")])
    (join 30 1 demo_round).
Definition next_state (a : Answer) (σ : Coordinator) : Coordinator := default σ (exec_thread 0 a σ).
(** The dispatcher is about to ask for the use; has it; and has lost the worker. *)
Definition demo_admitting : Coordinator := go_on 5 0 demo_waiting.
Definition demo_admitted : Coordinator := next_state Go demo_admitting.
Definition demo_lost : Coordinator := next_state (Message None) (next_state Go demo_admitted).
Definition stepped (a : Answer) (σ : Coordinator) : bool :=
  match exec_thread 0 a σ with Some _ => true | None => false end.
Lemma next_state_exec a σ : stepped a σ = true → exec_thread 0 a σ = Some (next_state a σ).
Proof. rw /stepped /next_state. by destruct (exec_thread 0 a σ). Qed.

Lemma demo_turned_mode : demo_turned.(Coordinator.threads) !! 0 = Some (Ret (AtDispatcher 1 (mkId 2) 0)).
Proof. vm_compute. reflexivity. Qed.
Lemma demo_waiting_thread : demo_waiting.(Coordinator.threads) !! 0 = Some (dispatcher_step 1 (mkId 2) 0).
Proof.
  rw /demo_waiting deliver_keeps; [|done]. rw join_keeps; [|done].
  rw /demo_round /exec_thread demo_turned_mode. cbn [default Coordinator.threads]. by rw lookup_insert_eq.
Qed.
Lemma demo_published_reachable : run_within 281 (foldl (λ σ m, deliver 30 0 m σ) demo_registered evidence_messages).
Proof.
  rw /evidence_messages. cbn [foldl].
  apply (deliver_reachable 30 0 _ 250); [|vm_compute; reflexivity].
  apply (deliver_reachable 30 0 _ 219); [|vm_compute; reflexivity].
  apply (deliver_reachable 30 0 _ 188); [|vm_compute; reflexivity].
  apply (deliver_reachable 30 0 _ 157); [|vm_compute; reflexivity].
  apply (deliver_reachable 30 0 _ 126); [|vm_compute; reflexivity].
  apply (deliver_reachable 30 0 _ 95); [|vm_compute; reflexivity].
  apply (deliver_reachable 30 0 _ 64); [|vm_compute; reflexivity].
  apply (deliver_reachable 30 0 _ 33); [|vm_compute; reflexivity].
  apply (join_reachable 30 0 2); [|vm_compute; reflexivity].
  exists 2. split; [lia|]. exact (@sys_booted None demo_clock).
Qed.
Lemma demo_waiting_reachable : run_within 350 demo_waiting.
Proof.
  apply (deliver_reachable 30 1 _ 319); [|vm_compute; reflexivity].
  apply (join_reachable 30 1 288); [|vm_compute; reflexivity].
  assert (run_within 287 demo_turned) as (n & Hn & Hr).
  { apply (deliver_reachable 5 0 _ 281); [apply demo_published_reachable|vm_compute; reflexivity]. }
  exists (n + 1). split; [lia|]. eapply sys_more; [exact Hr|lia|].
  apply (exec_thread_sound 0 Go). rw /demo_round /exec_thread demo_turned_mode. done.
Qed.

Lemma demo_admitting_round : ∃ n p, n <= 355 ∧ sys_reachable None n demo_admitting ∧
  demo_admitting.(Coordinator.threads) !! 0 = Some p ∧ rtc round_step (dispatcher_step 1 (mkId 2) 0) p.
Proof.
  destruct demo_waiting_reachable as (n & Hn & Hr).
  destruct (go_on_round 5 0 n demo_waiting _ Hr ltac:(lia) demo_waiting_thread) as (m & p & Hm & H).
  exists m, p. split; [lia|]. rw /demo_admitting. exact H.
Qed.
(** A state whose use [u], of the incarnation [k], is there, released or not. *)
Definition shows (u k : N) (released : bool) (σ : Coordinator) : bool :=
  match uses σ.(Coordinator.shared) !! mkId u with
  | Some au => bool_decide (au.(Use.incarnation_id) = mkId k) && Bool.eqb au.(Use.released) released
  | None => false
  end.
Lemma shows_use u k b σ :
  shows u k b σ = true → ∃ au, uses σ.(Coordinator.shared) !! mkId u = Some au ∧
    au.(Use.incarnation_id) = mkId k ∧ au.(Use.released) = b.
Proof.
  rw /shows. destruct (_ !! _) as [au|]; [|done].
  intros [Hk%bool_decide_eq_true Hb%Bool.eqb_prop]%andb_true_iff. by exists au.
Qed.
Lemma shows_closed u k σ : shows u k true σ = true → closed (mkId u) σ.(Coordinator.shared).
Proof. intros (au & Hau & _ & Hrel)%shows_use. by exists au. Qed.

Lemma demo_admitted_exec : exec_thread 0 Go demo_admitting = Some demo_admitted.
Proof. rw /demo_admitted. apply next_state_exec. vm_compute. reflexivity. Qed.
Lemma demo_admitted_shows : shows 2 2 false demo_admitted = true.
Proof. vm_compute. reflexivity. Qed.
Lemma demo_admitting_busy p : demo_admitting.(Coordinator.threads) !! 0 = Some p → ∀ m, p ≠ Ret m.
Proof.
  assert (match demo_admitting.(Coordinator.threads) !! 0 with Some (Ret _) => false | _ => true end = true)
    as H by (vm_compute; reflexivity).
  intros Hp m ->. by rw Hp in H.
Qed.
Lemma demo_lost_steps : nsteps sys_step 2 demo_admitted demo_lost.
Proof.
  rw /demo_lost. apply (nsteps_l _ 1 _ (next_state Go demo_admitted)).
  - apply (exec_thread_sound 0 Go), next_state_exec. vm_compute. reflexivity.
  - apply nsteps_once, (exec_thread_sound 0 (Message None)), next_state_exec. vm_compute. reflexivity.
Qed.
Lemma demo_lost_shows : shows 2 2 true (settle 30 0 demo_lost) = true.
Proof. vm_compute. reflexivity. Qed.

Lemma routed_uses_never_leak_witness :
  (∃ au, uses demo_admitted.(Coordinator.shared) !! mkId 2 = Some au ∧ au.(Use.released) = false) ∧
  (closed (mkId 2) demo_lost.(Coordinator.shared) ∨
   ∃ q, demo_lost.(Coordinator.threads) !! 0 = Some q ∧ closes (mkId 2) (mkId 2) q) ∧
  closed (mkId 2) (settle 30 0 demo_lost).(Coordinator.shared).
Proof.
  destruct (shows_use _ _ _ _ demo_admitted_shows) as (au & Hau & Hinc & Hopen).
  split; [exact (ex_intro _ au (conj Hau Hopen))|]. split.
  - destruct demo_admitting_round as (n & p & Hn & Hr & Hp & Hround).
    assert (∀ m, p ≠ Ret m) as Hret by exact (demo_admitting_busy p Hp).
    destruct (exec_thread_round 0 Go demo_admitting demo_admitted p Hp Hret demo_admitted_exec) as (p1 & Hp1 & Hstep & Heq).
    pose proof demo_lost_steps as Hsteps.
    rw Heq in Hsteps. rw -Hinc.
    refine (proj1 (routed_uses_never_leak None n demo_admitting.(Coordinator.shared) demo_admitting.(Coordinator.threads) 0
      1 (mkId 2) 0 p demo_admitted.(Coordinator.shared) p1 (mkId 2) au 2 demo_lost _ Hp Hround Hstep _ Hau Hsteps _)).
    + rw Coordinator_eta. exact Hr.
    + vm_compute. reflexivity.
    + change (N.of_nat 2) with 2. lia.
  - exact (shows_closed 2 2 _ demo_lost_shows).
Defined.
