(* ===== verification/Dialogue.v ===== *)
(** * The dialogue of a session and its worker

    The frames between a worker in command mode and its session's thread, while
    every other thread of the coordinator goes on: who may speak when, and which
    frame answers which.  The coordinator never looks at the cmd_id of an
    answer; that it is the right one rests on both ends taking turns. *)

From S2P Require Import Prelude Identities Enums Model Reference Codec Frame Payload Backend Worker Readiness.
From S2P Require Import Runtime Loading Transitions Scenario Threads Routing Sessions Replies System.
Local Open Scope N_scope.

(** ** The protocol, as the session's thread sees it *)

(** What the session's thread read and sent. *)
Inductive Event := Heard (m : ProtocolMessage) | Said (m : ProtocolMessage).

Definition commands (q : ProtocolMessage) : Prop :=
  q.(Msg.type) = MessageType.EXECUTE ∨ q.(Msg.type) = MessageType.DRAIN.
(** The frame a worker answers a command with: the command's own cmd_id, under
    its epoch. *)
Definition answers (q a : ProtocolMessage) : Prop :=
  let pf := parse_payload q.(Msg.payload) in
  match q.(Msg.type) with
  | MessageType.EXECUTE => ∃ held detail,
      a = worker_frame q.(Msg.epoch) MessageType.EXECUTION_RESULT (execution_result pf held detail)
  | MessageType.DRAIN => a = worker_frame q.(Msg.epoch) MessageType.DRAIN_RESULT (drain_result pf)
  | _ => False
  end.
(** The answer [a] to [q] turns the connection around. *)
Definition turns (q a : ProtocolMessage) : bool :=
  bool_decide (q.(Msg.type) = MessageType.COMMAND_READY) && negb (bool_decide (a.(Msg.type) = MessageType.ERROR)).

(** Whose turn it is: the session waits for a request, owes an answer to one,
    may send a command, or waits for the answer to one. *)
Inductive Turn := Idle | Owes (q : ProtocolMessage) | Free | Awaits (q : ProtocolMessage).
Definition after (q a : ProtocolMessage) : Turn := if turns q a then Free else Idle.

(** The conversations of the protocol. Before the connection is turned around,
    every frame has epoch 0. *)
Inductive spoken : list Event → Turn → Prop :=
  | spoken_nothing : spoken [] Idle
  | spoken_request tr q : spoken tr Idle → q.(Msg.epoch) = 0 → spoken (tr ++ [Heard q]) (Owes q)
  | spoken_reply tr q a : spoken tr (Owes q) → a.(Msg.epoch) = 0 → spoken (tr ++ [Said a]) (after q a)
  | spoken_command tr q : spoken tr Free → commands q → spoken (tr ++ [Said q]) (Awaits q)
  | spoken_answer tr q a : spoken tr (Awaits q) → answers q a → spoken (tr ++ [Heard a]) Free.

(** ** The connection *)

Module Dialogue.
Record t (S : Type) := mk {
  system : Coordinator.t;
  worker : Proc (Phase (S := S));
  is_open : bool;
  up : list ProtocolMessage.t;
  down : list ProtocolMessage.t;
}.
Arguments mk {S}.
Arguments system {S}.
Arguments worker {S}.
Arguments is_open {S}.
Arguments up {S}.
Arguments down {S}.
End Dialogue.
Abbreviation Dialogue := Dialogue.t.

Section dialogue.
Context {S : Type} `{ReferenceBackend S} (t : N).

(** The thread's step does not use its socket. *)
Definition off_line {A} (p : Prog A) : Prop :=
  match p with Recv _ | Send _ _ => False | _ => True end.

(** One step. The connection may break at any time; then sends fail, and a
    read may still find a frame or finds the end, and nothing after it. *)
Inductive talk : Dialogue S → option Event → Dialogue S → Prop :=
  (** another thread of the coordinator, or a new connection *)
  | talk_elsewhere σ σ' p o up down :
    sys_step σ σ' → σ'.(Coordinator.threads) !! t = σ.(Coordinator.threads) !! t →
    talk (Dialogue.mk σ p o up down) None (Dialogue.mk σ' p o up down)
  | talk_act w ts p w' p' wk o up down :
    ts !! t = Some p → off_line p → prog_step w p w' p' →
    talk (Dialogue.mk (Coordinator.mk w ts) wk o up down) None
         (Dialogue.mk (Coordinator.mk w' (<[t := p']> ts)) wk o up down)
  | talk_loop (Ord : HashOrder) m w ts wk o up down :
    ts !! t = Some (Ret m) →
    talk (Dialogue.mk (Coordinator.mk w ts) wk o up down) None
         (Dialogue.mk (Coordinator.mk w (<[t := resume m]> ts)) wk o up down)
  | talk_read k m w ts wk o up down :
    ts !! t = Some (Recv k) →
    talk (Dialogue.mk (Coordinator.mk w ts) wk o (m :: up) down) (Some (Heard m))
         (Dialogue.mk (Coordinator.mk w (<[t := k (Some m)]> ts)) wk o up down)
  | talk_end k w ts wk up down :
    ts !! t = Some (Recv k) →
    talk (Dialogue.mk (Coordinator.mk w ts) wk false up down) None
         (Dialogue.mk (Coordinator.mk w (<[t := k None]> ts)) wk false [] down)
  | talk_send m k w ts wk up down :
    ts !! t = Some (Send m k) →
    talk (Dialogue.mk (Coordinator.mk w ts) wk true up down) (Some (Said m))
         (Dialogue.mk (Coordinator.mk w (<[t := k true]> ts)) wk true up (down ++ [m]))
  | talk_unsent m k w ts wk up down :
    ts !! t = Some (Send m k) →
    talk (Dialogue.mk (Coordinator.mk w ts) wk false up down) None
         (Dialogue.mk (Coordinator.mk w (<[t := k false]> ts)) wk false up down)
  | worker_send σ m k up down :
    talk (Dialogue.mk σ (PSend m k) true up down) None (Dialogue.mk σ (k true) true (up ++ [m]) down)
  | worker_unsent σ m k up down :
    talk (Dialogue.mk σ (PSend m k) false up down) None (Dialogue.mk σ (k false) false up down)
  | worker_read σ m k o up down :
    talk (Dialogue.mk σ (PRecv k) o up (m :: down)) None (Dialogue.mk σ (k (Some m)) o up down)
  | worker_end σ k up down :
    talk (Dialogue.mk σ (PRecv k) false up down) None (Dialogue.mk σ (k None) false up [])
  | worker_file σ op k b o up down :
    talk (Dialogue.mk σ (PFile op k) o up down) None (Dialogue.mk σ (k b) o up down)
  | worker_loop σ ph o up down :
    talk (Dialogue.mk σ (PRet ph) o up down) None (Dialogue.mk σ (next_phase ph) o up down)
  | connection_lost σ wk up down :
    talk (Dialogue.mk σ wk true up down) None (Dialogue.mk σ wk false up down).

Inductive conversation : Dialogue S → list Event → Dialogue S → Prop :=
  | conv_nothing d : conversation d [] d
  | conv_more d tr d' e d'' :
    conversation d tr d' → talk d' e d'' → conversation d (tr ++ option_list e) d''.
End dialogue.

(** ** The session's side

    From any shared state at each atomic step, [p] keeps to its turns while its
    connection works, starting in turn [s]; [Q] holds of the turn it returns
    in, and [X] of the one it throws in. *)

Fixpoint talks {A} (p : Prog A) (Q : Turn → A → Prop) (X : Turn → Exn → Prop) (s : Turn) : Prop :=
  match p with
  | Ret a => Q s a
  | Raise e => X s e
  | Act m k => ∀ w, talks (k (m w).1) Q X s
  | Recv k =>
    match s with
    | Idle => ∀ q, q.(Msg.epoch) = 0 → talks (k (Some q)) Q X (Owes q)
    | Awaits q => ∀ a, talks (k (Some a)) Q X Free
    | _ => False
    end
  | Send m k =>
    match s with
    | Owes q => m.(Msg.epoch) = 0 ∧ talks (k true) Q X (after q m)
    | Free => commands m ∧ talks (k true) Q X (Awaits m)
    | _ => False
    end
  | Await _ k => ∀ r, talks (k r) Q X s
  | Dequeue _ k => ∀ c, talks (k c) Q X s
  | WriteFile _ _ k => ∀ b, talks (k b) Q X s
  end.

Section talks.
Context {A : Type}.
Implicit Types (Q : Turn → A → Prop) (X : Turn → Exn → Prop).

Lemma talks_bind {B} (p : Prog B) (f : B → Prog A) Q X s :
  talks p (λ s b, talks (f b) Q X s) X s → talks (p ≫= f) Q X s.
Proof.
  revert s. induction p as [a|e|B' m k IH|k IH|msg k IH|q k IH|r k IH|path blob k IH]; intros s;
    cbn [mbind Prog_bind talks]; try done; try (intros Hp x; apply IH, Hp).
  - destruct s; try done; intros Hp x; [intros Hx|]; by apply IH, Hp.
  - destruct s; try done; intros [H Hp]; (split; [done|]); by apply IH.
Qed.
Lemma talks_mono (p : Prog A) Q Q' X X' s :
  (∀ s a, Q s a → Q' s a) → (∀ s e, X s e → X' s e) → talks p Q X s → talks p Q' X' s.
Proof.
  intros HQ HX. revert s. induction p as [a|e|B' m k IH|k IH|msg k IH|q k IH|r k IH|path blob k IH]; intros s;
    cbn [talks]; auto; destruct s; naive_solver.
Qed.
Lemma talks_try_domain (p : Prog A) h Q X s :
  talks p Q (λ s e, match e with
    | DomainError code what => talks (h code what) Q X s
    | StdOutOfRange => X s StdOutOfRange
    end) s →
  talks (try_domain p h) Q X s.
Proof.
  rw /try_domain.
  revert s. induction p as [a|e|B' m k IH|k IH|msg k IH|q k IH|r k IH|path blob k IH]; intros s;
    cbn [try_with talks]; try done; try (intros Hp x; apply IH, Hp).
  - by destruct e.
  - destruct s; try done; intros Hp x; [intros Hx|]; by apply IH, Hp.
  - destruct s; try done; intros [H Hp]; (split; [done|]); by apply IH.
Qed.
Lemma talks_try_all (p h : Prog A) Q X s :
  talks p Q (λ s _, talks h Q X s) s → talks (try_all p h) Q X s.
Proof.
  rw /try_all.
  revert s. induction p as [a|e|B' m k IH|k IH|msg k IH|q k IH|r k IH|path blob k IH]; intros s;
    cbn [try_with talks]; try done; try (intros Hp x; apply IH, Hp).
  - destruct s; try done; intros Hp x; [intros Hx|]; by apply IH, Hp.
  - destruct s; try done; intros [H Hp]; (split; [done|]); by apply IH.
Qed.
Lemma talks_rt (m : Run A) Q X s : (∀ a, Q s a) → (∀ e, X s e) → talks (rt m) Q X s.
Proof. intros HQ HX w. rw /on_runtime. destruct (m _) as [[a|e] s']; [apply HQ|apply HX]. Qed.
Lemma talks_query (f : Impl.t → A) Q X s : (∀ a, Q s a) → talks (rt (gets f)) Q X s.
Proof. intros HQ w. apply HQ. Qed.
Lemma talks_locked (m : SessionShared → A * SessionShared) Q X s : (∀ a, Q s a) → talks (locked m) Q X s.
Proof. intros HQ w. destruct (m w) as [a w']. apply HQ. Qed.
End talks.

(** *** Handlers

    [says P p]: every frame [p] sends satisfies [P]; [gives P p]: so does every
    value it returns. *)

Fixpoint says {A} (P : ProtocolMessage → Prop) (p : Prog A) : Prop :=
  match p with
  | Ret _ | Raise _ => True
  | Act m k => ∀ b, says P (k b)
  | Recv k => ∀ m, says P (k m)
  | Send m k => P m ∧ ∀ b, says P (k b)
  | Await _ k => ∀ r, says P (k r)
  | Dequeue _ k => ∀ c, says P (k c)
  | WriteFile _ _ k => ∀ b, says P (k b)
  end.
Fixpoint gives {A} (P : A → Prop) (p : Prog A) : Prop :=
  match p with
  | Ret a => P a
  | Raise _ => True
  | Act m k => ∀ b, gives P (k b)
  | Recv k => ∀ m, gives P (k m)
  | Send m k => ∀ b, gives P (k b)
  | Await _ k => ∀ r, gives P (k r)
  | Dequeue _ k => ∀ c, gives P (k c)
  | WriteFile _ _ k => ∀ b, gives P (k b)
  end.

Lemma gives_bind {A B} P (p : Prog A) (f : A → Prog B) : (∀ a, gives P (f a)) → gives P (p ≫= f).
Proof. intros Hf. induction p; cbn [mbind Prog_bind gives]; auto. Qed.
Lemma says_bind {A B} P (p : Prog A) (f : A → Prog B) : says P p → (∀ a, says P (f a)) → says P (p ≫= f).
Proof. intros Hp Hf. induction p; cbn [mbind Prog_bind says] in *; naive_solver. Qed.
Lemma says_try_with {A} P (p : Prog A) h :
  says P p → (∀ e q, h e = Some q → says P q) → says P (try_with p h).
Proof.
  intros Hp Hh. induction p; cbn [try_with says] in *; try naive_solver.
  destruct (h e) eqn:He; simpl; [by eapply Hh|done].
Qed.
Lemma says_try_domain {A} P (p : Prog A) h :
  says P p → (∀ code what, says P (h code what)) → says P (try_domain p h).
Proof. intros Hp Hh. apply says_try_with; [done|]. by intros [] q [= <-]. Qed.
Lemma says_rt {A} P (m : Run A) : says P (rt m).
Proof. by intros []. Qed.
Lemma says_locked {A} P (m : SessionShared → A * SessionShared) : says P (locked m).
Proof. by intros []. Qed.

(** A handler that sends one frame while it owes one, and stops at a value [P]
    allows. *)
Lemma counts_bounded {A} (p : Prog A) (Q : nat → A → Prop) X n :
  (∀ n a, Q n a → n <= 1)%nat → (∀ n e, X n e → n <= 1)%nat → counts p Q X n → (n <= 1)%nat.
Proof.
  intros HQ HX. revert n. induction p as [a|e|B m k IH|k IH|msg k IH|q k IH|r k IH|path blob k IH]; intros n;
    cbn [counts]; intros Hp; try done.
  - by eapply HQ.
  - by eapply HX.
  - by apply (IH _ _ (Hp (Shared.make (Impl.init (Clock.stopped 0) RuntimeOptions.default)))).
  - specialize (IH true _ (Hp true)). lia.
  - by apply (IH None _ (Hp None)).
  - by apply (IH true _ (Hp true)).
Qed.
Lemma talks_owing {A} (p : Prog A) (P : A → Prop) q n :
  counts p one lost n → says (λ m, m.(Msg.epoch) = 0) p → gives P p → 
  q.(Msg.type) ≠ MessageType.COMMAND_READY →
  talks p (λ s a, s = Idle ∧ P a) (λ _ _, True) (if decide (n = 0)%nat then Owes q else Idle).
Proof.
  intros Hc Hs Hg Hq. revert n Hc. induction p as [a|e|B m k IH|k IH|msg k IH|r k IH|r k IH|path blob k IH]; intros n Hc;
    cbn [counts says gives talks] in *; try done; auto.
  - by rw Hc.
  - destruct Hs as [Hm Hs]. pose proof (counts_bounded _ one lost _ ltac:(intros ?? ->; lia)
      ltac:(intros ?? [-> _]; lia) (Hc true)) as Hn.
    rw decide_True; [|lia]. split; [exact Hm|].
    assert (after q msg = Idle) as -> by (rw /after /turns bool_decide_eq_false_2 //).
    specialize (IH true (Hs true) (Hg true) (S n) (Hc true)). by destruct (decide (S n = 0)%nat).
Qed.

Section handlers.
Context `{Ord : HashOrder}.

Ltac says_step :=
  match goal with
  | |- says _ (Ret _) => exact I
  | |- says _ (Raise _) => exact I
  | |- says _ (reply _ _) => split; [reflexivity|by intros ?]
  | |- says _ (Send _ _) => split; [first [reflexivity|done]|intros ?]
  | |- says _ (send _) => split; [first [reflexivity|done]|intros ?]
  | |- says _ (Await _ _) => intros ?
  | |- says _ (WriteFile _ _ _) => intros ?
  | |- says _ (locked _) => apply says_locked
  | |- says _ (read _) => apply says_locked
  | |- says _ (write _) => apply says_locked
  | |- says _ (rt _) => apply says_rt
  | |- says _ (mbind _ _) => apply says_bind; [|intros ?; cbv beta]
  | |- says _ (guarded _) => apply says_try_domain; [|intros ? ?]
  | |- says _ (try_domain _ _) => apply says_try_domain; [|intros ? ?; cbv beta]
  | |- says _ (match ?x with _ => _ end) => destruct x
  | |- says _ (?f _ _ _ _ _ _) => progress unfold f
  | |- says _ (?f _ _ _ _ _) => progress unfold f
  | |- says _ (?f _ _ _ _) => progress unfold f
  | |- says _ (?f _ _ _) => progress unfold f
  | |- says _ (?f _ _) => progress unfold f
  | |- says _ (?f _) => progress unfold f
  end.
Ltac says_go := repeat (says_step; cbv beta zeta).

Lemma says_step_times P n a : says P (step_times n a).
Proof. revert a. induction n as [|n IH]; intros a; cbn [step_times]; [exact I|]. apply says_bind; [apply says_rt|apply IH]. Qed.
Lemma says_prepare k : says (λ m, m.(Msg.epoch) = 0) (on_prepare k).
Proof. apply says_try_domain; [|intros ? ?; says_go]. repeat first [apply says_step_times|says_step]. Qed.
Lemma says_reply_to_controller rep i a : says (λ m, m.(Msg.epoch) = 0) (reply_to_controller rep i 0 a).
Proof. rw /reply_to_controller. cbv zeta. by split. Qed.
Lemma says_route_command ty t r f a : says (λ m, m.(Msg.epoch) = 0) (route_command ty t r f 0 a).
Proof.
  apply says_bind; [apply says_locked|intros fut]. intros [rep|]; apply says_reply_to_controller.
Qed.
Lemma says_route_execute f a target boot : says (λ m, m.(Msg.epoch) = 0) (route_execute f 0 a target boot).
Proof.
  apply says_bind; [rw /find_router; says_go|intros [why|r]].
  - apply says_reply_to_controller.
  - apply says_route_command.
Qed.
Lemma says_route_drain f a target boot : says (λ m, m.(Msg.epoch) = 0) (route_drain f 0 a target boot).
Proof.
  apply says_bind; [rw /find_router; says_go|intros [why|r]]; [apply says_reply_to_controller|].
  apply says_bind; [says_go|intros [what|]]; [apply says_reply_to_controller|apply says_route_command].
Qed.
Ltac says_handlers :=
  match goal with
  | |- says _ (on_prepare _) => apply says_prepare
  | |- says _ (route_execute _ _ _ _ _) => apply says_route_execute
  | |- says _ (route_drain _ _ _ _ _) => apply says_route_drain
  end.

(** A message of epoch 0 is answered under epoch 0. *)
Lemma says_dispatch sid k msg :
  msg.(Msg.epoch) = 0 → says (λ m, m.(Msg.epoch) = 0) (dispatch sid k msg).
Proof.
  intros He. rw /dispatch. cbv zeta. destruct (Msg.type msg).
  all: rw /on_drain /on_execute /on_hello ?He.
  all: repeat first [says_handlers|says_step; cbv beta zeta].
Qed.
End handlers.

(** *** The loops *)

(** What a thread may be at the head of, by its turn. *)
Definition at_head (s : Turn) (m : Mode) : Prop :=
  match m with
  | AtSession _ _ => s = Idle
  | AtDispatcher _ _ _ => s = Free
  | Finished => True
  end.
Definition keeps (p : Prog Mode) (s : Turn) : Prop := talks p at_head (λ _ _, True) s.

Section loops.
Context `{Ord : HashOrder}.

Lemma talks_stale_epoch {A} e (f : bool → Prog A) Q X s :
  (∀ b, talks (f b) Q X s) → talks (stale_epoch e ≫= f) Q X s.
Proof.
  intros Hf. apply talks_bind. rw /stale_epoch. destruct (_ =? 0); [apply Hf|].
  apply talks_bind, talks_query. intros a. apply Hf.
Qed.
Lemma talks_reply type l (Q : Turn → () → Prop) X q :
  (∀ m, m.(Msg.type) = type → Q (after q m) ()) → talks (reply type l) Q X (Owes q).
Proof. intros HQ. split; [done|by apply HQ]. Qed.
Lemma keeps_end sid k s : keeps (end_session sid k) s.
Proof. by apply talks_bind, talks_locked. Qed.
Lemma keeps_command_ready sid k q :
  q.(Msg.type) = MessageType.COMMAND_READY → keeps (on_command_ready sid k) (Owes q).
Proof.
  intros Hq.
  assert (∀ a, after q a = if bool_decide (a.(Msg.type) = MessageType.ERROR) then Idle else Free) as Hafter.
  { intros a. rw /after /turns bool_decide_eq_true_2 // andb_true_l. by destruct (bool_decide _). }
  apply talks_bind, talks_locked. intros [r|].
  2: { apply talks_bind, talks_reply. intros m Hm. by rw Hafter Hm. }
  apply talks_bind, talks_locked. intros router. apply talks_bind, talks_reply. intros m Hm.
  rw Hafter Hm bool_decide_eq_false_2 //. apply talks_bind, talks_locked. intros adopted.
  destruct (negb adopted); [apply keeps_end|].
  apply talks_bind, talks_locked. intros []; [done|apply keeps_end].
Qed.
Lemma gives_dispatch sid k msg :
  msg.(Msg.type) ≠ MessageType.COMMAND_READY → gives (at_head Idle) (dispatch sid k msg).
Proof.
  intros Hq. rw /dispatch. cbv zeta. destruct (Msg.type msg); try done.
  all: apply gives_bind; intros ?; try done; by apply gives_bind.
Qed.
Lemma keeps_dispatch sid k msg : msg.(Msg.epoch) = 0 → keeps (dispatch sid k msg) (Owes msg).
Proof.
  intros He. destruct (decide (msg.(Msg.type) = MessageType.COMMAND_READY)) as [Hq|Hq].
  - rw /dispatch Hq. by apply keeps_command_ready.
  - eapply talks_mono; [| |apply (talks_owing _ (at_head Idle) msg 0)]; [by intros s m [-> ?]|done| | | |done].
    + apply counts_dispatch.
    + by apply says_dispatch.
    + by apply gives_dispatch.
Qed.
Lemma keeps_session sid k : keeps (session_step sid k) Idle.
Proof.
  intros q Hq. apply talks_stale_epoch. intros []; [|by apply keeps_dispatch].
  split; [done|]. rw /after /turns. by rw andb_false_r.
Qed.

(** *** The dispatcher *)

(** A program that leaves the connection alone. *)
Fixpoint silent {A} (p : Prog A) : Prop :=
  match p with
  | Ret _ | Raise _ => True
  | Act m k => ∀ b, silent (k b)
  | Recv _ | Send _ _ => False
  | Await _ k => ∀ r, silent (k r)
  | Dequeue _ k => ∀ c, silent (k c)
  | WriteFile _ _ k => ∀ b, silent (k b)
  end.
Lemma silent_bind {A B} (p : Prog A) (f : A → Prog B) : silent p → (∀ a, silent (f a)) → silent (p ≫= f).
Proof. intros Hp Hf. induction p; cbn [mbind Prog_bind silent] in *; naive_solver. Qed.
Lemma silent_try_with {A} (p : Prog A) h : silent p → (∀ e q, h e = Some q → silent q) → silent (try_with p h).
Proof.
  intros Hp Hh. induction p; cbn [try_with silent] in *; try naive_solver.
  destruct (h e) eqn:He; simpl; [by eapply Hh|done].
Qed.
Lemma talks_silent {A} (p : Prog A) (Q : Turn → A → Prop) s :
  silent p → (∀ a, Q s a) → talks p Q (λ _ _, True) s.
Proof. intros Hp HQ. induction p; cbn [silent talks] in *; auto; done. Qed.
Lemma talks_silent_bind {A B} (p : Prog A) (f : A → Prog B) (Q : Turn → B → Prop) s :
  silent p → (∀ a, talks (f a) Q (λ _ _, True) s) → talks (p ≫= f) Q (λ _ _, True) s.
Proof. intros Hp Hf. by apply talks_bind, talks_silent. Qed.
Lemma silent_fail_all rep q : silent (fail_all rep q).
Proof. induction q as [|c q IH]; [exact I|]. by apply silent_bind; [intros []|]. Qed.

Ltac silent_step :=
  match goal with
  | |- silent (Ret _) => exact I
  | |- silent (Raise _) => exact I
  | |- silent (locked _) => by intros []
  | |- silent (read _) => by intros []
  | |- silent (write _) => by intros []
  | |- silent (rt _) => by intros []
  | |- silent (Dequeue _ _) => intros ?
  | |- silent (fail_all _ _) => apply silent_fail_all
  | |- silent (mbind _ _) => apply silent_bind; [|intros ?; cbv beta]
  | |- silent (try_domain _ _) => apply silent_try_with; [|intros [] ? [= <-]]
  | |- silent (try_all _ _) => apply silent_try_with; [|intros ? ? [= <-]]
  | |- silent (match ?x with _ => _ end) => destruct x
  | |- silent (?f _ _ _ _) => progress unfold f
  | |- silent (?f _ _ _) => progress unfold f
  | |- silent (?f _ _) => progress unfold f
  | |- silent (?f _) => progress unfold f
  end.
Ltac silent_go := repeat (silent_step; cbv beta zeta).

Definition freely {A} (s : Turn) (_ : A) : Prop := s = Free.

Lemma talks_exchange m (f : bool → Prog ()) :
  commands m → talks (f true) freely (λ _ _, True) (Awaits m) →
  talks (send m ≫= f) freely (λ _ _, True) Free.
Proof. intros Hm Hf. by apply talks_bind. Qed.
Lemma talks_execute r router cmd :
  cmd.(Cmd.type) = MessageType.EXECUTE → talks (process_execute r router cmd) freely (λ _ _, True) Free.
Proof.
  intros Ht. apply talks_silent_bind; [silent_go|]. intros [].
  { apply talks_silent; [silent_go|done]. }
  apply talks_silent_bind; [silent_go|]. intros [aerr|use_id].
  { apply talks_silent; [silent_go|done]. }
  cbv zeta. apply talks_exchange; [by left|]. cbn [negb].
  apply talks_bind. intros a. apply talks_silent_bind; [silent_go|]. intros _.
  apply talks_silent; [silent_go|done].
Qed.
Lemma talks_drain r router cmd :
  cmd.(Cmd.type) = MessageType.DRAIN → talks (process_drain r router cmd) freely (λ _ _, True) Free.
Proof.
  intros Ht. apply talks_exchange; [by right|]. cbn [negb].
  apply talks_bind. intros a. do 2 (apply talks_silent_bind; [silent_go|]; intros ?).
  apply talks_silent; [silent_go|done].
Qed.
Lemma talks_process r cmd : talks (process r cmd) freely (λ _ _, True) Free.
Proof.
  apply talks_silent_bind; [silent_go|]. intros router.
  apply talks_silent_bind; [silent_go|]. intros [err|]; [apply talks_silent; [silent_go|done]|].
  destruct (Cmd.type cmd) eqn:Ht; try (apply talks_silent; [silent_go; fail|done]).
  - by apply talks_drain.
  - by apply talks_execute.
Qed.
Lemma keeps_dispatcher sid k r : keeps (dispatcher_step sid k r) Free.
Proof.
  apply talks_silent_bind; [silent_go|]. intros alive.
  apply talks_silent_bind; [silent_go|]. intros [cmd|].
  - apply talks_bind. eapply talks_mono; [| |apply talks_process]; [by intros s _ ->|done].
  - apply talks_silent_bind; [silent_go|]. intros _. apply keeps_end.
Qed.

Lemma keeps_resume m s : at_head s m → keeps (resume m) s.
Proof.
  destruct m as [sid k|sid k r|]; cbn [at_head]; [intros ->; apply keeps_session|
    intros ->; apply keeps_dispatcher|done].
Qed.
Lemma keeps_start : keeps start_session Idle.
Proof. by apply talks_bind, talks_locked. Qed.
End loops.

(** ** The worker's side *)

(** The worker asks, waits for the answer, or, once the connection is turned
    around, waits for a command or owes its answer. *)
Inductive WorkerTurn := Asks | Hears (q : ProtocolMessage) | Listens | Owed (q : ProtocolMessage).
Definition heard_back (q a : ProtocolMessage) : WorkerTurn := if turns q a then Listens else Asks.

Fixpoint obeys {A} (p : Proc A) (Q : WorkerTurn → A → Prop) (s : WorkerTurn) : Prop :=
  match p with
  | PRet a => Q s a
  | PRaise _ => True
  | PSend m k =>
    match s with
    | Asks => m.(Msg.epoch) = 0 ∧ obeys (k true) Q (Hears m)
    | Owed q => answers q m ∧ obeys (k true) Q Listens
    | _ => False
    end
  | PRecv k =>
    match s with
    | Hears q => ∀ a, a.(Msg.epoch) = 0 → obeys (k (Some a)) Q (heard_back q a)
    | Listens => ∀ q, commands q → obeys (k (Some q)) Q (Owed q)
    | _ => False
    end
  | PFile _ k => ∀ b, obeys (k b) Q s
  end.

Lemma obeys_bind {A B} (p : Proc B) (f : B → Proc A) Q s :
  obeys p (λ s b, obeys (f b) Q s) s → obeys (p ≫= f) Q s.
Proof.
  revert s. induction p as [a|e|m k IH|k IH|op k IH]; intros s; cbn [mbind Proc_bind obeys]; try done.
  - destruct s; try done; intros [H Hp]; (split; [done|]); by apply IH.
  - destruct s; try done; intros Hp x Hx; by apply IH, Hp.
  - intros Hp b. apply IH, Hp.
Qed.
Lemma obeys_mono {A} (p : Proc A) Q Q' s : (∀ s a, Q s a → Q' s a) → obeys p Q s → obeys p Q' s.
Proof.
  intros HQ. revert s. induction p as [a|e|m k IH|k IH|op k IH]; intros s; cbn [obeys]; auto; destruct s; naive_solver.
Qed.

(** File operations only. *)
Fixpoint on_disk {A} (p : Proc A) : Prop :=
  match p with
  | PRet _ | PRaise _ => True
  | PSend _ _ | PRecv _ => False
  | PFile _ k => ∀ b, on_disk (k b)
  end.
Lemma on_disk_bind {A B} (p : Proc A) (f : A → Proc B) : on_disk p → (∀ a, on_disk (f a)) → on_disk (p ≫= f).
Proof. intros Hp Hf. induction p; cbn [mbind Proc_bind on_disk] in *; naive_solver. Qed.
Lemma on_disk_marker path contents : on_disk (write_marker path contents).
Proof. by intros b. Qed.
Lemma on_disk_marker_if path contents : on_disk (write_marker_if path contents).
Proof. rw /write_marker_if. by destruct (String.eqb _ _). Qed.
Lemma on_disk_wait tries path : on_disk (wait_for tries path).
Proof. induction tries as [|tries IH]; [done|]. by intros []. Qed.
Lemma obeys_on_disk {A B} (p : Proc A) (f : A → Proc B) Q s :
  on_disk p → (∀ a, obeys (f a) Q s) → obeys (p ≫= f) Q s.
Proof.
  intros Hp Hf. apply obeys_bind. induction p; cbn [on_disk obeys] in *; auto; done.
Qed.

(** A request and its answer, before the connection is turned around. *)
Definition fresh (c : Conn) : Prop := c.(Conn.epoch) = 0.
Lemma obeys_exchange c ty f (Q : WorkerTurn → Conn → Prop) :
  fresh c → ty ≠ MessageType.COMMAND_READY → (∀ c', fresh c' → Q Asks c') → obeys (exchange c ty f) Q Asks.
Proof.
  intros Hc Hty HQ. cbn. rw Hc. split; [done|]. intros a Ha. rw /heard_back /turns bool_decide_eq_false_2 //.
  by apply HQ.
Qed.
Definition starting {A} (P : A → Prop) (s : WorkerTurn) (a : A) : Prop := s = Asks ∧ P a.

Section worker.
Context {S : Type} `{ReferenceBackend S}.

Lemma obeys_hello o c : fresh c → obeys (hello o c) (starting (λ r, fresh r.2)) Asks.
Proof.
  intros Hc. cbn. rw Hc. split; [done|]. by intros a Ha.
Qed.
Lemma obeys_register o c : fresh c → obeys (register o c) (starting (λ r, fresh r.2)) Asks.
Proof.
  intros Hc. cbn. rw Hc. split; [done|]. intros a Ha. cbn. by case_decide.
Qed.
Lemma obeys_pub inc_id c cat st subj detail extra :
  fresh c → obeys (pub inc_id c cat st subj detail extra) (starting fresh) Asks.
Proof. intros Hc. by apply obeys_bind, obeys_exchange. Qed.
Lemma obeys_pub_bind {A} inc_id c cat st subj detail extra (f : Conn → Proc A) Q :
  fresh c → (∀ c', fresh c' → obeys (f c') Q Asks) →
  obeys (pub inc_id c cat st subj detail extra ≫= f) Q Asks.
Proof.
  intros Hc Hf. apply obeys_bind. eapply obeys_mono; [|by apply obeys_pub]. intros s c' [-> Hc']. by apply Hf.
Qed.
Lemma obeys_announce inc_id disc c : fresh c → obeys (announce inc_id disc c) (starting fresh) Asks.
Proof.
  intros Hc. do 5 (apply obeys_pub_bind; [done|]; clear dependent c; intros c Hc). by apply obeys_pub.
Qed.
Lemma obeys_prepare inc_id c (b : S) :
  fresh c → obeys (prepare_and_query inc_id c b) (starting (λ r, fresh r.1.2)) Asks.
Proof.
  intros Hc. apply obeys_bind, obeys_exchange; [done..|]. clear dependent c. intros c Hc.
  destruct (bind_backend b) as [warm b']. apply obeys_pub_bind; [done|]. clear dependent c. intros c Hc.
  by apply obeys_bind, obeys_exchange.
Qed.
Lemma obeys_activate o rgen outcome c :
  fresh c → obeys (Worker.activate o rgen outcome c) (starting (λ r, fresh r.2)) Asks.
Proof.
  intros Hc. rw /Worker.activate. destruct (_ && _); [|done]. by apply obeys_bind, obeys_exchange.
Qed.

(** Where the process may stand between two rounds. *)
Definition stands (s : WorkerTurn) (ph : Phase (S := S)) : Prop :=
  match ph with Commanded _ _ _ _ _ _ _ => s = Listens | _ => True end.

Lemma obeys_command_ready o inc_id outcome activation c (b : S) :
  fresh c → obeys (command_ready o inc_id outcome activation c b) stands Asks.
Proof.
  intros Hc. cbn. rw Hc. split; [done|]. intros a Ha. case_decide as He; [done|]. cbn in He.
  assert (∀ q, q.(Msg.type) = MessageType.COMMAND_READY → heard_back q a = Listens) as Hturn.
  { intros q Hq. rw /heard_back /turns (bool_decide_eq_true_2 _ Hq) bool_decide_eq_false_2 //. }
  rw Hturn //. apply obeys_on_disk; [apply on_disk_marker_if|done].
Qed.
Lemma obeys_round inc_id lp c (b : S) :
  obeys (command_round inc_id lp c b) (λ s r, match r with Again _ _ _ => s = Listens | _ => True end) Listens.
Proof.
  intros q Hq. cbn. rw /answer_fields. cbn. destruct Hq as [Hq|Hq]; rw Hq.
  - rw /on_command_execute. apply obeys_bind. apply obeys_on_disk.
    { destruct (String.eqb _ _); [done|apply on_disk_marker]. }
    intros _. destruct (execute _ b) as [result b1]. destruct (hold _ _ _ _ b1) as [held b2].
    apply obeys_on_disk.
    { destruct (String.eqb _ _); [done|]. apply on_disk_bind; [apply on_disk_wait|]. by intros _ b3. }
    intros _. cbn. split; [|done]. rw /answers Hq. by eexists held, _.
  - rw /on_command_drain. apply obeys_bind, obeys_on_disk; [apply on_disk_marker_if|]. intros _. cbn.
    split; [|done]. by rw /answers Hq.
Qed.
Lemma obeys_main o (b : S) :
  o.(Opt.command_mode) = true ∨ (o.(Opt.serve) <= 0)%Z → obeys (main o b) stands Asks.
Proof.
  intros Ho. apply obeys_bind. eapply obeys_mono; [|by apply obeys_hello]. intros s [got c] [-> Hc]. cbn in Hc.
  destruct (negb got); [done|]. apply obeys_bind. eapply obeys_mono; [|by apply obeys_register].
  intros s [[[inc_id rgen]|] c1] [-> Hc1]; [|done]. cbn in Hc1. destruct (discover 0 b) as [[disc|e] b1]; [|done].
  apply obeys_bind. eapply obeys_mono; [|by apply obeys_announce]. intros s c2 [-> Hc2].
  apply obeys_bind. eapply obeys_mono; [|by apply obeys_prepare]. intros s [[outcome c3] b3] [-> Hc3]. cbn in Hc3.
  apply obeys_bind. eapply obeys_mono; [|by apply obeys_activate]. intros s [activation c4] [-> Hc4].
  destruct (Opt.command_mode o) eqn:Hmode; [by apply obeys_command_ready|].
  destruct Ho as [?|Hserve]; [done|]. replace (Z.to_nat (Opt.serve o)) with 0%nat by lia. cbn [serve_requests].
  apply obeys_bind. cbn [obeys]. apply obeys_on_disk; [apply on_disk_marker_if|]. intros _. by case_match.
Qed.
Lemma obeys_next ph s : stands s ph → obeys (next_phase ph) stands s.
Proof.
  destruct ph as [o inc_id outcome activation lp c b| |]; cbn [stands]; [intros ->|done..].
  apply obeys_bind. eapply obeys_mono; [|apply obeys_round]. intros s [lp' c' b'|drained lp' b']; [by intros ->|].
  intros _. apply obeys_on_disk; [apply on_disk_marker_if|done].
Qed.
End worker.

(** ** Both sides *)

(** How the turns of the two ends and the frames between them fit. *)
Inductive joint : Turn → WorkerTurn → list ProtocolMessage → list ProtocolMessage → Prop :=
  | joint_idle : joint Idle Asks [] []
  | joint_requested q : q.(Msg.epoch) = 0 → joint Idle (Hears q) [q] []
  | joint_owes q : joint (Owes q) (Hears q) [] []
  | joint_replied q a s : a.(Msg.epoch) = 0 → s = after q a → joint s (Hears q) [] [a]
  (** the first command may overtake the reading of the last reply *)
  | joint_ahead q a c : a.(Msg.epoch) = 0 → turns q a = true → commands c → joint (Awaits c) (Hears q) [] [a; c]
  | joint_free : joint Free Listens [] []
  | joint_commanded c : commands c → joint (Awaits c) Listens [] [c]
  | joint_working c : joint (Awaits c) (Owed c) [] []
  | joint_answered c a : answers c a → joint (Awaits c) Listens [a] [].

(** What may be left to read of a broken connection. *)
Definition expected (s : Turn) (m : ProtocolMessage) : Prop :=
  match s with Idle => m.(Msg.epoch) = 0 | Awaits q => answers q m | _ => False end.

Lemma joint_expected s wt m up down : joint s wt (m :: up) down → up = [] ∧ expected s m.
Proof. inversion 1; by subst. Qed.
Lemma after_turns q a : after q a = if turns q a then Free else Idle.
Proof. done. Qed.

Section both.
Context {S : Type} `{ReferenceBackend S} (t : N).

Definition thread_keeps (σ : Coordinator) (s : Turn) : Prop :=
  ∀ p, σ.(Coordinator.threads) !! t = Some p → keeps p s.
Definition in_turn (d : Dialogue S) (s : Turn) : Prop :=
  if d.(Dialogue.is_open) then
    thread_keeps d.(Dialogue.system) s ∧
    ∃ wt, obeys d.(Dialogue.worker) stands wt ∧ joint s wt d.(Dialogue.up) d.(Dialogue.down)
  else
    d.(Dialogue.up) = [] ∨
    (thread_keeps d.(Dialogue.system) s ∧ ∃ m, d.(Dialogue.up) = [m] ∧ expected s m).

Lemma thread_keeps_set w ts p s : keeps p s → thread_keeps (Coordinator.mk w (<[t := p]> ts)) s.
Proof. intros Hp p'. cbn. rw lookup_insert_eq. by intros [= <-]. Qed.
(** A step that leaves the connection alone. *)
Lemma in_turn_system σ σ' wk o up down s :
  (thread_keeps σ s → thread_keeps σ' s) →
  in_turn (Dialogue.mk σ wk o up down) s → in_turn (Dialogue.mk σ' wk o up down) s.
Proof.
  intros Hk. rw /in_turn. cbn. destruct o; [intros [? ?]; auto|]. intros [?|[? ?]]; [by left|right; auto].
Qed.
Lemma prog_step_keeps w (p : Prog Mode) w' p' s :
  off_line p → prog_step w p w' p' → keeps p s → keeps p' s.
Proof.
  intros Hoff Hstep. rw /keeps. destruct Hstep; cbn [off_line talks] in *; try done; intros Hp; try apply Hp.
  specialize (Hp w). by rw H0 in Hp.
Qed.

Lemma read_in_turn w ts k m wk o up down s tr :
  ts !! t = Some (Recv k) → spoken tr s →
  in_turn (Dialogue.mk (Coordinator.mk w ts) wk o (m :: up) down) s →
  ∃ s', spoken (tr ++ [Heard m]) s' ∧
    in_turn (Dialogue.mk (Coordinator.mk w (<[t := k (Some m)]> ts)) wk o up down) s'.
Proof.
  intros Ht Htr Hin.
  assert (keeps (Recv k) s ∧ up = [] ∧ expected s m) as (Hk & -> & He).
  { revert Hin. rw /in_turn. cbn. destruct o.
    - intros (Hk & wt & _ & Hj). apply joint_expected in Hj as [-> He]. split; [exact (Hk _ Ht)|done].
    - intros [[=]|(Hk & m' & [= -> ->] & He)]. split; [exact (Hk _ Ht)|done]. }
  destruct s as [| | |q]; try done; cbn in Hk, He.
  - exists (Owes m). split; [by constructor|]. revert Hin. rw /in_turn. cbn. destruct o; [|by left].
    intros (_ & wt & Hw & Hj). split; [apply thread_keeps_set, Hk, He|]. inversion Hj; subst.
    eexists. split; [exact Hw|constructor].
  - exists Free. split; [by econstructor|]. revert Hin. rw /in_turn. cbn. destruct o; [|by left].
    intros (_ & wt & Hw & Hj). split; [apply thread_keeps_set, Hk|]. inversion Hj; subst.
    eexists. split; [exact Hw|constructor].
Qed.
Lemma send_in_turn w ts k m wk up down s tr :
  ts !! t = Some (Send m k) → spoken tr s →
  in_turn (Dialogue.mk (Coordinator.mk w ts) wk true up down) s →
  ∃ s', spoken (tr ++ [Said m]) s' ∧
    in_turn (Dialogue.mk (Coordinator.mk w (<[t := k true]> ts)) wk true up (down ++ [m])) s'.
Proof.
  intros Ht Htr (Hk & wt & Hw & Hj). cbn in Hk, Hw, Hj. specialize (Hk _ Ht).
  destruct s as [|q| |]; try done; destruct Hk as [Hm Hk].
  - exists (after q m). split; [by constructor|]. split; [by apply thread_keeps_set|]. exists wt. split; [exact Hw|].
    inversion Hj; subst; cbn; [by apply joint_replied|]. match goal with H : _ = after _ _ |- _ => revert H end.
    rw after_turns. by destruct (turns _ _).
  - exists (Awaits m). split; [by constructor|]. split; [by apply thread_keeps_set|]. exists wt. split; [exact Hw|].
    inversion Hj; subst; cbn; [|by constructor]. apply joint_ahead; [done| |done].
    match goal with H : _ = after _ _ |- _ => revert H end. rw after_turns. by destruct (turns _ _).
Qed.
Lemma worker_send_in_turn σ m k up down s :
  in_turn (Dialogue.mk σ (PSend m k) true up down) s →
  in_turn (Dialogue.mk σ (k true) true (up ++ [m]) down) s.
Proof.
  intros (Hk & wt & Hw & Hj). cbn in Hk, Hw, Hj. split; [exact Hk|]. cbn.
  destruct wt; try done; destruct Hw as [Hm Hw]; (eexists; split; [exact Hw|]); inversion Hj; subst; by constructor.
Qed.
Lemma worker_read_in_turn σ m k o up down s :
  in_turn (Dialogue.mk σ (PRecv k) o up (m :: down)) s →
  in_turn (Dialogue.mk σ (k (Some m)) o up down) s.
Proof.
  rw /in_turn. cbn. destruct o; [|done]. intros (Hk & wt & Hw & Hj). split; [exact Hk|].
  inversion Hj; subst; cbn in Hw; (eexists; split; [by apply Hw|]); rw ?/heard_back ?after_turns.
  - destruct (turns q m); constructor.
  - match goal with H1 : turns q m = true |- _ => rw H1 end. by constructor.
  - constructor.
Qed.

Lemma talk_in_turn d e d' s tr :
  talk t d e d' → spoken tr s → in_turn d s →
  ∃ s', spoken (tr ++ option_list e) s' ∧ in_turn d' s'.
Proof.
  intros Hstep Htr Hin.
  assert (in_turn d' s → ∃ s', spoken (tr ++ option_list None) s' ∧ in_turn d' s') as Hsame
    by (intros; exists s; by rw app_nil_r).
  destruct Hstep as [σ σ' p o up down Hsys Hts|w ts p w' p' wk o up down Ht Hoff Hps|Ord m w ts wk o up down Ht
    |k m w ts wk o up down Ht|k w ts wk up down Ht|m k w ts wk up down Ht|m k w ts wk up down Ht
    |σ m k up down|σ m k up down|σ m k o up down|σ k up down|σ op k b o up down|σ ph o up down|σ wk up down].
  - apply Hsame. revert Hin. apply in_turn_system. by rw /thread_keeps Hts.
  - apply Hsame. revert Hin. apply in_turn_system. intros Hk. apply thread_keeps_set.
    by eapply prog_step_keeps, Hk.
  - apply Hsame. revert Hin. apply in_turn_system. intros Hk. apply thread_keeps_set, keeps_resume. exact (Hk _ Ht).
  - by eapply read_in_turn.
  - apply Hsame. by left.
  - by eapply send_in_turn.
  - apply Hsame. revert Hin. rw /in_turn. cbn. intros [->|(Hk & m' & _ & He)]; [by left|].
    specialize (Hk _ Ht). by destruct s.
  - apply Hsame. by apply worker_send_in_turn.
  - apply Hsame. exact Hin.
  - apply Hsame. by eapply worker_read_in_turn.
  - apply Hsame. exact Hin.
  - apply Hsame. revert Hin. rw /in_turn. cbn. destruct o; [|done]. intros (Hk & wt & Hw & Hj). split; [done|].
    exists wt. split; [apply Hw|done].
  - apply Hsame. revert Hin. rw /in_turn. cbn. destruct o; [|done]. intros (Hk & wt & Hw & Hj). split; [done|].
    exists wt. split; [by apply obeys_next|done].
  - apply Hsame. destruct Hin as (Hk & wt & _ & Hj). cbn in Hk, Hj. destruct up as [|m up]; [by left|].
    apply joint_expected in Hj as [-> He]. right. split; [exact Hk|]. by exists m.
Qed.

(** C4. Commands and answers stay paired: take a coordinator in any state, a
    new connection of it, and a worker, whatever its backend, that serves in
    command mode (or serves no requests of its own); let every other thread of
    the coordinator go on, any timer expire and the connection break at any
    time. Then what the session's thread hears and says on that connection is
    always a conversation of the protocol: one reply to each of the worker's
    requests, all under epoch 0, then, once a COMMAND_READY is granted, commands
    each followed by the worker's own answer to that very command, with its
    cmd_id and epoch; though the coordinator compares neither, no answer is ever
    taken for another's. *)
Theorem commands_and_answers_paired o (b : S) σ tr d :
  o.(Opt.command_mode) = true ∨ (o.(Opt.serve) <= 0)%Z →
  σ.(Coordinator.threads) !! t = Some start_session →
  conversation t (Dialogue.mk σ (main o b) true [] []) tr d →
  ∃ s, spoken tr s.
Proof.
  intros Ho Ht Hconv. remember (Dialogue.mk _ _ _ _ _) as d0 eqn:Hd0.
  assert (∃ s, spoken tr s ∧ in_turn d s) as (s & Hs & _); [|by exists s].
  induction Hconv as [d0|d0 tr d1 e d2 _ IH Hstep]; subst.
  - exists Idle. split; [constructor|]. split.
    + intros p. cbn. rw Ht. intros [= <-]. apply keeps_start.
    + exists Asks. split; [by apply obeys_main|constructor].
  - destruct (IH eq_refl) as (s & Hs & Hin). by eapply talk_in_turn.
Qed.
End both.

(** The worker's requests pass the check for stale traffic, whatever the epoch
    of the coordinator has become. *)
Lemma requests_never_stale `{HashOrder} tr q sid k :
  spoken tr (Owes q) → handle sid k q = dispatch sid k q.
Proof.
  intros Hs. assert (q.(Msg.epoch) = 0) as He.
  { remember (Owes q) as s eqn:Hq. destruct Hs as [|tr q' Htr He|tr q' a Htr Ha| |]; try done.
    - by injection Hq as <-.
    - revert Hq. rw after_turns. by destruct (turns _ _). }
  by rw /handle He.
Qed.
