(* ===== verification/Deployment.v ===== *)
(** * A deployment

    The worker's process against the coordinator: a connection that keeps the
    order of frames between a session's thread and a worker, executed step by
    step; and a routed EXECUTE followed from the dispatcher to the backend and
    back. *)

From S2P Require Import Prelude Identities Enums Model Reference Codec Frame Payload Backend Worker Readiness.
From S2P Require Import Runtime Loading Transitions Scenario ServingUse Threads Routing Sessions System Commands Schedules.
From S2P Require Import Replies Dialogue.
Local Open Scope N_scope.

(** ** A connection

    [up] holds the frames the worker sent and the session has not read, [down]
    those of the other direction. *)

Module Link.
Record t (S : Type) := mk {
  coordinator : Coordinator.t;
  thread : N;
  worker : Proc (Phase (S := S));
  files : gmap string string;
  up : list ProtocolMessage.t;
  down : list ProtocolMessage.t;
}.
Arguments mk {S}.
Arguments coordinator {S}.
Arguments thread {S}.
Arguments worker {S}.
Arguments files {S}.
Arguments up {S}.
Arguments down {S}.
#[global] Instance eta S : Eta (t S) := fields! (@mk S) <coordinator; thread; worker; files; up; down>.
End Link.
Abbreviation Link := Link.t.

Section link.
Context {S : Type} `{ReferenceBackend S}.

(** The session's thread makes a step: it reads from [up] and sends to [down]. *)
Definition coordinator_step (l : Link S) : option (Link S) :=
  let go a := exec_thread l.(Link.thread) a l.(Link.coordinator) in
  match l.(Link.coordinator).(Coordinator.threads) !! l.(Link.thread) with
  | None | Some (Ret Finished) => None
  | Some (Recv _) =>
    match l.(Link.up) with
    | [] => None
    | m :: up => σ ← go (Message (Some m)); Some (l <| Link.coordinator := σ |> <| Link.up := up |>)
    end
  | Some (Send m _) => σ ← go Go; Some (l <| Link.coordinator := σ |> <| Link.down ::= λ d, d ++ [m] |>)
  | Some _ => σ ← go Go; Some (l <| Link.coordinator := σ |>)
  end.
(** The worker goes on while it can, and then the session. *)
Definition link_step (l : Link S) : option (Link S) :=
  match l.(Link.worker) with
  | PSend m k => Some (l <| Link.worker := k true |> <| Link.up ::= λ u, u ++ [m] |>)
  | PFile op k =>
    let '(b, env) := do_file op {| WEnv.inbox := []; WEnv.sent := []; WEnv.files := l.(Link.files) |} in
    Some (l <| Link.worker := k b |> <| Link.files := env.(WEnv.files) |>)
  | PRecv k =>
    match l.(Link.down) with
    | m :: down => Some (l <| Link.worker := k (Some m) |> <| Link.down := down |>)
    | [] => coordinator_step l
    end
  | PRet (Commanded o inc_id outcome activation lp c b) =>
    Some (l <| Link.worker := next_phase (Commanded o inc_id outcome activation lp c b) |>)
  | _ => coordinator_step l
  end.
Fixpoint run_link (fuel : nat) (l : Link S) : Link S :=
  match fuel with
  | O => l
  | Datatypes.S fuel => match link_step l with Some l => run_link fuel l | None => l end
  end.
End link.

Definition started (o : Options) : Link CpuReferenceBackend := {|
  Link.coordinator := connect 0 demo_boot; Link.thread := 0; Link.worker := main o Cpu.make;
  Link.files := ∅; Link.up := []; Link.down := [];
|}.
Definition active_after (o : Options) : N :=
  (run_link (Z.to_nat 2000) (started o)).(Link.coordinator).(Coordinator.shared).(Shared.runtime).(Impl.active_use_count).
Definition finished_with (o : Options) : Phase (S := CpuReferenceBackend) :=
  match (run_link (Z.to_nat 2000) (started o)).(Link.worker) with PRet p => p | _ => Exited 99 end.
Definition serving (n : Z) : Options := Options.default <| Opt.serve := n |>.

Lemma serving_leaks :
  active_after <$> (serving <$> [1; 2; 3; 4]%Z) = [0; 1; 2; 2].
Proof. vm_compute. reflexivity. Qed.

(** ** A routed EXECUTE, to the backend and back *)

(** The frame the dispatcher forwards. *)
Definition execute_fields (cmd : WorkerCommand) : Fields :=
  let p := cmd.(Cmd.params) in
  fields_of
    [("cmd_id", to_string cmd.(Cmd.command_id)); ("seed", get p "seed" "42");
     ("batch", get p "batch" "1"); ("seq_len", get p "seq_len" "16");
     ("hold_iters", get p "hold_iters" "0"); ("marker", get p "marker" "");
     ("hold_barrier", get p "hold_barrier" "")].
Definition execute_frame (cmd : WorkerCommand) : ProtocolMessage :=
  {| Msg.type := MessageType.EXECUTE; Msg.epoch := cmd.(Cmd.epoch); Msg.authority := cmd.(Cmd.authority);
     Msg.payload := make_payload (execute_fields cmd) |}.

Lemma clean_execute_fields cmd : clean cmd.(Cmd.params) → clean (execute_fields cmd).
Proof.
  intros Hp. apply clean_list.
  assert (∀ s, bool_decide (newline ∉ chars s) = true → newline ∉ chars s) as Hs
    by (intros s; apply bool_decide_eq_true_1).
  repeat apply Forall_cons_2; [..|apply Forall_nil_2]; (apply plain_key; [vm_compute; reflexivity|]);
    cbn [snd]; try apply clean_to_string; (apply clean_get; [done|]); apply Hs; vm_compute; reflexivity.
Qed.

(** What a worker with the backend [b] sends back for one frame. *)
Definition worker_answer {S} `{ReferenceBackend S} (inc_id : N) (b : S) (frame : ProtocolMessage)
    : list ProtocolMessage :=
  (solo (command_round inc_id "NA" Conn.start b)
     {| WEnv.inbox := [frame]; WEnv.sent := []; WEnv.files := ∅ |}).2.(WEnv.sent).

Lemma worker_answers_execute {S} `{Faithful S} inc_id b cmd :
  clean cmd.(Cmd.params) → Backend.usable (asked_input (execute_fields cmd)) b →
  ∃ detail, (newline ∉ chars detail) ∧
    worker_answer inc_id b (execute_frame cmd) =
      [worker_frame cmd.(Cmd.epoch) MessageType.EXECUTION_RESULT
         (execution_result (execute_fields cmd) true detail)].
Proof.
  intros Hp Hb. destruct (asked_runs_faithful _ _ Hb) as (result & b' & Hruns & _ & Hline).
  exists result.(Out.detail). split; [exact Hline|].
  pose proof (command_round_answers inc_id "NA" Conn.start b (execute_frame cmd) []
    {| WEnv.inbox := [execute_frame cmd]; WEnv.sent := []; WEnv.files := ∅ |} eq_refl) as Hround.
  revert Hround. rw /worker_answer /yields. destruct (solo _ _) as [[r|e] env']; [|done].
  rw /answer_to. change (Msg.type (execute_frame cmd)) with MessageType.EXECUTE. cbv iota.
  change (Msg.payload (execute_frame cmd)) with (make_payload (execute_fields cmd)).
  rw parse_make; [|by apply clean_execute_fields]. rw Hruns. cbn [snd]. by intros (_ & _ & ->).
Qed.

(** C8. A routed EXECUTE reaches the backend and back: from any state that
    operations of the runtime, and a load among their first million, reach, and
    where the command is current, its incarnation open and a
    use of it admitted, when the worker at the other end runs any backend that
    keeps its promise, the dispatcher sends one frame, the worker's single
    answer to that very frame resolves the command's promise with success, its
    cmd_id, and passed parity, and the use admitted for it is closed with the
    books as before. *)
Theorem routed_execute_completes {S} `{Faithful S} `{HashOrder} n r cmd env tok s1 inc_id (b : S) :
  let s := env.(Env.shared).(Shared.runtime) in
  let router := router_at r env.(Env.shared) in
  reachable created n s → n + 2 < 2 ^ 64 →
  cmd.(Cmd.type) = MessageType.EXECUTE → clean cmd.(Cmd.params) → cmd.(Cmd.command_id) < 2 ^ 64 →
  epoch_is_stale cmd.(Cmd.epoch) s = false → authority_is_stale cmd.(Cmd.authority) s = false →
  is_shut router.(Router.inc) s = false →
  EngineResidency.acquire_serving_use
    (use_request router.(Router.inc) router.(Router.engine_id) cmd.(Cmd.params)) "coordinator" s = (Ok tok, s1) →
  env.(Env.shared).(Shared.replies) !! cmd.(Cmd.promise) = None →
  Backend.usable (asked_input (execute_fields cmd)) b →
  env.(Env.links) = [] → env.(Env.inbox) = worker_answer inc_id b (execute_frame cmd) →
  ends (process r cmd)
    (λ _ env',
       env'.(Env.sent) = env.(Env.sent) ++ [execute_frame cmd] ∧
       (∃ rep, env'.(Env.shared).(Shared.replies) !! cmd.(Cmd.promise) = Some rep ∧
          rep.(Rep.ok) = true ∧ rep.(Rep.fields) !! "cmd_id" = Some (to_string cmd.(Cmd.command_id)) ∧
          rep.(Rep.fields) !! "parity" = Some "ok") ∧
       books_kept s env'.(Env.shared).(Shared.runtime) ∧
       use_closed tok.(Tok.use_id) env'.(Env.shared).(Shared.runtime))
    (λ _ _, False) env.
Proof.
  intros s router Hr Hn Htype Hclean Hid He Ha Hopen Hacq Hrep Husable Hlinks Hinbox.
  destruct (worker_answers_execute inc_id b cmd Hclean Husable) as (detail & Hline & Hanswer).
  rw Hanswer in Hinbox. clear Hanswer.
  apply ends_bind, ends_read. fold router. apply ends_bind, ends_check_cycle. fold s.
  intros [err|]; rw He Ha; [done|intros _]. rw Htype /process_execute.
  apply ends_bind, ends_fenced_or_drained. fold s. rw Hopen.
  apply ends_bind, ends_try_domain, ends_bind, ends_rt. fold s. rw /wp Hacq. apply ends_ret.
  apply ends_bind, ends_send_ok; [exact Hlinks|]. intros env1 Hw1 Hi1 Hsent1. cbn [negb].
  apply ends_bind, ends_recv. rw Hi1. change (Env.inbox (env <| Env.shared ::= _ |>)) with (Env.inbox env).
  rw Hinbox. cbn [head].
  apply ends_bind, ends_try_all, ends_rt.
  change (Env.shared (env1 <| Env.inbox ::= tail |>)) with (Env.shared env1). rw Hw1.
  change (Shared.runtime (Env.shared (env <| Env.shared ::= λ w, w <| Shared.runtime := s1 |> |>))) with s1.
  set (wanted := use_request _ _ _) in Hacq.
  set (token := ServingUseToken.default <| Tok.use_id := tok.(Tok.use_id) |>
         <| Tok.incarnation_id := router.(Router.inc) |> <| Tok.incarnation_generation := mkGen 1 |>).
  set (outcome := if _ : bool then _ else _). set (what := if _ : bool then _ else _).
  destruct (acquire_then_release n s wanted "coordinator" tok s1 token outcome what Hr Hn Hacq)
    as (s2 & Hs2 & Hcount & Hkept & Hclosed); [done..|].
  rw /wp Hs2. change (parse_payload _) with (parse_payload (make_payload (execution_result (execute_fields cmd) true detail))).
  rw parse_make; [|by apply clean_execution_result].
  apply ends_fulfill. intros env3 Hw3 _ Hset Hs3. split; [|split; [|split]].
  - rw Hs3. cbn. by rw Hsent1 /forward Htype.
  - exists (CommandReply.default <| Rep.ok := true |> <| Rep.fields := execution_result (execute_fields cmd) true detail |>
      <| Rep.detail := detail |>).
    split; [|split; [done|split; [|done]]].
    + rw Hset /set_value. cbn. rw Hw1 /= Hrep /=. apply lookup_insert_eq.
    + cbn. by rw (u_to_string (execute_fields cmd) "cmd_id" cmd.(Cmd.command_id) 0).
  - rw Hw3. exact (conj Hcount Hkept).
  - rw Hw3. exact Hclosed.
Qed.

(** ** Counted sends are sends

    What [counts] says of a handler holds of the frames it sends when it runs
    alone: none is read, and so many are added. *)
Lemma counts_alone {A} (p : Prog A) Q X n env :
  counts p Q X n →
  ∃ k, length (alone p env).2.(Env.sent) = (length env.(Env.sent) + k)%nat ∧
    (alone p env).2.(Env.inbox) = env.(Env.inbox) ∧
    match (alone p env).1 with Ok a => Q (n + k)%nat a | Throw e => X (n + k)%nat e end.
Proof.
  revert n env. induction p as [a|e|B m k IH|k IH|msg k IH|pr k IH|r k IH|path blob k IH]; intros n env;
    cbn [counts alone]; intros Hp; try done; try (exists 0%nat; rw !Nat.add_0_r; done).
  - specialize (Hp env.(Env.shared)). destruct (m _) as [o w]. exact (IH o n (env <| Env.shared := w |>) Hp).
  - rw /take_link. specialize (Hp (default true (head env.(Env.links)))).
    destruct (IH _ _ (env <| Env.sent ::= λ l, l ++ [msg] |> <| Env.links ::= tail |>) Hp) as (j & Hl & Hi & Hq).
    exists (Datatypes.S j). split; [|split].
    + rw Hl /= length_app /=. lia.
    + exact Hi.
    + revert Hq. by rw Nat.add_succ_r.
  - apply IH, Hp.
  - apply IH, Hp.
Qed.

(** ** Every linked run is a run of the coordinator *)

Lemma link_step_sound {S} `{ReferenceBackend S} (l l' : Link S) :
  link_step l = Some l' →
  l'.(Link.coordinator) = l.(Link.coordinator) ∨ sys_step l.(Link.coordinator) l'.(Link.coordinator).
Proof.
  assert (∀ a (f : Link S → Link S), (∀ x, (f x).(Link.coordinator) = x.(Link.coordinator)) →
    (σ ← exec_thread l.(Link.thread) a l.(Link.coordinator); Some (f (l <| Link.coordinator := σ |>))) = Some l' →
    sys_step l.(Link.coordinator) l'.(Link.coordinator)) as Hgo.
  { intros a f Hf. destruct (exec_thread _ a _) as [σ|] eqn:He; [|done]. intros [= <-].
    rw Hf. by eapply exec_thread_sound. }
  assert (coordinator_step l = Some l' → sys_step l.(Link.coordinator) l'.(Link.coordinator)) as Hstep.
  { rw /coordinator_step. destruct (_ !! _) as [[[]| |B m k|k|msg k|p k|r k|path blob k]|]; try done;
      try apply (Hgo Go id); try done.
    - destruct (Link.up l) as [|m up]; [done|]. by apply (Hgo _ (λ x, x <| Link.up := up |>)).
    - by apply (Hgo _ (λ x, x <| Link.down ::= λ d, d ++ [msg] |>)). }
  rw /link_step. destruct (Link.worker l) as [[]| |m k|k|op k]; auto.
  - intros [= <-]. by left.
  - intros [= <-]. by left.
  - destruct (Link.down l); [auto|]. intros [= <-]. by left.
  - destruct (do_file _ _). intros [= <-]. by left.
Qed.
Lemma run_link_reachable {S} `{ReferenceBackend S} fuel : ∀ n (l : Link S),
  run_within n l.(Link.coordinator) → n + N.of_nat fuel + 2 < 2 ^ 64 →
  run_within (n + N.of_nat fuel) (run_link fuel l).(Link.coordinator).
Proof.
  induction fuel as [|fuel IH]; intros n l (m & Hm & Hr) Hn; [exists m; split; [lia|done]|].
  cbn [run_link]. destruct (link_step l) as [l'|] eqn:Hl; [|exists m; split; [lia|done]].
  replace (n + N.of_nat (Datatypes.S fuel)) with ((n + 1) + N.of_nat fuel) by lia. apply IH; [|lia].
  apply link_step_sound in Hl as [->|Hstep]; [exists m; split; [lia|done]|].
  exists (m + 1). split; [lia|]. by eapply sys_more; [done|lia|].
Qed.

(** ** Every linked run is a conversation *)

Section conversations.
Context {S : Type} `{ReferenceBackend S}.

Definition dialogue_of (l : Link S) : Dialogue S :=
  Dialogue.mk l.(Link.coordinator) l.(Link.worker) true l.(Link.up) l.(Link.down).
(** What the session's thread hears or says in the next step. *)
Definition coordinator_event (l : Link S) : option Event :=
  match l.(Link.coordinator).(Coordinator.threads) !! l.(Link.thread) with
  | Some (Recv _) => Heard <$> head l.(Link.up)
  | Some (Send m _) => Some (Said m)
  | _ => None
  end.
Definition link_event (l : Link S) : option Event :=
  match l.(Link.worker) with
  | PSend _ _ | PFile _ _ | PRet (Commanded _ _ _ _ _ _ _) => None
  | PRecv _ => match l.(Link.down) with [] => coordinator_event l | _ => None end
  | _ => coordinator_event l
  end.
Fixpoint link_events (fuel : nat) (l : Link S) : list Event :=
  match fuel with
  | O => []
  | Datatypes.S fuel =>
    match link_step l with Some l' => option_list (link_event l) ++ link_events fuel l' | None => [] end
  end.

Lemma coordinator_step_talks l l' :
  coordinator_step l = Some l' →
  talk l.(Link.thread) (dialogue_of l) (coordinator_event l) (dialogue_of l') ∧ l'.(Link.thread) = l.(Link.thread).
Proof.
  destruct l as [[w ts] t wk files up down]. rw /coordinator_step /coordinator_event /exec_thread /dialogue_of.
  cbn [Link.coordinator Coordinator.threads Link.thread Link.up Coordinator.shared].
  destruct (ts !! t) as [p|] eqn:Ht; [|done].
  destruct p as [m|e|B m k|k|m k|p k|r k|path blob k]; cbn [exec_prog].
  - destruct m as [sid k|sid k r|]; try done; intros [= <-]; (split; [|done]).
    + by apply (talk_loop t map_to_list_order (AtSession sid k)).
    + by apply (talk_loop t map_to_list_order (AtDispatcher sid k r)).
  - done.
  - destruct (m w) as [o w'] eqn:Hm. intros [= <-]. split; [|done]. eapply talk_act; [done|done|by constructor].
  - destruct up as [|m up]; [done|]. intros [= <-]. split; [by eapply talk_read|done].
  - intros [= <-]. split; [by eapply talk_send|done].
  - destruct (_ !! p) as [rep|] eqn:Hrep; [|done]. intros [= <-]. split; [|done].
    eapply talk_act; [done|done|by constructor].
  - destruct (Router.queue _) as [|cmd q] eqn:Hq.
    + destruct (Router.alive _) eqn:Ha; [done|]. intros [= <-]. split; [|done].
      eapply talk_act; [done|done|by constructor].
    + intros [= <-]. split; [|done]. eapply talk_act; [done|done|by constructor].
  - intros [= <-]. split; [|done]. eapply talk_act; [done|done|constructor].
Qed.
Lemma link_step_talks l l' :
  link_step l = Some l' →
  talk l.(Link.thread) (dialogue_of l) (link_event l) (dialogue_of l') ∧ l'.(Link.thread) = l.(Link.thread).
Proof.
  rw /link_step /link_event. pose proof (coordinator_step_talks l l') as Hc.
  destruct l as [σ t wk files up down]. rw /dialogue_of in Hc |- *.
  cbn [Link.coordinator Link.worker Link.thread Link.up Link.down Link.files] in Hc |- *.
  destruct wk as [[o inc_id oc act lp c b|b|n]|e|m k|k|op k]; auto.
  - intros [= <-]. split; [|done]. exact (worker_loop t σ (Commanded o inc_id oc act lp c b) true up down).
  - intros [= <-]. split; [|done]. exact (worker_send t σ m k up down).
  - destruct down as [|m down]; [auto|]. intros [= <-]. split; [|done]. exact (worker_read t σ m k true up down).
  - destruct (do_file _ _) as [r env]. intros [= <-]. split; [|done]. exact (worker_file t σ op k r true up down).
Qed.
Lemma run_link_converses d0 tr fuel l :
  conversation l.(Link.thread) d0 tr (dialogue_of l) →
  conversation l.(Link.thread) d0 (tr ++ link_events fuel l) (dialogue_of (run_link fuel l)).
Proof.
  revert tr l. induction fuel as [|fuel IH]; intros tr l Hc; cbn [run_link link_events]; [by rw app_nil_r|].
  destruct (link_step l) as [l'|] eqn:Hl; [|by rw app_nil_r].
  apply link_step_talks in Hl as [Htalk Ht]. rw app_assoc -Ht. apply IH. rw Ht. by eapply conv_more.
Qed.

Lemma run_link_from fuel l :
  conversation l.(Link.thread) (dialogue_of l) (link_events fuel l) (dialogue_of (run_link fuel l)).
Proof. apply (run_link_converses _ []), conv_nothing. Qed.

(** What another thread does meanwhile. *)
Lemma step_elsewhere t d0 tr (l : Link S) σ σ' :
  sys_step σ σ' → σ'.(Coordinator.threads) !! t = σ.(Coordinator.threads) !! t →
  conversation t d0 tr (dialogue_of (l <| Link.coordinator := σ |>)) →
  conversation t d0 tr (dialogue_of (l <| Link.coordinator := σ' |>)).
Proof.
  intros Hs Ht Hc. rw -(app_nil_r tr). eapply (conv_more _ _ _ _ None); [exact Hc|]. by apply talk_elsewhere.
Qed.
Lemma settle_elsewhere fuel t t' d0 tr (l : Link S) σ :
  t ≠ t' → conversation t d0 tr (dialogue_of (l <| Link.coordinator := σ |>)) →
  conversation t d0 tr (dialogue_of (l <| Link.coordinator := settle fuel t' σ |>)).
Proof.
  intros Hne. revert σ. induction fuel as [|fuel IH]; intros σ Hc; [done|]. cbn [settle].
  destruct (exec_thread t' Go σ) as [σ'|] eqn:He; [|done]. apply IH.
  eapply step_elsewhere; [by eapply exec_thread_sound|by eapply exec_thread_elsewhere|done].
Qed.
Lemma join_elsewhere fuel t t' d0 tr (l : Link S) σ :
  t ≠ t' → conversation t d0 tr (dialogue_of (l <| Link.coordinator := σ |>)) →
  conversation t d0 tr (dialogue_of (l <| Link.coordinator := join fuel t' σ |>)).
Proof.
  intros Hne Hc. rw /join /connect. destruct (Coordinator.threads σ !! t') eqn:Ht; [by apply settle_elsewhere|].
  apply settle_elsewhere; [done|]. destruct σ as [w ts].
  eapply step_elsewhere; [by constructor| |done]. cbn. by rw lookup_insert_ne.
Qed.
Lemma deliver_elsewhere fuel t t' msg d0 tr (l : Link S) σ :
  t ≠ t' → conversation t d0 tr (dialogue_of (l <| Link.coordinator := σ |>)) →
  conversation t d0 tr (dialogue_of (l <| Link.coordinator := deliver fuel t' msg σ |>)).
Proof.
  intros Hne Hc. rw /deliver. destruct (exec_thread t' _ σ) as [σ'|] eqn:He; [|done].
  apply settle_elsewhere; [done|].
  eapply step_elsewhere; [by eapply exec_thread_sound|by eapply exec_thread_elsewhere|done].
Qed.
End conversations.

(** ** Witnesses *)

Definition demo_execute : WorkerCommand := demo_command MessageType.EXECUTE.
Definition demo_wanted : ServingUseToken := use_request (mkId 2) (mkId 1) ∅.
Definition demo_acquired := EngineResidency.acquire_serving_use demo_wanted "coordinator" demo_ready.
Definition demo_token : ServingUseToken :=
  match demo_acquired.1 with Ok tok => tok | Throw _ => demo_wanted end.
Lemma demo_acquires : demo_acquired = (Ok demo_token, demo_acquired.2).
Proof.
  rw /demo_token. assert (match demo_acquired.1 with Ok _ => true | Throw _ => false end = true) as H
    by (vm_compute; reflexivity).
  destruct demo_acquired as [[tok|e] s]; [done|discriminate H].
Qed.

Lemma routed_execute_completes_witness :
  let env := demo_env demo_ready (worker_answer 2 Cpu.make (execute_frame demo_execute)) in
  length env.(Env.inbox) = 1%nat ∧
  ∃ a env', alone (process 0 demo_execute) env = (Ok a, env') ∧ 
    ∃ rep, env'.(Env.shared).(Shared.replies) !! 0 = Some rep ∧ rep.(Rep.fields) !! "parity" = Some "ok".
Proof.
  intros env. split; [vm_compute; reflexivity|].
  destruct (ends_run _ _ _ (routed_execute_completes 12 0 demo_execute env demo_token demo_acquired.2 2 Cpu.make
    demo_ready_reachable ltac:(vm_compute; reflexivity) eq_refl (map_Forall_empty _)
    ltac:(vm_compute; reflexivity) ltac:(vm_compute; reflexivity) ltac:(vm_compute; reflexivity)
    ltac:(vm_compute; reflexivity) demo_acquires eq_refl I eq_refl eq_refl))
    as (a & env' & Hrun & _ & (rep & Hrep & _ & _ & Hparity) & _).
  exists a, env'. split; [exact Hrun|]. exists rep. split; [exact Hrep|exact Hparity].
Defined.

(** Four answers for two requests: the second request releases the use named
    by the answer to the first one's release. *)
Definition answers : list ProtocolMessage :=
  [request MessageType.REGISTER_ACK [("ok", "true"); ("use_id", "7")];
   request MessageType.REGISTER_ACK [("ok", "true")]; request MessageType.REGISTER_ACK [("ok", "true")];
   request MessageType.REGISTER_ACK [("ok", "true"); ("use_id", "8")]].
Definition answered_env : WorkerEnv := {| WEnv.inbox := answers; WEnv.sent := []; WEnv.files := ∅ |}.

Lemma served_requests_fall_behind_witness :
  yields (serve_requests Options.default 2 0 Conn.start Cpu.make) (λ _ env',
    sends_at answered_env env' 3 MessageType.ACQUIRE_USE (acquire_fields Options.default) ∧
    sends_at answered_env env' 5 MessageType.RELEASE_USE (release_fields 0)) answered_env.
Proof.
  eapply proc_mono; [|apply (served_requests_fall_behind Options.default 2 0 Conn.start Cpu.make answered_env);
    vm_compute; lia].
  intros r env' (_ & _ & _ & Hall). destruct (Hall 1%nat ltac:(lia)) as (m & Hm & Ha & Hr).
  split; [exact Ha|]. injection Hm as <-. exact Hr.
Defined.

(** ** A backend that fails

    Nothing is ever prepared, bound or computed, and no parity check passes. *)
Definition broken_backend : ReferenceBackend () := {|
  backend_name := "broken"; is_cuda := false;
  Backend.discover := λ _, mret BackendDiscovery.default;
  Backend.prepare := λ _ _ _ b, (false, b); Backend.bind_kernel := λ _ b, (false, b);
  Backend.instantiate_graph := λ _ b, (false, b);
  Backend.warmup := λ _ _ b, (ComputeResult.default, b); Backend.execute := λ _ b, (ComputeResult.default, b);
  Backend.verify_parity := λ _ _, false; Backend.release := id;
|}.
Definition broken_worker (o : Options) : Link () := {|
  Link.coordinator := connect 0 demo_boot; Link.thread := 0;
  Link.worker := main (H := broken_backend) o ();
  Link.files := ∅; Link.up := []; Link.down := [];
|}.
(** The worker looks at none of the results of its preparation, and at none of
    the parities it served with: it still becomes READY and ACTIVE, and its
    result file says that parity was OK. *)
Example broken_worker_serves :
  let l := run_link (H := broken_backend) (Z.to_nat 2000) 
    (broken_worker ((serving 1) <| Opt.result_file := "result" |>)) in
  l.(Link.files) !! "result" = Some
    ("worker=1 incarnation=2 readiness=READY activation=ACTIVE parity=OK detail=|missing=" +:+
     end_of_line +:+ "outcome=READY" +:+ end_of_line +:+ "|" +:+ end_of_line).
Proof. vm_compute. reflexivity. Qed.

(** ** A conversation, executed *)

(** A worker in command mode comes up on its connection; a controller on another
    one asks for an execution and then a drain; the worker answers. *)
Definition commanded : Options := Options.default <| Opt.command_mode := true |>.
Definition came_up : Link CpuReferenceBackend := run_link (Z.to_nat 2000) (started commanded).
Definition order (ty : MessageType) (id : string) (l : Link CpuReferenceBackend) : Link CpuReferenceBackend :=
  l <| Link.coordinator ::= λ σ,
    deliver 30 1 (request ty [("target_incarnation", "2"); ("cmd_id", id)]) (join 30 1 σ) |>.
Definition executed : Link CpuReferenceBackend := run_link (Z.to_nat 300) (order MessageType.EXECUTE "9" came_up).
Definition drained : Link CpuReferenceBackend := run_link (Z.to_nat 300) (order MessageType.DRAIN "10" executed).
Definition demo_events : list Event :=
  link_events (Z.to_nat 2000) (started commanded)
  ++ link_events (Z.to_nat 300) (order MessageType.EXECUTE "9" came_up)
  ++ link_events (Z.to_nat 300) (order MessageType.DRAIN "10" executed).

Lemma order_elsewhere ty id d0 tr l :
  conversation 0 d0 tr (dialogue_of l) → conversation 0 d0 tr (dialogue_of (order ty id l)).
Proof.
  intros Hc. apply (deliver_elsewhere 30 0 1 _ d0 tr l); [done|]. apply join_elsewhere; [done|].
  by destruct l.
Qed.
Lemma run_link_thread {S} `{ReferenceBackend S} fuel (l : Link S) :
  (run_link fuel l).(Link.thread) = l.(Link.thread).
Proof.
  revert l. induction fuel as [|fuel IH]; intros l; [done|]. cbn [run_link].
  destruct (link_step l) as [l'|] eqn:Hl; [|done]. apply link_step_talks in Hl as [_ Ht]. by rw IH Ht.
Qed.
Lemma demo_conversation : conversation 0 (dialogue_of (started commanded)) demo_events (dialogue_of drained).
Proof.
  assert (∀ fuel ty id tr (l : Link CpuReferenceBackend), l.(Link.thread) = 0 →
    conversation 0 (dialogue_of (started commanded)) tr (dialogue_of l) →
    conversation 0 (dialogue_of (started commanded)) (tr ++ link_events fuel (order ty id l))
      (dialogue_of (run_link fuel (order ty id l)))) as Horder.
  { intros fuel ty id tr l Hl Hc.
    assert ((order ty id l).(Link.thread) = 0) as Ht by exact Hl.
    pose proof (run_link_converses (dialogue_of (started commanded)) tr fuel (order ty id l)) as Hrun.
    rw Ht in Hrun. by apply Hrun, order_elsewhere. }
  rw /demo_events /drained /executed /came_up app_assoc.
  apply Horder; [apply run_link_thread|]. apply Horder; [apply run_link_thread|].
  exact (run_link_from (Z.to_nat 2000) (started commanded)).
Qed.

Definition kind_of (e : Event) : bool * MessageType * option string :=
  match e with
  | Heard m => (true, m.(Msg.type), parse_payload m.(Msg.payload) !! "cmd_id")
  | Said m => (false, m.(Msg.type), parse_payload m.(Msg.payload) !! "cmd_id")
  end.
Lemma commands_and_answers_paired_witness :
  kind_of <$> drop 24 demo_events =
    [(true, MessageType.COMMAND_READY, None); (false, MessageType.REGISTER_ACK, None);
     (false, MessageType.EXECUTE, Some "9"); (true, MessageType.EXECUTION_RESULT, Some "9");
     (false, MessageType.DRAIN, Some "10"); (true, MessageType.DRAIN_RESULT, Some "10")] ∧
  ∃ s, spoken demo_events s.
Proof.
  split; [vm_compute; reflexivity|].
  apply (commands_and_answers_paired 0 commanded Cpu.make (connect 0 demo_boot) demo_events (dialogue_of drained)).
  - by left.
  - reflexivity.
  - exact demo_conversation.
Defined.
